(* ===== verification/_CoqProject ===== *)
-Q . S2P
Prelude.v
Float64.v
GoSort.v
Strconv.v
K8s.v
K8sModel.v
ResourceUtil.v
ElasticQuota.v
Preemption.v
CapacityScheduling.v
QuotaAdmission.v
QuotaLedger.v
PreemptionToleration.v
QuotaPreemption.v
PostFilter.v
NetworkAware.v
NetworkOverhead.v
QosSort.v
ScoreNorm.v
NodeConfig.v
Stringify.v
NrtCache.v
OverReserve.v
NrtWatcher.v
NumaFilter.v
NumaAdmission.v
NumaRuns.v
Rescheduler.v
ReschedController.v
ReschedRuns.v
LeastNuma.v
NumaScore.v
SySched.v
PodGroupController.v
QuotaController.v
QuotaAgreement.v
Trimaran.v
LoadVariation.v
LoadPacking.v
Peaks.v
Overcommit.v
Config.v
Exporter.v
PluginSetup.v
InformerFactory.v
GoHeap.v
NumaNodes.v
ApiTypes.v
DeepCopy.v
Conversion.v
