(* ===== verification/Prelude.v ===== *)
(** * Scheduler plugins: a verification development

    The repository holds out-of-tree plugins of the Kubernetes scheduler and
    the controllers of their custom resources.  Each plugin is a Go object
    whose methods the scheduling framework calls for a pod ([PreFilter],
    [Filter], [Score], [Reserve], ...) and whose caches the informers of the API
    server keep up to date through callbacks.  This library translates the
    plugins and controllers into executable Rocq functions and proves what they
    promise.  All paths below are relative to src/pkg, unless they start with
    apis or cmd.

    ** Files

    Shared by all components:
    - Prelude: this header, tactics and hint databases ([go], [go_rw]), integers
      of a given width ([wrap64], [wrap32]), the iteration order of a Go map
      (class [MapOrder]) and generic lemmas on lists, folds and maps;
    - Float64: rounding to 53 or 24 bits and the float operations;
    - GoSort: package sort, as a class with its documented contract;
    - Strconv: the functions of strconv, strings and path that are used;
    - K8s: the Kubernetes objects and library functions the code relies on,
      as records and as classes with their documented laws;
    - K8sModel: one concrete instance of these classes, on which the witnesses
      evaluate.

    Components (each operation has the name of its Go function):
    - ResourceUtil: util/resource.go, util/podgroup.go;
    - ElasticQuota, CapacityScheduling: capacityscheduling/elasticquota.go and
      capacity_scheduling.go.  The plugin's state is the map of quotas; the type
      [CapacityScheduling.event] lists the callbacks and the Reserve calls that
      change it, and [CapacityScheduling.handle] is one of them.  QuotaAdmission
      puts PreFilter, Reserve and the callbacks together to runs of the
      scheduler; QuotaLedger has New with the informer handlers it registers, and
      the abstract ledger of bound and reserved pods that the plugin implements;
    - Preemption: the closures both preemption plugins share;
    - PreemptionToleration: preemptiontoleration; QuotaPreemption follows the dry
      run of capacityscheduling to its end; PostFilter has the PostFilter method
      of both plugins, which give themselves to the evaluator of the scheduler
      (the interface is the class [Evaluator], its contract [EvaluatorSpec]);
    - NetworkAware, NetworkOverhead: networkaware/util,
      networkaware/topologicalsort, networkaware/networkoverhead;
    - QosSort: qos; ScoreNorm: podstate and noderesources;
    - NodeConfig, NrtCache, OverReserve: noderesourcetopology/nodeconfig,
      resourcerequests, podprovider, and cache with its three implementations.
      NrtCache is also the interface: the class of a cache and the contract
      ([NrtCacheSpec]) against which the filter is proved, and which the
      three caches satisfy; NrtWatcher has the loop of cache/attr_watch.go and
      lets it interleave with the cache; Stringify: noderesourcetopology/stringify;
    - NumaFilter: noderesourcetopology/filter.go, numaresources.go,
      pluginhelpers.go, reserve.go and postbind.go; NumaAdmission
      composes it with OverReserve, and NumaRuns puts the filter, Reserve and
      all operations of the cache together to runs of the scheduler;
    - NumaScore, LeastNuma: noderesourcetopology/score.go with its four
      strategies; NumaNodes: the copies and the comparison of NUMA nodes;
    - Rescheduler, ReschedController: rescheduler/rescheduler.go and
      controller.go; ReschedRuns has New, with the decoding of the arguments,
      and runs of the controller from New to Stop;
    - SySched: sysched;
    - PodGroupController, QuotaController: controllers; QuotaAgreement compares
      what the quota controller reports with what capacityscheduling counts;
    - Trimaran (handler.go, collector.go, resourcestats.go), LoadVariation,
      LoadPacking, Peaks, Overcommit: trimaran;
    - Config: apis/config, that is v1/defaults.go, v1/conversion.go and
      validation; PluginSetup: how a configuration becomes a plugin
      (noderesourcetopology/plugin.go, pluginhelpers.go, podprovider, the globals of
      cache/foreign_pods.go, and noderesources);
    - Exporter: monitoring/exporters, the program that publishes the metrics of
      the rescheduler;
    - GoHeap: a memory with pointers and the monad of operations on it; ApiTypes,
      DeepCopy, Conversion: the structs of apis/config, apis/config/v1 and
      apis/scheduling/v1alpha1, their generated deep copies and the conversions
      between the two versions, on that memory;
    - InformerFactory: the shared informer factory of
      generated/informers/externalversions, as critical sections and goroutines
      that interleave.

    ** How the code is represented

    - An int64 or int32 is an integer with the wrap-around written out where a
      sum or product can leave the range; an int that counts elements of a slice
      is a plain integer.
    - A pointer or map that the code tests for nil is an [option]; a nil
      dereference, an index out of range, a failed type assertion or a write to a
      nil map is a panic, which a definition that can reach one returns ([None] or
      a constructor of its own, as its comment says).
    - A map is a [gmap].  A loop over a map visits the entries in the order the
      class [MapOrder] gives, about which only that it is a permutation is
      known, so a theorem about such a loop holds for every order.
    - A mutated object is threaded through.  Where pointers alias (the node
      stores of the caches, the quota snapshot of a scheduling cycle), the comment
      of the file says how the model accounts for it.  Where sharing is what the
      code is about (deep copies, conversions) the objects live in the memory of GoHeap.
    - A float is the rational it denotes; each operation rounds the exact result
      to nearest, ties to even.  Overflow, subnormals and fused operations are not
      represented.  Where the code can meet an infinity or a value that is not a
      number, the definition has a case for it.
    - Log messages, metrics and the text of events are left out; the text of a
      status is kept where a caller reads it.
    - A component with a lock is a sequence of its critical sections.  The
      resynchronisation of OverReserve takes its lock twice and is split there
      ([OverReserve.step]), so its theorems cover what happens in between.

    ** Third-party code

    What is not under src is a parameter, nearly always a class: [QuantityOps],
    [FrameworkOps], [NodeInfoOps], [InformerOps] and [LabelSelectorOps] (Kubernetes libraries),
    [QuotaListOps], [RequestQuantity], [ParseQuantity] (the same, used by one
    component), [GoSort] and [GoMath] (Go), [NrtAPI], [PodFingerprint],
    [BitMaskOps], [NetworkAwareNames], [SeccompActions], [WatcherConsts], [RenderOps],
    [ConfigDecoders] (imported packages), [Evaluator], [QuantityCopy], [MetaTypes],
    [MetaRepr], [MetaCopy], [ConversionOps] (Kubernetes again, for the evaluator of
    preemptions and the API types), [Combin], [GonumStat], [GonumBeta] (gonum).  A class
    whose name ends in Spec holds the laws that are relied on; each has an
    instance, and the witnesses apply the theorems to it.

    ** What the theorems show

    - Quotas: [PreFilter] admits a pod exactly when its quota and the sum of
      all quotas allow it; after any sequence of events the usage recorded for a
      quota is the sum over the pods recorded in it; put together, no quota ever
      exceeds its maximum and all together never exceed the sum of the
      minima ([QuotaAdmission.quotas_never_exceeded]); the pods a quota holds are
      exactly those the informer last reported as bound and alive and those
      reserved, but for pods that came before their quota or had already ended
      ([QuotaLedger.quota_ledger_refined]); a dry run of a preemption
      evicts only eligible victims and makes room: once they are gone the pod
      passes ([QuotaPreemption.preemption_makes_room]); unless an extender of the
      scheduler changes the victims, PostFilter
      evicts pods of the nominated node only, each of which the quota policy lets go
      ([PostFilter.capacity_PostFilter_evicts]);
      Reserve and Unreserve undo each other.
    - Preemption toleration: which victims are exempted, and that the
      ones PostFilter evicts are not.
    - NUMA: a pod that passes the filter can be placed on the NUMA nodes (no false
      positive), also beside the pods that OverReserve has reserved; put together,
      the pods reserved on a node can be placed without over-committing a
      NUMA node, unless its object was replaced between the filter and the Reserve of
      a pod ([NumaRuns.numa_nodes_not_overcommitted]); the cache
      holds exactly the reservations made and not yet released, whatever the
      interleaving; a resynchronisation only drops what the node has
      reported; the watcher handles exactly the events it was sent, in order, and marks
      the nodes whose configuration they change ([NrtWatcher.attr_watch_exact]).  The number of NUMA nodes a request needs is the smallest
      possible, and scores are in range.
    - Rescheduling: what is reserved on a node stays within the limit with what ran
      there when a reservation was last accepted ([Rescheduler.reservations_within_limit]);
      a cycle evicts at most ten pods, all of them movable; over a whole run an evicted
      pod rests for ten minutes, by the clock of each check, and the rate of evictions is bounded
      ([ReschedRuns.controller_runs_safely]); wrong configurations are rejected.
    - Network: the cost of a node, the filter and the score are what the
      dependencies of the application group say; the floating-point normalisation
      has a closed form in integers.
    - System calls: the score computed from the incrementally kept sets
      equals its definition by counting over the tracked pods, whose profiles may
      change after they were read ([SySched.Score_is_exposure]).
    - Controllers: the phase of a pod group agrees with its counts at all times,
      terminal phases are final, and once the pods are stable three reconciliations
      reach the phase they determine; a quota's status is the exact usage, and never
      above what the scheduler counts or the maximum it enforces
      ([QuotaAgreement.reported_usage_within_max]).
    - Load-aware plugins: the cache of bound pods stays sorted, so its binary
      search is exact; scores are in range in spite of rounding and have the
      monotonicity each plugin is meant to have.
    - Configuration: defaulting makes every argument well formed and is
      idempotent; the topology plugin refuses exactly the arguments it cannot
      serve, and has the cache and the strategy that were asked for; a pod event
      marks a node exactly where the detection of foreign pods was set up
      ([PluginSetup.foreign_detection]); converting a
      configuration to v1 and back changes nothing ([Conversion.conversions_roundtrip]).
    - API objects: a deep copy has the value of the original and shares nothing
      with it, so neither sees what is later written to the other
      ([DeepCopy.DeepCopy_isolates]).
    - Informers: each informer of the factory runs at most once, is never started after
      Shutdown began, and Shutdown returns only when all of them have stopped
      ([InformerFactory.factory_lifecycle]).

    Some theorems state the opposite of what a comment or a name promises (for
    example [CapacityScheduling.reprieve_removes_twice], [NrtWatcher.closed_watch_never_renewed],
    [Trimaran.tombstone_panics], [SySched.second_annotation_ignored]); each
    is evaluated on a concrete input.

    ** Bounds

    All recursion is structural, over a list or a string, but for the two binary
    searches, which have fuel: over [n] elements they get [n + 1], which is
    enough because the interval shrinks at each step
    ([GoSort.search_loop_spec], [Strconv.bsearch_loop_sound]).  The loop that
    tries growing numbers of NUMA nodes recurses on how many are left.

    ** Not modelled

    - the rest of the generated code: the REST clients and their fakes, listers and
      apply configurations, which wrap generic code of client-go, and the
      registration of defaults and conversions with the scheme;
    - wiring: the New functions that only store their arguments or start informers and
      tickers, the commands under cmd, the registration of schemes, the deprecated
      kubeconfig helper of util/client_util.go;
    - the evaluator that PostFilter calls: it is code of Kubernetes;
    - the lag of the caches the controllers read from: a call of Reconcile sees the current
      objects; and data races on maps that are used without a lock: a single access is atomic;
    - decoding of JSON and YAML (a parameter where it is used), the names and values of log
      messages (noderesourcetopology/logging), and objects.go, which only tests use;
    - crossnodepreemption, whose two files are one comment each. *)

From Stdlib Require Export ZArith Lia.
From stdpp Require Export prelude gmap strings sorting.

Declare Scope go_scope.
Delimit Scope go_scope with go.
Open Scope go_scope.
Open Scope Z_scope.

(** ** Hint databases

    [go] resolves the routine side conditions (ranges of wrapped integers,
    preservation lemmas), [go_rw] is the rewrite base of the normalising
    equations. *)

Create HintDb go discriminated.
Create Rewrite HintDb go_rw.
#[export] Hint Constants Transparent : go.

(** ** Machine integers

    Go's [int64] and [int32] wrap around silently.  A w-bit value is a [Z];
    every operation of the source that can leave the range goes through
    [wrap64] or [wrap32]. *)

Definition wrap64 (z : Z) : Z := (z + 2 ^ 63) mod 2 ^ 64 - 2 ^ 63.
Definition wrap32 (z : Z) : Z := (z + 2 ^ 31) mod 2 ^ 32 - 2 ^ 31.

Definition in64 (z : Z) : Prop := - 2 ^ 63 ≤ z < 2 ^ 63.
Definition in32 (z : Z) : Prop := - 2 ^ 31 ≤ z < 2 ^ 31.

Definition MaxInt64 : Z := 2 ^ 63 - 1.
Definition MinInt64 : Z := - 2 ^ 63.

#[export] Instance in64_dec z : Decision (in64 z).
Proof. unfold in64. apply _. Defined.
#[export] Instance in32_dec z : Decision (in32 z).
Proof. unfold in32. apply _. Defined.

Notation "a +₆₄ b" := (wrap64 (a + b)) (at level 50, left associativity) : go_scope.
Notation "a -₆₄ b" := (wrap64 (a - b)) (at level 50, left associativity) : go_scope.
Notation "a *₆₄ b" := (wrap64 (a * b)) (at level 40, left associativity) : go_scope.

(** [wrap_lia] decides goals about wrapped additions and subtractions. *)
Ltac wrap_lia :=
  unfold wrap64, wrap32, in64, in32, MaxInt64, MinInt64 in *;
  change (2 ^ 63) with 9223372036854775808 in *;
  change (2 ^ 64) with 18446744073709551616 in *;
  change (2 ^ 31) with 2147483648 in *;
  change (2 ^ 32) with 4294967296 in *;
  Z.div_mod_to_equations; lia.

Section MachineIntegers.
Implicit Types a b c z : Z.

Lemma wrap64_in z : in64 (wrap64 z).
Proof. wrap_lia. Qed.

Lemma wrap32_in z : in32 (wrap32 z).
Proof. wrap_lia. Qed.

Lemma wrap64_id z : in64 z → wrap64 z = z.
Proof. intros. wrap_lia. Qed.

Lemma wrap32_id z : in32 z → wrap32 z = z.
Proof. intros. wrap_lia. Qed.

Lemma wrap64_wrap z : wrap64 (wrap64 z) = wrap64 z.
Proof. apply wrap64_id, wrap64_in. Qed.

Lemma wrap64_add_l a b : wrap64 (wrap64 a + b) = wrap64 (a + b).
Proof. wrap_lia. Qed.

Lemma wrap64_add_r a b : wrap64 (a + wrap64 b) = wrap64 (a + b).
Proof. wrap_lia. Qed.

Lemma wrap64_sub_l a b : wrap64 (wrap64 a - b) = wrap64 (a - b).
Proof. wrap_lia. Qed.

Lemma wrap64_sub_r a b : wrap64 (a - wrap64 b) = wrap64 (a - b).
Proof. wrap_lia. Qed.

Lemma wrap64_mul_l a b : wrap64 (wrap64 a * b) = wrap64 (a * b).
Proof.
  unfold wrap64. f_equal.
  replace (a * b + 2 ^ 63) with
    (((a + 2 ^ 63) mod 2 ^ 64 - 2 ^ 63) * b + 2 ^ 63 + ((a + 2 ^ 63) / 2 ^ 64 * b) * 2 ^ 64)
    by (pose proof (Z.div_mod (a + 2 ^ 63) (2 ^ 64) ltac:(done)); nia).
  by rewrite Z.mod_add.
Qed.

Lemma wrap64_add_sub a b : in64 a → wrap64 (wrap64 (a + b) - b) = a.
Proof. intros. rewrite wrap64_sub_l, Z.add_simpl_r. by apply wrap64_id. Qed.
End MachineIntegers.

#[export] Hint Resolve wrap64_in wrap32_in : go.
#[export] Hint Rewrite wrap64_wrap wrap64_add_l wrap64_add_r wrap64_sub_l wrap64_sub_r : go_rw.

(** ** Panics

    A Go run-time panic (nil dereference, index out of range, integer division
    by zero, write to a nil map) ends the call: the value of a function that
    can panic is an [outcome]. *)

Inductive outcome (A : Type) : Type :=
| Ret (a : A)
| Panic.
Arguments Ret {A} a.
Arguments Panic {A}.

#[export] Instance outcome_ret : MRet outcome := λ A a, Ret a.
#[export] Instance outcome_bind : MBind outcome :=
  λ A B f m, match m with Ret a => f a | Panic => Panic end.
#[export] Instance outcome_fmap : FMap outcome :=
  λ A B f m, match m with Ret a => Ret (f a) | Panic => Panic end.

#[export] Instance outcome_eq_dec `{EqDecision A} : EqDecision (outcome A).
Proof. solve_decision. Defined.

(** Dereferencing a pointer, indexing a slice (to read, to write) and integer
    division. *)
Definition deref {A} (p : option A) : outcome A :=
  match p with Some a => Ret a | None => Panic end.

Definition index {A} (l : list A) (i : Z) : outcome A :=
  if decide (0 ≤ i) then deref (l !! Z.to_nat i) else Panic.

Definition set_index {A} (l : list A) (i : Z) (a : A) : outcome (list A) :=
  if decide (0 ≤ i < Z.of_nat (length l)) then Ret (<[Z.to_nat i := a]> l) else Panic.

Definition go_div (a b : Z) : outcome Z :=
  if decide (b = 0) then Panic else Ret (wrap64 (Z.quot a b)).

(** Folding a loop body that can panic. *)
Fixpoint fold_outcome {A B} (f : A → B → outcome A) (acc : A) (l : list B) : outcome A :=
  match l with
  | [] => Ret acc
  | x :: l' => acc' ← f acc x; fold_outcome f acc' l'
  end.

Lemma outcome_bind_ret {A B} (a : A) (k : A → outcome B) : (Ret a ≫= k) = k a.
Proof. done. Qed.

Lemma outcome_bind_Ret {A B} (m : outcome A) (k : A → outcome B) b :
  (m ≫= k) = Ret b ↔ ∃ a, m = Ret a ∧ k a = Ret b.
Proof. destruct m; split; [eauto | by intros (? & [= ->] & ?) | done | by intros (? & ? & ?)]. Qed.

Lemma fold_outcome_ret {A B} (f : A → B → A) (acc : A) (l : list B) :
  fold_outcome (λ a b, Ret (f a b)) acc l = Ret (foldl f acc l).
Proof. revert acc. induction l as [|x l IH]; intros acc; [done|]. apply IH. Qed.

#[export] Hint Rewrite @outcome_bind_ret : go_rw.

(** ** Early returns

    A function that returns early with an error value [e], can panic, and else
    goes on: Go's [if err != nil { return ..., err }]. *)

Inductive result (E A : Type) : Type :=
| Ok (a : A)
| Err (e : E)
| Crash.
Arguments Ok {E A} a.
Arguments Err {E A} e.
Arguments Crash {E A}.

#[export] Instance result_ret E : MRet (result E) := λ A a, Ok a.
#[export] Instance result_bind E : MBind (result E) :=
  λ A B f m, match m with Ok a => f a | Err e => Err e | Crash => Crash end.
#[export] Instance result_fmap E : FMap (result E) :=
  λ A B f m, match m with Ok a => Ok (f a) | Err e => Err e | Crash => Crash end.

Definition lift {E A} (m : outcome A) : result E A :=
  match m with Ret a => Ok a | Panic => Crash end.

Fixpoint fold_result {E A B} (f : A → B → result E A) (acc : A) (l : list B) : result E A :=
  match l with
  | [] => Ok acc
  | x :: l' => acc' ← f acc x; fold_result f acc' l'
  end.

Lemma result_bind_Ok {E A B} (m : result E A) (k : A → result E B) b :
  (m ≫= k) = Ok b ↔ ∃ a, m = Ok a ∧ k a = Ok b.
Proof. destruct m; split; [eauto | by intros (? & [= ->] & ?) | done | by intros (? & ? & ?) | done | by intros (? & ? & ?)]. Qed.

Lemma lift_Ok {E A} (m : outcome A) (a : A) : lift (E := E) m = Ok a ↔ m = Ret a.
Proof. destruct m; simpl; split; congruence. Qed.

(** The invariant rule of a loop that can return early. *)
Lemma fold_result_ind {E A B} (f : A → B → result E A) (P : list B → A → Prop) l :
  (∀ l' x l2 a a', l = l' ++ x :: l2 → P l' a → f a x = Ok a' → P (l' ++ [x]) a') →
  ∀ a a', P [] a → fold_result f a l = Ok a' → P l a'.
Proof.
  intros Hstep a a' H0 Hf.
  enough (∀ l2 l1 b, l = l1 ++ l2 → P l1 b → fold_result f b l2 = Ok a' → P l a') as H
    by (by apply (H l [] a)).
  induction l2 as [|x l2 IH]; intros l1 b Hl Hb Hr; simpl in *.
  - injection Hr as ->. by rewrite Hl, app_nil_r.
  - apply result_bind_Ok in Hr as (b' & Hx & Hr). apply (IH (l1 ++ [x]) b'); [|eapply Hstep|]; eauto.
    by rewrite <- app_assoc.
Qed.

(** ** Ranging over a map

    The iteration order of a Go map is unspecified.  A development that
    mentions [range] is parameterised by the order the run time happens to
    choose; [range_perm] is all it may rely on, so a theorem about such a
    definition holds whatever the order is. *)

Class MapOrder : Type := {
  range : ∀ {V : Type}, gmap string V → list (string * V);
  range_perm : ∀ (V : Type) (m : gmap string V), range m ≡ₚ map_to_list m;
}.

(** The order in which the tries underlying [gmap] store their keys. *)
#[export] Program Instance trie_order : MapOrder := {| range := λ V, map_to_list |}.
Next Obligation. done. Qed.

Section Ranging.
Context `{MapOrder}.

Lemma elem_of_range {V} (m : gmap string V) k v : (k, v) ∈ range m ↔ m !! k = Some v.
Proof. by rewrite range_perm, elem_of_map_to_list. Qed.

Lemma range_NoDup {V} (m : gmap string V) : NoDup (range m).*1.
Proof. rewrite range_perm. apply NoDup_fst_map_to_list. Qed.

Lemma range_empty {V} : range (∅ : gmap string V) = [].
Proof. apply Permutation_nil_r. by rewrite range_perm, map_to_list_empty. Qed.

(** An accumulation whose steps commute does not see the order. *)
Lemma foldl_commute {A B} (f : A → B → A) (l1 l2 : list B) (a : A) :
  (∀ a x y, f (f a x) y = f (f a y) x) →
  l1 ≡ₚ l2 → foldl f a l1 = foldl f a l2.
Proof.
  intros Hf Hp. revert a. induction Hp as [|x l l' ? IH|x y l|l l' l'' ? IH1 ? IH2];
    intros a; simpl; [done|apply IH|by rewrite Hf|by rewrite IH1].
Qed.

Lemma existsb_range {V} (P : string * V → bool) (m : gmap string V) :
  existsb P (range m) = true ↔ ∃ k v, m !! k = Some v ∧ P (k, v) = true.
Proof.
  rewrite existsb_exists. split.
  - intros ([k v] & Hin & HP). apply list_elem_of_In, elem_of_range in Hin. eauto.
  - intros (k & v & Hm & HP). exists (k, v). by rewrite <- list_elem_of_In, elem_of_range.
Qed.
End Ranging.

(** *** Per-key accumulation

    A loop [for k, v := range m { acc[k] = ... }] whose step touches only the
    entry [k] of its accumulator, as the function [h] of [k], the old entry and [v],
    computes each entry independently of the others. *)

Section PerKey.
Context `{MapOrder} {V W : Type} (h : string → option W → V → option W).
Context (f : gmap string W → string * V → gmap string W).
Hypothesis f_spec : ∀ acc k v j,
  f acc (k, v) !! j = if decide (j = k) then h k (acc !! k) v else acc !! j.

Lemma foldl_per_key_notin (l : list (string * V)) acc k :
  k ∉ l.*1 → foldl f acc l !! k = acc !! k.
Proof.
  revert acc. induction l as [|[k' v] l IH]; intros acc Hk; simpl in *; [done|].
  apply not_elem_of_cons in Hk as [Hne Hk]. by rewrite (IH _ Hk), f_spec, decide_False.
Qed.

Lemma foldl_per_key_in (l : list (string * V)) acc k v :
  NoDup l.*1 → (k, v) ∈ l → foldl f acc l !! k = h k (acc !! k) v.
Proof.
  revert acc. induction l as [|[k' v'] l IH]; intros acc Hnd Hin; [by inversion Hin|].
  simpl in *. apply NoDup_cons in Hnd as [Hk' Hnd].
  apply elem_of_cons in Hin as [[= <- <-]|Hin].
  - rewrite foldl_per_key_notin by done. by rewrite f_spec, decide_True.
  - rewrite (IH _ Hnd Hin), f_spec, decide_False; [done|]. intros ->.
    apply Hk'. apply list_elem_of_fmap. by exists (k', v).
Qed.

Lemma foldl_range_lookup (m : gmap string V) acc k :
  foldl f acc (range m) !! k = match m !! k with Some v => h k (acc !! k) v | None => acc !! k end.
Proof.
  destruct (m !! k) as [v|] eqn:Hk.
  - apply foldl_per_key_in; [apply range_NoDup|]. by apply elem_of_range.
  - apply foldl_per_key_notin. intros ([k' v] & -> & Hin)%list_elem_of_fmap.
    apply elem_of_range in Hin. simpl in *. congruence.
Qed.
End PerKey.

(** ** Filtered lists *)

Lemma filter_none {A} (P : A → Prop) `{∀ x, Decision (P x)} (l : list A) :
  (∀ x, x ∈ l → ¬ P x) → filter P l = [].
Proof.
  induction l as [|x l IH]; intros Hl; [done|].
  rewrite filter_cons_False by (apply Hl; by left). apply IH. intros y Hy. apply Hl. by right.
Qed.

Lemma filter_all {A} (P : A → Prop) `{∀ x, Decision (P x)} (l : list A) :
  (∀ x, x ∈ l → P x) → filter P l = l.
Proof.
  induction l as [|x l IH]; intros Hl; [done|].
  rewrite filter_cons_True by (apply Hl; by left). f_equal. apply IH. intros y Hy. apply Hl. by right.
Qed.

(** ** Sums *)

Definition zsum {A} (f : A → Z) (l : list A) : Z := foldr (λ a z, f a + z) 0 l.

(** The sum of [f] over the values of a map. *)
Definition sum_map {V} (f : V → Z) (m : gmap string V) : Z := zsum (f ∘ snd) (map_to_list m).

Lemma zsum_app {A} (f : A → Z) l1 l2 : zsum f (l1 ++ l2) = zsum f l1 + zsum f l2.
Proof. induction l1; simpl; lia. Qed.

#[export] Instance zsum_perm {A} (f : A → Z) : Proper ((≡ₚ) ==> (=)) (zsum f).
Proof. induction 1; simpl; lia. Qed.

Lemma zsum_ext {A} (f g : A → Z) l : (∀ a, a ∈ l → f a = g a) → zsum f l = zsum g l.
Proof.
  induction l as [|a l IH]; intros Hfg; simpl; [done|].
  rewrite Hfg by (left; done). rewrite IH; [done|]. intros. apply Hfg. by right.
Qed.

Lemma zsum_nonneg {A} (f : A → Z) l : (∀ a, a ∈ l → 0 ≤ f a) → 0 ≤ zsum f l.
Proof.
  induction l as [|a l IH]; intros Hf; simpl; [lia|].
  assert (0 ≤ f a) by (apply Hf; left; done).
  assert (0 ≤ zsum f l) by (apply IH; intros; apply Hf; by right). lia.
Qed.

Lemma zsum_mul_l {A} (f : A → Z) c l : c * zsum f l = zsum (λ a, c * f a) l.
Proof. induction l as [|a l IH]; cbn; [lia|]. unfold zsum in *. lia. Qed.

Lemma zsum_range `{MapOrder} {V} (f : V → Z) (m : gmap string V) :
  zsum (f ∘ snd) (range m) = sum_map f m.
Proof. unfold sum_map. by rewrite range_perm. Qed.

Lemma sum_map_empty {V} (f : V → Z) : sum_map f ∅ = 0.
Proof. unfold sum_map. by rewrite map_to_list_empty. Qed.

Lemma sum_map_singleton {V} (f : V → Z) k v : sum_map f {[k := v]} = f v.
Proof. unfold sum_map. rewrite map_to_list_singleton. cbn. lia. Qed.

Lemma sum_map_insert {V} (f : V → Z) (m : gmap string V) k v :
  m !! k = None → sum_map f (<[k := v]> m) = f v + sum_map f m.
Proof. intros. unfold sum_map. by rewrite map_to_list_insert. Qed.

Lemma sum_map_delete {V} (f : V → Z) (m : gmap string V) k v :
  m !! k = Some v → sum_map f m = f v + sum_map f (delete k m).
Proof. intros. unfold sum_map. by rewrite <- (map_to_list_delete m k v). Qed.

Lemma sum_map_nonneg {V} (f : V → Z) (m : gmap string V) :
  map_Forall (λ _ v, 0 ≤ f v) m → 0 ≤ sum_map f m.
Proof.
  intros Hm. apply zsum_nonneg. intros [k v] Hin. apply elem_of_map_to_list in Hin. by apply (Hm k).
Qed.

(** The sum of [f] over a finite set. *)
Definition sum_set (f : string → Z) (s : gset string) : Z := zsum f (elements s).

Lemma sum_set_empty f : sum_set f ∅ = 0.
Proof. unfold sum_set. by rewrite elements_empty. Qed.

Lemma sum_set_insert f s k : k ∉ s → sum_set f ({[k]} ∪ s) = f k + sum_set f s.
Proof. intros. unfold sum_set. by rewrite elements_union_singleton. Qed.

Lemma sum_set_delete f s k : k ∈ s → sum_set f s = f k + sum_set f (s ∖ {[k]}).
Proof.
  intros Hk. rewrite <- (sum_set_insert f) by (rewrite elem_of_difference, elem_of_singleton; tauto).
  by rewrite <- union_difference_singleton_L.
Qed.

Lemma sum_map_ge {V} (f : V → Z) (m : gmap string V) k v :
  (∀ v, 0 ≤ f v) → m !! k = Some v → f v ≤ sum_map f m.
Proof.
  intros Hf Hk. rewrite (sum_map_delete f m k v Hk).
  assert (0 ≤ sum_map f (delete k m)) by (by apply sum_map_nonneg; intros ? ? _). lia.
Qed.

Lemma sum_map_replace {V} (f : V → Z) (m : gmap string V) k v v' :
  m !! k = Some v → sum_map f (<[k := v']> m) = sum_map f m - f v + f v'.
Proof.
  intros Hk. rewrite <- insert_delete_eq, sum_map_insert by apply lookup_delete_eq.
  rewrite (sum_map_delete f m k v Hk). lia.
Qed.

Lemma sum_map_ext {V} (f g : V → Z) (m : gmap string V) :
  (∀ k v, m !! k = Some v → f v = g v) → sum_map f m = sum_map g m.
Proof. intros Hfg. apply zsum_ext. intros [k v] Hin%elem_of_map_to_list. by apply (Hfg k). Qed.

Lemma sum_set_nonneg (f : string → Z) s : (∀ k, 0 ≤ f k) → 0 ≤ sum_set f s.
Proof. intros Hf. by apply zsum_nonneg. Qed.

Lemma sum_map_fmap {V W} (f : W → Z) (h : V → W) (m : gmap string V) : sum_map f (h <$> m) = sum_map (f ∘ h) m.
Proof.
  induction m as [|k v m Hk IH] using map_ind; [by rewrite fmap_empty, !sum_map_empty|].
  rewrite fmap_insert, !sum_map_insert, IH by (by rewrite ?lookup_fmap, ?Hk). done.
Qed.

Lemma sum_map_le {V} (f h : V → Z) (m : gmap string V) :
  map_Forall (λ _ v, f v ≤ h v) m → sum_map f m ≤ sum_map h m.
Proof.
  induction m as [|k v m Hk IH] using map_ind; intros Hm; [by rewrite !sum_map_empty|].
  rewrite !sum_map_insert by done. apply map_Forall_insert in Hm as [Hv Hm]; [|done]. specialize (IH Hm). lia.
Qed.

Lemma sum_map_delete_le {V} (f : V → Z) (m : gmap string V) k :
  map_Forall (λ _ v, 0 ≤ f v) m → sum_map f (delete k m) ≤ sum_map f m.
Proof.
  intros Hm. destruct (m !! k) as [v|] eqn:E; [|by rewrite delete_id].
  rewrite (sum_map_delete f m k v E). specialize (Hm k v E). cbn in Hm. lia.
Qed.

(** Two maps with the same keys. *)
Lemma sum_map_le2 {V W} (f : V → Z) (h : W → Z) (m : gmap string V) (m' : gmap string W) :
  (∀ k, match m !! k, m' !! k with Some v, Some w => f v ≤ h w | None, None => True | _, _ => False end) →
  sum_map f m ≤ sum_map h m'.
Proof.
  revert m'. induction m as [|k v m Hk IH] using map_ind; intros m' Hm.
  - destruct (decide (m' = ∅)) as [->|[k [w Hw]]%map_choose]; [by rewrite !sum_map_empty|].
    specialize (Hm k). by rewrite lookup_empty, Hw in Hm.
  - pose proof (Hm k) as Hkk. rewrite lookup_insert_eq in Hkk. destruct (m' !! k) as [w|] eqn:Hw; [|done].
    rewrite sum_map_insert by done. rewrite (sum_map_delete h m' k w Hw).
    enough (sum_map f m ≤ sum_map h (delete k m')) by lia. apply IH. intros j. specialize (Hm j).
    destruct (decide (k = j)) as [<-|Hne]; [by rewrite Hk, lookup_delete_eq|].
    rewrite lookup_insert_ne in Hm by done. by rewrite lookup_delete_ne.
Qed.

Lemma sum_set_le (f : string → Z) (s s' : gset string) : (∀ k, 0 ≤ f k) → s ⊆ s' → sum_set f s ≤ sum_set f s'.
Proof.
  intros Hf. revert s'. induction s as [|k s Hk IH] using set_ind_L; intros s' Hs.
  - rewrite sum_set_empty. by apply sum_set_nonneg.
  - rewrite sum_set_insert by done. rewrite (sum_set_delete f s' k) by set_solver.
    enough (sum_set f s ≤ sum_set f (s' ∖ {[k]})) by lia. apply IH. set_solver.
Qed.
