(* ===== verification/Float64.v ===== *)
(** * IEEE 754 arithmetic

    A finite floating-point number denotes a rational, and each operation of
    the language rounds the exact result to the nearest number of its
    precision, ties to even.  [rnd p] is that rounding for a precision of [p]
    bits (53 for float64, 24 for float32).  The values that the sources
    compute stay far from the limits of the exponent, so the exponent is
    unbounded here; divisions by zero are guarded in the sources, and a
    definition that models one says what its guard is. *)

From Stdlib Require Export QArith Qabs Qpower.
From Stdlib Require Import Lqa Qround.
From S2P Require Import Prelude.
Open Scope Z_scope.

(** ** Definitions *)

(** The integer nearest to n/d, for a positive d. *)
Definition rdiv (n d : Z) : Z :=
  let q := n / d in
  match 2 * (n mod d) ?= d with
  | Lt => q
  | Gt => q + 1
  | Eq => if Z.even q then q else q + 1
  end.

Definition nearest (x : Q) : Z := rdiv (Qnum x) (Zpos (Qden x)).

Definition pow2 (e : Z) : Q := Qpower 2 e.

(** The exponent of the leading bit: 2^mag x <= |x| < 2^(mag x + 1). *)
Definition mag (x : Q) : Z :=
  let l := Z.log2 (Z.abs (Qnum x)) - Z.log2 (Zpos (Qden x)) in
  if Qle_bool (pow2 l) (Qabs x) then l else l - 1.

Definition rnd (p : Z) (x : Q) : Q :=
  if Qeq_bool x 0 then 0%Q
  else let e := mag x - (p - 1) in
       Qred (inject_Z (nearest (x * pow2 (- e))) * pow2 e)%Q.

(** float64 *)
Definition f64 : Q → Q := rnd 53.
Definition f64_of_int (z : Z) : Q := f64 (inject_Z z).
Definition f64_add (x y : Q) : Q := f64 (x + y)%Q.
Definition f64_sub (x y : Q) : Q := f64 (x - y)%Q.
Definition f64_mul (x y : Q) : Q := f64 (x * y)%Q.
Definition f64_div (x y : Q) : Q := f64 (x / y)%Q.

(** Comparisons, and the conversion to an integer, which truncates. *)
Definition f_lt (x y : Q) : bool := negb (Qle_bool y x).
Definition f_le (x y : Q) : bool := Qle_bool x y.
Definition f_eq (x y : Q) : bool := Qeq_bool x y.
Definition f_max (x y : Q) : Q := if f_lt x y then y else x.
Definition f_min (x y : Q) : Q := if f_lt y x then y else x.
Definition int_of_float (x : Q) : Z := Z.quot (Qnum x) (Zpos (Qden x)).

(** ** Rounding to an integer *)

Lemma rdiv_bounds n d : 0 < d → 2 * d * rdiv n d - d ≤ 2 * n ≤ 2 * d * rdiv n d + d.
Proof.
  intros Hd. unfold rdiv. pose proof (Z.div_mod n d ltac:(lia)). pose proof (Z.mod_pos_bound n d Hd).
  destruct (Z.compare_spec (2 * (n mod d)) d); [destruct (Z.even (n / d))|..]; nia.
Qed.

Lemma rdiv_mono a c d : 0 < d → a ≤ c → rdiv a d ≤ rdiv c d.
Proof.
  intros Hd Hac. unfold rdiv. pose proof (Z.div_mod a d ltac:(lia)). pose proof (Z.div_mod c d ltac:(lia)).
  pose proof (Z.mod_pos_bound a d Hd). pose proof (Z.mod_pos_bound c d Hd).
  assert (a / d ≤ c / d) by (apply Z.div_le_mono; lia).
  destruct (Z.eq_dec (a / d) (c / d)) as [E|E].
  - rewrite E. assert (a mod d ≤ c mod d) by nia.
    destruct (Z.compare_spec (2 * (a mod d)) d), (Z.compare_spec (2 * (c mod d)) d);
      repeat destruct (Z.even _); lia.
  - destruct (Z.compare_spec (2 * (a mod d)) d), (Z.compare_spec (2 * (c mod d)) d);
      repeat destruct (Z.even _); lia.
Qed.

Lemma rdiv_exact k d : 0 < d → rdiv (k * d) d = k.
Proof.
  intros Hd. unfold rdiv. rewrite Z.div_mul, Z.mod_mul by lia.
  destruct (Z.compare_spec (2 * 0) d); lia.
Qed.

Lemma rdiv_scale n d k : 0 < d → 0 < k → rdiv (n * k) (d * k) = rdiv n d.
Proof.
  intros Hd Hk. unfold rdiv. rewrite Z.div_mul_cancel_r, Z.mul_mod_distr_r by lia.
  replace (2 * (n mod d * k) ?= d * k) with (2 * (n mod d) ?= d); [done|].
  rewrite Z.mul_assoc. apply Zmult_compare_compat_r. lia.
Qed.

Lemma nearest_mono x y : (x <= y)%Q → nearest x ≤ nearest y.
Proof.
  unfold Qle, nearest. intros Hxy.
  rewrite <- (rdiv_scale (Qnum x) _ (Zpos (Qden y))), <- (rdiv_scale (Qnum y) _ (Zpos (Qden x))) by lia.
  rewrite (Z.mul_comm (Zpos (Qden y)) (Zpos (Qden x))). apply rdiv_mono; lia.
Qed.

#[export] Instance nearest_proper : Proper (Qeq ==> eq) nearest.
Proof. intros x y E. apply Z.le_antisymm; apply nearest_mono; rewrite E; apply Qle_refl. Qed.

Lemma nearest_int k : nearest (inject_Z k) = k.
Proof. unfold nearest. cbn. rewrite <- (Z.mul_1_r k) at 1. by apply rdiv_exact. Qed.

Lemma nearest_bounds x : (inject_Z (nearest x) - (1 # 2) <= x <= inject_Z (nearest x) + (1 # 2))%Q.
Proof.
  unfold nearest. destruct x as [n d]. cbn [Qnum Qden]. pose proof (rdiv_bounds n (Zpos d) ltac:(lia)).
  split; unfold Qle, Qminus, Qplus, Qopp, inject_Z; cbn [Qnum Qden]; lia.
Qed.

(** ** Powers of two *)

Lemma pow2_pos e : (0 < pow2 e)%Q.
Proof. apply Qpower_0_lt. done. Qed.

Lemma pow2_add a b : (pow2 (a + b) == pow2 a * pow2 b)%Q.
Proof. apply Qpower_plus. done. Qed.

Lemma pow2_opp e : (pow2 (- e) * pow2 e == 1)%Q.
Proof. rewrite <- pow2_add, Z.add_opp_diag_l. done. Qed.

Lemma pow2_nonneg e : 0 ≤ e → pow2 e == inject_Z (2 ^ e).
Proof. intros He. unfold pow2. symmetry. by apply Zpower_Qpower. Qed.

Lemma pow2_le a b : a ≤ b → (pow2 a <= pow2 b)%Q.
Proof.
  intros Hab. replace b with ((b - a) + a) by lia. rewrite pow2_add.
  assert (1 <= pow2 (b - a))%Q.
  { rewrite pow2_nonneg by lia. change 1%Q with (inject_Z 1). rewrite <- Zle_Qle. 
    assert (0 < 2 ^ (b - a)) by (apply Z.pow_pos_nonneg; lia). lia. }
  pose proof (pow2_pos a). rewrite <- (Qmult_1_l (pow2 a)) at 1.
  apply Qmult_le_compat_r; [done|]. by apply Qlt_le_weak.
Qed.

Lemma pow2_lt_inv a b : (pow2 a < pow2 b)%Q → a < b.
Proof.
  intros Hab. destruct (Z.lt_ge_cases a b) as [?|Hge]; [done|].
  apply pow2_le in Hge. exfalso. apply (Qlt_not_le _ _ Hab Hge).
Qed.

Lemma abs_bounds x : 0 < Qnum x →
  (pow2 (Z.log2 (Qnum x) - Z.log2 (Zpos (Qden x)) - 1) < x < pow2 (Z.log2 (Qnum x) - Z.log2 (Zpos (Qden x)) + 1))%Q.
Proof.
  destruct x as [n d]. cbn [Qnum Qden]. intros Hn.
  pose proof (Z.log2_spec n Hn) as [Hn1 Hn2]. pose proof (Z.log2_spec (Zpos d) ltac:(lia)) as [Hd1 Hd2].
  pose proof (Z.log2_nonneg n). pose proof (Z.log2_nonneg (Zpos d)).
  set (a := Z.log2 n) in *. set (b := Z.log2 (Zpos d)) in *.
  assert (Hq : (n # d == inject_Z n / inject_Z (Zpos d))%Q) by apply Qmake_Qdiv.
  assert (Hdpos : (0 < inject_Z (Zpos d))%Q) by (change 0%Q with (inject_Z 0); rewrite <- Zlt_Qlt; lia).
  rewrite Hq. split.
  - apply Qlt_shift_div_l; [done|].
    apply Qlt_le_trans with (pow2 (a - b - 1) * pow2 (b + 1))%Q.
    + apply Qmult_lt_l; [apply pow2_pos|]. rewrite pow2_nonneg, <- Zlt_Qlt by lia. unfold Z.succ in *. lia.
    + rewrite <- pow2_add. replace (a - b - 1 + (b + 1)) with a by lia.
      rewrite pow2_nonneg, <- Zle_Qle by lia. lia.
  - apply Qlt_shift_div_r; [done|].
    apply Qlt_le_trans with (pow2 (a + 1)).
    + rewrite pow2_nonneg, <- Zlt_Qlt by lia. unfold Z.succ in *. lia.
    + replace (a + 1) with ((a - b + 1) + b) by lia. rewrite pow2_add.
      apply Qmult_le_l; [apply pow2_pos|]. rewrite pow2_nonneg, <- Zle_Qle by lia. lia.
Qed.

Lemma mag_pos x : (0 < x)%Q → (pow2 (mag x) <= x < pow2 (mag x + 1))%Q.
Proof.
  intros Hx. assert (Hn : 0 < Qnum x) by (unfold Qlt in Hx; cbn in Hx; lia).
  pose proof (abs_bounds x Hn) as [Hlo Hhi]. unfold mag.
  rewrite (Z.abs_eq (Qnum x)), (Qabs_pos x) by (lia || by apply Qlt_le_weak).
  destruct (Qle_bool _ _) eqn:E.
  - apply Qle_bool_iff in E. done.
  - split; [by apply Qlt_le_weak|]. apply Qnot_le_lt. intros Hle.
    replace (Z.log2 (Qnum x) - Z.log2 (Zpos (Qden x)) - 1 + 1) with (Z.log2 (Qnum x) - Z.log2 (Zpos (Qden x))) in Hle by lia.
    apply Qle_bool_iff in Hle. congruence.
Qed.

Lemma mag_opp x : mag (- x)%Q = mag x.
Proof. unfold mag. rewrite Qabs_opp. cbn. by rewrite Z.abs_opp. Qed.

Lemma mag_unique x e : (0 < x)%Q → (pow2 e <= x < pow2 (e + 1))%Q → mag x = e.
Proof.
  intros Hx [Hlo Hhi]. pose proof (mag_pos x Hx) as [Hlo' Hhi'].
  assert (e < mag x + 1) by (apply pow2_lt_inv; by apply Qle_lt_trans with x).
  assert (mag x < e + 1) by (apply pow2_lt_inv; by apply Qle_lt_trans with x). lia.
Qed.

Lemma mag_mono x y : (0 < x)%Q → (x <= y)%Q → mag x ≤ mag y.
Proof.
  intros Hx Hxy. assert (0 < y)%Q by (by apply Qlt_le_trans with x).
  pose proof (mag_pos x Hx) as [Hlo _]. pose proof (mag_pos y ltac:(done)) as [_ Hhi].
  assert (mag x < mag y + 1); [|lia]. apply pow2_lt_inv.
  apply Qle_lt_trans with x; [done|]. by apply Qle_lt_trans with y.
Qed.

(** ** Rounding to a precision *)

Section Rounding.
Context (p : Z) (p_pos : 1 ≤ p).

Lemma rnd_zero x : (x == 0)%Q → (rnd p x == 0)%Q.
Proof. intros E. unfold rnd. by rewrite (proj2 (Qeq_bool_iff _ _) E). Qed.

Lemma rnd_nonzero x : ¬ (x == 0)%Q →
  (rnd p x == inject_Z (nearest (x * pow2 (- (mag x - (p - 1))))) * pow2 (mag x - (p - 1)))%Q.
Proof.
  intros Hx. unfold rnd. destruct (Qeq_bool x 0) eqn:E; [by apply Qeq_bool_iff in E|]. apply Qred_correct.
Qed.

Lemma rnd_pos x : (0 < x)%Q →
  (rnd p x == inject_Z (nearest (x * pow2 (- (mag x - (p - 1))))) * pow2 (mag x - (p - 1)))%Q.
Proof. intros Hx. apply rnd_nonzero. intros E. rewrite E in Hx. by apply Qlt_irrefl in Hx. Qed.

(** The scaled number lies between 2^(p-1) and 2^p. *)
Lemma scaled_bounds x : (0 < x)%Q →
  2 ^ (p - 1) ≤ nearest (x * pow2 (- (mag x - (p - 1)))) ≤ 2 ^ p.
Proof.
  intros Hx. pose proof (mag_pos x Hx) as [Hlo Hhi]. set (e := mag x - (p - 1)) in *.
  assert (Hl : (pow2 (p - 1) <= x * pow2 (- e))%Q).
  { replace (p - 1) with (mag x + - e) by (unfold e; lia). rewrite pow2_add.
    apply Qmult_le_compat_r; [done|]. apply Qlt_le_weak, pow2_pos. }
  assert (Hh : (x * pow2 (- e) <= pow2 p)%Q).
  { replace p with (mag x + 1 + - e) by (unfold e; lia). rewrite pow2_add.
    apply Qmult_le_compat_r; [by apply Qlt_le_weak|]. apply Qlt_le_weak, pow2_pos. }
  rewrite (pow2_nonneg (p - 1)) in Hl by lia. rewrite (pow2_nonneg p) in Hh by lia. split.
  - rewrite <- (nearest_int (2 ^ (p - 1))). by apply nearest_mono.
  - rewrite <- (nearest_int (2 ^ p)). by apply nearest_mono.
Qed.

Lemma rnd_pos_bounds x : (0 < x)%Q → (pow2 (mag x) <= rnd p x <= pow2 (mag x + 1))%Q.
Proof.
  intros Hx. rewrite (rnd_pos x Hx). pose proof (scaled_bounds x Hx) as [Hlo Hhi].
  set (e := mag x - (p - 1)) in *. split.
  - replace (mag x) with ((p - 1) + e) by (unfold e; lia). rewrite pow2_add.
    apply Qmult_le_compat_r; [|apply Qlt_le_weak, pow2_pos]. rewrite (pow2_nonneg (p - 1)) by lia. by rewrite <- Zle_Qle.
  - replace (mag x + 1) with (p + e) by (unfold e; lia). rewrite pow2_add.
    apply Qmult_le_compat_r; [|apply Qlt_le_weak, pow2_pos]. rewrite (pow2_nonneg p) by lia. by rewrite <- Zle_Qle.
Qed.

Lemma rnd_mono_pos x y : (0 < x)%Q → (x <= y)%Q → (rnd p x <= rnd p y)%Q.
Proof.
  intros Hx Hxy. assert (Hy : (0 < y)%Q) by (by apply Qlt_le_trans with x).
  pose proof (mag_mono x y Hx Hxy). destruct (Z.eq_dec (mag x) (mag y)) as [E|E].
  - rewrite (rnd_pos x Hx), (rnd_pos y Hy), E. apply Qmult_le_compat_r; [|apply Qlt_le_weak, pow2_pos].
    rewrite <- Zle_Qle. apply nearest_mono, Qmult_le_compat_r; [done|]. apply Qlt_le_weak, pow2_pos.
  - apply Qle_trans with (pow2 (mag x + 1)); [by apply rnd_pos_bounds|].
    apply Qle_trans with (pow2 (mag y)); [apply pow2_le; lia|]. by apply rnd_pos_bounds.
Qed.

Lemma nearest_opp x : nearest (- x)%Q = - nearest x.
Proof.
  unfold nearest. destruct x as [n d]. cbn [Qnum Qden Qopp]. generalize (Zpos d) (Pos2Z.is_pos d). intros z Hz.
  unfold rdiv. destruct (Z.eq_dec (n mod z) 0) as [E|E].
  - rewrite Z.mod_opp_l_z, Z.div_opp_l_z, E by lia.
    destruct (Z.compare_spec (2 * 0) z); lia.
  - rewrite Z.mod_opp_l_nz, Z.div_opp_l_nz by lia. pose proof (Z.mod_pos_bound n z Hz).
    destruct (Z.compare_spec (2 * (z - n mod z)) z), (Z.compare_spec (2 * (n mod z)) z); try lia.
    replace (- (n / z) - 1) with (- Z.succ (n / z)) by lia. rewrite Z.even_opp, Z.even_succ, <- Z.negb_even.
    destruct (Z.even (n / z)); cbn; lia.
Qed.

Lemma rnd_opp x : (rnd p (- x) == - rnd p x)%Q.
Proof.
  destruct (Qeq_dec x 0) as [E|E].
  - rewrite !rnd_zero; [done|done|]. by rewrite E.
  - rewrite (rnd_nonzero x E), rnd_nonzero, mag_opp.
    + assert (Hs : (- x * pow2 (- (mag x - (p - 1))) == - (x * pow2 (- (mag x - (p - 1)))))%Q) by ring.
      rewrite Hs, nearest_opp, inject_Z_opp. ring.
    + intros E'. apply E. rewrite <- (Qopp_involutive x), E'. done.
Qed.

Lemma rnd_nonneg x : (0 <= x)%Q → (0 <= rnd p x)%Q.
Proof.
  intros Hx. destruct (Qeq_dec x 0) as [E|E]; [by rewrite rnd_zero; [apply Qle_refl|]|].
  assert (Hp : (0 < x)%Q) by (apply Qle_lteq in Hx as [?|E']; [done|by symmetry in E']).
  apply Qle_trans with (pow2 (mag x)); [apply Qlt_le_weak, pow2_pos|]. by apply rnd_pos_bounds.
Qed.

Lemma rnd_mono x y : (x <= y)%Q → (rnd p x <= rnd p y)%Q.
Proof.
  intros Hxy. destruct (Qlt_le_dec 0 x) as [Hx|Hx]; [by apply rnd_mono_pos|].
  destruct (Qlt_le_dec y 0) as [Hy|Hy].
  - apply Qopp_le_compat in Hxy. apply (rnd_mono_pos (- y) (- x)) in Hxy; [|lra].
    rewrite !rnd_opp in Hxy. lra.
  - apply Qle_trans with 0%Q; [|by apply rnd_nonneg].
    assert (0 <= rnd p (- x))%Q by (apply rnd_nonneg; lra). rewrite rnd_opp in *. lra.
Qed.

#[export] Instance rnd_proper : Proper (Qeq ==> Qeq) (rnd p).
Proof. intros x y E. apply Qle_antisym; apply rnd_mono; rewrite E; apply Qle_refl. Qed.

(** A number that needs at most [p] bits is left alone. *)
Lemma rnd_exact k e : Z.abs k < 2 ^ p → (rnd p (inject_Z k * pow2 e) == inject_Z k * pow2 e)%Q.
Proof.
  assert (Hpos : ∀ k, 0 < k → k < 2 ^ p → (rnd p (inject_Z k * pow2 e) == inject_Z k * pow2 e)%Q).
  { clear k. intros k Hk Hlt. set (x := (inject_Z k * pow2 e)%Q).
    assert (Hx : (0 < x)%Q).
    { apply Qmult_lt_0_compat; [|apply pow2_pos]. change 0%Q with (inject_Z 0). by rewrite <- Zlt_Qlt. }
    rewrite (rnd_pos x Hx). pose proof (mag_pos x Hx) as [Hlo _].
    assert (mag x < p + e).
    { apply pow2_lt_inv. apply Qle_lt_trans with x; [done|]. unfold x. rewrite pow2_add.
      apply Qmult_lt_r; [apply pow2_pos|]. rewrite (pow2_nonneg p) by lia. by rewrite <- Zlt_Qlt. }
    set (e' := mag x - (p - 1)) in *.
    assert (Hs : (x * pow2 (- e') == inject_Z (k * 2 ^ (e - e')))%Q).
    { rewrite inject_Z_mult, <- pow2_nonneg by (unfold e'; lia). unfold x.
      replace (e - e') with (e + - e') by lia. rewrite (pow2_add e). ring. }
    rewrite Hs, nearest_int, <- Hs, <- Qmult_assoc, pow2_opp. ring. }
  intros Hk. destruct (Z.lt_trichotomy k 0) as [Hn|[->|Hp]].
  - specialize (Hpos (- k) ltac:(lia) ltac:(lia)). rewrite inject_Z_opp in Hpos.
    assert (E : (inject_Z k * pow2 e == - (- inject_Z k * pow2 e))%Q) by ring.
    by rewrite E, rnd_opp, Hpos.
  - rewrite rnd_zero; ring.
  - apply Hpos; lia.
Qed.

Lemma rnd_int z : Z.abs z < 2 ^ p → (rnd p (inject_Z z) == inject_Z z)%Q.
Proof.
  intros Hz. pose proof (rnd_exact z 0 Hz) as E. change (pow2 0) with 1%Q in E.
  by rewrite Qmult_1_r in E.
Qed.

Lemma rnd_idem x : (rnd p (rnd p x) == rnd p x)%Q.
Proof.
  destruct (Qeq_dec x 0) as [E|E]; [by rewrite !rnd_zero; rewrite ?rnd_zero|].
  pose proof (rnd_nonzero x E) as Hr. set (e := mag x - (p - 1)) in *.
  set (k := nearest (x * pow2 (- e))) in *.
  assert (Hk : Z.abs k ≤ 2 ^ p).
  { destruct (Qlt_le_dec 0 x) as [Hp|Hn].
    - pose proof (scaled_bounds x Hp) as [Hlo Hhi]. fold e k in Hlo, Hhi.
      assert (0 < 2 ^ (p - 1)) by (apply Z.pow_pos_nonneg; lia). lia.
    - assert (Hp : (0 < - x)%Q) by (apply Qnot_le_lt; intros ?; apply E; lra).
      pose proof (scaled_bounds (- x) Hp) as [Hlo Hhi]. rewrite mag_opp in Hlo, Hhi. fold e in Hlo, Hhi.
      assert (Hs : (- x * pow2 (- e) == - (x * pow2 (- e)))%Q) by ring.
      rewrite Hs, nearest_opp in Hlo, Hhi. fold k in Hlo, Hhi.
      assert (0 < 2 ^ (p - 1)) by (apply Z.pow_pos_nonneg; lia). lia. }
  rewrite Hr. destruct (Z.eq_dec (Z.abs k) (2 ^ p)) as [Hb|Hb]; [|apply rnd_exact; lia].
  assert (Hx : (inject_Z k * pow2 e == inject_Z (Z.sgn k) * pow2 (p + e))%Q).
  { rewrite pow2_add, (pow2_nonneg p) by lia. rewrite <- (Z.abs_sgn k) at 1. rewrite inject_Z_mult, Hb. ring. }
  rewrite Hx. apply rnd_exact. assert (1 < 2 ^ p) by (apply Z.pow_gt_1; lia). destruct k; cbn; lia.
Qed.

(** The relative error of a rounding. *)
Lemma rnd_error x : (0 <= x)%Q → (x * (1 - pow2 (- p)) <= rnd p x <= x * (1 + pow2 (- p)))%Q.
Proof.
  intros Hx. destruct (Qeq_dec x 0) as [E|E].
  { rewrite rnd_zero by done. rewrite E. split; ring_simplify; apply Qle_refl. }
  assert (Hp : (0 < x)%Q) by (apply Qle_lteq in Hx as [?|E']; [done|by symmetry in E']).
  rewrite (rnd_pos x Hp). pose proof (mag_pos x Hp) as [Hlo _]. set (e := mag x - (p - 1)) in *.
  pose proof (nearest_bounds (x * pow2 (- e))) as [Hn1 Hn2].
  pose proof (pow2_pos e) as He. pose proof (pow2_opp e) as Hinv.
  assert (Hhalf : (pow2 e * (1 # 2) <= x * pow2 (- p))%Q).
  { apply Qle_trans with (pow2 (mag x) * pow2 (- p))%Q.
    - rewrite <- pow2_add. replace (mag x + - p) with (e + - (1)) by (unfold e; lia). rewrite pow2_add.
      apply Qle_refl.
    - apply Qmult_le_compat_r; [done|]. apply Qlt_le_weak, pow2_pos. }
  set (m := inject_Z (nearest (x * pow2 (- e)))) in *.
  assert (Hx' : (x == x * pow2 (- e) * pow2 e)%Q) by (rewrite <- Qmult_assoc, Hinv; ring).
  apply (Qmult_le_compat_r _ _ (pow2 e)) in Hn1, Hn2; [|by apply Qlt_le_weak..].
  rewrite <- Hx' in Hn1, Hn2. ring_simplify in Hn1. ring_simplify in Hn2. split; lra.
Qed.
End Rounding.

(** ** float64 *)

#[export] Instance f64_proper : Proper (Qeq ==> Qeq) f64.
Proof. unfold f64. apply rnd_proper. lia. Qed.

Lemma f64_mono x y : (x <= y)%Q → (f64 x <= f64 y)%Q.
Proof. apply rnd_mono. lia. Qed.

Lemma f64_int z : Z.abs z < 2 ^ 53 → (f64 (inject_Z z) == inject_Z z)%Q.
Proof. apply rnd_int. lia. Qed.

Lemma f64_of_int_exact z : Z.abs z < 2 ^ 53 → (f64_of_int z == inject_Z z)%Q.
Proof. apply f64_int. Qed.

Lemma f64_of_int_mono a b : a ≤ b → (f64_of_int a <= f64_of_int b)%Q.
Proof. intros. apply f64_mono. by rewrite <- Zle_Qle. Qed.

Lemma f64_zero x : (x == 0)%Q → (f64 x == 0)%Q.
Proof. apply rnd_zero. Qed.

Lemma int_of_float_floor x k : (0 <= x)%Q → (inject_Z k <= x)%Q → (x < inject_Z (k + 1))%Q → int_of_float x = k.
Proof.
  destruct x as [n d]. unfold Qle, Qlt, int_of_float, inject_Z. cbn [Qnum Qden]. intros Hn Hlo Hhi.
  rewrite Z.quot_div_nonneg by lia. symmetry. apply (Z.div_unique_pos _ _ _ (n - k * Zpos d)); lia.
Qed.

#[export] Instance int_of_float_proper : Proper (Qeq ==> eq) int_of_float.
Proof.
  intros [n d] [m e] E. unfold Qeq, int_of_float in *. cbn [Qnum Qden] in *.
  rewrite <- (Z.quot_mul_cancel_r n (Zpos d) (Zpos e)), <- (Z.quot_mul_cancel_r m (Zpos e) (Zpos d)) by lia.
  by rewrite E, (Z.mul_comm (Zpos d)).
Qed.

Lemma int_of_float_int k : int_of_float (inject_Z k) = k.
Proof. unfold int_of_float. cbn. by rewrite Z.quot_1_r. Qed.

Lemma int_of_float_mono x y : (x <= y)%Q → int_of_float x ≤ int_of_float y.
Proof.
  destruct x as [n d], y as [m e]. unfold Qle, int_of_float. cbn [Qnum Qden]. intros Hle.
  rewrite <- (Z.quot_mul_cancel_r n (Zpos d) (Zpos e)), <- (Z.quot_mul_cancel_r m (Zpos e) (Zpos d)) by lia.
  rewrite (Z.mul_comm (Zpos d)). apply Z.quot_le_mono; [by apply Z.mul_pos_pos|exact Hle].
Qed.

(** The truncated float64 quotient of two integers of at most 53 bits is their
    integer quotient: rounding never crosses an integer. *)
Lemma f64_div_floor a b :
  0 ≤ a < 2 ^ 53 → 0 < b < 2 ^ 53 → int_of_float (f64_div (f64_of_int a) (f64_of_int b)) = a / b.
Proof.
  intros Ha Hb. unfold f64_div. rewrite !f64_of_int_exact by lia.
  pose proof (Z.div_mod a b ltac:(lia)) as Hdm. pose proof (Z.mod_pos_bound a b ltac:(lia)) as Hm.
  set (k := a / b) in *. assert (Hk : 0 ≤ k) by (apply Z.div_pos; lia).
  assert (Hk53 : k < 2 ^ 53) by nia.
  assert (Hbq : (0 < inject_Z b)%Q) by (change 0%Q with (inject_Z 0); rewrite <- Zlt_Qlt; lia).
  assert (Hlo : (inject_Z k <= inject_Z a / inject_Z b)%Q).
  { apply Qle_shift_div_l; [done|]. rewrite <- inject_Z_mult, <- Zle_Qle. nia. }
  assert (Hnn : (0 <= inject_Z a / inject_Z b)%Q).
  { apply Qle_trans with (inject_Z k); [|done]. change 0%Q with (inject_Z 0). by rewrite <- Zle_Qle. }
  assert (Hge : (inject_Z k <= f64 (inject_Z a / inject_Z b))%Q).
  { rewrite <- (f64_int k) at 1 by lia. by apply f64_mono. }
  apply int_of_float_floor; [|done|].
  - apply Qle_trans with (inject_Z k); [|done]. change 0%Q with (inject_Z 0). by rewrite <- Zle_Qle.
  - pose proof (rnd_error 53 _ Hnn) as [_ Herr]. apply Qle_lt_trans with (1 := Herr).
    assert (Hq : (inject_Z a / inject_Z b * (1 + pow2 (- 53)) ==
                  (inject_Z a + inject_Z a * pow2 (- 53)) / inject_Z b)%Q) by (field; lra).
    rewrite Hq. apply Qlt_shift_div_r; [done|].
    assert (inject_Z a * pow2 (- 53) < 1)%Q.
    { apply Qlt_le_trans with (pow2 53 * pow2 (- 53))%Q; [|rewrite <- pow2_add; apply Qle_refl].
      apply Qmult_lt_r; [apply pow2_pos|]. rewrite (pow2_nonneg 53) by lia. rewrite <- Zlt_Qlt. lia. }
    assert (inject_Z a + 1 <= inject_Z (k + 1) * inject_Z b)%Q.
    { change 1%Q with (inject_Z 1). rewrite <- inject_Z_plus, <- inject_Z_mult, <- Zle_Qle. nia. }
    lra.
Qed.

(** Rounding as the language does it: 0.1 + 0.2 is not 0.3. *)
Example f64_add_example :
  f64_add (f64 (1 # 10)) (f64 (2 # 10)) = (1351079888211149 # 4503599627370496)%Q ∧
  f64 (3 # 10) = (5404319552844595 # 18014398509481984)%Q.
Proof. split; by vm_compute. Qed.

(** ** Comparisons *)

Lemma f_lt_iff x y : f_lt x y = true ↔ (x < y)%Q.
Proof.
  unfold f_lt. rewrite negb_true_iff, <- not_true_iff_false, Qle_bool_iff.
  split; [apply Qnot_le_lt|apply Qlt_not_le].
Qed.

Lemma f_lt_false x y : f_lt x y = false ↔ (y <= x)%Q.
Proof. unfold f_lt. by rewrite negb_false_iff, Qle_bool_iff. Qed.

Lemma f_le_iff x y : f_le x y = true ↔ (x <= y)%Q.
Proof. apply Qle_bool_iff. Qed.

Lemma f_min_le x y : (f_min x y <= x)%Q ∧ (f_min x y <= y)%Q.
Proof.
  unfold f_min. destruct (f_lt y x) eqn:E; [apply f_lt_iff in E|apply f_lt_false in E]; lra.
Qed.

Lemma f_max_ge x y : (x <= f_max x y)%Q ∧ (y <= f_max x y)%Q.
Proof.
  unfold f_max. destruct (f_lt x y) eqn:E; [apply f_lt_iff in E|apply f_lt_false in E]; lra.
Qed.

Lemma f_min_glb x y z : (z <= x)%Q → (z <= y)%Q → (z <= f_min x y)%Q.
Proof. unfold f_min. by destruct (f_lt y x). Qed.

Lemma f_max_lub x y z : (x <= z)%Q → (y <= z)%Q → (f_max x y <= z)%Q.
Proof. unfold f_max. by destruct (f_lt x y). Qed.

Lemma f_clamp_mono lo hi x y : (x <= y)%Q → (f_max lo (f_min hi x) <= f_max lo (f_min hi y))%Q.
Proof.
  intros Hxy. pose proof (f_max_ge lo (f_min hi y)) as [? ?]. pose proof (f_min_le hi x) as [? ?].
  apply f_max_lub; [done|]. apply Qle_trans with (f_min hi y); [|done].
  apply f_min_glb; lra.
Qed.

Lemma f64_nonneg x : (0 <= x)%Q → (0 <= f64 x)%Q.
Proof. apply rnd_nonneg. lia. Qed.

Lemma f64_of_int_pos z : 0 < z → (0 < f64_of_int z)%Q.
Proof.
  intros Hz. apply Qlt_le_trans with 1%Q; [done|]. rewrite <- (f64_of_int_exact 1) by lia.
  apply f64_of_int_mono. lia.
Qed.

Lemma f64_div_mono x y z : (0 < z)%Q → (x <= y)%Q → (f64_div x z <= f64_div y z)%Q.
Proof.
  intros Hz Hxy. apply f64_mono. unfold Qdiv. apply Qmult_le_compat_r; [done|].
  apply Qlt_le_weak. by apply Qinv_lt_0_compat.
Qed.

Lemma f64_mul_mono x y z : (0 <= z)%Q → (x <= y)%Q → (f64_mul x z <= f64_mul y z)%Q.
Proof. intros Hz Hxy. apply f64_mono. by apply Qmult_le_compat_r. Qed.

Lemma f64_add_mono x y x' y' : (x <= x')%Q → (y <= y')%Q → (f64_add x y <= f64_add x' y')%Q.
Proof. intros. apply f64_mono. by apply Qplus_le_compat. Qed.

Lemma f64_sub_anti x y y' : (y <= y')%Q → (f64_sub x y' <= f64_sub x y)%Q.
Proof. intros. apply f64_mono. lra. Qed.

Lemma f64_idem x : (f64 (f64 x) == f64 x)%Q.
Proof. apply rnd_idem. lia. Qed.

Lemma f64_grows x b : (0 <= b)%Q → (f64 x <= f64_add (f64 x) b)%Q.
Proof. intros Hb. rewrite <- (f64_idem x) at 1. apply f64_mono. lra. Qed.

(** ** math.Round: to the nearest integer, half away from zero *)

Definition Round (x : Q) : Z :=
  if f_le 0 x then Qfloor (x + (1 # 2)) else - Qfloor (- x + (1 # 2)).

Lemma Round_int z : Round (inject_Z z) = z.
Proof.
  assert (∀ k, Qfloor (inject_Z k + (1 # 2)) = k) as Hfloor.
  { intros k. unfold Qfloor, Qplus, inject_Z. cbn [Qnum Qden]. Z.div_mod_to_equations. lia. }
  unfold Round. destruct (f_le 0 (inject_Z z)); [apply Hfloor|].
  rewrite <- inject_Z_opp, Hfloor. lia.
Qed.

#[export] Instance Round_proper : Proper (Qeq ==> eq) Round.
Proof.
  intros x y E. unfold Round, f_le.
  assert (Qle_bool 0 x = Qle_bool 0 y) as ->.
  { destruct (Qle_bool 0 x) eqn:E1, (Qle_bool 0 y) eqn:E2; try done.
    - rewrite Qle_bool_iff, E, <- Qle_bool_iff in E1. congruence.
    - rewrite Qle_bool_iff, <- E, <- Qle_bool_iff in E2. congruence. }
  destruct (Qle_bool 0 y); [by rewrite E|]. by rewrite E.
Qed.

Lemma Round_mono x y : (x <= y)%Q → Round x ≤ Round y.
Proof.
  intros Hxy. unfold Round. destruct (f_le 0 x) eqn:Ex, (f_le 0 y) eqn:Ey.
  - apply Qfloor_resp_le. lra.
  - apply f_le_iff in Ex. assert (f_le 0 y = true) as E by (apply f_le_iff; lra). congruence.
  - assert (x < 0)%Q as Hx.
    { apply Qnot_le_lt. intros E. apply f_le_iff in E. congruence. }
    apply f_le_iff in Ey. apply Z.le_trans with 0.
    + enough (0 ≤ Qfloor (- x + (1 # 2))) by lia. change 0 with (Qfloor 0). apply Qfloor_resp_le. lra.
    + change 0 with (Qfloor 0). apply Qfloor_resp_le. lra.
  - enough (Qfloor (- y + (1 # 2)) ≤ Qfloor (- x + (1 # 2))) by lia. apply Qfloor_resp_le. lra.
Qed.

(** A rounded value between two integers stays between them. *)
Lemma Round_bounds x a b : (inject_Z a <= x <= inject_Z b)%Q → a ≤ Round x ≤ b.
Proof.
  intros [Ha Hb]. split; [rewrite <- (Round_int a)|rewrite <- (Round_int b)]; by apply Round_mono.
Qed.

#[export] Instance f64_add_proper : Proper (Qeq ==> Qeq ==> Qeq) f64_add.
Proof. intros x x' E1 y y' E2. unfold f64_add. by rewrite E1, E2. Qed.
#[export] Instance f64_sub_proper : Proper (Qeq ==> Qeq ==> Qeq) f64_sub.
Proof. intros x x' E1 y y' E2. unfold f64_sub. by rewrite E1, E2. Qed.
#[export] Instance f64_mul_proper : Proper (Qeq ==> Qeq ==> Qeq) f64_mul.
Proof. intros x x' E1 y y' E2. unfold f64_mul. by rewrite E1, E2. Qed.
#[export] Instance f64_div_proper : Proper (Qeq ==> Qeq ==> Qeq) f64_div.
Proof. intros x x' E1 y y' E2. unfold f64_div. by rewrite E1, E2. Qed.

Lemma f64_mul_mono_r x y z : (0 <= z)%Q → (x <= y)%Q → (f64_mul z x <= f64_mul z y)%Q.
Proof. intros Hz Hxy. apply f64_mono. rewrite !(Qmult_comm z). by apply Qmult_le_compat_r. Qed.

Lemma f64_sub_mono x x' y y' : (x <= x')%Q → (y' <= y)%Q → (f64_sub x y <= f64_sub x' y')%Q.
Proof. intros. apply f64_mono. lra. Qed.

(** Arithmetic on small integers is exact. *)
Lemma f64_mul_int a b :
  Z.abs (a * b) < 2 ^ 53 → (f64_mul (inject_Z a) (inject_Z b) == inject_Z (a * b))%Q.
Proof. intros Hab. unfold f64_mul. rewrite <- inject_Z_mult. by apply f64_int. Qed.

Lemma f64_add_int a b :
  Z.abs (a + b) < 2 ^ 53 → (f64_add (inject_Z a) (inject_Z b) == inject_Z (a + b))%Q.
Proof. intros Hab. unfold f64_add. rewrite <- inject_Z_plus. by apply f64_int. Qed.

Lemma f64_sub_int a b :
  Z.abs (a - b) < 2 ^ 53 → (f64_sub (inject_Z a) (inject_Z b) == inject_Z (a - b))%Q.
Proof.
  intros Hab. unfold f64_sub. assert (inject_Z a - inject_Z b == inject_Z (a - b))%Q as E.
  { unfold Qminus. by rewrite <- inject_Z_opp, <- inject_Z_plus. }
  rewrite <- (f64_int (a - b)) by done. by rewrite E.
Qed.
