(* ===== verification/GoSort.v ===== *)
(** * Package sort of the Go standard library

    [sort.Slice], [sort.Sort] and [sort.Strings] permute their argument and,
    when the less function is a strict weak order, leave it sorted; they are
    not stable.  [GoSort] says that and no more, so that what is proved about a
    caller holds for every sorting algorithm.  [sort.Search] is the documented
    binary search, written out. *)

From S2P Require Import Prelude.

(** The contract of a less function. *)
Record StrictWeak {A} (less : A → A → bool) : Prop := {
  sw_asym : ∀ a b, less a b = true → less b a = false;
  sw_negtrans : ∀ a b c, less a b = false → less b c = false → less a c = false;
}.

Definition not_after {A} (less : A → A → bool) (a b : A) : Prop := less b a = false.

Class GoSort : Type := {
  sort_slice : ∀ {A : Type}, (A → A → bool) → list A → list A;
  sort_slice_perm : ∀ (A : Type) (less : A → A → bool) (l : list A),
    sort_slice less l ≡ₚ l;
  sort_slice_sorted : ∀ (A : Type) (less : A → A → bool) (l : list A),
    StrictWeak less → StronglySorted (not_after less) (sort_slice less l);
}.

Section Insertion.
Context {A : Type} (less : A → A → bool).

Fixpoint insert_sorted (x : A) (l : list A) : list A :=
  match l with
  | [] => [x]
  | y :: l' => if less y x then y :: insert_sorted x l' else x :: y :: l'
  end.

Definition insertion_sort (l : list A) : list A := foldr insert_sorted [] l.

Lemma insert_sorted_perm x l : insert_sorted x l ≡ₚ x :: l.
Proof.
  induction l as [|y l IH]; simpl; [done|].
  destruct (less y x); [|done]. rewrite IH. apply Permutation_swap.
Qed.

Lemma insertion_sort_perm l : insertion_sort l ≡ₚ l.
Proof. induction l as [|x l IH]; simpl; [done|]. by rewrite insert_sorted_perm, IH. Qed.

Lemma insert_sorted_sorted x l :
  StrictWeak less →
  StronglySorted (not_after less) l → StronglySorted (not_after less) (insert_sorted x l).
Proof.
  intros Hsw. induction 1 as [|y l Hl IH Hy]; simpl; [by repeat constructor|].
  destruct (less y x) eqn:Hyx.
  - constructor; [done|]. rewrite insert_sorted_perm. constructor; [|done].
    by apply (sw_asym _ Hsw).
  - constructor; [by constructor|]. constructor; [done|].
    eapply Forall_impl; [exact Hy|]. unfold not_after. intros z Hz.
    by eapply (sw_negtrans _ Hsw).
Qed.

Lemma insertion_sort_sorted l :
  StrictWeak less → StronglySorted (not_after less) (insertion_sort l).
Proof. intros. induction l; simpl; [constructor|]. by apply insert_sorted_sorted. Qed.
End Insertion.

#[export] Instance insertion_GoSort : GoSort := {|
  sort_slice := @insertion_sort;
  sort_slice_perm := @insertion_sort_perm;
  sort_slice_sorted := @insertion_sort_sorted;
|}.

Lemma sort_slice_elem `{GoSort} {A} (less : A → A → bool) (l : list A) x :
  x ∈ sort_slice less l ↔ x ∈ l.
Proof. by rewrite sort_slice_perm. Qed.

Lemma StronglySorted_filter {A} (R : A → A → Prop) (P : A → Prop) `{!∀ x, Decision (P x)} (l : list A) :
  StronglySorted R l → StronglySorted R (filter P l).
Proof.
  induction 1 as [|x l Hs IH Hx]; [constructor|]. rewrite filter_cons. case_decide; [|done]. constructor; [done|].
  rewrite Forall_forall in *. intros y [_ Hy]%list_elem_of_filter. auto.
Qed.

Lemma StronglySorted_lookup {A} (R : A → A → Prop) (l : list A) i j x y :
  StronglySorted R l → l !! i = Some x → l !! j = Some y → (i < j)%nat → R x y.
Proof.
  intros Hs. revert i j. induction Hs as [|a l _ IH Ha]; intros i j Hi Hj Hij; [done|].
  destruct j as [|j]; [lia|]. destruct i as [|i]; simpl in *.
  - injection Hi as <-. rewrite Forall_forall in Ha. apply Ha. by eapply list_elem_of_lookup_2.
  - apply (IH i j); [done|done|lia].
Qed.

(** An element before another one in a sorted slice is not after it. *)
Lemma sort_slice_lookup `{GoSort} {A} (less : A → A → bool) (l : list A) i j x y :
  StrictWeak less → sort_slice less l !! i = Some x → sort_slice less l !! j = Some y →
  (i < j)%nat → less y x = false.
Proof. intros Hsw. apply (StronglySorted_lookup (not_after less)). by apply sort_slice_sorted. Qed.

(** The first element of a sorted slice is minimal, the last one maximal. *)
Lemma sort_slice_head `{GoSort} {A} (less : A → A → bool) (l : list A) x y :
  StrictWeak less → head (sort_slice less l) = Some x → y ∈ l → less y x = false.
Proof.
  intros Hsw Hx Hy. apply (sort_slice_elem less) in Hy.
  pose proof (sort_slice_sorted A less l Hsw) as Hs.
  destruct (sort_slice less l) as [|z l']; [done|]. injection Hx as ->.
  inversion Hs as [|? ? ? Hall]; subst. apply elem_of_cons in Hy as [->|Hy].
  - destruct (less x x) eqn:E; [|done]. by rewrite (sw_asym _ Hsw _ _ E) in E.
  - by eapply Forall_forall in Hall.
Qed.

Lemma sort_slice_last `{GoSort} {A} (less : A → A → bool) (l : list A) x y :
  StrictWeak less → last (sort_slice less l) = Some x → y ∈ l → less x y = false.
Proof.
  intros Hsw Hx Hy. apply (sort_slice_elem less) in Hy.
  pose proof (sort_slice_sorted A less l Hsw) as Hs.
  apply last_Some in Hx as [l' Hl]. rewrite Hl in Hs, Hy.
  apply elem_of_app in Hy as [Hy|Hy%list_elem_of_singleton].
  - apply StronglySorted_app in Hs as (Hall & _ & _).
    eapply Hall; [done|]. by apply list_elem_of_singleton.
  - subst. destruct (less x x) eqn:E; [|done]. by rewrite (sw_asym _ Hsw _ _ E) in E.
Qed.

(** ** Less functions built from a key *)

Lemma less_key_strict_weak {A} (key : A → Z) : StrictWeak (λ a b, bool_decide (key a < key b)).
Proof.
  split; intros *; rewrite ?bool_decide_eq_true, ?bool_decide_eq_false; lia.
Qed.

Lemma greater_key_strict_weak {A} (key : A → Z) : StrictWeak (λ a b, bool_decide (key a > key b)).
Proof.
  split; intros *; rewrite ?bool_decide_eq_true, ?bool_decide_eq_false; lia.
Qed.

(** ** sort.Search

    The smallest index in [0, n) at which [f] is true, [n] if there is none,
    assuming [f] is monotone; the loop halves the interval [i, j). *)

Fixpoint search_loop (f : Z → bool) (fuel : nat) (i j : Z) : Z :=
  match fuel with
  | O => i
  | S fuel' =>
      if bool_decide (i < j) then
        let h := (i + j) / 2 in
        if f h then search_loop f fuel' i h else search_loop f fuel' (h + 1) j
      else i
  end.

Definition Search (n : Z) (f : Z → bool) : Z := search_loop f (S (Z.to_nat n)) 0 n.

Lemma search_loop_spec f fuel i j :
  i ≤ j → j - i < Z.of_nat fuel →
  (∀ a b, i ≤ a → a ≤ b → b < j → f a = true → f b = true) →
  let r := search_loop f fuel i j in
  i ≤ r ≤ j ∧ (∀ k, i ≤ k < r → f k = false) ∧ (∀ k, r ≤ k < j → f k = true).
Proof.
  revert i j. induction fuel as [|fuel IH]; intros i j Hij Hfuel Hmono; [lia|]. simpl.
  case_bool_decide as Hlt; [|split; [lia|split; intros; lia]].
  set (h := (i + j) / 2). assert (i ≤ h < j) by (subst h; Z.div_mod_to_equations; lia).
  destruct (f h) eqn:Hh.
  - destruct (IH i h) as (? & ? & Hup); [lia|lia|intros; eapply Hmono; eauto; lia|].
    split; [lia|]. split; [done|]. intros k Hk.
    destruct (decide (k < h)); [apply Hup; lia|]. eapply (Hmono h k); eauto; lia.
  - destruct (IH (h + 1) j) as (? & Hlo & ?); [lia|lia|intros a b ? ? ? Ha; apply (Hmono a b); [lia|lia|lia|exact Ha]|].
    split; [lia|]. split; [|done]. intros k Hk.
    destruct (decide (h < k)); [apply Hlo; lia|].
    destruct (f k) eqn:Hfk; [|done]. rewrite (Hmono k h) in Hh; [done|lia..|done].
Qed.

Lemma Search_spec f n :
  0 ≤ n →
  (∀ a b, 0 ≤ a → a ≤ b → b < n → f a = true → f b = true) →
  0 ≤ Search n f ≤ n ∧ (∀ k, 0 ≤ k < Search n f → f k = false) ∧
  (∀ k, Search n f ≤ k < n → f k = true).
Proof. intros. apply search_loop_spec; [lia|lia|done]. Qed.
