(* ===== verification/Strconv.v ===== *)
(** * Strings of the Go standard library: strconv, strings, path, order and binary search

    [ParseInt] for base 10: an optional sign and at least one decimal digit;
    a value out of the range of the bit size is an error. *)

From S2P Require Import Prelude.
From Stdlib Require Import Ascii.

Definition digit_of (a : ascii) : option Z :=
  let n := Z.of_nat (nat_of_ascii a) in
  if bool_decide (48 ≤ n ≤ 57) then Some (n - 48) else None.

Fixpoint parse_digits (acc : Z) (s : string) : option Z :=
  match s with
  | EmptyString => Some acc
  | String a s => d ← digit_of a; parse_digits (10 * acc + d) s
  end.

Definition parse_unsigned (s : string) : option Z :=
  match s with EmptyString => None | _ => parse_digits 0 s end.

Definition ParseInt (s : string) (bitSize : Z) : option Z :=
  v ← match s with
      | String "-" s => Z.opp <$> parse_unsigned s
      | String "+" s => parse_unsigned s
      | s => parse_unsigned s
      end;
  if bool_decide (- 2 ^ (bitSize - 1) ≤ v < 2 ^ (bitSize - 1)) then Some v else None.

Lemma ParseInt_range s bitSize v :
  ParseInt s bitSize = Some v → - 2 ^ (bitSize - 1) ≤ v < 2 ^ (bitSize - 1).
Proof.
  unfold ParseInt. intros (z & _ & Hz)%bind_Some. case_bool_decide; [by injection Hz as <-|done].
Qed.

Example ParseInt_negative : ParseInt "-120" 32 = Some (-120).
Proof. reflexivity. Qed.
Example ParseInt_out_of_range : ParseInt "2147483648" 32 = None.
Proof. reflexivity. Qed.

(** ** The order of strings

    Go compares strings bytewise, as [String.compare] does. *)

Definition str_lt (s t : string) : bool :=
  match String.compare s t with Lt => true | _ => false end.

Lemma str_compare_refl s : String.compare s s = Eq.
Proof.
  induction s as [|a s IH]; [done|]. simpl. unfold Ascii.compare. by rewrite N.compare_refl.
Qed.

Lemma str_lt_irrefl s : str_lt s s = false.
Proof. unfold str_lt. by rewrite str_compare_refl. Qed.

Lemma str_lt_trichotomy s t : s ≠ t → str_lt s t = false → str_lt t s = true.
Proof.
  unfold str_lt. intros Hne Hst. rewrite String.compare_antisym.
  destruct (String.compare s t) eqn:E; [|done|done]. by apply String.compare_eq_iff in E.
Qed.

Lemma str_lt_asym s t : str_lt s t = true → str_lt t s = false.
Proof.
  unfold str_lt. intros Hst. rewrite String.compare_antisym. by destruct (String.compare s t).
Qed.

Lemma ascii_compare_spec a b :
  Ascii.compare a b = N.compare (N_of_ascii a) (N_of_ascii b).
Proof. done. Qed.

Lemma str_lt_trans s t u : str_lt s t = true → str_lt t u = true → str_lt s u = true.
Proof.
  unfold str_lt. revert t u. induction s as [|a s IH]; intros [|b t] [|c u]; simpl; try done.
  rewrite !ascii_compare_spec. specialize (IH t u).
  destruct (N.compare_spec (N_of_ascii a) (N_of_ascii b)) as [Eab|Lab|Lab],
    (N.compare_spec (N_of_ascii b) (N_of_ascii c)) as [Ebc|Lbc|Lbc]; try done;
    destruct (N.compare_spec (N_of_ascii a) (N_of_ascii c)); try done; lia.
Qed.

(** ** Binary search over a slice sorted by a string key

    The loop shape [low <= high] with [mid = (low + high) / 2] that several
    functions of the repository share; an index out of range would panic. *)

Section BinarySearch.
Context {A : Type} (key : A → string).

Fixpoint bsearch_loop (fuel : nat) (l : list A) (target : string) (low high : Z) : outcome (option A) :=
  match fuel with
  | O => Panic
  | S fuel =>
      if bool_decide (low <= high) then
        let mid := (low + high) / 2 in
        x ← index l mid;
        if bool_decide (key x = target) then Ret (Some x)
        else if str_lt (key x) target then bsearch_loop fuel l target (mid + 1) high
        else bsearch_loop fuel l target low (mid - 1)
      else Ret None
  end.

Definition bsearch (l : list A) (target : string) : outcome (option A) :=
  bsearch_loop (S (length l)) l target 0 (Z.of_nat (length l) - 1).

Lemma index_some (l : list A) i x : l !! Z.to_nat i = Some x → 0 ≤ i → index l i = Ret x.
Proof. intros Hx Hi. unfold index. rewrite decide_True by done. by rewrite Hx. Qed.

(** The search returns on every slice, sorted or not, never leaves the
    slice, and what it finds has the key. *)
Lemma bsearch_loop_sound fuel l target low high :
  high - low + 1 < Z.of_nat fuel → low ≤ high + 1 → 0 ≤ low → high < Z.of_nat (length l) →
  ∃ r, bsearch_loop fuel l target low high = Ret r ∧
       ∀ x, r = Some x → x ∈ l ∧ key x = target.
Proof.
  revert low high. induction fuel as [|fuel IH]; intros low high Hf Hlh Hlow Hhigh; [lia|].
  cbn [bsearch_loop]. case_bool_decide as Hle; [|by exists None].
  set (mid := (low + high) / 2). assert (low ≤ mid ≤ high) by (subst mid; Z.div_mod_to_equations; lia).
  destruct (lookup_lt_is_Some_2 l (Z.to_nat mid)) as [x Hx]; [clearbody mid; lia|].
  rewrite (index_some l mid x) by (done || lia). cbn.
  case_bool_decide as Hk.
  - exists (Some x). split; [done|]. intros ? [= <-]. split; [by eapply list_elem_of_lookup_2|done].
  - destruct (str_lt (key x) target); apply IH; lia.
Qed.

Definition key_sorted (l : list A) : Prop :=
  ∀ i j x y, l !! i = Some x → l !! j = Some y → (i < j)%nat → str_lt (key y) (key x) = false.

(** On a sorted slice it finds the key whenever it is there. *)
Lemma bsearch_loop_complete fuel l target low high r i y :
  key_sorted l → 0 ≤ low →
  bsearch_loop fuel l target low high = Ret r →
  l !! i = Some y → low ≤ Z.of_nat i ≤ high → key y = target → is_Some r.
Proof.
  intros Hs. revert low high. induction fuel as [|fuel IH]; intros low high Hlow Hr Hi Hrange Hk; [done|].
  cbn [bsearch_loop] in Hr. rewrite bool_decide_true in Hr by lia.
  set (mid := (low + high) / 2) in *.
  assert (low ≤ mid ≤ high) by (subst mid; Z.div_mod_to_equations; lia).
  destruct (index l mid) as [x|] eqn:Hx; [|done]. cbn in Hr.
  unfold index in Hx. rewrite decide_True in Hx by lia.
  destruct (l !! Z.to_nat mid) as [x'|] eqn:Hmid; [|done]. injection Hx as ->.
  case_bool_decide as Hkx; [by injection Hr as <-|].
  destruct (str_lt (key x) target) eqn:Hlt.
  - eapply IH; [|exact Hr|exact Hi| |exact Hk]; [lia|].
    destruct (decide (mid < Z.of_nat i)); [lia|]. exfalso.
    destruct (decide (i = Z.to_nat mid)) as [->|]; [congruence|].
    pose proof (Hs i (Z.to_nat mid) y x Hi Hmid ltac:(lia)) as Hle. congruence.
  - eapply IH; [|exact Hr|exact Hi| |exact Hk]; [lia|].
    destruct (decide (Z.of_nat i < mid)); [lia|]. exfalso.
    destruct (decide (i = Z.to_nat mid)) as [->|]; [congruence|].
    pose proof (Hs (Z.to_nat mid) i x y Hmid Hi ltac:(lia)) as Hle.
    apply str_lt_trichotomy in Hlt; congruence.
Qed.

Lemma bsearch_sound l target :
  ∃ r, bsearch l target = Ret r ∧ ∀ x, r = Some x → x ∈ l ∧ key x = target.
Proof. apply bsearch_loop_sound; lia. Qed.

Lemma bsearch_complete l target r :
  key_sorted l → bsearch l target = Ret r → (∃ y, y ∈ l ∧ key y = target) → is_Some r.
Proof.
  intros Hs Hr (y & Hy & Hk). apply list_elem_of_lookup_1 in Hy as [i Hi].
  pose proof (lookup_lt_Some _ _ _ Hi).
  eapply bsearch_loop_complete; [done| |exact Hr|exact Hi| |done]; lia.
Qed.

(** The less function of the [sort.Interface] implementations. *)
Definition by_key (a b : A) : bool := str_lt (key a) (key b).

Lemma StronglySorted_key_sorted l :
  StronglySorted (λ a b, by_key b a = false) l → key_sorted l.
Proof.
  induction 1 as [|a l _ IH Ha]; intros i j x y Hi Hj Hij; [done|].
  destruct j as [|j]; [lia|]. destruct i as [|i]; simpl in *.
  - injection Hi as <-. rewrite Forall_forall in Ha. apply Ha. by eapply list_elem_of_lookup_2.
  - apply (IH i j); [done|done|lia].
Qed.

End BinarySearch.

(** ** Package strings and path

    [strings.Split] for a separator of one character, [strings.Join],
    [strings.Contains], [strings.TrimSuffix] and [path.Ext]. *)

Fixpoint Split (s : string) (sep : ascii) : list string :=
  match s with
  | EmptyString => [""]
  | String a s =>
      if decide (a = sep) then "" :: Split s sep
      else match Split s sep with p :: ps => String a p :: ps | [] => [String a ""] end
  end.

Fixpoint Join (l : list string) (sep : string) : string :=
  match l with
  | [] => ""
  | [s] => s
  | s :: l => s +:+ sep +:+ Join l sep
  end.

Fixpoint Contains (s sub : string) : bool :=
  String.prefix sub s || match s with EmptyString => false | String _ s => Contains s sub end.

Fixpoint str_drop (n : nat) (s : string) : string :=
  match n, s with O, _ => s | _, EmptyString => "" | S n, String _ s => str_drop n s end.
Fixpoint str_take (n : nat) (s : string) : string :=
  match n, s with O, _ => "" | _, EmptyString => "" | S n, String a s => String a (str_take n s) end.

Definition HasSuffix (s suffix : string) : bool :=
  bool_decide (String.length suffix <= String.length s)%nat &&
  bool_decide (str_drop (String.length s - String.length suffix) s = suffix).

Definition TrimSuffix (s suffix : string) : string :=
  if HasSuffix s suffix then str_take (String.length s - String.length suffix) s else s.

(** [path.Ext]: the loop walks back from the end, [n] being its index plus one. *)
Fixpoint Ext_loop (path : string) (n : nat) : string :=
  match n with
  | O => ""
  | S i =>
      match String.get i path with
      | Some "/"%char => ""
      | Some "."%char => str_drop i path
      | _ => Ext_loop path i
      end
  end.

Definition Ext (path : string) : string := Ext_loop path (String.length path).

Fixpoint mentions (a : ascii) (s : string) : Prop :=
  match s with EmptyString => False | String b s => a = b ∨ mentions a s end.

Lemma Split_nonempty s sep : Split s sep ≠ [].
Proof. destruct s as [|a s]; simpl; [done|]. case_decide; [done|]. by destruct (Split s sep). Qed.

Lemma Split_app s t sep : Split (s +:+ String sep t) sep = Split s sep ++ Split t sep.
Proof.
  induction s as [|a s IH]; simpl; [by rewrite decide_True|].
  case_decide; [by rewrite IH|]. rewrite IH.
  pose proof (Split_nonempty s sep). by destruct (Split s sep).
Qed.

Lemma Split_single s sep : ¬ mentions sep s → Split s sep = [s].
Proof.
  induction s as [|a s IH]; simpl; [done|]. intros Hn.
  rewrite decide_False by (intros ->; tauto). by rewrite IH by tauto.
Qed.

Lemma str_length_app s t : String.length (s +:+ t) = (String.length s + String.length t)%nat.
Proof. induction s; simpl; [done|]. by f_equal. Qed.

Lemma str_drop_app s t : str_drop (String.length s) (s +:+ t) = t.
Proof. induction s; simpl; done. Qed.

Lemma str_take_app s t : str_take (String.length s) (s +:+ t) = s.
Proof. induction s; simpl; [by destruct t|]. by f_equal. Qed.

Lemma str_get_app s t i : String.get (String.length s + i) (s +:+ t) = String.get i t.
Proof. induction s; simpl; done. Qed.

Lemma mentions_app a s t : mentions a (s +:+ t) ↔ mentions a s ∨ mentions a t.
Proof. induction s; simpl; tauto. Qed.

Lemma TrimSuffix_app s t : TrimSuffix (s +:+ t) t = s.
Proof.
  unfold TrimSuffix, HasSuffix. rewrite str_length_app, Nat.add_sub, str_drop_app, str_take_app.
  by rewrite !bool_decide_true by (done || lia).
Qed.

(** The extension is looked for from the end: the text before it is free. *)
Lemma Ext_loop_skips s t n :
  ¬ mentions "." t → ¬ mentions "/" t → (n <= String.length t)%nat →
  Ext_loop (s +:+ String "." t) (String.length s + 1 + n) = String "." t.
Proof.
  intros Hdot Hslash. induction n as [|n IH]; intros Hn.
  - replace (String.length s + 1 + 0)%nat with (S (String.length s + 0))%nat by lia. cbn [Ext_loop].
    rewrite str_get_app. cbn. by rewrite Nat.add_0_r, str_drop_app.
  - replace (String.length s + 1 + S n)%nat with (S (String.length s + S n))%nat by lia. cbn [Ext_loop].
    rewrite str_get_app. cbn [String.get].
    replace (String.length s + S n)%nat with (String.length s + 1 + n)%nat by lia.
    rewrite IH by lia. destruct (String.get n t) as [a|] eqn:Ha; [|done].
    assert (mentions a t) as Hm.
    { clear -Ha. revert n Ha. induction t as [|b t IH]; intros [|n] Ha; simpl in *; [done..|left; congruence|].
      right. by eapply IH. }
    by destruct a as [[] [] [] [] [] [] [] []].
Qed.

Lemma Ext_app s t : ¬ mentions "." t → ¬ mentions "/" t → Ext (s +:+ String "." t) = String "." t.
Proof.
  intros. unfold Ext. rewrite str_length_app. cbn [String.length].
  rewrite <- (Ext_loop_skips s t (String.length t)) at 2 by done. f_equal. lia.
Qed.

Example Ext_nested : Ext "operator/ns/nginx.profile.json" = ".json".
Proof. reflexivity. Qed.
Example Split_path : Split "localhost/ns//x" "/" = ["localhost"; "ns"; ""; "x"].
Proof. reflexivity. Qed.
