(* ===== verification/K8s.v ===== *)
(** * Kubernetes API objects and the library functions the plugins call

    Nothing in this file models code of the repository.  The records hold the
    fields of the Kubernetes objects that the sources read.  The functions of
    [k8s.io/apimachinery], [k8s.io/component-helpers] and
    [k8s.io/kubernetes/pkg/scheduler] are operations of the classes
    [QuantityOps] and [FrameworkOps]; what the plugins rely on is stated, from
    the documentation of those functions, by [QuantitySpec] and
    [FrameworkSpec].  File K8sModel instantiates all four. *)

From S2P Require Import Prelude.

(** ** resource.Quantity *)

Inductive Format := DecimalSI | BinarySI.

Class QuantityOps : Type := {
  Quantity : Type;
  q_zero : Quantity;                          (* resource.Quantity{} *)
  NewQuantity : Z → Format → Quantity;
  NewMilliQuantity : Z → Format → Quantity;
  q_Add : Quantity → Quantity → Quantity;
  q_Sub : Quantity → Quantity → Quantity;
  q_Cmp : Quantity → Quantity → comparison;
  q_IsZero : Quantity → bool;
  q_Sign : Quantity → Z;
  q_Value : Quantity → Z;
  q_MilliValue : Quantity → Z;
}.

(** Division rounding away from zero. *)
Definition div_away (n d : Z) : Z :=
  if decide (0 ≤ n) then (n + d - 1) / d else - ((- n + d - 1) / d).

(** A quantity denotes a number, measured here in units of 10^-9.  [Value] and
    [MilliValue] round it away from zero to an int64. *)
Class QuantitySpec `{QuantityOps} : Type := {
  amount : Quantity → Z;
  amount_zero : amount q_zero = 0;
  amount_NewQuantity z f : amount (NewQuantity z f) = z * 10 ^ 9;
  amount_NewMilliQuantity z f : amount (NewMilliQuantity z f) = z * 10 ^ 6;
  amount_Add a b : amount (q_Add a b) = amount a + amount b;
  amount_Sub a b : amount (q_Sub a b) = amount a - amount b;
  q_Cmp_spec a b : q_Cmp a b = (amount a ?= amount b);
  q_IsZero_spec a : q_IsZero a = bool_decide (amount a = 0);
  q_Sign_spec a : q_Sign a = Z.sgn (amount a);
  q_Value_in64 a : in64 (q_Value a);
  q_Value_spec a : in64 (div_away (amount a) (10 ^ 9)) → q_Value a = div_away (amount a) (10 ^ 9);
  q_MilliValue_in64 a : in64 (q_MilliValue a);
  q_MilliValue_spec a :
    in64 (div_away (amount a) (10 ^ 6)) → q_MilliValue a = div_away (amount a) (10 ^ 6);
}.

Abbreviation resource_list := (gmap string Quantity).

(** The names of the native resources. *)
Definition ResourceCPU : string := "cpu".
Definition ResourceMemory : string := "memory".
Definition ResourcePods : string := "pods".
Definition ResourceStorage : string := "storage".
Definition ResourceEphemeralStorage : string := "ephemeral-storage".

(** [rl.Cpu().MilliValue()] and [rl[name].Value()]: a missing entry is the
    zero quantity. *)
Definition value_of `{QuantityOps} (rl : resource_list) (name : string) : Z :=
  match rl !! name with Some q => q_Value q | None => 0 end.
Definition milli_of `{QuantityOps} (rl : resource_list) (name : string) : Z :=
  match rl !! name with Some q => q_MilliValue q | None => 0 end.

(** ** API objects *)

Record OwnerReference := { or_kind : string; or_name : string }.

Record SeccompProfile := { sp_type : string; sp_localhost : option string }.

Record Container `{QuantityOps} := {
  c_name : string;
  c_requests : resource_list;
  c_limits : resource_list;
  c_seccomp : option SeccompProfile;
}.

(** Status.Conditions[type = PodScheduled]: its status and last transition
    time, in nanoseconds. *)
Record PodCondition := { pc_status : string; pc_last_transition : Z }.

Record Pod `{QuantityOps} := {
  p_namespace : string;
  p_name : string;
  p_uid : string;
  p_labels : gmap string string;
  p_annotations : gmap string string;
  p_owner_references : list OwnerReference;
  p_deletion_timestamp : option Z;
  p_containers : list Container;
  p_init_containers : list Container;
  p_overhead : option resource_list;
  p_node_name : string;
  p_scheduler_name : string;
  p_priority : option Z;
  p_priority_class_name : string;
  p_preemption_policy : option string;
  p_seccomp : option SeccompProfile;
  p_phase : string;
  p_host_ip : string;
  p_nominated_node_name : string;
  p_scheduled_condition : option PodCondition;
}.

Definition PodPending : string := "Pending".
Definition PodRunning : string := "Running".
Definition PodSucceeded : string := "Succeeded".
Definition PodFailed : string := "Failed".
Definition PreemptNever : string := "Never".
Definition PreemptLowerPriority : string := "PreemptLowerPriority".
Definition ConditionTrue : string := "True".

Record Node `{QuantityOps} := {
  n_name : string;
  n_labels : gmap string string;
  n_unschedulable : bool;
  n_capacity : resource_list;
  n_allocatable : resource_list;
}.

Inductive PodQOSClass := PodQOSGuaranteed | PodQOSBurstable | PodQOSBestEffort.

#[export] Instance PodQOSClass_eq_dec : EqDecision PodQOSClass.
Proof. solve_decision. Defined.

(** ** The scheduler framework *)

Record Resource := {
  MilliCPU : Z;
  Memory : Z;
  EphemeralStorage : Z;
  AllowedPodNumber : Z;
  ScalarResources : gmap string Z;
}.

Definition zero_resource : Resource := {|
  MilliCPU := 0; Memory := 0; EphemeralStorage := 0; AllowedPodNumber := 0;
  ScalarResources := ∅ |}.

#[export] Instance Resource_eq_dec : EqDecision Resource.
Proof. solve_decision. Defined.

(** [r.ScalarResources[name]]: a missing entry reads as zero. *)
Definition scalar (r : Resource) (name : string) : Z := default 0 (ScalarResources r !! name).

Record NodeInfo `{QuantityOps} := {
  ni_node : option Node;
  ni_pods : list Pod;
  ni_allocatable : Resource;
  ni_requested : Resource;
  ni_nonzero_requested : Resource;
}.

Inductive Code := Success | Error | Unschedulable | UnschedulableAndUnresolvable.

#[export] Instance Code_eq_dec : EqDecision Code.
Proof. solve_decision. Defined.

(** A [*framework.Status]: [None] is the nil pointer, which counts as success.
    The reason is the format string of the message, its arguments left out. *)
Record StatusData := NewStatus { st_code : Code; st_reason : string }.
Abbreviation Status := (option StatusData).

Definition IsSuccess (s : Status) : bool :=
  match s with None => true | Some s => bool_decide (st_code s = Success) end.

Definition MaxNodeScore : Z := 100.
Definition MinNodeScore : Z := 0.

Record NodeScore := { ns_name : string; ns_score : Z }.

Class FrameworkOps `{QuantityOps} : Type := {
  (* methods of framework.Resource *)
  NewResource : resource_list → Resource;
  res_Add : Resource → resource_list → Resource;
  res_SetMaxResource : Resource → resource_list → Resource;
  res_SetScalar : Resource → string → Z → Resource;
  res_Clone : Resource → Resource;
  (* predicates on resource names *)
  IsScalarResourceName : string → bool;
  IsHugePageResourceName : string → bool;
  IsNativeResource : string → bool;
  (* functions on pods; GetPodKey fails on a pod without UID *)
  GetPodKey : Pod → option string;
  PodPriority : Pod → Z;
  MoreImportantPod : Pod → Pod → bool;
  GetPodQOS : Pod → PodQOSClass;
}.

Class FrameworkSpec `{QuantityOps} `{!FrameworkOps} : Prop := {
  NewResource_spec rl : NewResource rl = res_Add zero_resource rl;
  res_Clone_spec r : res_Clone r = r;
  res_SetScalar_spec r name v :
    res_SetScalar r name v =
    {| MilliCPU := MilliCPU r; Memory := Memory r; EphemeralStorage := EphemeralStorage r;
       AllowedPodNumber := AllowedPodNumber r;
       ScalarResources := <[name := v]> (ScalarResources r) |};
  (* Add adds a resource list, dimension by dimension *)
  res_Add_cpu r rl : MilliCPU (res_Add r rl) = MilliCPU r +₆₄ milli_of rl ResourceCPU;
  res_Add_memory r rl : Memory (res_Add r rl) = Memory r +₆₄ value_of rl ResourceMemory;
  res_Add_ephemeral r rl :
    EphemeralStorage (res_Add r rl) = EphemeralStorage r +₆₄ value_of rl ResourceEphemeralStorage;
  res_Add_pods r rl :
    AllowedPodNumber (res_Add r rl) = AllowedPodNumber r +₆₄ value_of rl ResourcePods;
  res_Add_scalar r rl name :
    ScalarResources (res_Add r rl) !! name =
    match rl !! name with
    | Some q => if IsScalarResourceName name then Some (scalar r name +₆₄ q_Value q)
                else ScalarResources r !! name
    | None => ScalarResources r !! name
    end;
  (* SetMaxResource keeps the larger value of each dimension *)
  res_SetMax_cpu r rl :
    MilliCPU (res_SetMaxResource r rl) =
    match rl !! ResourceCPU with Some q => Z.max (MilliCPU r) (q_MilliValue q) | None => MilliCPU r end;
  res_SetMax_memory r rl :
    Memory (res_SetMaxResource r rl) =
    match rl !! ResourceMemory with Some q => Z.max (Memory r) (q_Value q) | None => Memory r end;
  res_SetMax_ephemeral r rl :
    EphemeralStorage (res_SetMaxResource r rl) =
    match rl !! ResourceEphemeralStorage with
    | Some q => Z.max (EphemeralStorage r) (q_Value q) | None => EphemeralStorage r end;
  res_SetMax_pods r rl : AllowedPodNumber (res_SetMaxResource r rl) = AllowedPodNumber r;
  res_SetMax_scalar r rl name :
    ScalarResources (res_SetMaxResource r rl) !! name =
    match rl !! name with
    | Some q => if IsScalarResourceName name then Some (Z.max (scalar r name) (q_Value q))
                else ScalarResources r !! name
    | None => ScalarResources r !! name
    end;
  (* the native resources are not scalar resources *)
  cpu_not_scalar : IsScalarResourceName ResourceCPU = false;
  memory_not_scalar : IsScalarResourceName ResourceMemory = false;
  pods_not_scalar : IsScalarResourceName ResourcePods = false;
  ephemeral_not_scalar : IsScalarResourceName ResourceEphemeralStorage = false;
}.

(** ** Preemption

    The parts of the framework that a preemption plugin calls while it tries
    evictions on a copy of a node. *)

Definition AsStatus (reason : string) : StatusData := NewStatus Error reason.

(** Status.Code(): the nil status is Success. *)
Definition status_Code (s : Status) : Code :=
  match s with None => Success | Some s => st_code s end.

Class NodeInfoOps `{QuantityOps} : Type := {
  (* NodeInfo.RemovePod fails when the node does not hold the pod *)
  ni_RemovePod : NodeInfo → Pod → option NodeInfo;
  ni_AddPodInfo : NodeInfo → Pod → NodeInfo;
}.

Class NodeInfoSpec `{QuantityOps} `{!NodeInfoOps} : Prop := {
  ni_AddPodInfo_pods ni p : ni_pods (ni_AddPodInfo ni p) ≡ₚ p :: ni_pods ni;
  ni_AddPodInfo_node ni p : ni_node (ni_AddPodInfo ni p) = ni_node ni;
  ni_RemovePod_pods ni p ni' : ni_RemovePod ni p = Some ni' → ni_pods ni' ⊆ ni_pods ni;
  ni_RemovePod_perm ni p ni' :
    NoDup (p_uid <$> ni_pods ni) → p ∈ ni_pods ni →
    ni_RemovePod ni p = Some ni' → ni_pods ni ≡ₚ p :: ni_pods ni';
  ni_RemovePod_node ni p ni' : ni_RemovePod ni p = Some ni' → ni_node ni' = ni_node ni;
  ni_RemovePod_absent ni p : p_uid p ∉ (p_uid <$> ni_pods ni) → ni_RemovePod ni p = None;
}.

(** Informers of client-go: what an informer delivers, and the handler that
    passes on only what satisfies a predicate. *)
Inductive notification (A : Type) :=
| NotifyAdd (obj : A)
| NotifyUpdate (oldObj newObj : A)
| NotifyDelete (obj : A).
Arguments NotifyAdd {A} _.
Arguments NotifyUpdate {A} _ _.
Arguments NotifyDelete {A} _.

Class InformerOps : Type := {
  FilteringResourceEventHandler : ∀ {A}, (A → bool) → notification A → option (notification A);
}.

(** An object that starts to satisfy the predicate is an addition, one that
    ceases to satisfy it a deletion. *)
Class InformerSpec `{InformerOps} : Prop := {
  filtering_add {A} (FilterFunc : A → bool) obj :
    FilteringResourceEventHandler FilterFunc (NotifyAdd obj) = if FilterFunc obj then Some (NotifyAdd obj) else None;
  filtering_update {A} (FilterFunc : A → bool) oldObj newObj :
    FilteringResourceEventHandler FilterFunc (NotifyUpdate oldObj newObj) =
      match FilterFunc newObj, FilterFunc oldObj with
      | true, true => Some (NotifyUpdate oldObj newObj)
      | true, false => Some (NotifyAdd newObj)
      | false, true => Some (NotifyDelete oldObj)
      | false, false => None
      end;
  filtering_delete {A} (FilterFunc : A → bool) obj :
    FilteringResourceEventHandler FilterFunc (NotifyDelete obj) = if FilterFunc obj then Some (NotifyDelete obj) else None;
}.

(** Label selectors: [LabelSelectorAsSelector] fails on a malformed one. *)
Class LabelSelectorOps : Type := {
  LabelSelector : Type;
  Selector : Type;
  LabelSelectorAsSelector : LabelSelector → option Selector;
  sel_Empty : Selector → bool;
  sel_Matches : Selector → gmap string string → bool;
}.

Record PodDisruptionBudget `{LabelSelectorOps} := {
  pdb_namespace : string;
  pdb_selector : LabelSelector;
  pdb_DisruptionsAllowed : Z;
  pdb_DisruptedPods : gset string;
}.
