(* ===== verification/K8sModel.v ===== *)
(** * A concrete instance of the Kubernetes interfaces

    Quantities are integers, in units of 10^-9; the framework functions follow
    their specification.  The witnesses of the development evaluate on this
    instance, which shows that the hypotheses of [QuantitySpec] and
    [FrameworkSpec] hold together. *)

From S2P Require Import Prelude K8s.

#[export] Instance ZQuantity : QuantityOps := {|
  Quantity := Z;
  q_zero := 0;
  NewQuantity z _ := z * 10 ^ 9;
  NewMilliQuantity z _ := z * 10 ^ 6;
  q_Add := Z.add;
  q_Sub := Z.sub;
  q_Cmp := Z.compare;
  q_IsZero a := bool_decide (a = 0);
  q_Sign := Z.sgn;
  q_Value a := wrap64 (div_away a (10 ^ 9));
  q_MilliValue a := wrap64 (div_away a (10 ^ 6));
|}.

#[export] Instance ZQuantity_spec : QuantitySpec.
Proof.
  refine (@Build_QuantitySpec ZQuantity (λ q : Z, q) _ _ _ _ _ _ _ _ _ _ _ _);
    try done; intros; first [apply wrap64_in | by apply wrap64_id].
Defined.

(** Resource names: a name with a slash is an extended resource. *)
Definition model_native (name : string) : bool :=
  bool_decide (name ∈ [ResourceCPU; ResourceMemory; ResourcePods; ResourceStorage;
                       ResourceEphemeralStorage]).

Definition model_scalar_names (rl : gmap string Z) : gmap string Z :=
  filter (λ kv : string * Z, model_native kv.1 = false) rl.

Definition model_add_scalar (a b : option Z) : option Z :=
  match a, b with
  | x, None => x
  | x, Some q => Some (default 0 x +₆₄ wrap64 (div_away q (10 ^ 9)))
  end.

Definition model_max_scalar (a b : option Z) : option Z :=
  match a, b with
  | x, None => x
  | x, Some q => Some (Z.max (default 0 x) (wrap64 (div_away q (10 ^ 9))))
  end.

Definition model_Add (r : Resource) (rl : gmap string Z) : Resource := {|
  MilliCPU := MilliCPU r +₆₄ milli_of rl ResourceCPU;
  Memory := Memory r +₆₄ value_of rl ResourceMemory;
  EphemeralStorage := EphemeralStorage r +₆₄ value_of rl ResourceEphemeralStorage;
  AllowedPodNumber := AllowedPodNumber r +₆₄ value_of rl ResourcePods;
  ScalarResources := merge model_add_scalar (ScalarResources r) (model_scalar_names rl);
|}.

Definition model_SetMax (r : Resource) (rl : gmap string Z) : Resource := {|
  MilliCPU := match rl !! ResourceCPU with
              | Some q => Z.max (MilliCPU r) (q_MilliValue q) | None => MilliCPU r end;
  Memory := match rl !! ResourceMemory with
            | Some q => Z.max (Memory r) (q_Value q) | None => Memory r end;
  EphemeralStorage := match rl !! ResourceEphemeralStorage with
            | Some q => Z.max (EphemeralStorage r) (q_Value q) | None => EphemeralStorage r end;
  AllowedPodNumber := AllowedPodNumber r;
  ScalarResources := merge model_max_scalar (ScalarResources r) (model_scalar_names rl);
|}.

Definition model_QOS (p : Pod) : PodQOSClass :=
  if decide (p_containers p = []) then PodQOSBestEffort
  else if forallb (λ c, bool_decide (c_requests c = c_limits c) && negb (bool_decide (c_limits c = ∅)))
            (p_containers p ++ p_init_containers p) then PodQOSGuaranteed
  else if forallb (λ c, bool_decide (c_requests c = ∅) && bool_decide (c_limits c = ∅))
            (p_containers p ++ p_init_containers p) then PodQOSBestEffort
  else PodQOSBurstable.

#[export] Instance model_framework : FrameworkOps := {|
  NewResource := model_Add zero_resource;
  res_Add := model_Add;
  res_SetMaxResource := model_SetMax;
  res_SetScalar r name v :=
    {| MilliCPU := MilliCPU r; Memory := Memory r; EphemeralStorage := EphemeralStorage r;
       AllowedPodNumber := AllowedPodNumber r;
       ScalarResources := <[name := v]> (ScalarResources r) |};
  res_Clone r := r;
  IsScalarResourceName name := negb (model_native name);
  IsHugePageResourceName name := bool_decide (String.substring 0 10 name = "hugepages-");
  IsNativeResource := model_native;
  GetPodKey p := if decide (p_uid p = "") then None else Some (p_uid p);
  PodPriority p := default 0 (p_priority p);
  MoreImportantPod p q := bool_decide (default 0 (p_priority p) > default 0 (p_priority q));
  GetPodQOS := model_QOS;
|}.

Lemma lookup_model_scalar_names rl name :
  model_scalar_names rl !! name =
  if model_native name then None else rl !! name.
Proof.
  unfold model_scalar_names. destruct (model_native name) eqn:Hn.
  - apply map_lookup_filter_None. right. intros x _ ?. simpl in *. congruence.
  - destruct (rl !! name) as [q|] eqn:Hrl.
    + by apply map_lookup_filter_Some.
    + apply map_lookup_filter_None. by left.
Qed.

#[export] Instance model_framework_spec : FrameworkSpec.
Proof.
  split; try done.
  all: intros r rl name; simpl; rewrite lookup_merge, lookup_model_scalar_names;
    unfold scalar; destruct (model_native name), (rl !! name) eqn:Hrl;
    simpl in Hrl; rewrite ?Hrl; by destruct (ScalarResources r !! name).
Qed.

(** ** Building small objects *)

Definition model_container (req lim : gmap string Z) : Container :=
  {| c_name := "c"; c_requests := req; c_limits := lim; c_seccomp := None |}.

Definition model_pod (ns name node : string) (prio : Z) (req : gmap string Z) : Pod := {|
  p_namespace := ns; p_name := name; p_uid := name; p_labels := ∅; p_annotations := ∅;
  p_owner_references := []; p_deletion_timestamp := None;
  p_containers := [model_container req ∅]; p_init_containers := [];
  p_overhead := None; p_node_name := node; p_scheduler_name := "default-scheduler";
  p_priority := Some prio; p_priority_class_name := ""; p_preemption_policy := None;
  p_seccomp := None; p_phase := PodRunning; p_host_ip := "";
  p_nominated_node_name := ""; p_scheduled_condition := None |}.

(** [cores c] and [bytes b] as quantities of the instance. *)
Definition cores (c : Z) : Z := c * 10 ^ 9.
Definition bytes (b : Z) : Z := b * 10 ^ 9.

(** ** Preemption: nodes as their lists of pods, selectors as sets of labels *)

Definition model_set_pods (ni : NodeInfo) (pods : list Pod) : NodeInfo := {|
  ni_node := ni_node ni; ni_pods := pods; ni_allocatable := ni_allocatable ni;
  ni_requested := ni_requested ni; ni_nonzero_requested := ni_nonzero_requested ni |}.

Fixpoint model_remove (uid : string) (pods : list Pod) : option (list Pod) :=
  match pods with
  | [] => None
  | p :: pods => if decide (p_uid p = uid) then Some pods else cons p <$> model_remove uid pods
  end.

#[export] Instance model_node_info : NodeInfoOps := {|
  ni_RemovePod ni p := model_set_pods ni <$> model_remove (p_uid p) (ni_pods ni);
  ni_AddPodInfo ni p := model_set_pods ni (ni_pods ni ++ [p]);
|}.

Lemma model_remove_subseteq uid pods pods' : model_remove uid pods = Some pods' → pods' ⊆ pods.
Proof.
  revert pods'. induction pods as [|p pods IH]; intros pods' E; simpl in E; [done|].
  case_decide; [injection E as <-; intros x Hx; by right|].
  apply fmap_Some in E as (ps & E & ->). intros x [->|Hx]%elem_of_cons; [by left|right; by apply (IH ps)].
Qed.

Lemma model_remove_perm p pods pods' :
  NoDup (p_uid <$> pods) → p ∈ pods → model_remove (p_uid p) pods = Some pods' → pods ≡ₚ p :: pods'.
Proof.
  revert pods'. induction pods as [|q pods IH]; intros pods' Hnd Hp E; simpl in *; [done|].
  apply NoDup_cons in Hnd as [Hq Hnd]. case_decide as Huid.
  - injection E as <-. apply elem_of_cons in Hp as [->|Hp]; [done|].
    destruct Hq. rewrite Huid. apply list_elem_of_fmap. by exists p.
  - apply fmap_Some in E as (ps & E & ->). apply elem_of_cons in Hp as [->|Hp]; [done|].
    rewrite (IH ps) by done. apply Permutation_swap.
Qed.

Lemma model_remove_absent uid pods : uid ∉ (p_uid <$> pods) → model_remove uid pods = None.
Proof.
  induction pods as [|q pods IH]; intros Hno; simpl in *; [done|]. apply not_elem_of_cons in Hno as [Hne Hno].
  rewrite decide_False by congruence. by rewrite IH.
Qed.

#[export] Instance model_node_info_spec : NodeInfoSpec.
Proof.
  split; [by intros; simpl; rewrite Permutation_app_comm|done|..].
  - intros ni p ni' E. apply fmap_Some in E as (ps & E & ->). by apply model_remove_subseteq in E.
  - intros ni p ni' Hnd Hp E. apply fmap_Some in E as (ps & E & ->). by apply model_remove_perm.
  - intros ni p ni' E. by apply fmap_Some in E as (ps & E & ->).
  - intros ni p Hp. simpl in *. by rewrite model_remove_absent.
Qed.

#[export] Instance model_informers : InformerOps := {|
  FilteringResourceEventHandler A f n :=
    match n with
    | NotifyAdd obj => if f obj then Some (NotifyAdd obj) else None
    | NotifyUpdate oldObj newObj =>
        match f newObj, f oldObj with
        | true, true => Some (NotifyUpdate oldObj newObj)
        | true, false => Some (NotifyAdd newObj)
        | false, true => Some (NotifyDelete oldObj)
        | false, false => None
        end
    | NotifyDelete obj => if f obj then Some (NotifyDelete obj) else None
    end;
|}.

#[export] Instance model_informers_spec : InformerSpec.
Proof. by split. Qed.

#[export] Instance model_selectors : LabelSelectorOps := {|
  LabelSelector := gmap string string;
  Selector := gmap string string;
  LabelSelectorAsSelector s := Some s;
  sel_Empty s := bool_decide (s = ∅);
  sel_Matches s labels :=
    forallb (λ kv : string * string, bool_decide (labels !! kv.1 = Some kv.2)) (map_to_list s);
|}.

Definition with_labels (p : Pod) (labels : gmap string string) : Pod := {|
  p_namespace := p_namespace p; p_name := p_name p; p_uid := p_uid p; p_labels := labels;
  p_annotations := p_annotations p; p_owner_references := p_owner_references p;
  p_deletion_timestamp := p_deletion_timestamp p; p_containers := p_containers p;
  p_init_containers := p_init_containers p; p_overhead := p_overhead p;
  p_node_name := p_node_name p; p_scheduler_name := p_scheduler_name p;
  p_priority := p_priority p; p_priority_class_name := p_priority_class_name p;
  p_preemption_policy := p_preemption_policy p; p_seccomp := p_seccomp p; p_phase := p_phase p;
  p_host_ip := p_host_ip p; p_nominated_node_name := p_nominated_node_name p;
  p_scheduled_condition := p_scheduled_condition p |}.
