(* ===== verification/ResourceUtil.v ===== *)
(** * pkg/util: resource lists and pod groups

    [util.ResourceList] (framework resource to resource list),
    [util.GetPodEffectiveRequest] and the pod group helpers. *)

From S2P Require Import Prelude K8s K8sModel.

Section ResourceUtil.
Context `{MapOrder} `{QuantityOps} `{!FrameworkOps}.

(** ** Definitions *)

(** resource.go, [ResourceList]: the four native dimensions, then one entry
    per scalar resource. *)
Definition ResourceList_base (r : Resource) : resource_list :=
  <[ResourceCPU := NewMilliQuantity (MilliCPU r) DecimalSI]>
  (<[ResourceMemory := NewQuantity (Memory r) BinarySI]>
  (<[ResourcePods := NewQuantity (AllowedPodNumber r) BinarySI]>
  (<[ResourceEphemeralStorage := NewQuantity (EphemeralStorage r) BinarySI]> ∅))).

Definition scalar_quantity (rName : string) (rQuant : Z) : Quantity :=
  if IsHugePageResourceName rName then NewQuantity rQuant BinarySI
  else NewQuantity rQuant DecimalSI.

Definition ResourceList (r : Resource) : resource_list :=
  foldl (λ (result : resource_list) '(rName, rQuant), <[rName := scalar_quantity rName rQuant]> result)
    (ResourceList_base r) (range (ScalarResources r)).

(** The two loop bodies of [GetPodEffectiveRequest]: keep the larger quantity
    of a resource, and add a quantity to a resource. *)
Definition max_into (resources : resource_list) (entry : string * Quantity) : resource_list :=
  let '(name, quantity) := entry in
  match resources !! name with
  | Some q => match q_Cmp quantity q with
              | Gt => <[name := quantity]> resources
              | _ => resources
              end
  | None => <[name := quantity]> resources
  end.

Definition add_into (resources : resource_list) (entry : string * Quantity) : resource_list :=
  let '(name, quantity) := entry in
  match resources !! name with
  | Some q => <[name := q_Add quantity q]> resources
  | None => <[name := quantity]> resources
  end.

Definition GetPodEffectiveRequest (pod : Pod) : resource_list :=
  let initResources :=
    foldl (λ acc c, foldl max_into acc (range (c_requests c))) ∅ (p_init_containers pod) in
  let resources :=
    foldl (λ acc c, foldl add_into acc (range (c_requests c))) ∅ (p_containers pod) in
  let resources := foldl max_into resources (range initResources) in
  foldl add_into resources (range (default ∅ (p_overhead pod))).

(** podgroup.go *)

Definition PodGroupLabel : string := "scheduling.x-k8s.io/pod-group".

Definition GetPodGroupLabel (pod : Pod) : string := default "" (p_labels pod !! PodGroupLabel).

Definition GetPodGroupFullName (pod : Pod) : string :=
  let pgName := GetPodGroupLabel pod in
  if decide (String.length pgName = 0%nat) then ""
  else p_namespace pod +:+ "/" +:+ pgName.

(** Durations are int64 nanoseconds. *)
Definition second : Z := 1000000000.
Definition DefaultWaitTime : Z := 60 * second.

(** The pod group argument is the group's [Spec.ScheduleTimeoutSeconds]
    behind the possibly nil pointer [pg]. *)
Definition GetWaitTimeDuration (pg : option (option Z)) (scheduleTimeout : option Z) : Z :=
  match pg with
  | Some (Some seconds) => seconds *₆₄ second
  | _ => match scheduleTimeout with
         | Some t => if decide (t = 0) then DefaultWaitTime else t
         | None => DefaultWaitTime
         end
  end.

(** ** The resource list of a framework resource *)

Lemma max_into_lookup acc name quantity j :
  max_into acc (name, quantity) !! j =
  if decide (j = name)
  then match acc !! name with
       | Some q => match q_Cmp quantity q with Gt => Some quantity | _ => Some q end
       | None => Some quantity end
  else acc !! j.
Proof.
  unfold max_into. destruct (acc !! name) as [q|] eqn:Hn; [destruct (q_Cmp quantity q)|];
    rewrite ?lookup_insert; repeat case_decide; simplify_eq; done.
Qed.

Lemma add_into_lookup acc name quantity j :
  add_into acc (name, quantity) !! j =
  if decide (j = name)
  then match acc !! name with Some q => Some (q_Add quantity q) | None => Some quantity end
  else acc !! j.
Proof.
  unfold add_into. destruct (acc !! name) as [q|] eqn:Hn;
    rewrite ?lookup_insert; repeat case_decide; simplify_eq; done.
Qed.

(** A framework resource built by the library: values are int64, and the
    scalar map holds scalar names only. *)
Definition resource_wf (r : Resource) : Prop :=
  in64 (MilliCPU r) ∧ in64 (Memory r) ∧ in64 (EphemeralStorage r) ∧ in64 (AllowedPodNumber r) ∧
  map_Forall (λ n v, IsScalarResourceName n = true ∧ in64 v) (ScalarResources r).

(** Pointwise addition of framework resources, at 64 bits. *)
Definition scalar_plus (a b : option Z) : option Z :=
  match b with Some v => Some (default 0 a +₆₄ v) | None => a end.

Definition res_plus (r s : Resource) : Resource := {|
  MilliCPU := MilliCPU r +₆₄ MilliCPU s;
  Memory := Memory r +₆₄ Memory s;
  EphemeralStorage := EphemeralStorage r +₆₄ EphemeralStorage s;
  AllowedPodNumber := AllowedPodNumber r +₆₄ AllowedPodNumber s;
  ScalarResources := merge scalar_plus (ScalarResources r) (ScalarResources s) |}.

Lemma Resource_eq r s :
  MilliCPU r = MilliCPU s → Memory r = Memory s → EphemeralStorage r = EphemeralStorage s →
  AllowedPodNumber r = AllowedPodNumber s →
  (∀ n, ScalarResources r !! n = ScalarResources s !! n) → r = s.
Proof. destruct r, s; simpl. intros -> -> -> -> ?. f_equal. by apply map_eq. Qed.

Lemma lookup_scalar_plus r s n :
  ScalarResources (res_plus r s) !! n =
  scalar_plus (ScalarResources r !! n) (ScalarResources s !! n).
Proof.
  simpl. rewrite lookup_merge.
  by destruct (ScalarResources r !! n), (ScalarResources s !! n).
Qed.

Lemma scalar_res_plus r s n :
  (∀ v, ScalarResources r !! n = Some v → in64 v) →
  scalar (res_plus r s) n = scalar r n +₆₄ scalar s n.
Proof.
  intros Hr. unfold scalar. rewrite lookup_scalar_plus.
  destruct (ScalarResources s !! n) as [v|] eqn:Hs; simpl; [done|].
  rewrite Z.add_0_r. destruct (ScalarResources r !! n) eqn:Hn; simpl; [|done].
  symmetry. apply wrap64_id. eauto.
Qed.

Lemma zero_resource_wf : resource_wf zero_resource.
Proof. do 4 (split; [cbn; wrap_lia|]). apply map_Forall_empty. Qed.

Lemma res_plus_wf r s : resource_wf r → resource_wf s → resource_wf (res_plus r s).
Proof.
  intros (_ & _ & _ & _ & Hr) (_ & _ & _ & _ & Hs).
  do 4 (split; [apply wrap64_in|]). intros n v. rewrite lookup_scalar_plus.
  destruct (ScalarResources s !! n) eqn:E; simpl; [|by apply Hr].
  intros [= <-]. split; [by apply Hs in E as [? _]|apply wrap64_in].
Qed.

(** ** Dimensions

    A dimension of a resource vector.  Two resources are equivalent when they
    agree in every dimension: a scalar resource that is absent and one that is
    present with the value 0 are the same amount. *)

Inductive dim := DCPU | DMemory | DEphemeral | DPods | DScalar (name : string).

Definition get (d : dim) (r : Resource) : Z :=
  match d with
  | DCPU => MilliCPU r
  | DMemory => Memory r
  | DEphemeral => EphemeralStorage r
  | DPods => AllowedPodNumber r
  | DScalar name => scalar r name
  end.

#[export] Instance Resource_equiv : Equiv Resource := λ r s, ∀ d, get d r = get d s.

#[export] Instance Resource_equivalence : Equivalence (≡@{Resource}).
Proof.
  split; [by intros r d | by intros r s E d; rewrite E | by intros r s t E1 E2 d; rewrite E1, E2].
Qed.

#[export] Instance get_proper d : Proper ((≡) ==> (=)) (get d).
Proof. intros r s E. apply E. Qed.

Lemma get_zero d : get d zero_resource = 0.
Proof. destruct d; [done..|]. simpl. unfold scalar. simpl. by rewrite lookup_empty. Qed.

Lemma get_in64 d r : resource_wf r → in64 (get d r).
Proof.
  intros (? & ? & ? & ? & Hs). destruct d as [| | | |n]; [done..|]. simpl. unfold scalar.
  destruct (ScalarResources r !! n) eqn:E; simpl; [by apply Hs in E as []|wrap_lia].
Qed.

Lemma get_res_plus d r s :
  resource_wf r → get d (res_plus r s) = get d r +₆₄ get d s.
Proof.
  intros (_ & _ & _ & _ & Hr). destruct d as [| | | |n]; [done..|].
  apply scalar_res_plus. intros v E. by apply Hr in E as [].
Qed.

Section Laws.
Context `{!QuantitySpec} `{!FrameworkSpec}.

Lemma value_NewQuantity z f : in64 z → q_Value (NewQuantity z f) = z.
Proof.
  intros Hz. assert (div_away (amount (NewQuantity z f)) (10 ^ 9) = z) as E.
  { rewrite amount_NewQuantity. unfold div_away. case_decide; Z.div_mod_to_equations; lia. }
  by rewrite q_Value_spec; rewrite E.
Qed.

Lemma milli_NewMilliQuantity z f : in64 z → q_MilliValue (NewMilliQuantity z f) = z.
Proof.
  intros Hz. assert (div_away (amount (NewMilliQuantity z f)) (10 ^ 6) = z) as E.
  { rewrite amount_NewMilliQuantity. unfold div_away. case_decide; Z.div_mod_to_equations; lia. }
  by rewrite q_MilliValue_spec; rewrite E.
Qed.

Lemma value_scalar_quantity n z : in64 z → q_Value (scalar_quantity n z) = z.
Proof. intros. unfold scalar_quantity. case_match; by apply value_NewQuantity. Qed.

Lemma ResourceList_lookup r name :
  ResourceList r !! name =
  match ScalarResources r !! name with
  | Some v => Some (scalar_quantity name v)
  | None => ResourceList_base r !! name
  end.
Proof.
  apply (foldl_range_lookup (λ k _ v, Some (scalar_quantity k v))).
  intros acc k v j. rewrite lookup_insert. repeat case_decide; congruence.
Qed.

(** A well-formed resource has no scalar entry for a native name. *)
Lemma ResourceList_native r name :
  resource_wf r → IsScalarResourceName name = false →
  ResourceList r !! name = ResourceList_base r !! name.
Proof.
  intros (_ & _ & _ & _ & Hs) Hn. rewrite ResourceList_lookup.
  destruct (ScalarResources r !! name) eqn:E; [|done].
  apply Hs in E as [? _]. congruence.
Qed.

Lemma value_of_ResourceList r :
  resource_wf r →
  milli_of (ResourceList r) ResourceCPU = MilliCPU r ∧
  value_of (ResourceList r) ResourceMemory = Memory r ∧
  value_of (ResourceList r) ResourceEphemeralStorage = EphemeralStorage r ∧
  value_of (ResourceList r) ResourcePods = AllowedPodNumber r.
Proof.
  intros Hr. pose proof Hr as (? & ? & ? & ? & _). unfold milli_of, value_of.
  rewrite !ResourceList_native by auto using cpu_not_scalar, memory_not_scalar,
    pods_not_scalar, ephemeral_not_scalar.
  unfold ResourceList_base. simplify_map_eq.
  by rewrite milli_NewMilliQuantity, !value_NewQuantity.
Qed.

(** The round trip through a resource list is exact: adding the resource list
    of [s] to [r] adds [s] to [r]. *)
Lemma res_Add_ResourceList r s :
  resource_wf s → res_Add r (ResourceList s) = res_plus r s.
Proof.
  intros Hs. pose proof (value_of_ResourceList s Hs) as (Ec & Em & Ee & Ep).
  apply Resource_eq; simpl.
  - by rewrite res_Add_cpu, Ec.
  - by rewrite res_Add_memory, Em.
  - by rewrite res_Add_ephemeral, Ee.
  - by rewrite res_Add_pods, Ep.
  - intros n. rewrite res_Add_scalar, ResourceList_lookup, lookup_merge.
    destruct Hs as (_ & _ & _ & _ & Hs).
    destruct (ScalarResources s !! n) as [v|] eqn:E.
    + apply Hs in E as [-> ?]. rewrite value_scalar_quantity by done. unfold scalar.
      by destruct (ScalarResources r !! n).
    + destruct (ResourceList_base s !! n) eqn:B.
      * destruct (IsScalarResourceName n) eqn:Hn; [|by destruct (ScalarResources r !! n)].
        exfalso. revert B Hn. unfold ResourceList_base. rewrite !lookup_insert, lookup_empty.
        repeat case_decide; subst; intros B; try discriminate B;
          rewrite ?cpu_not_scalar, ?memory_not_scalar, ?pods_not_scalar, ?ephemeral_not_scalar;
          discriminate.
      * by destruct (ScalarResources r !! n).
Qed.

Lemma res_Add_wf r rl : resource_wf r → resource_wf (res_Add r rl).
Proof.
  intros (_ & _ & _ & _ & Hr). unfold resource_wf.
  rewrite res_Add_cpu, res_Add_memory, res_Add_ephemeral, res_Add_pods.
  do 4 (split; [apply wrap64_in|]). intros n v. rewrite res_Add_scalar.
  destruct (rl !! n) eqn:E; [|by apply Hr].
  destruct (IsScalarResourceName n) eqn:Hn; [|intros Hv; apply Hr in Hv as [? _]; congruence].
  intros [= <-]. split; [done|apply wrap64_in].
Qed.

(** ** The effective request of a pod *)

(** The amount of a resource in a list, 0 when absent. *)
Definition amount_of (rl : resource_list) (name : string) : Z :=
  match rl !! name with Some q => amount q | None => 0 end.

Definition sum_of (cs : list Container) (name : string) : Z :=
  foldr (λ c z, amount_of (c_requests c) name + z) 0 cs.
Definition max_of (cs : list Container) (name : string) : Z :=
  foldr (λ c z, Z.max (amount_of (c_requests c) name) z) 0 cs.

Definition nonneg (rl : resource_list) : Prop := ∀ name, 0 ≤ amount_of rl name.

(** Requests and overhead of a pod are never negative: the API server
    validates them. *)
Definition pod_nonneg (pod : Pod) : Prop :=
  Forall (λ c, nonneg (c_requests c)) (p_containers pod) ∧
  Forall (λ c, nonneg (c_requests c)) (p_init_containers pod) ∧
  nonneg (default ∅ (p_overhead pod)).

Lemma amount_of_empty name : amount_of ∅ name = 0.
Proof. unfold amount_of. by rewrite lookup_empty. Qed.

Lemma add_range_lookup acc (rl : resource_list) name :
  foldl add_into acc (range rl) !! name =
  match rl !! name with
  | Some q => match acc !! name with Some q' => Some (q_Add q q') | None => Some q end
  | None => acc !! name
  end.
Proof.
  apply (foldl_range_lookup (λ _ o q, match o with Some q' => Some (q_Add q q') | None => Some q end)).
  intros. apply add_into_lookup.
Qed.

Lemma max_range_lookup acc (rl : resource_list) name :
  foldl max_into acc (range rl) !! name =
  match rl !! name with
  | Some q => match acc !! name with
              | Some q' => match q_Cmp q q' with Gt => Some q | _ => Some q' end
              | None => Some q end
  | None => acc !! name
  end.
Proof.
  apply (foldl_range_lookup (λ _ o q, match o with
    | Some q' => match q_Cmp q q' with Gt => Some q | _ => Some q' end | None => Some q end)).
  intros. apply max_into_lookup.
Qed.

Lemma add_range_amount acc (rl : resource_list) name :
  amount_of (foldl add_into acc (range rl)) name = amount_of acc name + amount_of rl name.
Proof.
  unfold amount_of. rewrite add_range_lookup.
  destruct (rl !! name), (acc !! name); rewrite ?amount_Add; lia.
Qed.

Lemma max_range_amount acc (rl : resource_list) name :
  0 ≤ amount_of acc name → 0 ≤ amount_of rl name →
  amount_of (foldl max_into acc (range rl)) name = Z.max (amount_of acc name) (amount_of rl name).
Proof.
  unfold amount_of. rewrite max_range_lookup.
  destruct (rl !! name), (acc !! name); rewrite ?q_Cmp_spec; [|lia..].
  destruct (Z.compare_spec (amount q) (amount q0)); lia.
Qed.

Lemma add_containers_amount acc cs name :
  amount_of (foldl (λ acc c, foldl add_into acc (range (c_requests c))) acc cs) name =
  amount_of acc name + sum_of cs name.
Proof.
  revert acc. induction cs as [|c cs IH]; intros acc; simpl; [lia|].
  rewrite IH, add_range_amount. lia.
Qed.

Lemma max_containers_amount acc cs name :
  0 ≤ amount_of acc name → Forall (λ c, nonneg (c_requests c)) cs →
  amount_of (foldl (λ acc c, foldl max_into acc (range (c_requests c))) acc cs) name =
  Z.max (amount_of acc name) (max_of cs name).
Proof.
  intros Hacc Hcs. revert acc Hacc.
  induction Hcs as [|c cs Hc _ IH]; intros acc Hacc; simpl; [lia|].
  pose proof (Hc name). rewrite IH; rewrite max_range_amount; lia.
Qed.

Lemma sum_of_nonneg cs name : Forall (λ c, nonneg (c_requests c)) cs → 0 ≤ sum_of cs name.
Proof. induction 1 as [|c cs Hc _ IH]; simpl; [lia|]. specialize (Hc name). lia. Qed.

Lemma max_of_nonneg cs name : 0 ≤ max_of cs name.
Proof. induction cs; simpl; lia. Qed.

Lemma GetPodEffectiveRequest_nonneg pod : pod_nonneg pod → nonneg (GetPodEffectiveRequest pod).
Proof.
  intros (Hc & Hi & Ho) name. unfold GetPodEffectiveRequest.
  pose proof (sum_of_nonneg _ name Hc). pose proof (max_of_nonneg (p_init_containers pod) name).
  pose proof (Ho name). rewrite add_range_amount, max_range_amount, add_containers_amount;
    rewrite ?add_containers_amount, ?max_containers_amount; rewrite ?amount_of_empty; auto; lia.
Qed.

(** In every resource, the effective request of a pod is the larger of
    the sum over its containers and the largest of its init containers, plus
    its overhead, whatever the iteration order of the maps is. *)
Theorem GetPodEffectiveRequest_amount pod name :
  pod_nonneg pod →
  amount_of (GetPodEffectiveRequest pod) name =
  Z.max (sum_of (p_containers pod) name) (max_of (p_init_containers pod) name) +
  amount_of (default ∅ (p_overhead pod)) name.
Proof.
  intros (Hc & Hi & Ho). unfold GetPodEffectiveRequest.
  pose proof (sum_of_nonneg _ name Hc). pose proof (max_of_nonneg (p_init_containers pod) name).
  rewrite add_range_amount, max_range_amount, add_containers_amount, max_containers_amount;
    rewrite ?add_containers_amount, ?max_containers_amount; rewrite ?amount_of_empty; auto; lia.
Qed.
End Laws.
End ResourceUtil.

(** ** Witnesses *)

(** Arithmetic about one dimension of explicit resources. *)
Ltac by_dim :=
  cbn; unfold scalar; cbn; rewrite ?lookup_empty, ?lookup_singleton; repeat case_decide; cbn; wrap_lia.


Definition w_effective_pod : Pod := {|
  p_namespace := "a"; p_name := "p"; p_uid := "u"; p_labels := ∅; p_annotations := ∅;
  p_owner_references := []; p_deletion_timestamp := None;
  p_containers := [model_container {[ResourceCPU := cores 1; ResourceMemory := bytes 3]} ∅;
                   model_container {[ResourceCPU := cores 2]} ∅];
  p_init_containers := [model_container {[ResourceCPU := cores 5]} ∅];
  p_overhead := Some {[ResourceCPU := cores 1]}; p_node_name := ""; p_scheduler_name := "";
  p_priority := None; p_priority_class_name := ""; p_preemption_policy := None;
  p_seccomp := None; p_phase := PodPending; p_host_ip := "";
  p_nominated_node_name := ""; p_scheduled_condition := None |}.

Lemma GetPodEffectiveRequest_amount_witness :
  amount_of (GetPodEffectiveRequest w_effective_pod) ResourceCPU = cores 6 ∧
  amount_of (GetPodEffectiveRequest w_effective_pod) ResourceMemory =
    Z.max (sum_of (p_containers w_effective_pod) ResourceMemory)
          (max_of (p_init_containers w_effective_pod) ResourceMemory) +
    amount_of (default ∅ (p_overhead w_effective_pod)) ResourceMemory.
Proof.
  split; [by vm_compute|]. apply (GetPodEffectiveRequest_amount w_effective_pod ResourceMemory).
  assert (∀ k (v : Z), 0 ≤ v → nonneg ({[k := v]} : gmap string Z)) as H1.
  { intros k v Hv name. unfold amount_of. rewrite lookup_singleton. by case_decide. }
  split; [|split].
  - repeat constructor; [|by apply H1]. intros name. unfold amount_of, model_container. cbn [c_requests].
    rewrite lookup_insert, lookup_singleton. repeat case_decide; done.
  - repeat constructor. by apply H1.
  - by apply H1.
Defined.
