(* ===== verification/ElasticQuota.v ===== *)
(** * pkg/capacityscheduling/elasticquota.go

    The bookkeeping of one elastic quota (the resources its pods use, the
    bounds [Min] and [Max]) and of the map of all quotas.

    [ElasticQuotaInfo] is the struct of that name.  [Min] and [Max] are
    pointers the code tests for nil; [Used] is never nil, since
    [newElasticQuotaInfo] sets it and nothing resets it. *)

From S2P Require Import Prelude K8s K8sModel ResourceUtil.

Section ElasticQuota.
Context `{MapOrder} `{QuantityOps} `{!FrameworkOps}.

(** ** Definitions *)

Definition UpperBoundOfMax : Z := MaxInt64.
Definition LowerBoundOfMin : Z := 0.

Record ElasticQuotaInfo := mkElasticQuotaInfo {
  eq_Namespace : string;
  eq_pods : gset string;
  eq_Min : option Resource;
  eq_Max : option Resource;
  eq_Used : Resource;
}.

Abbreviation ElasticQuotaInfos := (gmap string ElasticQuotaInfo).

Definition NewElasticQuotaInfos : ElasticQuotaInfos := ∅.

Definition set_Used (e : ElasticQuotaInfo) (u : Resource) : ElasticQuotaInfo :=
  {| eq_Namespace := eq_Namespace e; eq_pods := eq_pods e; eq_Min := eq_Min e;
     eq_Max := eq_Max e; eq_Used := u |}.
Definition set_pods (e : ElasticQuotaInfo) (ps : gset string) : ElasticQuotaInfo :=
  {| eq_Namespace := eq_Namespace e; eq_pods := ps; eq_Min := eq_Min e;
     eq_Max := eq_Max e; eq_Used := eq_Used e |}.

Definition makeResourceListForBound (bound : Z) : resource_list :=
  <[ResourceCPU := NewMilliQuantity bound DecimalSI]>
  (<[ResourceMemory := NewQuantity bound BinarySI]>
  (<[ResourceEphemeralStorage := NewQuantity bound BinarySI]> ∅)).

(** A nil resource list is [None]; [framework.NewResource(nil)] is the zero
    resource. *)
Definition newElasticQuotaInfo (namespace : string) (min max used : option resource_list) :
    ElasticQuotaInfo :=
  let min := match min with None => makeResourceListForBound LowerBoundOfMin | Some m => m end in
  let max := match max with None => makeResourceListForBound UpperBoundOfMax | Some m => m end in
  {| eq_Namespace := namespace; eq_pods := ∅; eq_Min := Some (NewResource min);
     eq_Max := Some (NewResource max); eq_Used := NewResource (default ∅ used) |}.

(** One pass of the loop over [request.ScalarResources]. *)
Definition reserve_scalar (used : Resource) (entry : string * Z) : Resource :=
  let '(name, value) := entry in res_SetScalar used name (scalar used name +₆₄ value).
Definition unreserve_scalar (used : Resource) (entry : string * Z) : Resource :=
  let '(name, value) := entry in res_SetScalar used name (scalar used name -₆₄ value).

Definition reserveResource (e : ElasticQuotaInfo) (request : Resource) : ElasticQuotaInfo :=
  let used := {|
    Memory := Memory (eq_Used e) +₆₄ Memory request;
    MilliCPU := MilliCPU (eq_Used e) +₆₄ MilliCPU request;
    EphemeralStorage := EphemeralStorage (eq_Used e) +₆₄ EphemeralStorage request;
    AllowedPodNumber := AllowedPodNumber (eq_Used e) +₆₄ AllowedPodNumber request;
    ScalarResources := ScalarResources (eq_Used e) |} in
  set_Used e (foldl reserve_scalar used (range (ScalarResources request))).

Definition unreserveResource (e : ElasticQuotaInfo) (request : Resource) : ElasticQuotaInfo :=
  let used := {|
    Memory := Memory (eq_Used e) -₆₄ Memory request;
    MilliCPU := MilliCPU (eq_Used e) -₆₄ MilliCPU request;
    EphemeralStorage := EphemeralStorage (eq_Used e) -₆₄ EphemeralStorage request;
    AllowedPodNumber := AllowedPodNumber (eq_Used e) -₆₄ AllowedPodNumber request;
    ScalarResources := ScalarResources (eq_Used e) |} in
  set_Used e (foldl unreserve_scalar used (range (ScalarResources request))).

(** The loop of [cmp2] over the scalar resources of [x1] has no effect but its
    early return, so it returns true exactly if some entry makes it. *)
Definition cmp2 (x1 x2 y : Resource) (bound : Z) : bool :=
  if bool_decide (MilliCPU x1 +₆₄ MilliCPU x2 > MilliCPU y) then true
  else if bool_decide (Memory x1 +₆₄ Memory x2 > Memory y) then true
  else if bool_decide (EphemeralStorage x1 +₆₄ EphemeralStorage x2 > EphemeralStorage y) then true
  else if bool_decide (AllowedPodNumber x1 +₆₄ AllowedPodNumber x2 > AllowedPodNumber y) then true
  else existsb (λ '(rName, rQuant),
         let yQuant := match ScalarResources y !! rName with Some yq => yq | None => bound end in
         bool_decide (rQuant +₆₄ scalar x2 rName > yQuant)) (range (ScalarResources x1)).

Definition cmp (x y : Resource) (bound : Z) : bool := cmp2 x zero_resource y bound.

Definition usedOverMinWith (e : ElasticQuotaInfo) (podRequest : Resource) : bool :=
  match eq_Min e with
  | None => true
  | Some min => cmp2 podRequest (eq_Used e) min LowerBoundOfMin
  end.

Definition usedOverMaxWith (e : ElasticQuotaInfo) (podRequest : Resource) : bool :=
  match eq_Max e with
  | None => false
  | Some max => cmp2 podRequest (eq_Used e) max UpperBoundOfMax
  end.

Definition usedOverMin (e : ElasticQuotaInfo) : bool :=
  match eq_Min e with
  | None => true
  | Some min => cmp (eq_Used e) min LowerBoundOfMin
  end.

(** The order in which the pods are copied does not matter to a set. *)
Definition eq_clone (e : ElasticQuotaInfo) : ElasticQuotaInfo :=
  {| eq_Namespace := eq_Namespace e;
     eq_pods := foldl (λ pods pod, {[pod]} ∪ pods) ∅ (elements (eq_pods e));
     eq_Min := res_Clone <$> eq_Min e;
     eq_Max := res_Clone <$> eq_Max e;
     eq_Used := res_Clone (eq_Used e) |}.

Definition infos_clone (e : ElasticQuotaInfos) : ElasticQuotaInfos :=
  foldl (λ (elasticQuotas : ElasticQuotaInfos) '(key, elasticQuotaInfo),
           <[key := eq_clone elasticQuotaInfo]> elasticQuotas) ∅ (range e).

(** [util.ResourceList] dereferences [Min]. *)
Definition aggregate_step (acc : Resource * Resource) (entry : string * ElasticQuotaInfo) :
    outcome (Resource * Resource) :=
  let '(used, min) := acc in
  min' ← deref (eq_Min entry.2);
  Ret (res_Add used (ResourceList (eq_Used entry.2)), res_Add min (ResourceList min')).

Definition aggregatedUsedOverMinWith (e : ElasticQuotaInfos) (podRequest : Resource) : outcome bool :=
  acc ← fold_outcome aggregate_step (NewResource ∅, NewResource ∅) (range e);
  Ret (cmp (res_Add acc.1 (ResourceList podRequest)) acc.2 LowerBoundOfMin).

(** capacity_scheduling.go, [computePodResourceRequest] *)
Definition computePodResourceRequest (pod : Pod) : Resource :=
  let result := foldl (λ result container, res_Add result (c_requests container))
                  zero_resource (p_containers pod) in
  let result := foldl (λ result container, res_SetMaxResource result (c_requests container))
                  result (p_init_containers pod) in
  match p_overhead pod with
  | Some overhead => res_Add result overhead
  | None => result
  end.

(** The error of [framework.GetPodKey], which both functions pass on. *)
Definition pod_key_error : string := "cannot get cache key from pod's UID".

Definition addPodIfNotPresent (e : ElasticQuotaInfo) (pod : Pod) : ElasticQuotaInfo * option string :=
  match GetPodKey pod with
  | None => (e, Some pod_key_error)
  | Some key =>
      if decide (key ∈ eq_pods e) then (e, None)
      else
        let e := set_pods e ({[key]} ∪ eq_pods e) in
        let podRequest := computePodResourceRequest pod in
        (reserveResource e podRequest, None)
  end.

Definition deletePodIfPresent (e : ElasticQuotaInfo) (pod : Pod) : ElasticQuotaInfo * option string :=
  match GetPodKey pod with
  | None => (e, Some pod_key_error)
  | Some key =>
      if decide (key ∉ eq_pods e) then (e, None)
      else
        let e := set_pods e (eq_pods e ∖ {[key]}) in
        let podRequest := computePodResourceRequest pod in
        (unreserveResource e podRequest, None)
  end.

(** ** Reserving and unreserving *)

(** All values of a resource fit in an int64, as those of a Go struct do. *)
Definition res64 (r : Resource) : Prop := ∀ d, in64 (get d r).

Lemma res64_zero : res64 zero_resource.
Proof. intros d. rewrite get_zero. wrap_lia. Qed.

Section Laws.
Context `{!QuantitySpec} `{!FrameworkSpec}.

(** Both loops, as an update [op] of each scalar entry. *)
Section ScalarLoop.
Context (op : Z → Z → Z) (step : Resource → string * Z → Resource).
Hypothesis step_spec : ∀ u name value,
  step u (name, value) = res_SetScalar u name (op (scalar u name) value).

Lemma scalar_loop u l :
  foldl step u l =
  {| MilliCPU := MilliCPU u; Memory := Memory u; EphemeralStorage := EphemeralStorage u;
     AllowedPodNumber := AllowedPodNumber u;
     ScalarResources := foldl (λ m '(name, value), <[name := op (default 0 (m !! name)) value]> m)
                          (ScalarResources u) l |}.
Proof.
  revert u. induction l as [|[name value] l IH]; intros u; simpl; [by destruct u|].
  by rewrite IH, step_spec, res_SetScalar_spec.
Qed.

Lemma scalar_loop_lookup u (m : gmap string Z) name :
  ScalarResources (foldl step u (range m)) !! name =
  match m !! name with
  | Some value => Some (op (scalar u name) value)
  | None => ScalarResources u !! name
  end.
Proof.
  rewrite scalar_loop. simpl.
  apply (foldl_range_lookup (λ _ o value, Some (op (default 0 o) value))).
  intros acc k v j. rewrite lookup_insert. repeat case_decide; congruence.
Qed.

Lemma scalar_loop_get u (m : gmap string Z) name :
  in64 (scalar u name) → (∀ a, in64 a → op a 0 = a) →
  scalar (foldl step u (range m)) name = op (scalar u name) (default 0 (m !! name)).
Proof.
  intros Hu Hop. unfold scalar at 1. rewrite scalar_loop_lookup.
  destruct (m !! name); simpl; [done|]. by rewrite Hop.
Qed.
End ScalarLoop.

Lemma op_add_0 a : in64 a → a +₆₄ 0 = a.
Proof. intros. rewrite Z.add_0_r. by apply wrap64_id. Qed.
Lemma op_sub_0 a : in64 a → a -₆₄ 0 = a.
Proof. intros. rewrite Z.sub_0_r. by apply wrap64_id. Qed.

Lemma get_reserve e request d :
  res64 (eq_Used e) →
  get d (eq_Used (reserveResource e request)) = get d (eq_Used e) +₆₄ get d request.
Proof.
  intros He. pose proof (scalar_loop (λ a b, a +₆₄ b) reserve_scalar ltac:(done)) as E.
  destruct d as [| | | |name]; simpl; [by rewrite E..|].
  rewrite (scalar_loop_get (λ a b, a +₆₄ b)); [done|done|apply (He (DScalar name))|apply op_add_0].
Qed.

Lemma get_unreserve e request d :
  res64 (eq_Used e) →
  get d (eq_Used (unreserveResource e request)) = get d (eq_Used e) -₆₄ get d request.
Proof.
  intros He. pose proof (scalar_loop (λ a b, a -₆₄ b) unreserve_scalar ltac:(done)) as E.
  destruct d as [| | | |name]; simpl; [by rewrite E..|].
  rewrite (scalar_loop_get (λ a b, a -₆₄ b)); [done|done|apply (He (DScalar name))|apply op_sub_0].
Qed.

Lemma reserve_res64 e request : res64 (eq_Used e) → res64 (eq_Used (reserveResource e request)).
Proof. intros He d. rewrite get_reserve by done. apply wrap64_in. Qed.

Lemma unreserve_res64 e request : res64 (eq_Used e) → res64 (eq_Used (unreserveResource e request)).
Proof. intros He d. rewrite get_unreserve by done. apply wrap64_in. Qed.

Hint Resolve reserve_res64 unreserve_res64 : core.

(** [unreserveResource] undoes [reserveResource] in every dimension, even
    when the reservation wrapped around; only the entries with value 0 that
    the two leave in the scalar map tell the results apart, and no other
    field of the quota changes. *)
Theorem reserve_unreserve e request :
  res64 (eq_Used e) →
  eq_Used (unreserveResource (reserveResource e request) request) ≡ eq_Used e ∧
  eq_pods (unreserveResource (reserveResource e request) request) = eq_pods e ∧
  eq_Min (unreserveResource (reserveResource e request) request) = eq_Min e ∧
  eq_Max (unreserveResource (reserveResource e request) request) = eq_Max e.
Proof.
  intros He. split; [|done]. intros d.
  rewrite get_unreserve, get_reserve by auto. by apply wrap64_add_sub.
Qed.

(** ** The comparisons *)

(** The loop of [cmp2] sees the scalar resources [x1] names. *)
Definition in_cmp (x1 : Resource) (d : dim) : Prop :=
  match d with DScalar n => is_Some (ScalarResources x1 !! n) | _ => True end.

Definition get_bound (bound : Z) (d : dim) (y : Resource) : Z :=
  match d with DScalar n => default bound (ScalarResources y !! n) | _ => get d y end.

Lemma cmp2_spec x1 x2 y bound :
  cmp2 x1 x2 y bound = true ↔
  ∃ d, in_cmp x1 d ∧ get d x1 +₆₄ get d x2 > get_bound bound d y.
Proof.
  unfold cmp2. split.
  - repeat case_bool_decide; [by exists DCPU|by exists DMemory|by exists DEphemeral|by exists DPods|].
    rewrite existsb_range. intros (n & v & Hn & Hv). apply bool_decide_eq_true in Hv.
    exists (DScalar n). split; [by exists v|]. simpl. unfold scalar at 1. rewrite Hn.
    by destruct (ScalarResources y !! n).
  - intros (d & Hin & Hd). repeat case_bool_decide; try done.
    destruct d as [| | | |n]; try done.
    destruct Hin as [v Hn]. apply existsb_range. exists n, v. split; [done|].
    apply bool_decide_eq_true. simpl in Hd. unfold scalar at 1 in Hd. rewrite Hn in Hd.
    by destruct (ScalarResources y !! n).
Qed.

Lemma usedOverMaxWith_false e r :
  usedOverMaxWith e r = false ↔
  ∀ max d, eq_Max e = Some max → in_cmp r d →
    get d r +₆₄ get d (eq_Used e) ≤ get_bound UpperBoundOfMax d max.
Proof.
  unfold usedOverMaxWith. destruct (eq_Max e) as [max|]; [|split; [by intros _ ?? [=]|done]].
  rewrite <- not_true_iff_false, cmp2_spec. split.
  - intros Hn m d [= <-] Hd. apply Z.nlt_ge. intros Hgt. apply Hn. exists d. split; [done|lia].
  - intros Hall (d & Hd & Hgt). specialize (Hall max d eq_refl Hd). lia.
Qed.

Lemma in_cmp_add r s d :
  resource_wf s → in_cmp (res_Add r (ResourceList s)) d ↔ in_cmp r d ∨ in_cmp s d.
Proof.
  intros Hs. rewrite res_Add_ResourceList by done. destruct d as [| | | |n]; simpl; try by intuition.
  rewrite lookup_merge. unfold is_Some.
  destruct (ScalarResources r !! n), (ScalarResources s !! n); simpl; naive_solver.
Qed.

Lemma cmp2_proper x1 x1' y bound : x1 ≡ x1' → (∀ x, cmp2 x x1 y bound = cmp2 x x1' y bound).
Proof.
  intros E x. apply eq_iff_eq_true. rewrite !cmp2_spec. by setoid_rewrite E.
Qed.

Lemma get_bound_0 d y : get_bound 0 d y = get d y.
Proof. by destruct d. Qed.

(** With the bound 0 and non-negative limits the scalar resources that [x1]
    does not name make no difference. *)
Lemma cmp_spec x y :
  res64 x → (∀ d, 0 ≤ get d y) → cmp x y LowerBoundOfMin = true ↔ ∃ d, get d x > get d y.
Proof.
  intros Hx Hy. unfold cmp. rewrite cmp2_spec. split.
  - intros (d & _ & Hd). exists d. rewrite get_zero, Z.add_0_r, wrap64_id, get_bound_0 in Hd; auto.
  - intros (d & Hd). exists d. rewrite get_zero, Z.add_0_r, wrap64_id, get_bound_0 by done.
    split; [|done]. destruct d as [| | | |n]; try done. simpl. specialize (Hy (DScalar n)).
    simpl in *. unfold scalar at 1 in Hd.
    destruct (ScalarResources x !! n); simpl in *; [done|lia].
Qed.

(** ** The aggregate over all quotas *)

Definition min_of (e : ElasticQuotaInfo) : Resource := default zero_resource (eq_Min e).

(** A quota that [newElasticQuotaInfo] built: both resources are the
    library's, and [Min] is set. *)
Definition quota_wf (e : ElasticQuotaInfo) : Prop :=
  resource_wf (eq_Used e) ∧ is_Some (eq_Min e) ∧ resource_wf (min_of e).

Definition sum_used (d : dim) : ElasticQuotaInfos → Z := sum_map (get d ∘ eq_Used).
Definition sum_min (d : dim) : ElasticQuotaInfos → Z := sum_map (get d ∘ min_of).

Lemma get_NewResource_empty d : get d (NewResource ∅) = 0.
Proof.
  rewrite NewResource_spec. destruct d; simpl;
    rewrite ?res_Add_cpu, ?res_Add_memory, ?res_Add_ephemeral, ?res_Add_pods;
    unfold milli_of, value_of, scalar; rewrite ?res_Add_scalar, ?lookup_empty; done.
Qed.

Lemma get_res_Add d r s :
  resource_wf r → resource_wf s → get d (res_Add r (ResourceList s)) = get d r +₆₄ get d s.
Proof. intros. rewrite res_Add_ResourceList by done. by apply get_res_plus. Qed.

Lemma aggregate_loop l u m :
  (∀ x, x ∈ l → quota_wf x.2) → resource_wf u → resource_wf m →
  ∃ u' m', fold_outcome aggregate_step (u, m) l = Ret (u', m') ∧
    resource_wf u' ∧ resource_wf m' ∧
    (∀ d, get d u' = get d u +₆₄ zsum (get d ∘ eq_Used ∘ snd) l) ∧
    (∀ d, get d m' = get d m +₆₄ zsum (get d ∘ min_of ∘ snd) l).
Proof.
  revert u m. induction l as [|[k e] l IH]; intros u m Hl Hu Hm.
  - exists u, m. split; [done|]. split; [done|]. split; [done|].
    split; intros d; cbn; rewrite Z.add_0_r, wrap64_id by (by apply get_in64); done.
  - destruct (Hl (k, e)) as (Hwu & [min Hmin] & Hwm); [by left|]. unfold min_of in Hwm.
    simpl in *. rewrite Hmin in *. simpl in *.
    destruct (IH (res_Add u (ResourceList (eq_Used e))) (res_Add m (ResourceList min)))
      as (u' & m' & E & ? & ? & Hu' & Hm'); [intros; apply Hl; by right|by apply res_Add_wf..|].
    exists u', m'. split; [done|]. split; [done|]. split; [done|].
    split; intros d; rewrite ?Hu', ?Hm', get_res_Add, wrap64_add_l by done;
      f_equal; unfold min_of; cbn; rewrite ?Hmin; cbn; lia.
Qed.

(** [aggregatedUsedOverMinWith] never panics on quotas built by
    [newElasticQuotaInfo] and, as long as the totals fit in an int64, answers
    true exactly when the total use of all quotas plus the request exceeds
    the total of the minima in some dimension, scalar resources included,
    whatever the iteration order of the map is. *)
Lemma aggregatedUsedOverMinWith_spec e podRequest :
  map_Forall (λ _ i, quota_wf i) e → resource_wf podRequest →
  (∀ d, in64 (sum_used d e + get d podRequest)) →
  (∀ d, 0 ≤ sum_min d e ∧ in64 (sum_min d e)) →
  ∃ b, aggregatedUsedOverMinWith e podRequest = Ret b ∧
       (b = true ↔ ∃ d, sum_used d e + get d podRequest > sum_min d e).
Proof.
  intros He Hp Hused Hmin. unfold aggregatedUsedOverMinWith.
  assert (resource_wf (NewResource ∅)) as Hwf0.
  { rewrite NewResource_spec. apply res_Add_wf, zero_resource_wf. }
  pose proof get_NewResource_empty as Hz.
  destruct (aggregate_loop (range e) (NewResource ∅) (NewResource ∅))
    as (u & m & -> & Hu & Hm & Du & Dm); [|done..|].
  { intros [k i] Hi. apply elem_of_range in Hi. by apply (He k). }
  assert (∀ d, get d m = sum_min d e) as Em.
  { intros d. rewrite Dm, Hz, Z.add_0_l, (zsum_range (get d ∘ min_of)). apply wrap64_id, Hmin. }
  assert (∀ d, get d (res_Add u (ResourceList podRequest)) = sum_used d e + get d podRequest) as Eu.
  { intros d. rewrite get_res_Add, Du, Hz, Z.add_0_l, (zsum_range (get d ∘ eq_Used)), wrap64_add_l
      by done. apply wrap64_id, Hused. }
  eexists. split; [done|]. simpl. rewrite cmp_spec.
  - by setoid_rewrite Eu; setoid_rewrite Em.
  - intros d. by rewrite Eu.
  - intros d. rewrite Em. apply Hmin.
Qed.

(** ** The accounting invariant *)

(** The quota's operations on pods, as the plugin's handlers perform them. *)
Inductive pod_op := OpAdd (pod : Pod) | OpDelete (pod : Pod).

Definition op_pod (o : pod_op) : Pod := match o with OpAdd pod | OpDelete pod => pod end.

Definition run_op (e : ElasticQuotaInfo) (o : pod_op) : ElasticQuotaInfo :=
  match o with
  | OpAdd pod => (addPodIfNotPresent e pod).1
  | OpDelete pod => (deletePodIfPresent e pod).1
  end.

(** The pods behind a key do not change their request: it is immutable once
    the pod is created. *)
Definition consistent (request : string → Resource) (o : pod_op) : Prop :=
  ∀ key, GetPodKey (op_pod o) = Some key → computePodResourceRequest (op_pod o) = request key.

Definition accounted (request : string → Resource) (e : ElasticQuotaInfo) : Prop :=
  ∀ d, get d (eq_Used e) = wrap64 (sum_set (get d ∘ request) (eq_pods e)).

Lemma accounted_res64 request e : accounted request e → res64 (eq_Used e).
Proof. intros He d. rewrite He. apply wrap64_in. Qed.

Lemma run_op_accounted request e o :
  consistent request o → accounted request e → accounted request (run_op e o).
Proof.
  intros Hc He. pose proof (accounted_res64 _ _ He) as H64. unfold consistent in Hc.
  destruct o as [pod|pod]; simpl in *; unfold addPodIfNotPresent, deletePodIfPresent;
    destruct (GetPodKey pod) as [key|]; try done; rewrite (Hc key) by done;
    case_decide; try done; intros d; cbn [fst].
  - rewrite get_reserve by done. cbn.
    rewrite He, wrap64_add_l, sum_set_insert by done. f_equal. cbn. lia.
  - rewrite get_unreserve by done. cbn.
    rewrite He, wrap64_sub_l, (sum_set_delete _ (eq_pods e) key) by (destruct (decide (key ∈ eq_pods e)); tauto).
    f_equal. cbn. lia.
Qed.

(** ** Well-formed quotas *)

Lemma SetMax_wf r rl : resource_wf r → resource_wf (res_SetMaxResource r rl).
Proof.
  intros (Hc & Hm & He & Hp & Hr). unfold resource_wf.
  rewrite res_SetMax_cpu, res_SetMax_memory, res_SetMax_ephemeral, res_SetMax_pods.
  assert (∀ a b, in64 a → in64 b → in64 (Z.max a b)) as Hmax.
  { intros a b ? ?. destruct (Z.max_spec a b) as [[_ ->]|[_ ->]]; done. }
  split; [case_match; auto using q_MilliValue_in64|].
  split; [case_match; auto using q_Value_in64|].
  split; [case_match; auto using q_Value_in64|]. split; [done|].
  intros n v. rewrite res_SetMax_scalar.
  destruct (rl !! n) eqn:E; [|by apply Hr].
  destruct (IsScalarResourceName n) eqn:Hn; [|intros Hv; apply Hr in Hv as [? _]; congruence].
  intros [= <-]. split; [done|]. apply Hmax; [|apply q_Value_in64].
  unfold scalar. destruct (ScalarResources r !! n) eqn:Hs; simpl; [by apply Hr in Hs as []|wrap_lia].
Qed.

Lemma computePodResourceRequest_wf pod : resource_wf (computePodResourceRequest pod).
Proof.
  unfold computePodResourceRequest.
  assert (∀ (f : Resource → resource_list → Resource) cs r,
    (∀ r rl, resource_wf r → resource_wf (f r rl)) → resource_wf r →
    resource_wf (foldl (λ r c, f r (c_requests c)) r cs)) as Hfold.
  { intros f cs. induction cs; simpl; auto. }
  case_match; [apply res_Add_wf|]; apply (Hfold res_SetMaxResource), (Hfold res_Add);
    auto using res_Add_wf, SetMax_wf, zero_resource_wf.
Qed.

Lemma newElasticQuotaInfo_wf namespace min max used :
  quota_wf (newElasticQuotaInfo namespace min max used).
Proof.
  assert (∀ rl, resource_wf (NewResource rl)).
  { intros rl. rewrite NewResource_spec. apply res_Add_wf, zero_resource_wf. }
  unfold quota_wf, min_of, newElasticQuotaInfo. simpl. eauto.
Qed.

Lemma scalar_loop_wf (op : Z → Z → Z) step u (m : gmap string Z) :
  (∀ u name (value : Z), step u (name, value) = res_SetScalar u name (op (scalar u name) value)) →
  (∀ a b, in64 (op a b)) →
  resource_wf u → map_Forall (λ n _, IsScalarResourceName n = true) m →
  resource_wf (foldl step u (range m)).
Proof.
  intros Hstep Hop (? & ? & ? & ? & Hu) Hm.
  rewrite (scalar_loop op step Hstep). do 4 (split; [done|]). intros n v Hv.
  assert (ScalarResources (foldl step u (range m)) !! n = Some v) as Hl
    by (by rewrite (scalar_loop op step Hstep)).
  rewrite (scalar_loop_lookup op step Hstep) in Hl.
  destruct (m !! n) eqn:E; [|by apply Hu]. injection Hl as <-. split; [by apply Hm in E|done].
Qed.

Lemma reserve_wf e request :
  quota_wf e → resource_wf request → quota_wf (reserveResource e request).
Proof.
  intros ((? & ? & ? & ? & Hu) & ? & ?) (_ & _ & _ & _ & Hr). split; [|done].
  apply (scalar_loop_wf (λ a b, a +₆₄ b)); [done|intros; apply wrap64_in| |].
  - split; [|split; [|split; [|split]]]; [apply wrap64_in..|done].
  - intros n v E. by apply Hr in E as [].
Qed.

Lemma unreserve_wf e request :
  quota_wf e → resource_wf request → quota_wf (unreserveResource e request).
Proof.
  intros ((? & ? & ? & ? & Hu) & ? & ?) (_ & _ & _ & _ & Hr). split; [|done].
  apply (scalar_loop_wf (λ a b, a -₆₄ b)); [done|intros; apply wrap64_in| |].
  - split; [|split; [|split; [|split]]]; [apply wrap64_in..|done].
  - intros n v E. by apply Hr in E as [].
Qed.

Lemma addPod_wf e pod : quota_wf e → quota_wf (addPodIfNotPresent e pod).1.
Proof.
  intros He. unfold addPodIfNotPresent. repeat case_match; try done.
  apply reserve_wf; [done|]. apply computePodResourceRequest_wf.
Qed.

Lemma deletePod_wf e pod : quota_wf e → quota_wf (deletePodIfPresent e pod).1.
Proof.
  intros He. unfold deletePodIfPresent. repeat case_match; try done.
  apply unreserve_wf; [done|]. apply computePodResourceRequest_wf.
Qed.

(** ** Cloning *)

Lemma elements_copy (l : list string) (s : gset string) :
  foldl (λ pods pod, {[pod]} ∪ pods) s l = list_to_set l ∪ s.
Proof. revert s. induction l as [|x l IH]; intros s; cbn; [set_solver|]. rewrite IH. set_solver. Qed.

Lemma eq_clone_id e : eq_clone e = e.
Proof.
  destruct e as [ns pods min max used]. unfold eq_clone. cbn.
  rewrite elements_copy, list_to_set_elements_L, union_empty_r_L, res_Clone_spec.
  f_equal; destruct min, max; cbn; by rewrite ?res_Clone_spec.
Qed.

Lemma infos_clone_id e : infos_clone e = e.
Proof.
  apply map_eq. intros k. unfold infos_clone.
  rewrite (foldl_range_lookup (λ _ _ i, Some (eq_clone i))).
  - rewrite lookup_empty. destruct (e !! k); cbn; by rewrite ?eq_clone_id.
  - intros acc k' v j. rewrite lookup_insert. repeat case_decide; congruence.
Qed.
End Laws.
End ElasticQuota.

(** ** Witnesses *)

Definition w_request : Resource := computePodResourceRequest (model_pod "a" "p1" "n1" 0
  {[ResourceCPU := cores 2; "gpu" := bytes 1]}).

Definition w_quota : ElasticQuotaInfo :=
  newElasticQuotaInfo "a" (Some {[ResourceCPU := cores 3; ResourceMemory := bytes 5]}) None None.

Lemma reserve_unreserve_witness :
  res64 (eq_Used w_quota) ∧
  MilliCPU (eq_Used (reserveResource w_quota w_request)) = 2000 ∧
  eq_Used (unreserveResource (reserveResource w_quota w_request) w_request) ≡ eq_Used w_quota.
Proof.
  assert (res64 (eq_Used w_quota)) as H64.
  { intros d. apply get_in64, newElasticQuotaInfo_wf. }
  split; [done|]. split; [by vm_compute|]. by apply (reserve_unreserve w_quota w_request).
Defined.
