(* ===== verification/Preemption.v ===== *)
(** * What the two preemption plugins share

    pkg/capacityscheduling and pkg/preemptiontoleration both derive from the
    default preemption plugin of Kubernetes: the closures [removePod] and
    [addPod] of [SelectVictimsOnNode] and [filterPodsWithPDBViolation] have the
    same text in both packages.

    [PreemptionHandle] is the part of [framework.Handle] the closures call.
    [S] is the type of the cycle state. *)

From S2P Require Import Prelude K8s K8sModel.

(** RunPreFilterExtensionRemovePod, RunPreFilterExtensionAddPod and
    RunFilterPluginsWithNominatedPods; the cycle state is mutable. *)
Class PreemptionHandle `{QuantityOps} (S : Type) : Type := {
  RunPreFilterExtensionRemovePod : S → Pod → Pod → NodeInfo → S * Status;
  RunPreFilterExtensionAddPod : S → Pod → Pod → NodeInfo → S * Status;
  RunFilterPluginsWithNominatedPods : S → Pod → NodeInfo → Status;
}.

Section Preemption.
Context `{QuantityOps} `{!NodeInfoOps}.

(** ** The node under evaluation *)

Record DryRun (S : Type) := mkDryRun { dr_state : S; dr_node : NodeInfo }.
Arguments mkDryRun {S} _ _.
Arguments dr_state {S} _.
Arguments dr_node {S} _.

Definition set_ni_pods (ni : NodeInfo) (pods : list Pod) : NodeInfo := {|
  ni_node := ni_node ni; ni_pods := pods; ni_allocatable := ni_allocatable ni;
  ni_requested := ni_requested ni; ni_nonzero_requested := ni_nonzero_requested ni |}.

Section Closures.
Context {S : Type} `{!PreemptionHandle S}.

(** The caller turns every error into a status with [framework.AsStatus]. *)
Definition removePod (preemptor : Pod) (d : DryRun S) (rpi : Pod) : result StatusData (DryRun S) :=
  match ni_RemovePod (dr_node d) rpi with
  | None => Err (AsStatus "no corresponding pod in pods of node")
  | Some nodeInfo =>
      let '(state, status) := RunPreFilterExtensionRemovePod (dr_state d) preemptor rpi nodeInfo in
      if negb (IsSuccess status) then Err (AsStatus "RunPreFilterExtensionRemovePod")
      else Ok (mkDryRun state nodeInfo)
  end.

Definition addPod (preemptor : Pod) (d : DryRun S) (api : Pod) : result StatusData (DryRun S) :=
  let nodeInfo := ni_AddPodInfo (dr_node d) api in
  let '(state, status) := RunPreFilterExtensionAddPod (dr_state d) preemptor api nodeInfo in
  if negb (IsSuccess status) then Err (AsStatus "RunPreFilterExtensionAddPod")
  else Ok (mkDryRun state nodeInfo).

Definition filter_status (preemptor : Pod) (d : DryRun S) : Status :=
  RunFilterPluginsWithNominatedPods (dr_state d) preemptor (dr_node d).
End Closures.

(** ** Pod disruption budgets *)

Section Budgets.
Context `{LabelSelectorOps}.

(** The conditions of the inner loop of [filterPodsWithPDBViolation] under
    which it reaches [pdbsAllowed[i]--]. *)
Definition pdb_counts (pod : Pod) (pdb : PodDisruptionBudget) : bool :=
  if negb (bool_decide (pdb_namespace pdb = p_namespace pod)) then false
  else match LabelSelectorAsSelector (pdb_selector pdb) with
       | None => false
       | Some selector =>
           if sel_Empty selector || negb (sel_Matches selector (p_labels pod)) then false
           else negb (bool_decide (p_name pod ∈ pdb_DisruptedPods pdb))
       end.

(** The inner loop over the budgets: the updated [pdbsAllowed] and
    [pdbForPodIsViolated]. *)
Fixpoint charge_pdbs (pod : Pod) (pdbs : list PodDisruptionBudget) (pdbsAllowed : list Z) :
    list Z * bool :=
  match pdbs, pdbsAllowed with
  | pdb :: pdbs, allowed :: pdbsAllowed =>
      let '(rest, violated) := charge_pdbs pod pdbs pdbsAllowed in
      if pdb_counts pod pdb
      then let allowed := wrap32 (allowed - 1) in
           (allowed :: rest, bool_decide (allowed < 0) || violated)
      else (allowed :: rest, violated)
  | _, _ => (pdbsAllowed, false)
  end.

Definition pdb_step (pdbs : list PodDisruptionBudget)
    (acc : list Z * list Pod * list Pod) (pod : Pod) : list Z * list Pod * list Pod :=
  let '(pdbsAllowed, violating, nonViolating) := acc in
  let '(pdbsAllowed, pdbForPodIsViolated) :=
    if negb (bool_decide (p_labels pod = ∅)) then charge_pdbs pod pdbs pdbsAllowed
    else (pdbsAllowed, false) in
  if pdbForPodIsViolated : bool then (pdbsAllowed, violating ++ [pod], nonViolating)
  else (pdbsAllowed, violating, nonViolating ++ [pod]).

Definition filterPodsWithPDBViolation (podInfos : list Pod) (pdbs : list PodDisruptionBudget) :
    list Pod * list Pod :=
  let '(_, violatingPods, nonViolatingPods) :=
    foldl (pdb_step pdbs) (pdb_DisruptionsAllowed <$> pdbs, [], []) podInfos in
  (violatingPods, nonViolatingPods).

(** The pod counts against the budget. *)
Definition charged (pod : Pod) (pdb : PodDisruptionBudget) : bool :=
  negb (bool_decide (p_labels pod = ∅)) && pdb_counts pod pdb.

Definition count_charged (pdb : PodDisruptionBudget) (pods : list Pod) : Z :=
  zsum (λ pod, if charged pod pdb then 1 else 0) pods.

Lemma count_charged_nonneg pdb pods : 0 ≤ count_charged pdb pods.
Proof. apply zsum_nonneg. intros. by case_match. Qed.

Lemma count_charged_le pdb pods : count_charged pdb pods ≤ Z.of_nat (length pods).
Proof.
  unfold count_charged, zsum. induction pods as [|pod pods IH]; cbn; [lia|]. case_match; lia.
Qed.

(** What [charge_pdbs] does to the i-th budget. *)
Lemma charge_pdbs_spec pod pdbs allowed :
  length allowed = length pdbs →
  let '(allowed', violated) := charge_pdbs pod pdbs allowed in
  length allowed' = length pdbs ∧
  (∀ i pdb a, pdbs !! i = Some pdb → allowed !! i = Some a →
     allowed' !! i = Some (if pdb_counts pod pdb then wrap32 (a - 1) else a)) ∧
  (violated = true ↔ ∃ i pdb a, pdbs !! i = Some pdb ∧ allowed !! i = Some a ∧
     pdb_counts pod pdb = true ∧ wrap32 (a - 1) < 0).
Proof.
  revert allowed. induction pdbs as [|pdb pdbs IH]; intros [|a allowed] Hlen; try done; simpl in *.
  { split; [done|]. split; [done|]. split; [done|]. by intros (? & ? & ? & ? & _). }
  injection Hlen as Hlen. specialize (IH allowed Hlen). destruct (charge_pdbs pod pdbs allowed) as [rest violated].
  destruct IH as (Hl & Hrest & Hv). destruct (pdb_counts pod pdb) eqn:Hc; simpl.
  - split; [lia|]. split.
    + intros [|i] pdb' a' Hp Ha; simpl in *; simplify_eq; [by rewrite Hc|eauto].
    + rewrite orb_true_iff, bool_decide_eq_true, Hv. split.
      * intros [Hneg|(i & pdb' & a' & ?)]; [by exists 0%nat, pdb, a|by exists (Datatypes.S i), pdb', a'].
      * intros ([|i] & pdb' & a' & Hp & Ha & Hc' & Hneg); simpl in *; simplify_eq; [by left|right; eauto 10].
  - split; [lia|]. split.
    + intros [|i] pdb' a' Hp Ha; simpl in *; simplify_eq; [by rewrite Hc|eauto].
    + rewrite Hv. split.
      * intros (i & pdb' & a' & ?). by exists (Datatypes.S i), pdb', a'.
      * intros ([|i] & pdb' & a' & Hp & Ha & Hc' & Hneg); simpl in *; simplify_eq; [congruence|eauto 10].
Qed.

Definition budget_inv (pdbs : list PodDisruptionBudget) (seen : list Pod)
    (acc : list Z * list Pod * list Pod) : Prop :=
  let '(allowed, violating, nonViolating) := acc in
  length allowed = length pdbs ∧ violating ++ nonViolating ≡ₚ seen ∧
  violating `sublist_of` seen ∧ nonViolating `sublist_of` seen ∧
  (∀ i pdb, pdbs !! i = Some pdb →
     allowed !! i = Some (pdb_DisruptionsAllowed pdb - count_charged pdb seen) ∧
     (0 < count_charged pdb nonViolating →
      count_charged pdb nonViolating ≤ pdb_DisruptionsAllowed pdb)) ∧
  (∀ pod, pod ∈ violating → ∃ pdb, pdb ∈ pdbs ∧ charged pod pdb = true ∧
     pdb_DisruptionsAllowed pdb < count_charged pdb seen).

Lemma count_charged_snoc pdb pods pod :
  count_charged pdb (pods ++ [pod]) = count_charged pdb pods + (if charged pod pdb then 1 else 0).
Proof. unfold count_charged. rewrite zsum_app. cbn. lia. Qed.

(** One pod, seen through [charged]: the pod without labels charges nothing. *)
Lemma charge_step_spec pod pdbs allowed :
  length allowed = length pdbs →
  let '(allowed', violated) :=
    if negb (bool_decide (p_labels pod = ∅)) then charge_pdbs pod pdbs allowed
    else (allowed, false) in
  length allowed' = length pdbs ∧
  (∀ i pdb a, pdbs !! i = Some pdb → allowed !! i = Some a →
     allowed' !! i = Some (if charged pod pdb then wrap32 (a - 1) else a)) ∧
  (violated = true ↔ ∃ i pdb a, pdbs !! i = Some pdb ∧ allowed !! i = Some a ∧
     charged pod pdb = true ∧ wrap32 (a - 1) < 0).
Proof.
  intros Hlen. unfold charged. case_bool_decide; simpl; [|by apply charge_pdbs_spec].
  split; [done|]. split; [done|]. split; [done|]. by intros (? & ? & ? & _ & _ & ? & _).
Qed.

Lemma budget_step pdbs seen acc pod :
  (∀ pdb, pdb ∈ pdbs → in32 (pdb_DisruptionsAllowed pdb - count_charged pdb (seen ++ [pod]))) →
  budget_inv pdbs seen acc → budget_inv pdbs (seen ++ [pod]) (pdb_step pdbs acc pod).
Proof.
  destruct acc as [[allowed violating] nonViolating].
  intros H32 (Hlen & Hperm & Hsv & Hsn & Hbud & Hviol). unfold pdb_step.
  pose proof (charge_step_spec pod pdbs allowed Hlen) as Hstep.
  destruct (if negb _ then _ else _) as [allowed' violated]. destruct Hstep as (Hlen' & Hall & Hv).
  assert (∀ i pdb, pdbs !! i = Some pdb →
    allowed' !! i = Some (pdb_DisruptionsAllowed pdb - count_charged pdb (seen ++ [pod]))) as Hall'.
  { intros i pdb Hi. destruct (Hbud i pdb Hi) as [Ha _]. rewrite (Hall i pdb _ Hi Ha).
    pose proof (H32 pdb ltac:(by eapply list_elem_of_lookup_2)) as Hr.
    rewrite count_charged_snoc in *. case_match; [|f_equal; lia].
    f_equal. rewrite wrap32_id; [lia|]. by replace (_ - 1) with
      (pdb_DisruptionsAllowed pdb - (count_charged pdb seen + 1)) by lia. }
  assert (∀ pod', pod' ∈ violating → ∃ pdb, pdb ∈ pdbs ∧ charged pod' pdb = true ∧
    pdb_DisruptionsAllowed pdb < count_charged pdb (seen ++ [pod])) as Hviol'.
  { intros pod' Hin. destruct (Hviol pod' Hin) as (pdb & ? & ? & ?). exists pdb.
    rewrite count_charged_snoc. case_match; auto with lia. }
  assert (∀ i pdb a, pdbs !! i = Some pdb → allowed !! i = Some a → charged pod pdb = true →
    wrap32 (a - 1) = pdb_DisruptionsAllowed pdb - count_charged pdb (seen ++ [pod])) as Hcur.
  { intros i pdb a Hi Ha Hc. specialize (Hall i pdb a Hi Ha). rewrite Hc, (Hall' i pdb Hi) in Hall.
    congruence. }
  destruct violated; split; try done.
  - rewrite <- app_assoc. split; [|split; [by apply sublist_app|split; [by apply sublist_inserts_r|split]]].
    + by rewrite (Permutation_app_comm [pod]), app_assoc, Hperm.
    + intros i pdb Hi. split; [by apply Hall'|]. by apply (Hbud i pdb Hi).
    + intros pod' [Hin| ->%list_elem_of_singleton]%elem_of_app; [by apply Hviol'|].
      destruct (proj1 Hv eq_refl) as (i & pdb & a & Hi & Ha & Hc & Hneg). exists pdb.
      rewrite (Hcur i pdb a Hi Ha Hc) in Hneg. split; [by eapply list_elem_of_lookup_2|]. split; [done|lia].
  - split; [by rewrite app_assoc, Hperm|].
    split; [by apply sublist_inserts_r|]. split; [by apply sublist_app|]. split; [|done].
    intros i pdb Hi. split; [by apply Hall'|]. intros Hpos.
    destruct (Hbud i pdb Hi) as [Ha Hle]. rewrite count_charged_snoc in *.
    destruct (charged pod pdb) eqn:Hc; [|lia].
    assert (¬ wrap32 (pdb_DisruptionsAllowed pdb - count_charged pdb seen - 1) < 0) as Hnn.
    { intros Hneg. assert (false = true) as [=]. apply Hv. by exists i, pdb, (pdb_DisruptionsAllowed pdb - count_charged pdb seen). }
    rewrite (Hcur i pdb _ Hi Ha Hc), count_charged_snoc, Hc in Hnn.
    assert (count_charged pdb nonViolating ≤ count_charged pdb seen) as Hsub.
    { rewrite <- Hperm. unfold count_charged. rewrite zsum_app.
      pose proof (count_charged_nonneg pdb violating). unfold count_charged in *. lia. }
    lia.
Qed.

(** The two groups are always a partition of the pods. *)
Lemma filterPodsWithPDBViolation_perm podInfos pdbs violating nonViolating :
  filterPodsWithPDBViolation podInfos pdbs = (violating, nonViolating) →
  violating ++ nonViolating ≡ₚ podInfos.
Proof.
  unfold filterPodsWithPDBViolation.
  assert (∀ ps acc, let acc' := foldl (pdb_step pdbs) acc ps in
    acc'.1.2 ++ acc'.2 ≡ₚ acc.1.2 ++ acc.2 ++ ps) as Hloop.
  { induction ps as [|p ps IH]; intros [[a v] n]; simpl; [by rewrite app_nil_r|].
    etrans; [apply IH|]. unfold pdb_step.
    destruct (if negb _ then _ else _) as [a' violated]. destruct violated; simpl; solve_Permutation. }
  specialize (Hloop podInfos (pdb_DisruptionsAllowed <$> pdbs, [], [])).
  destruct (foldl _ _ podInfos) as [[a v] n]. simpl in Hloop. by intros [= <- <-].
Qed.

(** C21: the two groups [filterPodsWithPDBViolation] returns are a partition of
    the pods, each in the order received; evicting every pod of the
    non-violating group stays within the remaining disruptions of every
    budget; and a pod is only put in the violating group when it counts
    against a budget that evicting all the pods would exceed. *)
Theorem filterPodsWithPDBViolation_spec podInfos pdbs violating nonViolating :
  (∀ pdb, pdb ∈ pdbs → 0 ≤ pdb_DisruptionsAllowed pdb < 2 ^ 31) →
  Z.of_nat (length podInfos) < 2 ^ 31 →
  filterPodsWithPDBViolation podInfos pdbs = (violating, nonViolating) →
  violating ++ nonViolating ≡ₚ podInfos ∧
  violating `sublist_of` podInfos ∧ nonViolating `sublist_of` podInfos ∧
  (∀ pdb, pdb ∈ pdbs → count_charged pdb nonViolating ≤ pdb_DisruptionsAllowed pdb) ∧
  (∀ pod, pod ∈ violating → ∃ pdb, pdb ∈ pdbs ∧ charged pod pdb = true ∧
     pdb_DisruptionsAllowed pdb < count_charged pdb podInfos).
Proof.
  intros Hpdb Hlen Hf.
  assert (∀ l2 l1 acc, podInfos = l1 ++ l2 → budget_inv pdbs l1 acc →
    budget_inv pdbs podInfos (foldl (pdb_step pdbs) acc l2)) as Hloop.
  { induction l2 as [|pod l2 IH]; intros l1 acc Hl Hinv; simpl; [by rewrite Hl, app_nil_r|].
    apply (IH (l1 ++ [pod])); [by rewrite Hl, <- app_assoc|]. apply budget_step; [|done].
    intros pdb Hin. specialize (Hpdb pdb Hin).
    pose proof (count_charged_nonneg pdb (l1 ++ [pod])).
    pose proof (count_charged_le pdb (l1 ++ [pod])) as Hle.
    assert (length (l1 ++ [pod]) ≤ length podInfos)%nat.
    { rewrite Hl, !length_app. simpl. lia. }
    unfold in32. lia. }
  specialize (Hloop podInfos [] (pdb_DisruptionsAllowed <$> pdbs, [], []) eq_refl).
  unfold filterPodsWithPDBViolation in Hf.
  destruct (foldl _ _ podInfos) as [[allowed v] n]. injection Hf as -> ->.
  destruct Hloop as (_ & ? & ? & ? & Hbud & ?).
  { split; [by rewrite length_fmap|]. split; [done|]. split; [done|]. split; [done|].
    split; [|by intros ? ?%not_elem_of_nil]. intros i pdb Hi. split; [|by cbn].
    rewrite list_lookup_fmap, Hi. cbn. f_equal. lia. }
  split; [done|]. split; [done|]. split; [done|]. split; [|done].
  intros pdb Hin. apply list_elem_of_lookup_1 in Hin as Hi. destruct Hi as [i Hi].
  destruct (Hbud i pdb Hi) as [_ Hle]. pose proof (count_charged_nonneg pdb nonViolating).
  specialize (Hpdb pdb Hin). lia.
Qed.
End Budgets.
End Preemption.

Arguments mkDryRun {_ S} _ _.
Arguments dr_state {_ S} _.
Arguments dr_node {_ S} _.

(** ** Witnesses *)

Definition w_victim (name : string) : Pod :=
  with_labels (model_pod "a" name "n1" 0 ∅) {["app" := "db"]}.

Definition w_pdb : PodDisruptionBudget :=
  {| pdb_namespace := "a"; pdb_selector := ({["app" := "db"]} : gmap string string) : LabelSelector;
     pdb_DisruptionsAllowed := 1; pdb_DisruptedPods := ∅ |}.

Lemma filterPodsWithPDBViolation_spec_witness :
  let pods := [w_victim "p1"; w_victim "p2"; w_victim "p3"] in
  let groups := filterPodsWithPDBViolation pods [w_pdb] in
  p_name <$> groups.1 = ["p2"; "p3"] ∧ p_name <$> groups.2 = ["p1"] ∧
  groups.1 ++ groups.2 ≡ₚ pods ∧
  (∀ pdb, pdb ∈ [w_pdb] → count_charged pdb groups.2 ≤ pdb_DisruptionsAllowed pdb).
Proof.
  intros pods groups. split; [by vm_compute|]. split; [by vm_compute|].
  destruct (filterPodsWithPDBViolation_spec pods [w_pdb] groups.1 groups.2) as (? & _ & _ & ? & _).
  - intros pdb ->%list_elem_of_singleton. simpl. lia.
  - simpl. lia.
  - apply surjective_pairing.
  - done.
Defined.
