(* ===== verification/CapacityScheduling.v ===== *)
(** * pkg/capacityscheduling/capacity_scheduling.go

    The CapacityScheduling plugin.  Its state is the map of elastic quotas; a
    scheduling cycle carries a snapshot of the map and the [PreFilterState] in
    the cycle state.  The informer callbacks and the Reserve plugin update the
    map under the plugin's lock, so a run of the plugin is a sequence of the
    steps of [handle].

    Snapshots are values here: the code clones the map deeply, and what a dry
    run changes through the pointers of the snapshot is threaded through the
    cycle state.  Log output is left out. *)

From S2P Require Import Prelude GoSort K8s K8sModel ResourceUtil ElasticQuota Preemption.

Section CapacityScheduling.
Context `{MapOrder} `{GoSort} `{QuantityOps} `{!FrameworkOps}.

(** What the other plugins keep in the cycle state. *)
Context {Others : Type}.

(** ** Definitions *)

Abbreviation Infos := (gmap string ElasticQuotaInfo).

Record PreFilterState := mkPreFilterState {
  podReq : Resource;
  nominatedPodsReqInEQWithPodReq : Resource;
  nominatedPodsReqWithPodReq : Resource;
}.

(** The cycle state: the two entries this plugin reads and writes, and those of
    the other plugins. *)
Record CycleState := mkCycleState {
  cy_snapshot : option Infos;
  cy_preFilter : option PreFilterState;
  cy_others : Others;
}.

Definition getPreFilterState (state : CycleState) : option PreFilterState := cy_preFilter state.
Definition getElasticQuotaSnapshotState (state : CycleState) : option Infos := cy_snapshot state.

(** The shared lister and the nominator of the framework handle. *)
Record Handle := {
  NodeInfos_List : option (list NodeInfo);
  NodeInfos_Get : string → option NodeInfo;
  NominatedPodsForNode : string → list Pod;
}.

Definition snapshotElasticQuota (c : Infos) : Infos := infos_clone c.

Definition nominated_step (c : Infos) (pod : Pod) (acc : Resource * Resource) (p : Pod) :
    Resource * Resource :=
  let '(inEQ, total) := acc in
  if bool_decide (p_uid p = p_uid pod) then acc
  else
    let ns := p_namespace p in
    match c !! ns with
    | None => acc
    | Some info =>
        let pResourceRequest := ResourceList (computePodResourceRequest p) in
        if bool_decide (ns = p_namespace pod) && bool_decide (PodPriority p >= PodPriority pod)
        then (res_Add inEQ pResourceRequest, res_Add total pResourceRequest)
        else if negb (bool_decide (ns = p_namespace pod)) && negb (usedOverMin info)
        then (inEQ, res_Add total pResourceRequest)
        else acc
    end.

Definition nominated_node_step (c : Infos) (fh : Handle) (pod : Pod) (acc : Resource * Resource)
    (node : NodeInfo) : outcome (Resource * Resource) :=
  n ← deref (ni_node node);
  Ret (foldl (nominated_step c pod) acc (NominatedPodsForNode fh (n_name n))).

Definition PreFilter (c : Infos) (fh : Handle) (state : CycleState) (pod : Pod) :
    outcome (CycleState * Status) :=
  let snapshot := snapshotElasticQuota c in
  let podReq := computePodResourceRequest pod in
  let state := mkCycleState (Some snapshot) (cy_preFilter state) (cy_others state) in
  match snapshot !! p_namespace pod with
  | None =>
      let preFilterState := mkPreFilterState podReq zero_resource zero_resource in
      Ret (mkCycleState (cy_snapshot state) (Some preFilterState) (cy_others state), Some (NewStatus Success ""))
  | Some eq =>
      match NodeInfos_List fh with
      | None => Ret (state, Some (NewStatus Error "Error getting the nodelist"))
      | Some nodeList =>
          acc ← fold_outcome (nominated_node_step c fh pod) (zero_resource, zero_resource) nodeList;
          let inEQ := res_Add acc.1 (ResourceList podReq) in
          let total := res_Add acc.2 (ResourceList podReq) in
          let state := mkCycleState (cy_snapshot state) (Some (mkPreFilterState podReq inEQ total))
                         (cy_others state) in
          if usedOverMaxWith eq inEQ
          then Ret (state, Some (NewStatus Unschedulable
                 "rejected in PreFilter because ElasticQuota is more than Max"))
          else
            over ← aggregatedUsedOverMinWith snapshot total;
            if over : bool
            then Ret (state, Some (NewStatus Unschedulable
                   "rejected in PreFilter because total ElasticQuota used is more than min"))
            else Ret (state, Some (NewStatus Success ""))
      end
  end.

(** The quota is behind a pointer, in the map as in the snapshot. *)
Definition update_quota (infos : Infos) (ns : string)
    (f : ElasticQuotaInfo → ElasticQuotaInfo * option string) : Infos * option string :=
  match infos !! ns with
  | None => (infos, None)
  | Some info => let '(info, err) := f info in (<[ns := info]> infos, err)
  end.

Definition AddPod (cycleState : CycleState) (podToAdd : Pod) : CycleState * Status :=
  match getElasticQuotaSnapshotState cycleState with
  | None => (cycleState, Some (NewStatus Error "error reading ElasticQuotaSnapshot from cycleState"))
  | Some infos =>
      let '(infos, _) := update_quota infos (p_namespace podToAdd) (λ i, addPodIfNotPresent i podToAdd) in
      (mkCycleState (Some infos) (cy_preFilter cycleState) (cy_others cycleState), Some (NewStatus Success ""))
  end.

Definition RemovePod (cycleState : CycleState) (podToRemove : Pod) : CycleState * Status :=
  match getElasticQuotaSnapshotState cycleState with
  | None => (cycleState, Some (NewStatus Error "error reading ElasticQuotaSnapshot from cycleState"))
  | Some infos =>
      let '(infos, _) := update_quota infos (p_namespace podToRemove) (λ i, deletePodIfPresent i podToRemove) in
      (mkCycleState (Some infos) (cy_preFilter cycleState) (cy_others cycleState), Some (NewStatus Success ""))
  end.

Definition Reserve (c : Infos) (pod : Pod) : Infos * Status :=
  let '(c, err) := update_quota c (p_namespace pod) (λ i, addPodIfNotPresent i pod) in
  match err with
  | Some msg => (c, Some (NewStatus Error msg))
  | None => (c, Some (NewStatus Success ""))
  end.

Definition Unreserve (c : Infos) (pod : Pod) : Infos :=
  (update_quota c (p_namespace pod) (λ i, deletePodIfPresent i pod)).1.

(** *** The informer callbacks *)

(** The fields of the ElasticQuota object that the plugin reads. *)
Record ElasticQuota := {
  eqo_Namespace : string;
  eqo_Min : option resource_list;
  eqo_Max : option resource_list;
}.

Definition addElasticQuota (c : Infos) (eq : ElasticQuota) : Infos :=
  match c !! eqo_Namespace eq with
  | Some _ => c
  | None =>
      let elasticQuotaInfo := newElasticQuotaInfo (eqo_Namespace eq) (eqo_Min eq) (eqo_Max eq) None in
      <[eqo_Namespace eq := elasticQuotaInfo]> c
  end.

Definition updateElasticQuota (c : Infos) (oldEQ newEQ : ElasticQuota) : Infos :=
  let newEQInfo := newElasticQuotaInfo (eqo_Namespace newEQ) (eqo_Min newEQ) (eqo_Max newEQ) None in
  let newEQInfo :=
    match c !! eqo_Namespace oldEQ with
    | Some oldEQInfo => set_Used (set_pods newEQInfo (eq_pods oldEQInfo)) (eq_Used oldEQInfo)
    | None => newEQInfo
    end in
  <[eqo_Namespace newEQ := newEQInfo]> c.

Definition deleteElasticQuota (c : Infos) (elasticQuota : ElasticQuota) : Infos :=
  delete (eqo_Namespace elasticQuota) c.

(** [listed] is the answer of [c.client.List], [None] when it fails. *)
Definition addPod (c : Infos) (pod : Pod) (listed : option (list ElasticQuota)) : Infos :=
  match c !! p_namespace pod with
  | Some elasticQuotaInfo => <[p_namespace pod := (addPodIfNotPresent elasticQuotaInfo pod).1]> c
  | None =>
      match listed with
      | None | Some [] => c
      | Some (eq :: _) =>
          let elasticQuotaInfo := newElasticQuotaInfo (eqo_Namespace eq) (eqo_Min eq) (eqo_Max eq) None in
          <[eqo_Namespace eq := (addPodIfNotPresent elasticQuotaInfo pod).1]> c
      end
  end.

Definition updatePod (c : Infos) (oldPod newPod : Pod) : Infos :=
  if bool_decide (p_phase oldPod = PodSucceeded) || bool_decide (p_phase oldPod = PodFailed) then c
  else if negb (bool_decide (p_phase newPod = PodRunning)) && negb (bool_decide (p_phase newPod = PodPending))
  then (update_quota c (p_namespace newPod) (λ i, deletePodIfPresent i newPod)).1
  else c.

Definition deletePod (c : Infos) (pod : Pod) : Infos :=
  (update_quota c (p_namespace pod) (λ i, deletePodIfPresent i pod)).1.

Definition assignedPod (pod : Pod) : bool := negb (Nat.eqb (String.length (p_node_name pod)) 0).

(** *** Preemption *)

(** [nominatedNodeStatus.Code()] is on a possibly nil status. *)
Definition PodEligibleToPreemptOthers (fh : Handle) (state : CycleState) (pod : Pod)
    (nominatedNodeStatus : Status) : bool * string :=
  if bool_decide (p_preemption_policy pod = Some PreemptNever)
  then (false, "not eligible due to preemptionPolicy=Never.")
  else match getPreFilterState state with
  | None => (false, "not eligible due to failed to read from cycleState")
  | Some preFilterState =>
  let nomNodeName := p_nominated_node_name pod in
  if Nat.ltb 0 (String.length nomNodeName) then
    if bool_decide (status_Code nominatedNodeStatus = UnschedulableAndUnresolvable) then (true, "")
    else match getElasticQuotaSnapshotState state with
    | None => (true, "")
    | Some elasticQuotaInfos =>
    match NodeInfos_Get fh nomNodeName with
    | None => (true, "")
    | Some nodeInfo =>
        let podPriority := PodPriority pod in
        let terminating :=
          match elasticQuotaInfos !! p_namespace pod with
          | Some preemptorEQInfo =>
              let moreThanMinWithPreemptor :=
                usedOverMinWith preemptorEQInfo (nominatedPodsReqInEQWithPodReq preFilterState) in
              existsb (λ p,
                bool_decide (is_Some (p_deletion_timestamp p)) &&
                match elasticQuotaInfos !! p_namespace p with
                | None => false
                | Some eqInfo =>
                    bool_decide (p_namespace p = p_namespace pod) && bool_decide (PodPriority p < podPriority)
                    || negb (bool_decide (p_namespace p = p_namespace pod))
                       && negb moreThanMinWithPreemptor && usedOverMin eqInfo
                end) (ni_pods nodeInfo)
          | None =>
              existsb (λ p,
                match elasticQuotaInfos !! p_namespace p with
                | Some _ => false
                | None => bool_decide (is_Some (p_deletion_timestamp p)) &&
                          bool_decide (PodPriority p < podPriority)
                end) (ni_pods nodeInfo)
          end in
        if terminating then (false, "not eligible due to a terminating pod on the nominated node.")
        else (true, "")
    end
    end
  else (true, "")
  end.

Section SelectVictims.
Context `{!NodeInfoOps} `{LabelSelectorOps} `{!PreemptionHandle CycleState}.

(** The map of quotas the code captured is the one in the cycle state, which
    [RemovePod] and [AddPod] update in place. *)
Definition current (d : DryRun CycleState) : Infos := default ∅ (cy_snapshot (dr_state d)).

(** The preemptor's quota, behind the pointer the code captured. *)
Definition preemptor_info (d : DryRun CycleState) (pod : Pod) : result StatusData ElasticQuotaInfo :=
  lift (deref (current d !! p_namespace pod)).

(** [moreThanMin] is [None] when the preemptor has no quota, else the value of
    [moreThanMinWithPreemptor]. *)
Definition candidate (moreThanMin : option bool) (pod : Pod) (infos : Infos) (p : Pod) : bool :=
  match moreThanMin, infos !! p_namespace p with
  | Some true, Some _ =>
      bool_decide (p_namespace p = p_namespace pod) && bool_decide (PodPriority p < PodPriority pod)
  | Some false, Some eqInfo =>
      negb (bool_decide (p_namespace p = p_namespace pod)) && usedOverMin eqInfo
  | Some _, None => false
  | None, Some _ => false
  | None, None => bool_decide (PodPriority p < PodPriority pod)
  end.

Definition victim_step (moreThanMin : option bool) (pod : Pod)
    (acc : DryRun CycleState * list Pod) (p : Pod) : result StatusData (DryRun CycleState * list Pod) :=
  let '(d, potentialVictims) := acc in
  if candidate moreThanMin pod (current d) p
  then d ← removePod pod d p; mret (d, potentialVictims ++ [p])
  else mret (d, potentialVictims).

(** The two quota checks, evaluated left to right. *)
Definition over_quota (pod : Pod) (d : DryRun CycleState) (inEQ total : Resource) :
    result StatusData bool :=
  info ← preemptor_info d pod;
  if usedOverMaxWith info inEQ then mret true
  else lift (aggregatedUsedOverMinWith (current d) total).

(** [limits] are the two nominated requests when the preemptor has a quota.
    The results are [fits] and the updated [victims]. *)
Definition reprievePod (limits : option (Resource * Resource)) (pod : Pod)
    (d : DryRun CycleState) (victims : list Pod) (pi : Pod) :
    result StatusData (bool * (DryRun CycleState * list Pod)) :=
  d ← Preemption.addPod pod d pi;
  let fits := IsSuccess (filter_status pod d) in
  '(d, victims) ←
    (if fits then mret (d, victims)
     else d ← removePod pod d pi; mret (d, victims ++ [pi]));
  over ← match limits with
         | None => mret false
         | Some (inEQ, total) => over_quota pod d inEQ total
         end;
  if over : bool
  then d ← removePod pod d pi; mret (fits, (d, victims ++ [pi]))
  else mret (fits, (d, victims)).

Definition reprieve_violating (limits : option (Resource * Resource)) (pod : Pod)
    (acc : DryRun CycleState * list Pod * Z) (pi : Pod) :
    result StatusData (DryRun CycleState * list Pod * Z) :=
  let '(d, victims, numViolatingVictim) := acc in
  '(fits, (d, victims)) ← reprievePod limits pod d victims pi;
  mret (d, victims, if fits : bool then numViolatingVictim else numViolatingVictim + 1).

Definition reprieve_other (limits : option (Resource * Resource)) (pod : Pod)
    (acc : DryRun CycleState * list Pod) (pi : Pod) : result StatusData (DryRun CycleState * list Pod) :=
  '(_, acc) ← reprievePod limits pod acc.1 acc.2 pi; mret acc.

Definition SelectVictimsOnNode (state : CycleState) (pod : Pod) (nodeInfo : NodeInfo)
    (pdbs : list PodDisruptionBudget) : result StatusData (list Pod * Z) :=
  match getElasticQuotaSnapshotState state with
  | None => Err (NewStatus Unschedulable "Failed to read elasticQuotaSnapshot from cycleState")
  | Some elasticQuotaInfos =>
  match getPreFilterState state with
  | None => Err (NewStatus Unschedulable "Failed to read preFilterState from cycleState")
  | Some preFilterState =>
  let pods := sort_slice (λ a b, negb (MoreImportantPod a b)) (ni_pods nodeInfo) in
  let d := mkDryRun state (set_ni_pods nodeInfo pods) in
  let inEQ := nominatedPodsReqInEQWithPodReq preFilterState in
  let total := nominatedPodsReqWithPodReq preFilterState in
  let preemptor := elasticQuotaInfos !! p_namespace pod in
  let moreThanMin := (λ info, usedOverMinWith info inEQ) <$> preemptor in
  '(d, potentialVictims) ← fold_result (victim_step moreThanMin pod) (d, []) pods;
  if bool_decide (potentialVictims = [] :> list Pod)
  then n ← lift (deref (ni_node (dr_node d)));
       Err (NewStatus UnschedulableAndUnresolvable "No victims found on node for preemptor pod")
  else
  if negb (IsSuccess (filter_status pod d))
  then Err (default (NewStatus Success "") (filter_status pod d))
  else
  over ← match preemptor with
         | None => mret false
         | Some _ => over_quota pod d (podReq preFilterState) (podReq preFilterState)
         end;
  if over : bool then Err (NewStatus Unschedulable "global quota max exceeded")
  else
  let potentialVictims := sort_slice MoreImportantPod potentialVictims in
  let '(violatingVictims, nonViolatingVictims) := filterPodsWithPDBViolation potentialVictims pdbs in
  let limits := (λ _, (inEQ, total)) <$> preemptor in
  '(d, victims, numViolatingVictim) ←
    fold_result (reprieve_violating limits pod) (d, [], 0) violatingVictims;
  '(d, victims) ← fold_result (reprieve_other limits pod) (d, victims) nonViolatingVictims;
  let victims :=
    if negb (bool_decide (violatingVictims = [] :> list Pod)) &&
       negb (bool_decide (nonViolatingVictims = [] :> list Pod))
    then sort_slice MoreImportantPod victims else victims in
  mret (victims, numViolatingVictim)
  end
  end.
End SelectVictims.

(** ** The quotas the plugin holds *)

Inductive event :=
| EvAddQuota (eq : ElasticQuota)
| EvUpdateQuota (oldEQ newEQ : ElasticQuota)
| EvDeleteQuota (eq : ElasticQuota)
| EvAddPod (pod : Pod) (listed : option (list ElasticQuota))
| EvUpdatePod (oldPod newPod : Pod)
| EvDeletePod (pod : Pod)
| EvReserve (pod : Pod)
| EvUnreserve (pod : Pod).

Definition handle (c : Infos) (ev : event) : Infos :=
  match ev with
  | EvAddQuota eq => addElasticQuota c eq
  | EvUpdateQuota oldEQ newEQ => updateElasticQuota c oldEQ newEQ
  | EvDeleteQuota eq => deleteElasticQuota c eq
  | EvAddPod pod listed => addPod c pod listed
  | EvUpdatePod oldPod newPod => updatePod c oldPod newPod
  | EvDeletePod pod => deletePod c pod
  | EvReserve pod => (Reserve c pod).1
  | EvUnreserve pod => Unreserve c pod
  end.

(** What the API server guarantees of the events: an object keeps its
    namespace, a namespaced list returns objects of that namespace, and a pod
    keeps its requests. *)
Definition event_ok (request : string → Resource) (ev : event) : Prop :=
  let pod_ok pod := ∀ key, GetPodKey pod = Some key → computePodResourceRequest pod = request key in
  match ev with
  | EvAddQuota _ | EvDeleteQuota _ => True
  | EvUpdateQuota oldEQ newEQ => eqo_Namespace oldEQ = eqo_Namespace newEQ
  | EvAddPod pod listed =>
      pod_ok pod ∧ Forall (λ eq, eqo_Namespace eq = p_namespace pod) (default [] listed)
  | EvUpdatePod _ pod | EvDeletePod pod | EvReserve pod | EvUnreserve pod => pod_ok pod
  end.

Inductive reachable (request : string → Resource) : Infos → Prop :=
| reach_init : reachable request NewElasticQuotaInfos
| reach_step c ev : reachable request c → event_ok request ev → reachable request (handle c ev).

Section Invariant.
Context `{!QuantitySpec} `{!FrameworkSpec}.

Definition quota_inv (request : string → Resource) (ns : string) (i : ElasticQuotaInfo) : Prop :=
  eq_Namespace i = ns ∧ quota_wf i ∧ accounted request i.

Lemma new_quota_inv request ns min max :
  quota_inv request ns (newElasticQuotaInfo ns min max None).
Proof.
  split; [done|]. split; [apply newElasticQuotaInfo_wf|]. intros d.
  cbn. by rewrite sum_set_empty, get_NewResource_empty.
Qed.

Lemma pod_op_inv request ns i o :
  consistent request o → quota_inv request ns i → quota_inv request ns (run_op i o).
Proof.
  intros Ho (Hns & Hwf & Hacc). split; [|split].
  - destruct o as [pod|pod]; cbn; unfold addPodIfNotPresent, deletePodIfPresent;
      repeat case_match; done.
  - destruct o; [by apply addPod_wf|by apply deletePod_wf].
  - by apply run_op_accounted.
Qed.

Lemma update_quota_inv request c ns f :
  (∀ i, quota_inv request ns i → quota_inv request ns (f i).1) →
  map_Forall (quota_inv request) c → map_Forall (quota_inv request) (update_quota c ns f).1.
Proof.
  intros Hf Hc. unfold update_quota. destruct (c !! ns) as [i|] eqn:Hi; [|done].
  pose proof (Hf i (Hc _ _ Hi)) as Hfi. destruct (f i) as [i' err]. simpl in *.
  by apply map_Forall_insert_2.
Qed.

Lemma handle_inv request c ev :
  event_ok request ev → map_Forall (quota_inv request) c →
  map_Forall (quota_inv request) (handle c ev).
Proof.
  assert (∀ pod ns i, consistent request (OpDelete pod) →
    quota_inv request ns i → quota_inv request ns (deletePodIfPresent i pod).1) as Hdel
    by (intros pod ns i Hc; exact (pod_op_inv request ns i (OpDelete pod) Hc)).
  assert (∀ pod ns i, consistent request (OpAdd pod) →
    quota_inv request ns i → quota_inv request ns (addPodIfNotPresent i pod).1) as Hadd
    by (intros pod ns i Hc; exact (pod_op_inv request ns i (OpAdd pod) Hc)).
  intros Hev Hc. destruct ev as [eq|oldEQ newEQ|eq|pod listed|oldPod newPod|pod|pod|pod]; simpl in *.
  - unfold addElasticQuota. case_match; [done|]. apply map_Forall_insert_2, Hc. apply new_quota_inv.
  - unfold updateElasticQuota. apply map_Forall_insert_2, Hc.
    pose proof (new_quota_inv request (eqo_Namespace newEQ) (eqo_Min newEQ) (eqo_Max newEQ)) as Hn.
    destruct (c !! eqo_Namespace oldEQ) as [old|] eqn:Hold; [|done].
    destruct (Hc _ _ Hold) as (_ & (? & _) & ?). destruct Hn as (_ & (_ & ? & ?) & _).
    by split; [|split; [split|]].
  - by apply map_Forall_delete.
  - destruct Hev as [Hpod Hl]. unfold addPod. destruct (c !! p_namespace pod) as [i|] eqn:Hi.
    + apply map_Forall_insert_2, Hc. by apply Hadd, Hc.
    + destruct listed as [[|eq eqs]|]; try done. simpl in Hl. inversion Hl as [|? ? <- _]; subst.
      apply map_Forall_insert_2, Hc. by apply Hadd, new_quota_inv.
  - unfold updatePod. repeat case_match; try done. apply update_quota_inv; auto.
  - apply update_quota_inv; auto.
  - unfold Reserve.
    pose proof (update_quota_inv request c (p_namespace pod) (λ i, addPodIfNotPresent i pod)) as Hu.
    destruct (update_quota _ _ _) as [c' err]. destruct err; apply Hu; auto.
  - apply update_quota_inv; auto.
Qed.

Lemma reachable_inv request c : reachable request c → map_Forall (quota_inv request) c.
Proof.
  induction 1 as [|c ev _ IH Hev]; [apply map_Forall_empty|by apply handle_inv].
Qed.

(** In every state the informer callbacks and the Reserve plugin can lead
    to, in any order and with any repetition, each quota is filed under its own
    namespace, has a minimum, and its [Used] is in every dimension the sum of
    the requests of the pods it holds, modulo 2^64. *)
Theorem reachable_accounting request c ns i :
  reachable request c → c !! ns = Some i →
  eq_Namespace i = ns ∧ is_Some (eq_Min i) ∧
  ∀ d, get d (eq_Used i) = wrap64 (sum_set (get d ∘ request) (eq_pods i)).
Proof.
  intros Hr Hi. destruct (reachable_inv _ _ Hr _ _ Hi) as (? & (_ & ? & _) & ?). done.
Qed.

(** ** PreFilter *)

(** The pods nominated to the nodes, and which of them PreFilter counts: those
    of the pod's own quota that are at least as important, and in the total
    also those of the other quotas that are within their minimum. *)
Definition nominated_pods (fh : Handle) (nodes : list Node) : list Pod :=
  nodes ≫= λ n, NominatedPodsForNode fh (n_name n).

Definition counts_in_quota (c : Infos) (pod p : Pod) : bool :=
  bool_decide (p_uid p ≠ p_uid pod) && bool_decide (is_Some (c !! p_namespace p)) &&
  bool_decide (p_namespace p = p_namespace pod) && bool_decide (PodPriority p >= PodPriority pod).

Definition counts_in_total (c : Infos) (pod p : Pod) : bool :=
  counts_in_quota c pod p ||
  bool_decide (p_uid p ≠ p_uid pod) && bool_decide (p_namespace p ≠ p_namespace pod) &&
  match c !! p_namespace p with Some i => negb (usedOverMin i) | None => false end.

Definition nominated_sum (counts : Pod → bool) (d : dim) (pods : list Pod) : Z :=
  zsum (λ p, if counts p then get d (computePodResourceRequest p) else 0) pods.

Lemma get_add_request d r p :
  resource_wf r →
  get d (res_Add r (ResourceList (computePodResourceRequest p))) =
  get d r +₆₄ get d (computePodResourceRequest p).
Proof. intros. apply get_res_Add; [done|apply computePodResourceRequest_wf]. Qed.

Lemma nominated_step_spec c pod acc p :
  resource_wf acc.1 → resource_wf acc.2 →
  let acc' := nominated_step c pod acc p in
  resource_wf acc'.1 ∧ resource_wf acc'.2 ∧
  (∀ d, get d acc'.1 = get d acc.1 +₆₄
     (if counts_in_quota c pod p then get d (computePodResourceRequest p) else 0)) ∧
  (∀ d, get d acc'.2 = get d acc.2 +₆₄
     (if counts_in_total c pod p then get d (computePodResourceRequest p) else 0)).
Proof.
  destruct acc as [q t]. intros Hq Ht. simpl in *.
  assert (∀ d r, resource_wf r → get d r = get d r +₆₄ 0) as Hz.
  { intros. rewrite Z.add_0_r, wrap64_id; [done|by apply get_in64]. }
  unfold counts_in_total, counts_in_quota.
  rewrite !bool_decide_not. destruct (bool_decide (p_uid p = p_uid pod)); simpl; [auto|].
  destruct (c !! p_namespace p) as [i|]; simpl.
  - destruct (bool_decide (p_namespace p = p_namespace pod)); simpl.
    + destruct (bool_decide (PodPriority p >= PodPriority pod)); simpl;
        rewrite ?andb_false_r; [|auto]. split; [by apply res_Add_wf|]. split; [by apply res_Add_wf|].
      split; intros d; by apply get_add_request.
    + destruct (usedOverMin i); simpl; [auto|]. split; [done|]. split; [by apply res_Add_wf|].
      split; [auto|]. intros d. by apply get_add_request.
  - rewrite andb_false_r. auto.
Qed.

Lemma nominated_fold c pod ps acc :
  resource_wf acc.1 → resource_wf acc.2 →
  let acc' := foldl (nominated_step c pod) acc ps in
  resource_wf acc'.1 ∧ resource_wf acc'.2 ∧
  (∀ d, get d acc'.1 = get d acc.1 +₆₄ nominated_sum (counts_in_quota c pod) d ps) ∧
  (∀ d, get d acc'.2 = get d acc.2 +₆₄ nominated_sum (counts_in_total c pod) d ps).
Proof.
  revert acc. induction ps as [|p ps IH]; intros acc Hq Ht; simpl.
  - split; [done|]. split; [done|]. split; intros d; cbn; rewrite Z.add_0_r, wrap64_id;
      done || by apply get_in64.
  - destruct (nominated_step_spec c pod acc p Hq Ht) as (Hq' & Ht' & Eq & Et).
    destruct (IH _ Hq' Ht') as (? & ? & Eq' & Et'). split; [done|]. split; [done|].
    split; intros d; [rewrite Eq', Eq|rewrite Et', Et]; rewrite wrap64_add_l;
      unfold nominated_sum; cbn; f_equal; lia.
Qed.

Lemma nominated_nodes_fold c fh pod nis nodes acc :
  ni_node <$> nis = Some <$> nodes →
  fold_outcome (nominated_node_step c fh pod) acc nis =
  Ret (foldl (nominated_step c pod) acc (nominated_pods fh nodes)).
Proof.
  revert nodes acc. induction nis as [|ni nis IH]; intros [|n nodes] acc E; try done.
  injection E as En E. cbn [fold_outcome].
  assert (nominated_node_step c fh pod acc ni =
    Ret (foldl (nominated_step c pod) acc (NominatedPodsForNode fh (n_name n)))) as ->
    by (unfold nominated_node_step; by rewrite En).
  cbn. by rewrite (IH nodes), foldl_app.
Qed.

(** The dimensions in which the quota's maximum is compared: a scalar resource must be
    named by the pod or by a nominated pod that counts. *)
Definition compared (c : Infos) (pod : Pod) (nominated : list Pod) (d : dim) : Prop :=
  in_cmp (computePodResourceRequest pod) d ∨
  ∃ p, p ∈ nominated ∧ counts_in_quota c pod p = true ∧ in_cmp (computePodResourceRequest p) d.

Lemma nominated_step_named c pod acc p d :
  in_cmp (nominated_step c pod acc p).1 d ↔
  in_cmp acc.1 d ∨ counts_in_quota c pod p = true ∧ in_cmp (computePodResourceRequest p) d.
Proof.
  destruct acc as [q t]. unfold nominated_step, counts_in_quota. cbn [fst].
  rewrite !bool_decide_not. destruct (bool_decide (p_uid p = p_uid pod)); simpl; [naive_solver|].
  destruct (c !! p_namespace p) as [i|]; simpl; [|naive_solver].
  destruct (bool_decide (p_namespace p = p_namespace pod)); simpl;
    [|destruct (usedOverMin i); simpl; naive_solver].
  destruct (bool_decide (PodPriority p >= PodPriority pod)); simpl; [|naive_solver].
  rewrite in_cmp_add by apply computePodResourceRequest_wf. naive_solver.
Qed.

Lemma nominated_fold_named c pod ps acc d :
  in_cmp (foldl (nominated_step c pod) acc ps).1 d ↔
  in_cmp acc.1 d ∨
  ∃ p, p ∈ ps ∧ counts_in_quota c pod p = true ∧ in_cmp (computePodResourceRequest p) d.
Proof.
  revert acc. induction ps as [|p ps IH]; intros acc; simpl.
  - split; [auto|]. intros [?|(? & ?%not_elem_of_nil & _)]; done.
  - rewrite IH, nominated_step_named. setoid_rewrite elem_of_cons. naive_solver.
Qed.

Lemma PreFilter_compared c fh nodes nodeList state pod state' status eq pf :
  NodeInfos_List fh = Some nodeList → ni_node <$> nodeList = Some <$> nodes →
  PreFilter c fh state pod = Ret (state', status) → c !! p_namespace pod = Some eq →
  cy_preFilter state' = Some pf →
  ∀ d, in_cmp (nominatedPodsReqInEQWithPodReq pf) d ↔ compared c pod (nominated_pods fh nodes) d.
Proof.
  intros Hlist Hnodes Hpre Heq Hpf d. revert Hpre. unfold PreFilter, snapshotElasticQuota.
  rewrite infos_clone_id, Hlist, Heq, (nominated_nodes_fold c fh pod nodeList nodes) by done. simpl.
  pose proof (nominated_fold_named c pod (nominated_pods fh nodes) (zero_resource, zero_resource) d) as Hn.
  destruct (foldl _ _ (nominated_pods fh nodes)) as [q t]. cbn [fst] in *.
  intros Hpre. assert (nominatedPodsReqInEQWithPodReq pf =
    res_Add q (ResourceList (computePodResourceRequest pod))) as ->.
  { destruct (usedOverMaxWith _ _); [|destruct (aggregatedUsedOverMinWith _ _) as [[]|]; [..|done]];
      injection Hpre as <- _; simpl in Hpf; by simplify_eq. }
  rewrite in_cmp_add by apply computePodResourceRequest_wf. unfold compared.
  assert (in_cmp zero_resource d → in_cmp (computePodResourceRequest pod) d).
  { destruct d; simpl; try done. by intros [? ?%lookup_empty_Some]. }
  naive_solver.
Qed.

Lemma PreFilter_result c fh nodes nodeList state pod :
  map_Forall (λ _ i, quota_wf i) c →
  NodeInfos_List fh = Some nodeList → ni_node <$> nodeList = Some <$> nodes →
  let nominated := nominated_pods fh nodes in
  let req := computePodResourceRequest pod in
  (∀ d, in64 (sum_used d c + (nominated_sum (counts_in_total c pod) d nominated + get d req)) ∧
        in64 (nominated_sum (counts_in_total c pod) d nominated + get d req) ∧
        0 ≤ sum_min d c ∧ in64 (sum_min d c)) →
  ∃ state' status, PreFilter c fh state pod = Ret (state', status) ∧
    cy_snapshot state' = Some c ∧
    match c !! p_namespace pod with
    | None => IsSuccess status = true
    | Some eq => ∃ pf, cy_preFilter state' = Some pf ∧
        (∀ d, get d (nominatedPodsReqInEQWithPodReq pf) =
              nominated_sum (counts_in_quota c pod) d nominated +₆₄ get d req) ∧
        (IsSuccess status = true ↔
         usedOverMaxWith eq (nominatedPodsReqInEQWithPodReq pf) = false ∧
         ∀ d, sum_used d c + (nominated_sum (counts_in_total c pod) d nominated + get d req) ≤ sum_min d c)
    end.
Proof.
  intros Hinv Hlist Hnodes nominated req H64. unfold PreFilter, snapshotElasticQuota.
  rewrite infos_clone_id, Hlist. destruct (c !! p_namespace pod) as [eq|] eqn:Heq; [|by eexists _, _].
  rewrite (nominated_nodes_fold c fh pod nodeList nodes) by done. simpl.
  destruct (nominated_fold c pod nominated (zero_resource, zero_resource)) as (Hq & Ht & Eq & Et);
    [apply zero_resource_wf..|].
  fold nominated. destruct (foldl _ _ nominated) as [q t]. simpl in *.
  set (inEQ := res_Add q _). set (total := res_Add t _).
  assert (∀ d, get d inEQ = nominated_sum (counts_in_quota c pod) d nominated +₆₄ get d req) as HinEQ.
  { intros d. unfold inEQ. by rewrite get_add_request, Eq, get_zero, Z.add_0_l, wrap64_add_l. }
  assert (∀ d, get d total = nominated_sum (counts_in_total c pod) d nominated + get d req) as Htotal.
  { intros d. unfold total. rewrite get_add_request, Et, get_zero, Z.add_0_l, wrap64_add_l by done.
    apply wrap64_id, H64. }
  destruct (aggregatedUsedOverMinWith_spec c total) as (b & Hb & Hiff).
  { done. }
  { by apply res_Add_wf. }
  { intros d. rewrite Htotal. apply H64. }
  { intros d. apply H64. }
  rewrite Hb. simpl.
  assert (b = false ↔ ∀ d, sum_used d c + (nominated_sum (counts_in_total c pod) d nominated + get d req)
    ≤ sum_min d c) as Hb'.
  { split.
    - intros -> d. rewrite <- Htotal. apply Z.nlt_ge. intros Hd.
      assert (false = true) as [=]. apply Hiff. exists d. lia.
    - intros Hd. destruct b; [|done]. destruct (proj1 Hiff eq_refl) as [d Hgt].
      specialize (Hd d). rewrite <- Htotal in Hd. lia. }
  destruct (usedOverMaxWith eq inEQ) eqn:Hmax; [|destruct b]; eexists _, _; (split; [done|]);
    (split; [done|]); eexists; (split; [done|]); (split; [done|]); simpl; rewrite ?Hmax; naive_solver.
Qed.

(** C2: on the quotas of a reachable state PreFilter returns (it does not
    panic), leaves a copy of the quotas in the cycle state, and lets the pod
    pass exactly when its namespace has no quota or when both checks hold: the
    use of its quota, the nominated pods of that quota that are at least as
    important and the pod stay within the quota's maximum in CPU, memory, ephemeral storage,
    pods and every scalar resource that one of them names (a scalar without a maximum
    has UpperBoundOfMax); and in every dimension
    the total use of all quotas, the counted nominated pods and the pod stay
    within the total of the minima.  The sums are those of integers, not of
    int64, provided they fit, and the minima do not add up to less than 0; the node infos
    of the framework can be listed, and each has its node. *)
Theorem PreFilter_spec request c fh nodes nodeList state pod :
  reachable request c →
  NodeInfos_List fh = Some nodeList → ni_node <$> nodeList = Some <$> nodes →
  let nominated := nominated_pods fh nodes in
  let req := computePodResourceRequest pod in
  let own d := nominated_sum (counts_in_quota c pod) d nominated + get d req in
  let all d := nominated_sum (counts_in_total c pod) d nominated + get d req in
  (∀ d, in64 (sum_used d c + all d) ∧ in64 (all d) ∧ 0 ≤ sum_min d c ∧ in64 (sum_min d c)) →
  (∀ eq d, c !! p_namespace pod = Some eq → in64 (own d) ∧ in64 (get d (eq_Used eq) + own d)) →
  ∃ state' status, PreFilter c fh state pod = Ret (state', status) ∧
    cy_snapshot state' = Some c ∧
    match c !! p_namespace pod with
    | None => IsSuccess status = true
    | Some eq => ∃ pf, cy_preFilter state' = Some pf ∧
        (∀ d, get d (nominatedPodsReqInEQWithPodReq pf) = own d) ∧
        (IsSuccess status = true ↔
         (∀ max d, eq_Max eq = Some max → compared c pod nominated d →
            get d (eq_Used eq) + own d ≤ get_bound UpperBoundOfMax d max) ∧
         ∀ d, sum_used d c + all d ≤ sum_min d c)
    end.
Proof.
  intros Hr Hlist Hnodes nominated req own all H64 Hown.
  destruct (PreFilter_result c fh nodes nodeList state pod) as (state' & status & Hpre & Hsnap & Hres); [|done..|].
  { intros ns i Hi. by destruct (reachable_inv _ _ Hr ns i Hi) as (_ & ? & _). }
  exists state', status. split; [done|]. split; [done|].
  destruct (c !! p_namespace pod) as [eq|] eqn:Heq; [|done].
  destruct Hres as (pf & Hpf & Hget & Hiff). exists pf. split; [done|].
  assert (∀ d, get d (nominatedPodsReqInEQWithPodReq pf) = own d) as Hget'.
  { intros d. rewrite Hget. by apply wrap64_id, (Hown eq d). }
  split; [done|]. rewrite Hiff, usedOverMaxWith_false.
  assert (∀ d, own d +₆₄ get d (eq_Used eq) = get d (eq_Used eq) + own d) as Hsum.
  { intros d. rewrite Z.add_comm. by apply wrap64_id, (Hown eq d). }
  setoid_rewrite (PreFilter_compared c fh nodes nodeList state pod state' status eq pf Hlist Hnodes Hpre Heq Hpf).
  setoid_rewrite Hget'. by setoid_rewrite Hsum.
Qed.
End Invariant.

(** ** The victims *)

Section Victims.
Context `{!NodeInfoOps} `{LabelSelectorOps} `{!PreemptionHandle CycleState}.

(** Running the PreFilter extensions runs [RemovePod] and [AddPod] of this
    plugin; the other plugins do not touch its entries. *)
Class CapacityHandle : Prop := {
  run_remove_spec st preemptor p ni st' s :
    RunPreFilterExtensionRemovePod st preemptor p ni = (st', s) → IsSuccess s = true →
    cy_snapshot st' = cy_snapshot (RemovePod st p).1;
}.

Context `{!CapacityHandle}.

(** The snapshot after the removal of some pods. *)
Definition snapshot_without (infos : Infos) (removed : list Pod) : Infos :=
  foldl (λ infos p, (update_quota infos (p_namespace p) (λ i, deletePodIfPresent i p)).1) infos removed.

(** Who on a node with pods [pods] the plugin may evict for [pod]: without a quota of its own, less
    important pods outside all quotas; when its own quota is beyond its
    minimum, less important pods of the same quota; else pods of other quotas
    that, once some pods of the node are removed, are still beyond their minimum. *)
Definition evictable (pods : list Pod) (pod : Pod) (infos : Infos) (inEQ : Resource) (p : Pod) : Prop :=
  match infos !! p_namespace pod with
  | None => infos !! p_namespace p = None ∧ PodPriority p < PodPriority pod
  | Some info =>
      if usedOverMinWith info inEQ
      then p_namespace p = p_namespace pod ∧ PodPriority p < PodPriority pod
      else p_namespace p ≠ p_namespace pod ∧
           ∃ removed i, removed ⊆ pods ∧
             snapshot_without infos removed !! p_namespace p = Some i ∧ usedOverMin i = true
  end.

Lemma update_quota_dom infos ns f ns' :
  (update_quota infos ns f).1 !! ns' = None ↔ infos !! ns' = None.
Proof.
  unfold update_quota. destruct (infos !! ns) as [i|] eqn:Hi; [|done].
  destruct (f i) as [i' err]. simpl. rewrite lookup_insert. case_decide; [subst|done].
  rewrite Hi. split; congruence.
Qed.

Lemma snapshot_without_dom infos removed ns :
  snapshot_without infos removed !! ns = None ↔ infos !! ns = None.
Proof.
  revert infos. induction removed as [|p removed IH]; intros infos; simpl; [done|].
  by rewrite IH, update_quota_dom.
Qed.

Lemma removePod_snapshot pod d p d' infos :
  removePod pod d p = Ok d' → cy_snapshot (dr_state d) = Some infos →
  cy_snapshot (dr_state d') = Some (update_quota infos (p_namespace p) (λ i, deletePodIfPresent i p)).1.
Proof.
  unfold removePod. intros Hr Hs. destruct (ni_RemovePod _ _) as [ni|]; [|done].
  destruct (RunPreFilterExtensionRemovePod _ _ _ _) as [st s] eqn:Hrun.
  destruct (IsSuccess s) eqn:Hsuc; simpl in Hr; [|done]. injection Hr as <-. simpl.
  rewrite (run_remove_spec _ _ _ _ _ _ Hrun Hsuc). unfold RemovePod, getElasticQuotaSnapshotState.
  rewrite Hs. by destruct (update_quota _ _ _).
Qed.

Definition victims_inv (pod : Pod) (infos : Infos) (inEQ : Resource) (pods : list Pod)
    (acc : DryRun CycleState * list Pod) : Prop :=
  (∃ removed, removed ⊆ pods ∧ cy_snapshot (dr_state acc.1) = Some (snapshot_without infos removed)) ∧
  ∀ p, p ∈ acc.2 → p ∈ pods ∧ evictable pods pod infos inEQ p.

Lemma candidate_evictable pods pod infos inEQ removed p :
  removed ⊆ pods →
  candidate ((λ info, usedOverMinWith info inEQ) <$> infos !! p_namespace pod) pod
    (snapshot_without infos removed) p = true →
  evictable pods pod infos inEQ p.
Proof.
  intros Hrem. unfold candidate, evictable. destruct (infos !! p_namespace pod) as [info|] eqn:Hpre; simpl.
  - destruct (usedOverMinWith info inEQ);
      destruct (snapshot_without infos removed !! p_namespace p) as [i|] eqn:Hi; try done.
    + by rewrite andb_true_iff, !bool_decide_eq_true.
    + rewrite andb_true_iff, negb_true_iff, bool_decide_eq_false. intros [? ?]. split; [done|]. by exists removed, i.
  - destruct (snapshot_without infos removed !! p_namespace p) as [i|] eqn:Hi; [done|].
    rewrite bool_decide_eq_true. by apply snapshot_without_dom in Hi.
Qed.

Lemma victim_step_inv pod infos inEQ pods acc p acc' :
  p ∈ pods →
  victim_step ((λ info, usedOverMinWith info inEQ) <$> infos !! p_namespace pod) pod acc p = Ok acc' →
  victims_inv pod infos inEQ pods acc → victims_inv pod infos inEQ pods acc'.
Proof.
  destruct acc as [d vs]. intros Hp Hs ((removed & Hrem & Hsnap) & Hvs). simpl in *.
  unfold current in Hs. rewrite Hsnap in Hs. simpl in Hs.
  destruct (candidate _ _ _ _) eqn:Hc; [|injection Hs as <-; split; simpl; eauto].
  apply result_bind_Ok in Hs as (d' & Hr & [= <-]). split; simpl.
  - exists (removed ++ [p]). split; [by apply list_subseteq_app_iff_l; split; [|apply list_subseteq_cons_iff]; auto using list_subseteq_nil|].
    rewrite (removePod_snapshot _ _ _ _ _ Hr Hsnap).
    unfold snapshot_without. by rewrite foldl_snoc.
  - intros q [Hq| ->%list_elem_of_singleton]%elem_of_app; [auto|].
    split; [done|]. by eapply candidate_evictable.
Qed.

Lemma reprievePod_victims limits pod d victims pi fits d' victims' :
  reprievePod limits pod d victims pi = Ok (fits, (d', victims')) →
  ∀ v, v ∈ victims' → v ∈ victims ∨ v = pi.
Proof.
  unfold reprievePod. intros (d1 & _ & Hr0)%result_bind_Ok.
  apply result_bind_Ok in Hr0 as ([d2 vs2] & Hd2 & Hr0).
  assert (∀ v, v ∈ vs2 → v ∈ victims ∨ v = pi) as Hvs2.
  { destruct (IsSuccess _).
    - injection Hd2 as <- <-. auto.
    - apply result_bind_Ok in Hd2 as (d3 & _ & [= <- <-]).
      intros v [?| ->%list_elem_of_singleton]%elem_of_app; auto. }
  apply result_bind_Ok in Hr0 as (over & _ & Hr0). destruct over.
  - apply result_bind_Ok in Hr0 as (d4 & _ & Hr0). injection Hr0 as <- <- <-.
    intros v [?| ->%list_elem_of_singleton]%elem_of_app; auto.
  - by injection Hr0 as <- <- <-.
Qed.

(** When [SelectVictimsOnNode] succeeds, every pod it selects runs on the
    node and may be evicted for the preemptor under the quota policy
    ([evictable]): a preemptor beyond its own minimum evicts only less
    important pods of its namespace, one within its minimum only pods of quotas
    that borrow, and one without quota only less important pods outside all
    quotas. *)
Lemma SelectVictimsOnNode_evictable state pod nodeInfo pdbs infos pf victims num :
  cy_snapshot state = Some infos → cy_preFilter state = Some pf →
  SelectVictimsOnNode state pod nodeInfo pdbs = Ok (victims, num) →
  ∀ v, v ∈ victims →
    v ∈ ni_pods nodeInfo ∧ evictable (ni_pods nodeInfo) pod infos (nominatedPodsReqInEQWithPodReq pf) v.
Proof.
  intros Hs Hp. unfold SelectVictimsOnNode, getElasticQuotaSnapshotState, getPreFilterState.
  rewrite Hs, Hp. set (inEQ := nominatedPodsReqInEQWithPodReq pf).
  intros ([d pv] & Hpv & Hr0)%result_bind_Ok.
  assert (victims_inv pod infos inEQ (ni_pods nodeInfo) (d, pv)) as [_ Hev].
  { revert Hpv. eapply (fold_result_ind _ (λ _, victims_inv pod infos inEQ (ni_pods nodeInfo))).
    - intros l1 p l2 a a' Hl Ha Hstep. eapply victim_step_inv; [|done..].
      apply (sort_slice_elem (λ a b, negb (MoreImportantPod a b))). rewrite Hl. set_solver.
    - split; [exists []; by split; [apply list_subseteq_nil|]|]. by intros p ?%not_elem_of_nil. }
  simpl in Hev. case_bool_decide; [by apply result_bind_Ok in Hr0 as (? & _ & ?)|].
  destruct (negb _); [done|]. apply result_bind_Ok in Hr0 as (over & _ & Hr0). destruct over; [done|].
  destruct (filterPodsWithPDBViolation _ _) as [violating other] eqn:Hpdb.
  assert (∀ v, v ∈ violating ++ other → v ∈ pv) as Hsub.
  { intros v. apply filterPodsWithPDBViolation_perm in Hpdb. rewrite Hpdb. apply sort_slice_elem. }
  apply result_bind_Ok in Hr0 as ([[d1 vs1] num1] & Hv1 & Hr0).
  assert (∀ v, v ∈ vs1 → v ∈ pv) as Hvs1.
  { revert Hv1. apply (fold_result_ind _ (λ _ (acc : DryRun CycleState * list Pod * Z),
      ∀ v, v ∈ acc.1.2 → v ∈ pv)); [|by intros v ?%not_elem_of_nil].
    intros l1 p l2 [[d2 vs2] n2] a' Hin Ha Hstep.
    apply result_bind_Ok in Hstep as ([fits [d3 vs3]] & Hr & [= <-]). simpl in *.
    intros v Hv. destruct (reprievePod_victims _ _ _ _ _ _ _ _ Hr v Hv) as [?| ->]; [auto|].
    apply Hsub. rewrite Hin. set_solver. }
  apply result_bind_Ok in Hr0 as ([d4 vs4] & Hv4 & Hr0). injection Hr0 as <- <-.
  assert (∀ v, v ∈ vs4 → v ∈ pv) as Hvs4.
  { revert Hv4. apply (fold_result_ind _ (λ _ (acc : DryRun CycleState * list Pod),
      ∀ v, v ∈ acc.2 → v ∈ pv)); [|done].
    intros l1 p l2 [d2 vs2] a' Hin Ha Hstep.
    apply result_bind_Ok in Hstep as ([fits [d3 vs3]] & Hr & [= <-]). simpl in *.
    intros v Hv. destruct (reprievePod_victims _ _ _ _ _ _ _ _ Hr v Hv) as [?| ->]; [auto|].
    apply Hsub. rewrite Hin. set_solver. }
  intros v Hv. apply Hev, Hvs4. case_match; [by apply sort_slice_elem in Hv|done].
Qed.
End Victims.
End CapacityScheduling.

(** ** Witnesses *)

Definition w_request (key : string) : Resource :=
  {| MilliCPU := 2000; Memory := 0; EphemeralStorage := 0; AllowedPodNumber := 0; ScalarResources := ∅ |}.

Definition w_pod (ns name : string) (prio : Z) : Pod := model_pod ns name "n1" prio {[ResourceCPU := cores 2]}.

Definition w_elastic_quota (ns : string) (min max : Z) : ElasticQuota := {| eqo_Namespace := ns;
  eqo_Min := Some {[ResourceCPU := cores min]}; eqo_Max := Some {[ResourceCPU := cores max]} |}.

Definition w_events : list event :=
  [EvAddQuota (w_elastic_quota "a" 3 5); EvAddPod (w_pod "a" "p1" 0) None;
   EvAddPod (w_pod "a" "p1" 0) None; EvReserve (w_pod "a" "p2" 0);
   EvUpdateQuota (w_elastic_quota "a" 3 5) (w_elastic_quota "a" 4 5);
   EvUnreserve (w_pod "a" "p1" 0); EvDeletePod (w_pod "a" "p3" 0)].

Definition w_infos : gmap string ElasticQuotaInfo := foldl handle NewElasticQuotaInfos w_events.

Lemma w_request_pod ns name prio key :
  GetPodKey (w_pod ns name prio) = Some key →
  computePodResourceRequest (w_pod ns name prio) = w_request key.
Proof. intros _. vm_compute. reflexivity. Defined.

Lemma w_reachable : reachable w_request w_infos.
Proof.
  unfold w_infos, w_events. cbn [foldl].
  repeat apply reach_step; [constructor|..]; simpl; try done;
    try (split; [|done]); intros; by apply w_request_pod.
Defined.

Lemma w_infos_eq : w_infos = {["a" := mkElasticQuotaInfo "a" {["p2"]}
  (Some {| MilliCPU := 4000; Memory := 0; EphemeralStorage := 0; AllowedPodNumber := 0; ScalarResources := ∅ |})
  (Some {| MilliCPU := 5000; Memory := 0; EphemeralStorage := 0; AllowedPodNumber := 0; ScalarResources := ∅ |})
  (w_request "p2")]}.
Proof. vm_compute. reflexivity. Defined.

Lemma reachable_accounting_witness :
  ∃ i, w_infos !! "a" = Some i ∧ get DCPU (eq_Used i) = 2000 ∧
    get DCPU (eq_Used i) = wrap64 (sum_set (get DCPU ∘ w_request) (eq_pods i)).
Proof.
  eexists. split; [rewrite w_infos_eq; apply lookup_singleton_eq|]. split; [done|].
  apply (reachable_accounting w_request w_infos "a"); [apply w_reachable|].
  rewrite w_infos_eq. apply lookup_singleton_eq.
Defined.

(** One node; a pod of the same quota is nominated to it. *)
Definition w_node : Node :=
  {| n_name := "n1"; n_labels := ∅; n_unschedulable := false; n_capacity := ∅; n_allocatable := ∅ |}.

Definition w_node_info (pods : list Pod) : NodeInfo :=
  {| ni_node := Some w_node; ni_pods := pods; ni_allocatable := zero_resource;
     ni_requested := zero_resource; ni_nonzero_requested := zero_resource |}.

Definition w_handle (nominated : list Pod) : Handle := {|
  NodeInfos_List := Some [w_node_info []]; NodeInfos_Get := λ _, None;
  NominatedPodsForNode := λ _, nominated |}.

Definition w_state : CycleState (Others := unit) := mkCycleState None None tt.

Lemma PreFilter_spec_witness :
  ∃ state' status, PreFilter w_infos (w_handle []) w_state (w_pod "a" "p9" 0) = Ret (state', status) ∧
    cy_snapshot state' = Some w_infos ∧ IsSuccess status = true.
Proof.
  destruct (PreFilter_spec w_request w_infos (w_handle []) [w_node] [w_node_info []] w_state
    (w_pod "a" "p9" 0) w_reachable) as (state' & status & Hret & Hsnap & Hspec); [done|done|..].
  - intros d. unfold sum_used, sum_min. rewrite w_infos_eq, !sum_map_singleton.
    rewrite (w_request_pod "a" "p9" 0 "p9" eq_refl). unfold nominated_sum. cbn.
    destruct d; by_dim.
  - intros eq d. rewrite w_infos_eq, lookup_singleton_eq, (w_request_pod "a" "p9" 0 "p9" eq_refl).
    intros [= <-]. unfold nominated_sum. cbn. destruct d; by_dim.
  - exists state', status. split; [done|]. split; [done|].
    rewrite w_infos_eq, lookup_singleton_eq in Hspec. destruct Hspec as (pf & _ & Hpf & Hiff).
    apply Hiff. clear Hret Hsnap Hiff. split.
    + intros max d [= <-] _. rewrite (w_request_pod "a" "p9" 0 "p9" eq_refl).
      unfold UpperBoundOfMax. destruct d; by_dim.
    + intros d. unfold sum_used, sum_min. rewrite ?w_infos_eq, !sum_map_singleton.
      rewrite (w_request_pod "a" "p9" 0 "p9" eq_refl). destruct d; by_dim.
Defined.

(** A node with 5 cores, this plugin the only one with PreFilter extensions. *)
#[export] Instance w_preemption_handle : PreemptionHandle (CycleState (Others := unit)) := {|
  RunPreFilterExtensionRemovePod st _ p _ := RemovePod st p;
  RunPreFilterExtensionAddPod st _ p _ := AddPod st p;
  RunFilterPluginsWithNominatedPods _ pod ni :=
    if bool_decide (zsum (λ p, MilliCPU (computePodResourceRequest p)) (pod :: ni_pods ni) ≤ 5000)
    then None else Some (NewStatus Unschedulable "Insufficient cpu");
|}.

#[export] Instance w_capacity_handle : CapacityHandle (Others := unit).
Proof. split. intros st preemptor p ni st' s E _. simpl in E. by rewrite E. Qed.

(** The quota of "a" allows 3 cores; "low" uses 2 of them on the node. *)
Definition w_dry_infos : gmap string ElasticQuotaInfo :=
  foldl handle NewElasticQuotaInfos
    [EvAddQuota (w_elastic_quota "a" 3 3); EvAddPod (w_pod "a" "low" 0) None].

Definition w_dry_state (inEQ : Z) : CycleState :=
  let cpu z := {| MilliCPU := z; Memory := 0; EphemeralStorage := 0; AllowedPodNumber := 0;
                  ScalarResources := ∅ |} in
  mkCycleState (Some w_dry_infos) (Some (mkPreFilterState (cpu 2000) (cpu inEQ) (cpu inEQ))) tt.

Definition w_select (inEQ : Z) : result StatusData (list Pod * Z) :=
  SelectVictimsOnNode (w_dry_state inEQ) (w_pod "a" "high" 5)
    (w_node_info [w_pod "a" "low" 0; w_pod "b" "other" 0]) ([] : list PodDisruptionBudget).

Definition victim_names (r : result StatusData (list Pod * Z)) : result StatusData (list string) :=
  (λ vs : list Pod * Z, p_name <$> vs.1) <$> r.

Lemma SelectVictimsOnNode_evictable_witness :
  ∃ victims num, w_select 2000 = Ok (victims, num) ∧ (p_name <$> victims) = ["low"] ∧
    ∀ v, v ∈ victims → v ∈ [w_pod "a" "low" 0; w_pod "b" "other" 0].
Proof.
  assert (victim_names (w_select 2000) = Ok ["low"]) as Hn by (vm_compute; reflexivity).
  destruct (w_select 2000) as [[victims num]| |] eqn:Hsel; [|done..].
  exists victims, num. split; [done|]. split; [by injection Hn|].
  intros v Hv.
  by destruct (SelectVictimsOnNode_evictable (w_dry_state 2000) (w_pod "a" "high" 5) _ _
    w_dry_infos _ victims num eq_refl eq_refl Hsel v Hv).
Defined.

(** With another pod nominated to the same quota, a node where evicting
    "low" would make room is given up with an error.  "low" does not fit again,
    so [reprievePod] evicts it; the quota, which the nominated pod exceeds, is
    then checked all the same, and "low" is removed a second time. *)
Theorem reprieve_removes_twice :
  victim_names (w_select 4000) = Err (AsStatus "no corresponding pod in pods of node") ∧
  victim_names (w_select 2000) = Ok ["low"].
Proof. split; vm_compute; reflexivity. Qed.
