(* ===== verification/QuotaAdmission.v ===== *)
(** * Quotas under the scheduling cycle

    File CapacityScheduling models what one call does; here the calls are put
    together as the scheduler makes them.  It handles one pod at a time:
    PreFilter, and if the pod passes every plugin, Reserve.  The informer callbacks
    may run between the two.  Nothing in this file is a definition of the code:
    the steps apply [PreFilter] and [handle]. *)

From S2P Require Import Prelude GoSort K8s K8sModel ResourceUtil ElasticQuota CapacityScheduling.

Section Admission.
Context `{MapOrder} `{QuantityOps} `{!FrameworkOps} {Others : Type}.
Context `{!QuantitySpec} `{!FrameworkSpec}.
Context (request : string → Resource).

(** ** Runs *)

Abbreviation Infos := (gmap string ElasticQuotaInfo).

(** Requests and limits are not negative. *)
Definition no_debt (r : Resource) : Prop := ∀ d, 0 ≤ get d r.

(** What may be used of a quota: a scalar resource the maximum does not name is
    not limited. *)
Definition within_max (d : dim) (used : Z) (i : ElasticQuotaInfo) : Prop :=
  ∀ max, eq_Max i = Some max → used ≤ get_bound UpperBoundOfMax d max.

(** The numbers PreFilter adds up for [pod] fit in an int64, and are not
    negative. *)
Definition sums_fit (c : Infos) (fh : Handle) (nodes : list Node) (pod : Pod) : Prop :=
  no_debt (computePodResourceRequest pod) ∧
  Forall (λ p, no_debt (computePodResourceRequest p)) (nominated_pods fh nodes) ∧
  ∀ d, sum_used d c + (nominated_sum (counts_in_total c pod) d (nominated_pods fh nodes) +
         get d (computePodResourceRequest pod)) < 2 ^ 63.

(** A new quota: no bound is negative and the sum of the minima fits. *)
Definition sensible (c : Infos) (eq : ElasticQuota) : Prop :=
  let i := newElasticQuotaInfo (eqo_Namespace eq) (eqo_Min eq) (eqo_Max eq) None in
  no_debt (min_of i) ∧ (∀ d, within_max d 0 i) ∧
  ∀ d, get d (min_of i) + sum_min d c < 2 ^ 63.

(** The callback for a bound pod: the pod has been reserved, or its namespace
    has no quota. *)
Definition already_held (c : Infos) (pod : Pod) (listed : option (list ElasticQuota)) : Prop :=
  match c !! p_namespace pod with
  | Some i => ∃ key, GetPodKey pod = Some key ∧ key ∈ eq_pods i
  | None => default [] listed = []
  end.

Definition releases (ev : event) : Prop :=
  match ev with EvUpdatePod _ _ | EvDeletePod _ | EvUnreserve _ => True | _ => False end.

(** The quotas, and the pod that is in a scheduling cycle: it has passed
    PreFilter and is not reserved yet.  Quotas may be added at any time but in
    the namespace of that pod. *)
Inductive run : Infos → option Pod → Prop :=
| run_start : run NewElasticQuotaInfos None
| run_quota c p eq :
    run c p → sensible c eq → (∀ pod, p = Some pod → p_namespace pod ≠ eqo_Namespace eq) →
    run (handle c (EvAddQuota eq)) p
| run_filter c fh nodes nodeList (state : CycleState (Others := Others)) pod state' status :
    run c None → event_ok request (EvReserve pod) →
    NodeInfos_List fh = Some nodeList → ni_node <$> nodeList = Some <$> nodes →
    sums_fit c fh nodes pod →
    PreFilter c fh state pod = Ret (state', status) → IsSuccess status = true →
    run c (Some pod)
| run_reserve c pod : run c (Some pod) → run (handle c (EvReserve pod)) None
| run_give_up c pod : run c (Some pod) → run c None
| run_release c p ev : run c p → releases ev → event_ok request ev → run (handle c ev) p
| run_bound c p pod listed : run c p → already_held c pod listed → run (handle c (EvAddPod pod listed)) p.

(** ** The invariant *)

(** What the pods a quota holds ask for, and the same for all quotas. *)
Definition held (d : dim) (i : ElasticQuotaInfo) : Z := sum_set (get d ∘ request) (eq_pods i).
Definition sum_held (d : dim) : Infos → Z := sum_map (held d).

Record safe (c : Infos) : Prop := {
  safe_quotas : map_Forall (quota_inv request) c;
  safe_max : ∀ ns i d, c !! ns = Some i → within_max d (held d i) i;
  safe_mins : ∀ ns i, c !! ns = Some i → no_debt (min_of i);
  safe_sum : ∀ d, sum_held d c ≤ sum_min d c;
  safe_fits : ∀ d, sum_min d c < 2 ^ 63;
}.

(** The pod that has been admitted still has its place. *)
Definition room (c : Infos) (pod : Pod) : Prop :=
  event_ok request (EvReserve pod) ∧ no_debt (computePodResourceRequest pod) ∧
  ∀ i, c !! p_namespace pod = Some i → ∀ d,
    within_max d (held d i + get d (computePodResourceRequest pod)) i ∧
    sum_held d c + get d (computePodResourceRequest pod) ≤ sum_min d c.

Hypothesis requests_no_debt : ∀ key, no_debt (request key).

Lemma held_nonneg d i : 0 ≤ held d i.
Proof. apply sum_set_nonneg. intros k. apply requests_no_debt. Qed.

(** No sum wraps around, so the recorded use is the sum of the requests. *)
Lemma used_held c ns i d : safe c → c !! ns = Some i → get d (eq_Used i) = held d i.
Proof.
  intros Hc Hi. destruct (safe_quotas c Hc ns i Hi) as (_ & _ & Hacc). rewrite Hacc.
  pose proof (held_nonneg d i). pose proof (sum_map_ge (held d) c ns i (held_nonneg d) Hi) as Hle.
  pose proof (safe_sum c Hc d). pose proof (safe_fits c Hc d). unfold sum_held in *.
  apply wrap64_id. unfold held, in64 in *. lia.
Qed.

Lemma sum_used_held c d : safe c → sum_used d c = sum_held d c.
Proof. intros Hc. apply sum_map_ext. intros ns i Hi. by apply (used_held c ns i d). Qed.

Lemma sum_min_nonneg c d : safe c → 0 ≤ sum_min d c.
Proof. intros Hc. apply sum_map_nonneg. intros ns i Hi. by apply (safe_mins c Hc ns). Qed.

(** *** Steps that change one quota *)

Definition same_bounds (i i' : ElasticQuotaInfo) : Prop := eq_Min i' = eq_Min i ∧ eq_Max i' = eq_Max i.

Lemma sum_min_replace c ns i i' d :
  c !! ns = Some i → same_bounds i i' → sum_min d (<[ns := i']> c) = sum_min d c.
Proof.
  intros Hi [Hmin _]. unfold sum_min. rewrite (sum_map_replace _ c ns i) by done.
  cbn. unfold min_of. rewrite Hmin. lia.
Qed.

Lemma safe_replace c ns i i' :
  safe c → c !! ns = Some i → same_bounds i i' → quota_inv request ns i' →
  (∀ d, within_max d (held d i') i' ∧ sum_held d c - held d i + held d i' ≤ sum_min d c) →
  safe (<[ns := i']> c).
Proof.
  intros Hc Hi Hb Hq Hd. split.
  - by apply map_Forall_insert_2; [|apply safe_quotas].
  - intros ns' i'' d [[<- <-]|[_ ?]]%lookup_insert_Some; [apply Hd|by eapply safe_max].
  - intros ns' i'' [[<- <-]|[_ ?]]%lookup_insert_Some; [|by eapply safe_mins].
    destruct Hb as [Hmin _]. unfold min_of. rewrite Hmin. by apply (safe_mins c Hc ns i).
  - intros d. rewrite (sum_min_replace c ns i i' d) by done. unfold sum_held.
    rewrite (sum_map_replace _ c ns i) by done. apply Hd.
  - intros d. rewrite (sum_min_replace c ns i i' d) by done. by apply safe_fits.
Qed.

Lemma delete_bounds i pod : same_bounds i (deletePodIfPresent i pod).1.
Proof. unfold deletePodIfPresent. repeat case_match; by split. Qed.

Lemma delete_held i pod d :
  event_ok request (EvUnreserve pod) → held d (deletePodIfPresent i pod).1 ≤ held d i.
Proof.
  intros Hok. unfold deletePodIfPresent. destruct (GetPodKey pod) as [key|]; [|done].
  case_decide as Hk; [done|]. unfold held. cbn.
  rewrite (sum_set_delete _ (eq_pods i) key) by (destruct (decide (key ∈ eq_pods i)); tauto).
  pose proof (requests_no_debt key d). cbn. lia.
Qed.

Lemma release_safe c ns pod :
  event_ok request (EvUnreserve pod) → safe c →
  safe (update_quota c ns (λ i, deletePodIfPresent i pod)).1.
Proof.
  intros Hok Hc. unfold update_quota. destruct (c !! ns) as [i|] eqn:Hi; [|done].
  pose proof (delete_bounds i pod) as Hb. pose proof (λ d, delete_held i pod d Hok) as Hd.
  pose proof (pod_op_inv request ns i (OpDelete pod) Hok (safe_quotas c Hc ns i Hi)) as Hq.
  cbn in Hq. destruct (deletePodIfPresent i pod) as [i' err]. cbn in *.
  apply (safe_replace c ns i i'); try done. intros d. specialize (Hd d). split.
  - intros max Hmax. destruct Hb as [_ Hb]. rewrite Hb in Hmax.
    pose proof (safe_max c Hc ns i d Hi max Hmax). lia.
  - pose proof (safe_sum c Hc d). lia.
Qed.

Lemma release_room c ns pod p :
  event_ok request (EvUnreserve pod) → safe c → room c p →
  room (update_quota c ns (λ i, deletePodIfPresent i pod)).1 p.
Proof.
  intros Hok Hc (Hp & Hreq & Hroom). split; [done|]. split; [done|].
  unfold update_quota. destruct (c !! ns) as [i|] eqn:Hi; [|done].
  pose proof (delete_bounds i pod) as Hb. pose proof (λ d, delete_held i pod d Hok) as Hd.
  destruct (deletePodIfPresent i pod) as [i' err]. cbn in *. intros j Hj d.
  specialize (Hd d). rewrite (sum_min_replace c ns i i' d) by done. unfold sum_held.
  rewrite (sum_map_replace _ c ns i) by done. fold (sum_held d c).
  apply lookup_insert_Some in Hj as [[Hns <-]|[_ Hj]].
  - rewrite <- Hns in Hroom. destruct (Hroom i Hi d) as [Hm Hs]. split; [|lia].
    intros max Hmax. destruct Hb as [_ Hb]. rewrite Hb in Hmax. specialize (Hm max Hmax). lia.
  - destruct (Hroom j Hj d) as [Hm Hs]. split; [done|lia].
Qed.

Lemma releases_cases c ev :
  releases ev → event_ok request ev →
  handle c ev = c ∨
  ∃ pod, event_ok request (EvUnreserve pod) ∧
    handle c ev = (update_quota c (p_namespace pod) (λ i, deletePodIfPresent i pod)).1.
Proof.
  destruct ev as [| | | |oldPod newPod|pod|pod|pod]; try done; intros _ Hok; cbn in *.
  - unfold updatePod. repeat case_match; eauto.
  - right. by exists pod.
  - right. by exists pod.
Qed.

(** *** Admission *)

Lemma counts_in_quota_total c pod p : counts_in_quota c pod p = true → counts_in_total c pod p = true.
Proof. intros E. unfold counts_in_total. by rewrite E. Qed.

Lemma nominated_sum_le c pod d ps :
  Forall (λ p, no_debt (computePodResourceRequest p)) ps →
  0 ≤ nominated_sum (counts_in_quota c pod) d ps ≤ nominated_sum (counts_in_total c pod) d ps.
Proof.
  unfold nominated_sum. induction 1 as [|p ps Hp _ IH]; cbn; [lia|].
  unfold zsum in IH. specialize (Hp d). pose proof (counts_in_quota_total c pod p) as Hc.
  destruct (counts_in_quota c pod p); [rewrite Hc by done; lia|].
  destruct (counts_in_total c pod p); lia.
Qed.

(** A quota check that passes leaves room for the request. *)
Lemma under_max i inEQ d :
  usedOverMaxWith i inEQ = false → in64 (get d inEQ + get d (eq_Used i)) →
  0 < get d inEQ → within_max d (get d inEQ + get d (eq_Used i)) i.
Proof.
  intros Hover H64 Hpos max Hmax. unfold usedOverMaxWith in Hover. rewrite Hmax in Hover.
  apply Z.nlt_ge. intros Hgt. apply not_true_iff_false in Hover. apply Hover, cmp2_spec.
  exists d. rewrite wrap64_id by done. split; [|lia].
  destruct d as [| | | |n]; try done. cbn in *. unfold scalar in Hpos.
  destruct (ScalarResources inEQ !! n); [done|cbn in Hpos; lia].
Qed.

Lemma filter_room c fh nodes nodeList (state : CycleState (Others := Others)) pod state' status :
  safe c → event_ok request (EvReserve pod) →
  NodeInfos_List fh = Some nodeList → ni_node <$> nodeList = Some <$> nodes →
  sums_fit c fh nodes pod →
  PreFilter c fh state pod = Ret (state', status) → IsSuccess status = true →
  room c pod.
Proof.
  intros Hc Hok Hlist Hnodes (Hreq & Hnom & H64) Hpre Hstatus.
  split; [done|]. split; [done|]. intros i Hi d.
  set (req := computePodResourceRequest pod) in *. set (nominated := nominated_pods fh nodes) in *.
  assert (∀ d, sum_used d c = sum_held d c ∧ 0 ≤ sum_held d c ∧ 0 ≤ sum_min d c ∧ sum_min d c < 2 ^ 63) as Hs.
  { intros d'. split; [by apply sum_used_held|]. split; [|by split; [apply sum_min_nonneg|apply safe_fits]].
    apply sum_map_nonneg. intros ? ? _. apply held_nonneg. }
  destruct (PreFilter_result c fh nodes nodeList state pod) as (st' & s' & Heq & _ & Hspec); try done.
  { intros ns j Hj. by destruct (safe_quotas c Hc ns j Hj) as (_ & ? & _). }
  { intros d'. fold req nominated. pose proof (nominated_sum_le c pod d' nominated Hnom).
    specialize (H64 d'). destruct (Hs d') as (E & ? & ? & ?). specialize (Hreq d'). unfold in64. lia. }
  rewrite Hpre in Heq. injection Heq as <- <-. rewrite Hi in Hspec.
  destruct Hspec as (pf & _ & Hpf & Hiff). destruct (proj1 Hiff Hstatus) as [Hmax Hsum].
  specialize (Hsum d). specialize (Hpf d). fold req nominated in Hsum, Hpf.
  pose proof (nominated_sum_le c pod d nominated Hnom). specialize (H64 d). specialize (Hreq d).
  destruct (Hs d) as (E & ? & ? & ?). rewrite E in *. split; [|lia].
  pose proof (sum_map_ge (held d) c (p_namespace pod) i (held_nonneg d) Hi) as Hle. fold (sum_held d c) in Hle.
  pose proof (held_nonneg d i). pose proof (used_held c (p_namespace pod) i d Hc Hi) as Hu.
  rewrite wrap64_id in Hpf by (unfold in64; lia).
  destruct (decide (0 < get d (nominatedPodsReqInEQWithPodReq pf))) as [Hpos|Hzero].
  - pose proof (under_max i _ d Hmax) as Hw. rewrite Hu, Hpf in Hw.
    intros max Em. specialize (Hw ltac:(unfold in64; lia) ltac:(lia) max Em). lia.
  - replace (held d i + get d req) with (held d i) by lia. by apply (safe_max c Hc (p_namespace pod) i).
Qed.

Lemma reserve_safe c pod : safe c → room c pod → safe (handle c (EvReserve pod)).
Proof.
  intros Hc (Hok & Hreq & Hroom). cbn. unfold Reserve, update_quota.
  destruct (c !! p_namespace pod) as [i|] eqn:Hi; [|done].
  pose proof (pod_op_inv request (p_namespace pod) i (OpAdd pod) Hok (safe_quotas c Hc (p_namespace pod) i Hi)) as Hq. cbn in Hq.
  destruct (addPodIfNotPresent i pod) as [i' err] eqn:Hadd. cbn in *.
  assert (∀ d, within_max d (held d i') i' ∧ same_bounds i i' ∧
               sum_held d c - held d i + held d i' ≤ sum_min d c) as Hd.
  { intros d. destruct (Hroom i eq_refl d) as [Hm Hs]. revert Hadd. unfold addPodIfNotPresent.
    pose proof (safe_sum c Hc d). pose proof (safe_max c Hc (p_namespace pod) i d Hi).
    destruct (GetPodKey pod) as [key|] eqn:Hkey; [|intros [= <- <-]; split; [done|split; [done|lia]]].
    case_decide as Hin; [intros [= <- <-]; split; [done|split; [done|lia]]|].
    intros [= <- <-]. rewrite (Hok key eq_refl) in *. unfold held at 1 3, within_max. cbn.
    rewrite sum_set_insert by done. fold (held d i). cbn.
    split; [|split; [done|lia]]. intros max Hmax. specialize (Hm max Hmax). lia. }
  destruct err; (apply (safe_replace c (p_namespace pod) i i'); [done|done|apply (Hd DCPU)|done|]);
    intros d; by destruct (Hd d) as (? & _ & ?).
Qed.

Lemma new_quota_safe c eq : safe c → sensible c eq → safe (handle c (EvAddQuota eq)).
Proof.
  intros Hc (Hmin & Hmax & Hfit). cbn. unfold addElasticQuota. case_match eqn:Hi; [done|].
  set (i := newElasticQuotaInfo _ _ _ _) in *.
  assert (∀ d, held d i = 0) as Hheld by (intros d; apply sum_set_empty). split.
  - apply map_Forall_insert_2; [apply new_quota_inv|by apply safe_quotas].
  - intros ns j d [[<- <-]|[_ ?]]%lookup_insert_Some; [by rewrite Hheld|by eapply safe_max].
  - intros ns j [[<- <-]|[_ ?]]%lookup_insert_Some; [done|by eapply safe_mins].
  - intros d. unfold sum_held, sum_min. rewrite !sum_map_insert, Hheld by done.
    pose proof (safe_sum c Hc d : sum_map (held d) c ≤ sum_map (get d ∘ min_of) c).
    pose proof (Hmin d : 0 ≤ (get d ∘ min_of) i). lia.
  - intros d. unfold sum_min. rewrite sum_map_insert by done. apply Hfit.
Qed.

Lemma new_quota_room c eq pod :
  safe c → sensible c eq → p_namespace pod ≠ eqo_Namespace eq → room c pod →
  room (handle c (EvAddQuota eq)) pod.
Proof.
  intros Hc (Hmin & _ & _) Hne (Hok & Hreq & Hroom). cbn. unfold addElasticQuota.
  case_match eqn:Hi; [by split|]. split; [done|]. split; [done|].
  intros i. rewrite lookup_insert_ne by done. intros Hj d. destruct (Hroom i Hj d) as [? Hs].
  split; [done|]. unfold sum_held, sum_min in *. rewrite !sum_map_insert by done.
  set (n := newElasticQuotaInfo _ _ _ _) in *. assert (held d n = 0) as -> by apply sum_set_empty.
  pose proof (Hmin d : 0 ≤ (get d ∘ min_of) n). lia.
Qed.

Lemma bound_same c pod listed : already_held c pod listed → handle c (EvAddPod pod listed) = c.
Proof.
  unfold already_held. cbn. unfold addPod. destruct (c !! p_namespace pod) as [i|] eqn:Hi.
  - intros (key & Hkey & Hin). unfold addPodIfNotPresent. rewrite Hkey, decide_True by done.
    by apply insert_id.
  - by destruct listed as [[|]|].
Qed.

Lemma run_safe c p : run c p → safe c ∧ ∀ pod, p = Some pod → room c pod.
Proof.
  induction 1 as [|c p eq _ [Hc Hp] Hs Hne|c fh nodes nodeList state pod state' status _ [Hc _]
    |c pod _ [Hc Hp]|c pod _ [Hc _]|c p ev _ [Hc Hp] Hr Hok|c p pod listed _ IH Hheld].
  - split; [|done]. split; try done; intros d; unfold sum_held, sum_min; by rewrite ?sum_map_empty.
  - split; [by apply new_quota_safe|]. intros pod ->. apply new_quota_room; auto.
  - split; [done|]. intros ? [= <-]. by eapply filter_room.
  - split; [|done]. apply reserve_safe; auto.
  - done.
  - destruct (releases_cases c ev Hr Hok) as [->|(pod & Hpod & ->)]; [done|].
    split; [by apply release_safe|]. intros q ->. apply release_room; auto.
  - by rewrite bound_same.
Qed.

(** ** Properties *)

(** C1: a quota is never exceeded.  Start without quotas, add quotas whose bounds
    are sensible, and let the scheduler handle any pods one after the other,
    with pods ending, being deleted or giving up at any moment, also between
    PreFilter and Reserve of another pod.  Then at every moment, in every
    dimension, what is recorded as used of a quota is exactly what the pods it
    holds ask for, this is at most the maximum of the quota, and all quotas
    together use at most the sum of their minima. *)
Theorem quotas_never_exceeded c p :
  run c p →
  (∀ ns i d, c !! ns = Some i →
     get d (eq_Used i) = sum_set (get d ∘ request) (eq_pods i) ∧ within_max d (get d (eq_Used i)) i) ∧
  ∀ d, 0 ≤ sum_used d c ≤ sum_min d c.
Proof.
  intros Hrun. destruct (run_safe c p Hrun) as [Hc _]. split.
  - intros ns i d Hi. pose proof (used_held c ns i d Hc Hi) as E. split; [done|].
    rewrite E. by apply (safe_max c Hc ns).
  - intros d. rewrite sum_used_held by done. split; [|by apply safe_sum].
    apply sum_map_nonneg. intros ? ? _. apply held_nonneg.
Qed.
End Admission.

(** ** Witness *)

(** Namespace "a" may use 5 cores and has 3, "b" has 3 and may use 3: the second
    pod of "a" borrows from "b". *)
Definition w_start : gmap string ElasticQuotaInfo :=
  foldl handle NewElasticQuotaInfos [EvAddQuota (w_elastic_quota "a" 3 5); EvAddQuota (w_elastic_quota "b" 3 3)].
Definition w_one : gmap string ElasticQuotaInfo := handle w_start (EvReserve (w_pod "a" "p1" 0)).
Definition w_two : gmap string ElasticQuotaInfo := handle w_one (EvReserve (w_pod "a" "p2" 0)).

Definition w_cpu (z : Z) : Resource :=
  {| MilliCPU := z; Memory := 0; EphemeralStorage := 0; AllowedPodNumber := 0; ScalarResources := ∅ |}.
Definition w_info (ns : string) (pods : gset string) (min max used : Z) : ElasticQuotaInfo :=
  mkElasticQuotaInfo ns pods (Some (w_cpu min)) (Some (w_cpu max)) (w_cpu used).

Lemma w_start_eq : w_start = {["a" := w_info "a" ∅ 3000 5000 0; "b" := w_info "b" ∅ 3000 3000 0]}.
Proof. vm_compute. reflexivity. Qed.

Lemma w_one_eq : w_one = {["a" := w_info "a" {["p1"]} 3000 5000 2000; "b" := w_info "b" ∅ 3000 3000 0]}.
Proof. vm_compute. reflexivity. Qed.

Definition w_passes (c : gmap string ElasticQuotaInfo) (pod : Pod) : bool :=
  match PreFilter c (w_handle []) w_state pod with Ret (_, status) => IsSuccess status | Panic => false end.

(** A cycle in which the pod passes. *)
Lemma w_cycle c name :
  run (Others := unit) w_request c None →
  (∀ d, sum_used d c + get d (w_request name) < 2 ^ 63) →
  w_passes c (w_pod "a" name 0) = true →
  run (Others := unit) w_request (handle c (EvReserve (w_pod "a" name 0))) None.
Proof.
  intros Hrun Hsum Hpass. unfold w_passes in Hpass.
  destruct (PreFilter c (w_handle []) w_state (w_pod "a" name 0)) as [[state' status]|] eqn:Hpre; [|done].
  assert (computePodResourceRequest (w_pod "a" name 0) = w_request name) as Hreq
    by (vm_compute; reflexivity).
  apply run_reserve.
  apply (run_filter w_request c (w_handle []) [w_node] [w_node_info []] w_state _ state' status Hrun);
    [|reflexivity|reflexivity| |exact Hpre|exact Hpass].
  - intros key Hkey. by apply (w_request_pod "a" name 0 key).
  - split; [|split; [apply Forall_nil_2|]].
    + intros d. rewrite Hreq. destruct d; by_dim.
    + intros d. unfold nominated_sum. rewrite Hreq. exact (Hsum d).
Qed.

Lemma w_sensible c ns min max :
  (min, max) = (3, 5) ∨ (min, max) = (3, 3) → (∀ d, sum_min d c ≤ 3000) →
  sensible c (w_elastic_quota ns min max).
Proof.
  intros Hm Hc. unfold sensible. cbn [eqo_Namespace eqo_Min eqo_Max w_elastic_quota].
  assert (newElasticQuotaInfo ns (Some {[ResourceCPU := cores min]}) (Some {[ResourceCPU := cores max]}) None =
          w_info ns ∅ (min * 1000) (max * 1000) 0) as ->
    by (destruct Hm as [[= -> ->]|[= -> ->]]; reflexivity).
  split; [intros d; destruct Hm as [[= -> ->]|[= -> ->]]; destruct d; by_dim|].
  split.
  - intros d m [= <-]. unfold UpperBoundOfMax, MaxInt64. destruct Hm as [[= -> ->]|[= -> ->]]; destruct d; by_dim.
  - intros d. specialize (Hc d).
    assert (get d (min_of (w_info ns ∅ (min * 1000) (max * 1000) 0)) ≤ 3000)
      by (destruct Hm as [[= -> ->]|[= -> ->]]; destruct d; by_dim). lia.
Qed.

Lemma w_run_two : run (Others := unit) w_request w_two None.
Proof.
  apply w_cycle; [apply w_cycle| |].
  - unfold w_start. cbn [foldl]. apply run_quota; [apply run_quota; [apply run_start|..]|..]; try done.
    + apply w_sensible; [by left|]. intros d. unfold sum_min, NewElasticQuotaInfos. rewrite sum_map_empty. lia.
    + apply w_sensible; [by right|]. intros d.
      assert (handle NewElasticQuotaInfos (EvAddQuota (w_elastic_quota "a" 3 5)) =
              {["a" := w_info "a" ∅ 3000 5000 0]}) as -> by (vm_compute; reflexivity).
      unfold sum_min. rewrite sum_map_singleton. destruct d; by_dim.
  - intros d. rewrite w_start_eq. unfold sum_used. rewrite sum_map_insert, sum_map_singleton by done.
    destruct d; by_dim.
  - vm_compute. reflexivity.
  - intros d. fold w_one. rewrite w_one_eq. unfold sum_used.
    rewrite sum_map_insert, sum_map_singleton by done. destruct d; by_dim.
  - vm_compute. reflexivity.
Qed.

(** A third pod of two cores does not pass. *)
Lemma quotas_never_exceeded_witness :
  w_passes w_two (w_pod "a" "p3" 0) = false ∧ sum_used DCPU w_two = 4000 ∧
  0 ≤ sum_used DCPU w_two ≤ sum_min DCPU w_two.
Proof.
  split; [vm_compute; reflexivity|]. split; [vm_compute; reflexivity|].
  apply (proj2 (quotas_never_exceeded w_request
           ltac:(intros key d; destruct d; by_dim) w_two None w_run_two)).
Defined.
