(* ===== verification/QuotaLedger.v ===== *)
(** * Quotas and what the informers report

    [capacity_scheduling.go]: the informer handlers that [New] registers, with
    their filters and type assertions, and an abstract ledger that the plugin's
    state refines: the pods a quota holds are those that the informer
    last reported as bound and alive, and those that the scheduler has reserved.
    What the plugin misses or keeps too long (pods that came before their quota,
    or that had ended when they were first reported) is a part of the ledger. *)

From S2P Require Import Prelude GoSort K8s K8sModel ResourceUtil ElasticQuota CapacityScheduling QuotaAdmission.

(** ** The handlers *)

Section Handlers.
Context `{MapOrder} `{QuantityOps} `{!FrameworkOps} `{InformerOps}.

Abbreviation Infos := (gmap string ElasticQuotaInfo).

(** What an informer hands to its handlers. *)
Inductive object :=
| QuotaObj (eq : ElasticQuota)
| PodObj (pod : Pod)
| DeletedFinalStateUnknown (obj : object)
| OtherObj.

(** The two [FilterFunc] of [New]. *)
Definition quota_filter (obj : object) : bool :=
  match obj with
  | QuotaObj _ => true
  | DeletedFinalStateUnknown (QuotaObj _) => true
  | _ => false
  end.

Definition pod_filter (obj : object) : bool :=
  match obj with
  | PodObj t => assignedPod t
  | DeletedFinalStateUnknown (PodObj pod) => assignedPod pod
  | _ => false
  end.

(** The type assertions with which the handlers begin. *)
Definition as_quota (obj : object) : outcome ElasticQuota := match obj with QuotaObj eq => Ret eq | _ => Panic end.
Definition as_pod (obj : object) : outcome Pod := match obj with PodObj pod => Ret pod | _ => Panic end.

Definition quota_handler (c : Infos) (n : notification object) : outcome Infos :=
  match FilteringResourceEventHandler quota_filter n with
  | None => Ret c
  | Some (NotifyAdd obj) => eq ← as_quota obj; Ret (addElasticQuota c eq)
  | Some (NotifyUpdate oldObj newObj) =>
      oldEQ ← as_quota oldObj; newEQ ← as_quota newObj; Ret (updateElasticQuota c oldEQ newEQ)
  | Some (NotifyDelete obj) => eq ← as_quota obj; Ret (deleteElasticQuota c eq)
  end.

(** [listed] is the answer to the list call that [addPod] may make. *)
Definition pod_handler (c : Infos) (n : notification object) (listed : option (list ElasticQuota)) : outcome Infos :=
  match FilteringResourceEventHandler pod_filter n with
  | None => Ret c
  | Some (NotifyAdd obj) => pod ← as_pod obj; Ret (addPod c pod listed)
  | Some (NotifyUpdate oldObj newObj) =>
      oldPod ← as_pod oldObj; newPod ← as_pod newObj; Ret (updatePod c oldPod newPod)
  | Some (NotifyDelete obj) => pod ← as_pod obj; Ret (deletePod c pod)
  end.

(** The two errors are those of the cached client and of its quota informer. *)
Definition New (client_err informer_err : option string) :
    string + (Infos * (Infos → notification object → outcome Infos) *
              (Infos → notification object → option (list ElasticQuota) → outcome Infos)) :=
  match client_err, informer_err with
  | Some err, _ => inl err
  | None, Some err => inl err
  | None, None => inr (NewElasticQuotaInfos, quota_handler, pod_handler)
  end.

(** ** The ledger *)

Section Ledger.
Context `{!QuantitySpec} `{!FrameworkSpec} `{!InformerSpec}.
Context (request : string → Resource) (ns_of : string → string).

(** What the plugin has been told.  [store] is what the informer has reported of each pod, by
    key; [reserved] the keys of the pods that are reserved and not yet reported as bound.
    [missed] and [stale] are what the plugin gets wrong: the pods it could not count, because
    they came while it knew no quota of their namespace, because the quota that
    counted them was deleted, or because they run again after a report of the phase Unknown; and the pods
    that had ended when they were first reported as bound, which it counts. *)
Record Ledger := mkLedger {
  store : gmap string Pod;
  reserved : gset string;
  missed : gset string;
  stale : gset string;
}.

Definition ended (pod : Pod) : bool :=
  bool_decide (p_phase pod = PodSucceeded) || bool_decide (p_phase pod = PodFailed).
Definition alive (pod : Pod) : bool :=
  assignedPod pod && (bool_decide (p_phase pod = PodRunning) || bool_decide (p_phase pod = PodPending)).

Definition running (L : Ledger) : gset string := dom (filter (λ kp : string * Pod, alive kp.2 = true) (store L)).

(** The pods of a namespace that are bound and alive or reserved. *)
Definition active (L : Ledger) (ns : string) : gset string :=
  filter (λ k, ns_of k = ns) (reserved L ∪ running L).

(** The abstract state: the pods that count against the quota of a namespace. *)
Definition candidates (L : Ledger) : gset string := reserved L ∪ running L ∪ stale L.
Definition holding (L : Ledger) (ns : string) : gset string :=
  filter (λ k, ns_of k = ns) (candidates L ∖ missed L).

(** The pod behind a key keeps its namespace and its requests. *)
Definition identifies (k : string) (pod : Pod) : Prop :=
  GetPodKey pod = Some k ∧ p_namespace pod = ns_of k ∧ computePodResourceRequest pod = request k.

(** Whether a quota is known that the pod can be added to; [listed] is what [addPod] may ask for. *)
Definition knows (c : Infos) (pod : Pod) (listed : option (list ElasticQuota)) : bool :=
  match c !! p_namespace pod, default [] listed with None, [] => false | _, _ => true end.

Definition count (known : bool) (k : string) (missed : gset string) : gset string :=
  if known then missed ∖ {[k]} else {[k]} ∪ missed.

(** A report of a pod that is not bound, of one that is bound for the first time, of
    one that was bound before, and of the end of a pod. *)
Definition seen (L : Ledger) (k : string) (pod : Pod) : Ledger :=
  mkLedger (<[k := pod]> (store L)) (reserved L) (missed L) (stale L).
Definition bound (L : Ledger) (known : bool) (k : string) (pod : Pod) : Ledger :=
  mkLedger (<[k := pod]> (store L)) (reserved L ∖ {[k]}) (count known k (missed L))
    (if alive pod then stale L ∖ {[k]} else {[k]} ∪ stale L).
Definition moved (L : Ledger) (k : string) (old new : Pod) : Ledger :=
  mkLedger (<[k := new]> (store L)) (reserved L)
    (if alive new && negb (alive old) && bool_decide (k ∉ stale L) then {[k]} ∪ missed L else missed L)
    (if ended old then stale L else stale L ∖ {[k]}).
Definition gone (L : Ledger) (k : string) (pod : Pod) : Ledger :=
  mkLedger (delete k (store L)) (if assignedPod pod then reserved L ∖ {[k]} else reserved L) (missed L)
    (stale L ∖ {[k]}).

(** What the informer may report next.  A pod stays on its node, and one that has ended
    stays ended. *)
Definition reports (c : Infos) (listed : option (list ElasticQuota)) (L : Ledger) (n : notification object)
    (L' : Ledger) : Prop :=
  match n with
  | NotifyAdd obj => ∃ k pod, obj = PodObj pod ∧ identifies k pod ∧ store L !! k = None ∧
      L' = if assignedPod pod then bound L (knows c pod listed) k pod else seen L k pod
  | NotifyUpdate oldObj newObj => ∃ k oldPod newPod, oldObj = PodObj oldPod ∧ newObj = PodObj newPod ∧
      identifies k oldPod ∧ identifies k newPod ∧ store L !! k = Some oldPod ∧
      (assignedPod oldPod = true → assignedPod newPod = true ∧ (ended oldPod = true → ended newPod = true)) ∧
      L' = if assignedPod oldPod then moved L k oldPod newPod
           else if assignedPod newPod then bound L (knows c newPod listed) k newPod else seen L k newPod
  | NotifyDelete obj => ∃ k oldPod pod, obj = PodObj pod ∧ identifies k pod ∧ store L !! k = Some oldPod ∧
      (assignedPod oldPod = true → assignedPod pod = true) ∧ L' = gone L k pod
  end.

Definition unbound (L : Ledger) (k : string) : Prop := ∀ pod, store L !! k = Some pod → assignedPod pod = false.

(** The quotas that [addPod] reads from the API server are those of the namespace. *)
Definition list_answers (n : notification object) (listed : option (list ElasticQuota)) : Prop :=
  match n with
  | NotifyAdd (PodObj pod) | NotifyUpdate _ (PodObj pod) =>
      Forall (λ eq, eqo_Namespace eq = p_namespace pod) (default [] listed)
  | _ => True
  end.

Inductive ledger_run : Infos → Ledger → Prop :=
| lr_start : ledger_run NewElasticQuotaInfos (mkLedger ∅ ∅ ∅ ∅)
| lr_pod c L n listed c' L' :
    ledger_run c L → reports c listed L n L' → list_answers n listed →
    pod_handler c n listed = Ret c' → ledger_run c' L'
| lr_add_quota c L eq c' :
    ledger_run c L → quota_handler c (NotifyAdd (QuotaObj eq)) = Ret c' → ledger_run c' L
| lr_update_quota c L oldEQ newEQ c' :
    ledger_run c L → eqo_Namespace oldEQ = eqo_Namespace newEQ →
    quota_handler c (NotifyUpdate (QuotaObj oldEQ) (QuotaObj newEQ)) = Ret c' → ledger_run c' L
| lr_delete_quota c L eq c' :
    ledger_run c L → quota_handler c (NotifyDelete (QuotaObj eq)) = Ret c' →
    ledger_run c' (mkLedger (store L) (reserved L) (holding L (eqo_Namespace eq) ∪ missed L) (stale L))
| lr_reserve c L k pod :
    ledger_run c L → identifies k pod → unbound L k →
    ledger_run (Reserve c pod).1
      (mkLedger (store L) ({[k]} ∪ reserved L) (count (knows c pod None) k (missed L)) (stale L))
| lr_unreserve c L k pod :
    ledger_run c L → identifies k pod → unbound L k →
    ledger_run (Unreserve c pod) (mkLedger (store L) (reserved L ∖ {[k]}) (missed L) (stale L)).

(** *** Invariant *)

Definition pods_of (c : Infos) (ns : string) : gset string := from_option eq_pods ∅ (c !! ns).

Record tracks (c : Infos) (L : Ledger) : Prop := {
  tr_pods : ∀ ns, pods_of c ns = holding L ns;
  tr_reserved : ∀ k, k ∈ reserved L → unbound L k;
  tr_stale : ∀ k, k ∈ stale L → ∃ pod, store L !! k = Some pod ∧ assignedPod pod = true;
}.

Lemma elem_of_holding L ns k : k ∈ holding L ns ↔ ns_of k = ns ∧ k ∈ candidates L ∧ k ∉ missed L.
Proof. unfold holding. by rewrite elem_of_filter, elem_of_difference. Qed.

Lemma elem_of_running L k : k ∈ running L ↔ ∃ pod, store L !! k = Some pod ∧ alive pod = true.
Proof. unfold running. rewrite elem_of_dom. unfold is_Some. by setoid_rewrite map_lookup_filter_Some. Qed.

Lemma alive_assigned pod : alive pod = true → assignedPod pod = true.
Proof. unfold alive. by intros [? _]%andb_true_iff. Qed.

Lemma ended_not_alive pod : ended pod = true → alive pod = false.
Proof.
  unfold ended, alive. intros [->%bool_decide_eq_true| ->%bool_decide_eq_true]%orb_true_iff; by rewrite andb_false_r.
Qed.

Lemma addPodIfNotPresent_pods i k pod :
  GetPodKey pod = Some k → eq_pods (addPodIfNotPresent i pod).1 = {[k]} ∪ eq_pods i.
Proof.
  intros Hk. unfold addPodIfNotPresent. rewrite Hk. case_decide; [cbn; set_solver|]. done.
Qed.

Lemma deletePodIfPresent_pods i k pod :
  GetPodKey pod = Some k → eq_pods (deletePodIfPresent i pod).1 = eq_pods i ∖ {[k]}.
Proof.
  intros Hk. unfold deletePodIfPresent. rewrite Hk. case_decide; [cbn; set_solver|]. done.
Qed.

(** What a step does to the abstract state. *)
Definition gains (L : Ledger) (k : string) (L' : Ledger) : Prop :=
  ∀ ns k', k' ∈ holding L' ns ↔ k' ∈ holding L ns ∨ (k' = k ∧ ns_of k = ns).
Definition loses (L : Ledger) (k : string) (L' : Ledger) : Prop :=
  ∀ ns k', k' ∈ holding L' ns ↔ k' ∈ holding L ns ∧ k' ≠ k.
Definition keeps (L L' : Ledger) : Prop := ∀ ns, holding L' ns = holding L ns.

(** All other pods are as before. *)
Definition others_same (L : Ledger) (k : string) (L' : Ledger) : Prop :=
  ∀ k', k' ≠ k → (k' ∈ candidates L' ↔ k' ∈ candidates L) ∧ (k' ∈ missed L' ↔ k' ∈ missed L).

Lemma holding_gains L k L' : others_same L k L' → k ∈ candidates L' → k ∉ missed L' → gains L k L'.
Proof.
  intros Ho Hk Hm ns k'. rewrite !elem_of_holding.
  destruct (decide (k' = k)) as [->|Hne]; [naive_solver|]. destruct (Ho k' Hne) as [-> ->]. naive_solver.
Qed.

Lemma holding_loses L k L' : others_same L k L' → k ∉ candidates L' → loses L k L'.
Proof.
  intros Ho Hk ns k'. rewrite !elem_of_holding.
  destruct (decide (k' = k)) as [->|Hne]; [naive_solver|]. destruct (Ho k' Hne) as [-> ->]. naive_solver.
Qed.

Lemma holding_keeps L k L' :
  others_same L k L' → (k ∈ candidates L' ∧ k ∉ missed L' ↔ k ∈ candidates L ∧ k ∉ missed L) → keeps L L'.
Proof.
  intros Ho Hk ns. apply set_eq. intros k'. rewrite !elem_of_holding.
  destruct (decide (k' = k)) as [->|Hne]; [by rewrite Hk|]. destruct (Ho k' Hne) as [-> ->]. done.
Qed.

Lemma Reserve_addPod c pod : (Reserve c pod).1 = addPod c pod None.
Proof.
  unfold Reserve, update_quota, addPod. destruct (c !! p_namespace pod) as [i|]; [|done].
  by destruct (addPodIfNotPresent i pod) as [i' [err|]].
Qed.

Lemma pods_of_insert c ns i ns' : pods_of (<[ns := i]> c) ns' = if decide (ns = ns') then eq_pods i else pods_of c ns'.
Proof. unfold pods_of. rewrite lookup_insert. by case_decide. Qed.

Lemma addPod_pods (c : Infos) k pod listed ns :
  identifies k pod → Forall (λ eq, eqo_Namespace eq = p_namespace pod) (default [] listed) →
  pods_of (addPod c pod listed) ns =
  if knows c pod listed && bool_decide (ns_of k = ns) then {[k]} ∪ pods_of c ns else pods_of c ns.
Proof.
  intros (Hk & Hns & _) Hl. unfold addPod, knows. rewrite Hns in *.
  destruct (c !! ns_of k) as [i|] eqn:Hi; [|destruct listed as [[|eq eqs]|]]; cbn in *; try done.
  - rewrite pods_of_insert, (addPodIfNotPresent_pods i k pod Hk). case_decide as E; [subst ns|by rewrite bool_decide_false].
    rewrite bool_decide_true by done. unfold pods_of. by rewrite Hi.
  - apply Forall_cons in Hl as [-> _]. rewrite pods_of_insert, (addPodIfNotPresent_pods _ k pod Hk).
    case_decide as E; [subst ns|by rewrite bool_decide_false]. rewrite bool_decide_true by done. unfold pods_of. by rewrite Hi.
Qed.

Lemma deletePod_pods (c : Infos) k pod ns :
  identifies k pod →
  pods_of (update_quota c (p_namespace pod) (λ i, deletePodIfPresent i pod)).1 ns =
  if bool_decide (ns_of k = ns) then pods_of c ns ∖ {[k]} else pods_of c ns.
Proof.
  intros (Hk & Hns & _). unfold update_quota. rewrite Hns. destruct (c !! ns_of k) as [i|] eqn:Hi.
  - pose proof (deletePodIfPresent_pods i k pod Hk) as Hp. destruct (deletePodIfPresent i pod) as [i' err].
    cbn [fst] in *. rewrite pods_of_insert. case_decide as E; [subst ns|by rewrite bool_decide_false].
    rewrite bool_decide_true by done. unfold pods_of. by rewrite Hi, Hp.
  - case_bool_decide as E; [subst ns|done]. unfold pods_of. cbn. rewrite Hi. set_solver.
Qed.

Lemma addPod_tracks (c : Infos) L k pod listed L' :
  (∀ ns, pods_of c ns = holding L ns) → identifies k pod →
  Forall (λ eq, eqo_Namespace eq = p_namespace pod) (default [] listed) →
  others_same L k L' → k ∈ candidates L' → (k ∈ missed L' ↔ knows c pod listed = false) →
  ∀ ns, pods_of (addPod c pod listed) ns = holding L' ns.
Proof.
  intros Hc Hid Hl Ho Hk Hm ns. rewrite (addPod_pods c k pod listed ns Hid Hl).
  destruct (knows c pod listed) eqn:Hkn; cbn.
  - assert (gains L k L') as Hg by (apply holding_gains; [done|done|]; rewrite Hm; done).
    apply set_eq. intros k'. rewrite (Hg ns k'), <- Hc. case_bool_decide; set_solver.
  - rewrite Hc. symmetry. apply (holding_keeps L k L' Ho). split; [naive_solver|]. intros [Hk1 Hk2]. exfalso.
    assert (k ∈ pods_of c (ns_of k)) as Hin by (rewrite Hc; by apply elem_of_holding).
    destruct Hid as (_ & Hns & _). unfold knows in Hkn. rewrite Hns in Hkn. unfold pods_of in Hin.
    destruct (c !! ns_of k); [done|]. cbn in Hin. set_solver.
Qed.

Lemma delete_tracks (c : Infos) L k pod L' :
  (∀ ns, pods_of c ns = holding L ns) → identifies k pod → loses L k L' →
  ∀ ns, pods_of (update_quota c (p_namespace pod) (λ i, deletePodIfPresent i pod)).1 ns = holding L' ns.
Proof.
  intros Hc Hid Hl ns. rewrite (deletePod_pods c k pod ns Hid). apply set_eq. intros k'.
  rewrite (Hl ns k'), <- Hc. case_bool_decide as E; [set_solver|]. split; [|naive_solver].
  intros Hin. split; [done|]. intros ->. rewrite Hc, elem_of_holding in Hin. naive_solver.
Qed.

(** *** The steps of the abstract state *)

Lemma running_insert L k pod res mi st k' :
  k' ∈ running (mkLedger (<[k := pod]> (store L)) res mi st) ↔ (k' = k ∧ alive pod = true) ∨ (k' ≠ k ∧ k' ∈ running L).
Proof. rewrite !elem_of_running. cbn. setoid_rewrite lookup_insert_Some. naive_solver. Qed.

Lemma running_delete L k res mi st k' :
  k' ∈ running (mkLedger (delete k (store L)) res mi st) ↔ k' ≠ k ∧ k' ∈ running L.
Proof. rewrite !elem_of_running. cbn. setoid_rewrite lookup_delete_Some. naive_solver. Qed.

Lemma unbound_not_running L k : unbound L k → k ∉ running L.
Proof. intros Hu (p & Hp & Ha%alive_assigned)%elem_of_running. specialize (Hu p Hp). congruence. Qed.

Lemma ledger_bound_same L known k pod : others_same L k (bound L known k pod).
Proof.
  intros k' Hne. unfold bound, candidates, count. cbn [reserved stale missed].
  rewrite !elem_of_union, running_insert. destruct known, (alive pod); set_solver.
Qed.

Lemma bound_candidate L known k pod : k ∈ candidates (bound L known k pod).
Proof.
  unfold bound, candidates. cbn [reserved stale]. rewrite !elem_of_union, running_insert.
  destruct (alive pod); set_solver.
Qed.

Lemma count_missed known k M : k ∈ count known k M ↔ known = false.
Proof. destruct known; cbn; set_solver. Qed.

Lemma seen_keeps L k pod : unbound L k → assignedPod pod = false → keeps L (seen L k pod).
Proof.
  intros Hu Hp. assert (alive pod = false) as Ha by (by apply not_true_iff_false; intros ?%alive_assigned; congruence).
  apply (holding_keeps L k).
  - intros k' Hne. unfold seen, candidates. cbn. rewrite !elem_of_union, running_insert. naive_solver.
  - unfold seen, candidates. cbn. rewrite !elem_of_union, running_insert. pose proof (unbound_not_running L k Hu).
    rewrite Ha. intuition congruence.
Qed.

Lemma moved_same L k old new : others_same L k (moved L k old new).
Proof.
  intros k' Hne. unfold moved, candidates. cbn [reserved stale missed]. rewrite !elem_of_union, running_insert.
  destruct (_ && _), (ended old); set_solver.
Qed.

Lemma gone_loses L k pod : k ∉ reserved L ∨ assignedPod pod = true → loses L k (gone L k pod).
Proof.
  intros Hr. apply holding_loses.
  - intros k' Hne. unfold gone, candidates. cbn [reserved stale missed]. rewrite !elem_of_union, running_delete.
    destruct (assignedPod pod); set_solver.
  - unfold gone, candidates. cbn [reserved stale]. rewrite !elem_of_union, running_delete.
    destruct (assignedPod pod); set_solver.
Qed.

(** *** A report *)

Lemma report_bound c L k pod listed :
  tracks c L → identifies k pod → assignedPod pod = true → unbound L k →
  Forall (λ eq, eqo_Namespace eq = p_namespace pod) (default [] listed) →
  tracks (addPod c pod listed) (bound L (knows c pod listed) k pod).
Proof.
  intros [Hc Hr Hs] Hid Ha Hu Hl. split.
  - eapply addPod_tracks; [done|done|done|apply ledger_bound_same|apply bound_candidate|apply count_missed].
  - intros k' Hk'. cbn in Hk'. intros p. cbn. rewrite lookup_insert_ne by set_solver. apply Hr. set_solver.
  - intros k' Hk'. cbn in *. rewrite lookup_insert. case_decide; [by eauto|]. apply Hs.
    destruct (alive pod); set_solver.
Qed.

Lemma report_seen c L k pod :
  tracks c L → assignedPod pod = false → unbound L k → tracks c (seen L k pod).
Proof.
  intros [Hc Hr Hs] Ha Hu. split.
  - intros ns. rewrite Hc. symmetry. by apply seen_keeps.
  - intros k' Hk' p. cbn. rewrite lookup_insert. case_decide; [by intros [= <-]|]. by apply Hr.
  - intros k' Hk'. cbn in *. destruct (Hs k' Hk') as (p & Hp & Hb). rewrite lookup_insert_ne; [by eauto|].
    intros ->. specialize (Hu p Hp). congruence.
Qed.

Lemma report_moved c L k old new :
  tracks c L → identifies k new → store L !! k = Some old → assignedPod old = true → assignedPod new = true →
  (ended old = true → ended new = true) → tracks (updatePod c old new) (moved L k old new).
Proof.
  intros [Hc Hr Hs] Hid Hold Hao Han He.
  assert (k ∉ reserved L) as Hk by (intros Hin; specialize (Hr k Hin old Hold); congruence).
  assert (k ∈ running L ↔ alive old = true) as Hrun by (rewrite elem_of_running, Hold; naive_solver).
  split.
  - unfold updatePod. fold (ended old).
    assert (negb (bool_decide (p_phase new = PodRunning)) && negb (bool_decide (p_phase new = PodPending)) = negb (alive new)) as ->
      by (unfold alive; rewrite Han; cbn; by rewrite negb_orb).
    pose proof (moved_same L k old new) as Ho.
    assert (k ∈ candidates (moved L k old new) ↔ alive new = true ∨ k ∈ stale (moved L k old new)) as Hcand.
    { unfold moved, candidates. cbn [reserved stale]. rewrite !elem_of_union, running_insert. naive_solver. }
    assert (k ∈ candidates L ↔ alive old = true ∨ k ∈ stale L) as Hcand'
      by (unfold candidates; rewrite !elem_of_union, Hrun; naive_solver).
    destruct (ended old) eqn:Heo; [|destruct (alive new) eqn:Hal; cbn [negb]].
    + pose proof (ended_not_alive _ Heo) as Hao'. pose proof (ended_not_alive _ (He eq_refl)) as Han'.
      intros ns. rewrite Hc. symmetry. apply (holding_keeps L k _ Ho). rewrite Hcand, Hcand'.
      unfold moved. cbn [stale missed]. rewrite Heo, Han', Hao'. cbn. naive_solver.
    + intros ns. rewrite Hc. symmetry. apply (holding_keeps L k _ Ho). rewrite Hcand, Hcand'.
      unfold moved. cbn [stale missed]. rewrite Heo, Hal. cbn.
      destruct (alive old) eqn:Hal'; cbn; [naive_solver|]. case_bool_decide; set_solver.
    + apply (delete_tracks c L k); [done|done|]. apply (holding_loses L k _ Ho). rewrite Hcand.
      unfold moved. cbn [stale]. rewrite Heo. set_solver.
  - intros k' Hk'. cbn in Hk'. intros p. cbn. rewrite lookup_insert_ne by set_solver. by apply Hr.
  - intros k' Hk'. cbn in *. rewrite lookup_insert. case_decide; [by eauto|]. apply Hs.
    destruct (ended old); set_solver.
Qed.

Lemma report_gone c L k old pod :
  tracks c L → identifies k pod → store L !! k = Some old → (assignedPod old = true → assignedPod pod = true) →
  tracks (if assignedPod pod then deletePod c pod else c) (gone L k pod).
Proof.
  intros [Hc Hr Hs] Hid Hold Hstay. split.
  - destruct (assignedPod pod) eqn:Ha.
    + apply (delete_tracks c L k); [done|done|]. apply gone_loses. by right.
    + assert (unbound L k) as Hu.
      { intros p Hp. assert (p = old) as -> by congruence. destruct (assignedPod old); [|done]. by discriminate Hstay. }
      assert (k ∉ stale L) as Hst by (intros (p & Hp & Hb)%Hs; specialize (Hu p Hp); congruence).
      intros ns. rewrite Hc. symmetry. apply (holding_keeps L k).
      * intros k' Hne. unfold gone, candidates. rewrite Ha. cbn. rewrite !elem_of_union, running_delete. set_solver.
      * unfold gone, candidates. rewrite Ha. cbn. rewrite !elem_of_union, running_delete.
        pose proof (unbound_not_running L k Hu). set_solver.
  - intros k' Hk' p. cbn. intros [_ Hp]%lookup_delete_Some. apply (Hr k'); [|done]. cbn in Hk'. destruct (assignedPod pod); set_solver.
  - intros k' Hk'. cbn in *. rewrite lookup_delete_ne by set_solver. apply Hs. set_solver.
Qed.

Lemma unbound_absent L k : store L !! k = None → unbound L k.
Proof. intros Hn pod Hp. congruence. Qed.

Lemma report_tracks c L n listed L' :
  tracks c L → reports c listed L n L' → list_answers n listed → ∃ c', pod_handler c n listed = Ret c' ∧ tracks c' L'.
Proof.
  intros Ht Hrep Hl. unfold pod_handler. destruct n as [obj|oldObj newObj|obj]; cbn in Hrep.
  - destruct Hrep as (k & pod & -> & Hid & Hnone & ->). rewrite filtering_add. cbn [pod_filter list_answers] in *.
    destruct (assignedPod pod) eqn:Ha; eexists; (split; [done|]);
      [apply report_bound|apply report_seen]; auto using unbound_absent.
  - destruct Hrep as (k & old & new & -> & -> & _ & Hid & Hold & Hstay & ->). rewrite filtering_update.
    cbn [pod_filter list_answers] in *. destruct (assignedPod old) eqn:Hao.
    + destruct (Hstay eq_refl) as [Han He]. rewrite Han. eexists. split; [done|]. by apply report_moved.
    + assert (unbound L k) by (intros p Hp; congruence).
      destruct (assignedPod new) eqn:Han; eexists; (split; [done|]); [by apply report_bound|by apply report_seen].
  - destruct Hrep as (k & old & pod & -> & Hid & Hold & Hstay & ->). rewrite filtering_delete. cbn [pod_filter].
    pose proof (report_gone c L k old pod Ht Hid Hold Hstay).
    destruct (assignedPod pod) eqn:Ha; eexists; (split; [done|done]).
Qed.

(** Only a tombstone is not expected. *)
Lemma delete_panics c obj listed :
  pod_handler c (NotifyDelete obj) listed = Panic ↔
  ∃ pod, obj = DeletedFinalStateUnknown (PodObj pod) ∧ assignedPod pod = true.
Proof.
  unfold pod_handler. rewrite filtering_delete. split.
  - destruct obj as [| |[]|]; cbn; try done; destruct (assignedPod _) eqn:Ha; naive_solver.
  - intros (pod & -> & Ha). cbn. by rewrite Ha.
Qed.

(** *** A run *)

Lemma identifies_request k pod : identifies k pod → ∀ key, GetPodKey pod = Some key → computePodResourceRequest pod = request key.
Proof. intros (Hk & _ & Hr) key Hkey. congruence. Qed.

Lemma pod_handler_handles c L n listed L' c' :
  reports c listed L n L' → list_answers n listed → pod_handler c n listed = Ret c' →
  c' = c ∨ ∃ ev, event_ok request ev ∧ c' = handle c ev.
Proof.
  intros Hrep Hlist. unfold pod_handler. destruct n as [obj|oldObj newObj|obj]; cbn [reports list_answers] in *.
  - destruct Hrep as (k & pod & -> & Hid & _). rewrite filtering_add. destruct (pod_filter _); [|by intros [= <-]; left].
    intros [= <-]. right. exists (EvAddPod pod listed). split; [|done]. split; [exact (identifies_request k _ Hid)|apply Hlist].
  - destruct Hrep as (k & old & new & -> & -> & Hid & Hid' & _). rewrite filtering_update.
    destruct (pod_filter (PodObj new)), (pod_filter (PodObj old)); intros [= <-]; [right..|by left].
    + exists (EvUpdatePod old new). split; [|done]. exact (identifies_request k _ Hid').
    + exists (EvAddPod new listed). split; [|done]. split; [exact (identifies_request k _ Hid')|apply Hlist].
    + exists (EvDeletePod old). split; [|done]. exact (identifies_request k _ Hid).
  - destruct Hrep as (k & old & pod & -> & Hid & _). rewrite filtering_delete. destruct (pod_filter _); [|by intros [= <-]; left].
    intros [= <-]. right. exists (EvDeletePod pod). split; [|done]. exact (identifies_request k _ Hid).
Qed.

Lemma ledger_run_reachable c L : ledger_run c L → reachable request c.
Proof.
  induction 1 as [|c L n listed c' L' _ IH Hrep Hlist Hh|c L eq c' _ IH Hh|c L old new c' _ IH Hns Hh|c L eq c' _ IH Hh
    |c L k pod _ IH Hid _|c L k pod _ IH Hid _].
  - constructor.
  - destruct (pod_handler_handles _ _ _ _ _ _ Hrep Hlist Hh) as [->|(ev & Hev & ->)]; [done|by apply reach_step].
  - unfold quota_handler in Hh. rewrite filtering_add in Hh. injection Hh as <-. by apply (reach_step _ c (EvAddQuota eq)).
  - unfold quota_handler in Hh. rewrite filtering_update in Hh. injection Hh as <-.
    by apply (reach_step _ c (EvUpdateQuota old new)).
  - unfold quota_handler in Hh. rewrite filtering_delete in Hh. injection Hh as <-. by apply (reach_step _ c (EvDeleteQuota eq)).
  - apply (reach_step _ c (EvReserve pod)); [done|]. exact (identifies_request k _ Hid).
  - apply (reach_step _ c (EvUnreserve pod)); [done|]. exact (identifies_request k _ Hid).
Qed.

Lemma quota_added_pods c eq ns : pods_of (addElasticQuota c eq) ns = pods_of c ns.
Proof.
  unfold addElasticQuota. destruct (c !! eqo_Namespace eq) eqn:E; [done|].
  rewrite pods_of_insert. case_decide as D; [subst ns|done]. unfold pods_of. by rewrite E.
Qed.

Lemma quota_updated_pods c old new ns :
  eqo_Namespace old = eqo_Namespace new → pods_of (updateElasticQuota c old new) ns = pods_of c ns.
Proof.
  intros Hns. unfold updateElasticQuota. rewrite Hns, pods_of_insert. case_decide as D; [subst ns|done].
  unfold pods_of. by destruct (c !! eqo_Namespace new).
Qed.

Lemma quota_deleted_pods c L eq ns :
  (∀ ns, pods_of c ns = holding L ns) →
  pods_of (deleteElasticQuota c eq) ns =
  holding (mkLedger (store L) (reserved L) (holding L (eqo_Namespace eq) ∪ missed L) (stale L)) ns.
Proof.
  intros Hc. apply set_eq. intros k. rewrite elem_of_holding. unfold candidates, running. cbn [store reserved stale missed].
  rewrite !elem_of_union, elem_of_holding. unfold pods_of, deleteElasticQuota. rewrite lookup_delete.
  unfold candidates, running. rewrite !elem_of_union. case_decide as D; [subst ns; cbn; rewrite elem_of_empty; tauto|].
  fold (pods_of c ns). rewrite Hc, elem_of_holding. unfold candidates, running. rewrite !elem_of_union.
  intuition congruence.
Qed.

Lemma reserve_tracks c L k pod :
  tracks c L → identifies k pod → unbound L k →
  tracks (Reserve c pod).1 (mkLedger (store L) ({[k]} ∪ reserved L) (count (knows c pod None) k (missed L)) (stale L)).
Proof.
  intros [Hc Hr Hs] Hid Hu. split; [|intros k'; cbn; rewrite elem_of_union, elem_of_singleton; intros [->|?]; [done|by apply Hr]|done].
  rewrite Reserve_addPod. eapply addPod_tracks; [done|done|by constructor| | |apply count_missed].
  - intros k' Hne. unfold candidates, running. cbn [store reserved stale missed].
    split; [|destruct (knows c pod None); cbn]; set_solver.
  - unfold candidates. cbn [reserved]. set_solver.
Qed.

Lemma unreserve_tracks c L k pod :
  tracks c L → identifies k pod → unbound L k →
  tracks (Unreserve c pod) (mkLedger (store L) (reserved L ∖ {[k]}) (missed L) (stale L)).
Proof.
  intros [Hc Hr Hs] Hid Hu. split; [|intros k'; cbn; rewrite elem_of_difference; intros [? _]; by apply Hr|done].
  eapply delete_tracks; [done|done|]. apply holding_loses.
  - intros k' Hne. unfold candidates, running. cbn [store reserved stale missed]. set_solver.
  - pose proof (unbound_not_running L k Hu).
    assert (k ∉ stale L) by (intros (p & Hp & Hb)%Hs; specialize (Hu p Hp); congruence).
    unfold candidates, running in *. cbn [store reserved stale]. set_solver.
Qed.

Lemma ledger_run_tracks c L : ledger_run c L → tracks c L.
Proof.
  induction 1 as [|c L n listed c' L' _ IH Hrep Hlist Hh|c L eq c' _ [Hc Hr Hs] Hh|c L old new c' _ [Hc Hr Hs] Hns Hh
    |c L eq c' _ [Hc Hr Hs] Hh|c L k pod _ IH Hid Hk|c L k pod _ IH Hid Hk].
  - split; [|by intros k ?%elem_of_empty..]. intros ns. apply set_eq. intros k. rewrite elem_of_holding.
    unfold candidates. rewrite !elem_of_union, elem_of_running. cbn. setoid_rewrite lookup_empty. set_solver.
  - destruct (report_tracks _ _ _ _ _ IH Hrep Hlist) as (c1 & E & Hc). rewrite E in Hh. by injection Hh as <-.
  - split; [|done..]. unfold quota_handler in Hh. rewrite filtering_add in Hh. injection Hh as <-.
    intros ns. by rewrite quota_added_pods.
  - split; [|done..]. unfold quota_handler in Hh. rewrite filtering_update in Hh. injection Hh as <-.
    intros ns. by rewrite quota_updated_pods.
  - split; [|done..]. unfold quota_handler in Hh. rewrite filtering_delete in Hh. injection Hh as <-.
    intros ns. by apply quota_deleted_pods.
  - by apply reserve_tracks.
  - by apply unreserve_tracks.
Qed.

Lemma ledger_run_pods c L ns i : ledger_run c L → c !! ns = Some i → eq_pods i = holding L ns.
Proof. intros Hrun Hi. rewrite <- (tr_pods _ _ (ledger_run_tracks _ _ Hrun) ns). unfold pods_of. by rewrite Hi. Qed.


Lemma active_holding L ns : active L ns ∖ missed L ⊆ holding L ns.
Proof. intros k. unfold active, holding, candidates. rewrite elem_of_difference, !elem_of_filter. set_solver. Qed.

End Ledger.

(** *** Outside the protocol *)

(** The filters let tombstones through, the handlers do not expect them. *)
Lemma quota_tombstones_panic `{!InformerSpec} c eq pod listed :
  quota_handler c (NotifyDelete (DeletedFinalStateUnknown (QuotaObj eq))) = Panic ∧
  (assignedPod pod = true → pod_handler c (NotifyDelete (DeletedFinalStateUnknown (PodObj pod))) listed = Panic).
Proof.
  unfold quota_handler, pod_handler. rewrite !filtering_delete. cbn [quota_filter pod_filter]. by split; [|intros ->].
Qed.
End Handlers.

(** ** Witnesses *)

Definition w_bound (ns name : string) : Pod := w_pod ns name 0.
Definition w_unbound (ns name : string) : Pod := model_pod ns name "" 0 {[ResourceCPU := cores 2]}.

Definition w_ns_of (key : string) : string := if bool_decide (key = "q1") then "b" else "a".

Definition used_cpu (c : gmap string ElasticQuotaInfo) (ns : string) : option Z := get DCPU ∘ eq_Used <$> c !! ns.

(** A quota that is created after the pods of its namespace run does not know of them. *)
Lemma late_quota_misses_pods :
  (c ← pod_handler NewElasticQuotaInfos (NotifyAdd (PodObj (w_bound "a" "p1"))) (Some []);
   c ← quota_handler c (NotifyAdd (QuotaObj (w_elastic_quota "a" 3 5)));
   Ret (used_cpu c "a")) = Ret (Some 0).
Proof. by vm_compute. Qed.

Definition w_ended (ns name : string) : Pod :=
  let p := w_bound ns name in {|
  p_namespace := p_namespace p; p_name := p_name p; p_uid := p_uid p; p_labels := p_labels p;
  p_annotations := p_annotations p; p_owner_references := p_owner_references p;
  p_deletion_timestamp := p_deletion_timestamp p; p_containers := p_containers p;
  p_init_containers := p_init_containers p; p_overhead := p_overhead p;
  p_node_name := p_node_name p; p_scheduler_name := p_scheduler_name p;
  p_priority := p_priority p; p_priority_class_name := p_priority_class_name p;
  p_preemption_policy := p_preemption_policy p; p_seccomp := p_seccomp p; p_phase := PodSucceeded;
  p_host_ip := p_host_ip p; p_nominated_node_name := p_nominated_node_name p;
  p_scheduled_condition := p_scheduled_condition p |}.

(** A pod that had succeeded before the scheduler started is counted, and its later updates
    do not release it. *)
Lemma ended_pod_counted :
  (c ← quota_handler NewElasticQuotaInfos (NotifyAdd (QuotaObj (w_elastic_quota "a" 3 5)));
   c ← pod_handler c (NotifyAdd (PodObj (w_ended "a" "p1"))) None;
   c ← pod_handler c (NotifyUpdate (PodObj (w_ended "a" "p1")) (PodObj (w_ended "a" "p1"))) None;
   Ret (used_cpu c "a")) = Ret (Some 2000).
Proof. by vm_compute. Qed.

(** The quota, a pod that is reserved, reported as bound, and ends. *)
Definition w_l0 : gmap string ElasticQuotaInfo := addElasticQuota NewElasticQuotaInfos (w_elastic_quota "a" 3 5).
Definition w_l1 : gmap string ElasticQuotaInfo := addPod w_l0 (w_bound "a" "p1") None.
Definition w_l2 : gmap string ElasticQuotaInfo := (Reserve w_l1 (w_unbound "a" "p2")).1.

Lemma w_identifies name : w_ns_of name = "a" → name ≠ "" →
  identifies w_request w_ns_of name (w_bound "a" name) ∧ identifies w_request w_ns_of name (w_unbound "a" name).
Proof.
  intros Hns Hne. assert (Hk : ∀ node prio req, GetPodKey (model_pod "a" name node prio req) = Some name)
    by (intros; cbn; by rewrite decide_False).
  split; split_and!; try apply Hk; try (symmetry; exact Hns); vm_compute; reflexivity.
Qed.

Definition w_no_pods : Ledger := mkLedger ∅ ∅ ∅ ∅.
Definition w_ledger_1 : Ledger := bound w_no_pods true "p1" (w_bound "a" "p1").
Definition w_ledger_2 : Ledger :=
  mkLedger (store w_ledger_1) ({["p2"]} ∪ reserved w_ledger_1) (count true "p2" (missed w_ledger_1)) (stale w_ledger_1).

Lemma w_ledger_run_1 : ledger_run w_request w_ns_of w_l1 w_ledger_1.
Proof.
  eapply (lr_pod _ _ w_l0 _ (NotifyAdd (PodObj (w_bound "a" "p1"))) None).
  - by eapply lr_add_quota; [apply lr_start|].
  - cbn. exists "p1", (w_bound "a" "p1"). split_and!; try done; by apply w_identifies.
  - by constructor.
  - done.
Qed.

Lemma w_ledger_run : ledger_run w_request w_ns_of w_l2 w_ledger_2.
Proof.
  refine (lr_reserve w_request w_ns_of w_l1 w_ledger_1 "p2" (w_unbound "a" "p2") w_ledger_run_1 _ _);
    [by apply w_identifies|]. intros pod Hp. cbn in Hp. by rewrite lookup_insert_ne in Hp.
Qed.


(** The state of [w_run_two] in file QuotaAdmission. *)
Definition w_ledger_two : Ledger := mkLedger ∅ ({["p2"]} ∪ ({["p1"]} ∪ ∅)) ((∅ ∖ {["p1"]}) ∖ {["p2"]}) ∅.

Lemma w_ledger_run_two : ledger_run w_request w_ns_of w_two w_ledger_two.
Proof.
  refine (lr_reserve w_request w_ns_of w_one (mkLedger ∅ ({["p1"]} ∪ ∅) (∅ ∖ {["p1"]}) ∅) "p2" (w_bound "a" "p2") _ _ _);
    [|by apply w_identifies|by intros pod Hp].
  refine (lr_reserve w_request w_ns_of w_start w_no_pods "p1" (w_bound "a" "p1") _ _ _);
    [|by apply w_identifies|by intros pod Hp].
  refine (lr_add_quota w_request w_ns_of w_l0 _ (w_elastic_quota "b" 3 3) _ _ _); [|done].
  by refine (lr_add_quota w_request w_ns_of NewElasticQuotaInfos _ (w_elastic_quota "a" 3 5) _ (lr_start _ _) _).
Qed.

