(* ===== verification/PreemptionToleration.v ===== *)
(** * pkg/preemptiontoleration

    The PreemptionToleration plugin: the toleration policy that a priority
    class carries in its annotations, the exemption of a victim candidate, the
    dry run of a preemption on a node and the number of candidate nodes.
    Times and durations are nanoseconds; [time.Time] has a wider range than an
    int64 and is an integer here, [time.Duration] is an int64. *)

From S2P Require Import Prelude GoSort Strconv K8s K8sModel ResourceUtil Preemption.

Section PreemptionToleration.
Context `{GoSort} `{QuantityOps} `{!FrameworkOps}.

(** ** The policy (preemption_toleration_policy.go) *)

Definition AnnotationKeyPrefix : string := "preemption-toleration.scheduling.x-k8s.io/".
Definition AnnotationKeyMinimumPreemptablePriority : string :=
  AnnotationKeyPrefix +:+ "minimum-preemptable-priority".
Definition AnnotationKeyTolerationSeconds : string := AnnotationKeyPrefix +:+ "toleration-seconds".

(** The fields of schedulingv1.PriorityClass that are read; [Value] is an int32. *)
Record PriorityClass := {
  prc_Value : Z;
  prc_Annotations : gmap string string;
}.

Record Policy := mkPolicy {
  MinimumPreemptablePriority : Z;
  TolerationSeconds : Z;
}.

Definition parsePreemptionTolerationPolicy (pc : PriorityClass) : option Policy :=
  minimumPreemptablePriority ←
    match prc_Annotations pc !! AnnotationKeyMinimumPreemptablePriority with
    | None => Some (wrap32 (prc_Value pc + 1))
    | Some minimumPreemptablePriorityStr => ParseInt minimumPreemptablePriorityStr 32
    end;
  tolerationSeconds ←
    match prc_Annotations pc !! AnnotationKeyTolerationSeconds with
    | None => Some 0
    | Some tolerationSecondsStr => ParseInt tolerationSecondsStr 64
    end;
  Some (mkPolicy minimumPreemptablePriority tolerationSeconds).

(** ** The exemption *)

(** [pcLister] is the lister's [Get]; the result is [None] when it fails. *)
Definition ExemptedFromPreemption (victimCandidate preemptor : Pod)
    (pcLister : string → option PriorityClass) (now : Z) : option bool :=
  if bool_decide (p_priority_class_name victimCandidate = "") then Some false
  else match pcLister (p_priority_class_name victimCandidate) with
  | None => None
  | Some victimPriorityClass =>
      let preemptorPreemptionPolicy := default PreemptLowerPriority (p_preemption_policy preemptor) in
      if bool_decide (preemptorPreemptionPolicy = PreemptNever) then Some true
      else match parsePreemptionTolerationPolicy victimPriorityClass with
      | None => Some false
      | Some policy =>
          let preemptorPriority := PodPriority preemptor in
          if bool_decide (preemptorPriority >= MinimumPreemptablePriority policy) then Some false
          else if bool_decide (TolerationSeconds policy < 0) then Some true
          else match p_scheduled_condition victimCandidate with
          | None => Some true
          | Some scheduledCondition =>
              if negb (bool_decide (pc_status scheduledCondition = ConditionTrue)) then Some true
              else
                let scheduledAt := pc_last_transition scheduledCondition in
                let tolerationDuration := TolerationSeconds policy *₆₄ second in
                Some (bool_decide (scheduledAt + tolerationDuration > now))
          end
      end
  end.

(** ** The number of candidates *)

(** The two arguments and the number of nodes are int32. *)
Definition calculateNumCandidates (minCandidateNodesPercentage minCandidateNodesAbsolute numNodes : Z) : Z :=
  let n := Z.quot (wrap32 (numNodes * minCandidateNodesPercentage)) 100 in
  let n := if bool_decide (n < minCandidateNodesAbsolute) then minCandidateNodesAbsolute else n in
  if bool_decide (n > numNodes) then numNodes else n.

(** [rand.Int31n] panics unless its argument is positive; [random] is its
    choice. *)
Definition GetOffsetAndNumCandidates (minCandidateNodesPercentage minCandidateNodesAbsolute : Z)
    (random : Z → Z) (numNodes : Z) : outcome (Z * Z) :=
  if bool_decide (numNodes <= 0) then Panic
  else Ret (random numNodes mod numNodes,
            calculateNumCandidates minCandidateNodesPercentage minCandidateNodesAbsolute numNodes).

(** ** Eligibility of the preemptor *)

Definition PodEligibleToPreemptOthers (NodeInfos_Get : string → option NodeInfo) (pod : Pod)
    (nominatedNodeStatus : Status) : bool * string :=
  if bool_decide (p_preemption_policy pod = Some PreemptNever)
  then (false, "not eligible due to preemptionPolicy=Never.")
  else
    let nomNodeName := p_nominated_node_name pod in
    if Nat.ltb 0 (String.length nomNodeName) then
      if bool_decide (status_Code nominatedNodeStatus = UnschedulableAndUnresolvable) then (true, "")
      else match NodeInfos_Get nomNodeName with
      | None => (true, "")
      | Some nodeInfo =>
          let podPriority := PodPriority pod in
          if existsb (λ p, bool_decide (is_Some (p_deletion_timestamp p)) &&
                           bool_decide (PodPriority p < podPriority)) (ni_pods nodeInfo)
          then (false, "not eligible due to a terminating pod on the nominated node.")
          else (true, "")
      end
    else (true, "").

(** ** Selecting victims *)

Section SelectVictims.
Context `{!NodeInfoOps} `{LabelSelectorOps} {S : Type} `{!PreemptionHandle S}.
Context (pcLister : string → option PriorityClass) (curTime : Z).

Definition pt_victim_step (preemptor : Pod) (acc : DryRun S * list Pod) (pi : Pod) :
    result StatusData (DryRun S * list Pod) :=
  let '(d, potentialVictims) := acc in
  if bool_decide (PodPriority pi >= PodPriority preemptor) then mret (d, potentialVictims)
  else match ExemptedFromPreemption pi preemptor pcLister curTime with
  | None => Err (AsStatus "priority class not found")
  | Some true => mret (d, potentialVictims)
  | Some false => d ← removePod preemptor d pi; mret (d, potentialVictims ++ [pi])
  end.

Definition pt_reprievePod (preemptor : Pod) (d : DryRun S) (victims : list Pod) (pi : Pod) :
    result StatusData (bool * (DryRun S * list Pod)) :=
  d ← addPod preemptor d pi;
  let fits := IsSuccess (filter_status preemptor d) in
  if negb fits
  then d ← removePod preemptor d pi; mret (fits, (d, victims ++ [pi]))
  else mret (fits, (d, victims)).

(** One pass of the two reprieving loops; only the first loop counts. *)
Definition pt_reprieve (violating : bool) (preemptor : Pod) (acc : DryRun S * list Pod * Z)
    (p : Pod) : result StatusData (DryRun S * list Pod * Z) :=
  let '(d, victims, numViolatingVictim) := acc in
  '(fits, (d, victims)) ← pt_reprievePod preemptor d victims p;
  mret (d, victims, if violating && negb fits then numViolatingVictim + 1 else numViolatingVictim).

(** The copy of the preemption plugin's function in this package. *)
Definition pt_filterPodsWithPDBViolation (podInfos : list Pod) (pdbs : list PodDisruptionBudget) :
    list Pod * list Pod := filterPodsWithPDBViolation podInfos pdbs.

(** Besides the code's results the model returns the final dry run. *)
Definition pt_SelectVictimsOnNode (state : S) (preemptor : Pod) (nodeInfo : NodeInfo)
    (pdbs : list PodDisruptionBudget) : result StatusData (list Pod * Z * DryRun S) :=
  '(d, potentialVictims) ←
    fold_result (pt_victim_step preemptor) (mkDryRun state nodeInfo, []) (ni_pods nodeInfo);
  if bool_decide (potentialVictims = [] :> list Pod)
  then n ← lift (deref (ni_node (dr_node d)));
       Err (NewStatus UnschedulableAndUnresolvable "No victims found on node for preemptor pod")
  else
  if negb (IsSuccess (filter_status preemptor d))
  then Err (default (NewStatus Success "") (filter_status preemptor d))
  else
  let potentialVictims := sort_slice MoreImportantPod potentialVictims in
  let '(violatingVictims, nonViolatingVictims) := pt_filterPodsWithPDBViolation potentialVictims pdbs in
  '(d, victims, numViolatingVictim) ←
    fold_result (pt_reprieve true preemptor) (d, [], 0) violatingVictims;
  '(d, victims, numViolatingVictim) ←
    fold_result (pt_reprieve false preemptor) (d, victims, numViolatingVictim) nonViolatingVictims;
  let victims :=
    if negb (bool_decide (violatingVictims = [] :> list Pod)) &&
       negb (bool_decide (nonViolatingVictims = [] :> list Pod))
    then sort_slice MoreImportantPod victims else victims in
  mret (victims, numViolatingVictim, d).
End SelectVictims.

(** ** Properties of the policy *)

(** The policy exempts a candidate that is scheduled until the toleration
    ends, and one that is not scheduled. *)
Definition tolerates (policy : Policy) (victimCandidate preemptor : Pod) (now : Z) : Prop :=
  PodPriority preemptor < MinimumPreemptablePriority policy ∧
  (TolerationSeconds policy < 0 ∨
   match p_scheduled_condition victimCandidate with
   | Some c => pc_status c = ConditionTrue → now < pc_last_transition c + TolerationSeconds policy * second
   | None => True
   end).


(** Unless the product of the two int32 overflows, the number of candidates
    is the larger of the percentage of the nodes and the absolute minimum,
    capped by the number of nodes; so it is never more than the nodes, and
    positive as soon as the minimum is. *)
Theorem calculateNumCandidates_spec percentage absolute numNodes :
  0 ≤ numNodes → 0 ≤ percentage → 0 ≤ absolute → numNodes * percentage < 2 ^ 31 →
  calculateNumCandidates percentage absolute numNodes =
    Z.min numNodes (Z.max (numNodes * percentage / 100) absolute) ∧
  0 ≤ calculateNumCandidates percentage absolute numNodes ≤ numNodes ∧
  (0 < numNodes → 0 < absolute → 0 < calculateNumCandidates percentage absolute numNodes).
Proof.
  intros. unfold calculateNumCandidates.
  rewrite wrap32_id by (unfold in32; nia). rewrite Z.quot_div_nonneg by nia.
  assert (0 ≤ numNodes * percentage / 100) by (apply Z.div_pos; nia).
  repeat case_bool_decide; lia.
Qed.

(** ** Properties of the selected victims *)

Section Victims.
Context `{!NodeInfoOps} `{!NodeInfoSpec} `{LabelSelectorOps} {S : Type} `{!PreemptionHandle S}.
Context (pcLister : string → option PriorityClass) (curTime : Z).

(** The filters answer as before once an added pod is removed again from a node
    whose pods are distinct. *)
Definition filters_undo (preemptor : Pod) : Prop := ∀ d p d1 d2,
  addPod preemptor d p = Ok d1 → NoDup (p_uid <$> ni_pods (dr_node d1)) →
  removePod preemptor d1 p = Ok d2 →
  IsSuccess (filter_status preemptor d) = true → IsSuccess (filter_status preemptor d2) = true.

(** Who may be evicted. *)
Definition pt_evictable (preemptor v : Pod) : Prop :=
  PodPriority v < PodPriority preemptor ∧
  ExemptedFromPreemption v preemptor pcLister curTime = Some false.

Lemma removePod_perm preemptor (d : DryRun S) p d' :
  NoDup (p_uid <$> ni_pods (dr_node d)) → p ∈ ni_pods (dr_node d) →
  removePod preemptor d p = Ok d' → ni_pods (dr_node d) ≡ₚ p :: ni_pods (dr_node d').
Proof.
  unfold removePod. intros Hnd Hp Hr. destruct (ni_RemovePod _ _) as [ni|] eqn:Hrem; [|done].
  destruct (RunPreFilterExtensionRemovePod _ _ _ _) as [st s].
  destruct (IsSuccess s); simpl in Hr; [|done]. injection Hr as <-. by apply ni_RemovePod_perm.
Qed.

Lemma addPod_perm preemptor (d : DryRun S) p d' :
  addPod preemptor d p = Ok d' → ni_pods (dr_node d') ≡ₚ p :: ni_pods (dr_node d).
Proof.
  unfold addPod. intros Hr. destruct (RunPreFilterExtensionAddPod _ _ _ _) as [st s].
  destruct (IsSuccess s); simpl in Hr; [|done]. injection Hr as <-. apply ni_AddPodInfo_pods.
Qed.

Definition removal_inv (preemptor : Pod) (pods seen : list Pod) (acc : DryRun S * list Pod) : Prop :=
  acc.2 ⊆ seen ∧ acc.2 ++ ni_pods (dr_node acc.1) ≡ₚ pods ∧
  ∀ v, v ∈ acc.2 → pt_evictable preemptor v.

Lemma pt_victim_step_inv preemptor pods l1 pi l2 acc acc' :
  NoDup (p_uid <$> pods) → pods = l1 ++ pi :: l2 → removal_inv preemptor pods l1 acc →
  pt_victim_step pcLister curTime preemptor acc pi = Ok acc' →
  removal_inv preemptor pods (l1 ++ [pi]) acc'.
Proof.
  destruct acc as [d vs]. intros Hnd Hl (Hsub & Hperm & Hev) Hs. simpl in *.
  assert (removal_inv preemptor pods (l1 ++ [pi]) (d, vs)) as Hskip.
  { split; [|done]. intros v Hv. apply elem_of_app. left. by apply Hsub. }
  case_bool_decide; [by injection Hs as <-|].
  destruct (ExemptedFromPreemption _ _ _ _) as [[]|] eqn:Hex; [by injection Hs as <-| |done].
  apply result_bind_Ok in Hs as (d' & Hr & [= <-]).
  assert (pi ∉ l1) as Hnew.
  { rewrite Hl, fmap_app, fmap_cons in Hnd. apply NoDup_app in Hnd as (_ & Hdis & _). intros Hin.
    apply (Hdis (p_uid pi)); [apply list_elem_of_fmap; by exists pi|by left]. }
  assert (pi ∈ vs ++ ni_pods (dr_node d)) as Hin by (rewrite Hperm, Hl; set_solver).
  apply elem_of_app in Hin as [Hin|Hin]; [by apply Hsub in Hin|].
  rewrite <- Hperm, fmap_app in Hnd. apply NoDup_app in Hnd as (_ & _ & Hnd).
  split; simpl; [set_solver|]. split.
  - rewrite <- Hperm, (removePod_perm _ _ _ _ Hnd Hin Hr). solve_Permutation.
  - intros v [Hv| ->%list_elem_of_singleton]%elem_of_app; [auto|]. split; [lia|done].
Qed.

Definition reprieve_inv (preemptor : Pod) (pods pv rest : list Pod) (acc : DryRun S * list Pod) : Prop :=
  acc.2 ++ rest ++ ni_pods (dr_node acc.1) ≡ₚ pods ∧ acc.2 ⊆ pv ∧
  IsSuccess (filter_status preemptor acc.1) = true.

Lemma pt_reprievePod_inv preemptor pods pv rest d vs pi fits acc' :
  filters_undo preemptor → NoDup (p_uid <$> pods) → pi ∈ pv →
  reprieve_inv preemptor pods pv (pi :: rest) (d, vs) →
  pt_reprievePod preemptor d vs pi = Ok (fits, acc') →
  reprieve_inv preemptor pods pv rest acc'.
Proof.
  intros Hundo Hnd Hpv (Hperm & Hsub & Hok) Hs. simpl in *.
  apply result_bind_Ok in Hs as (d1 & Hadd & Hs).
  pose proof (addPod_perm _ _ _ _ Hadd) as Hp1.
  destruct (IsSuccess (filter_status preemptor d1)) eqn:Hfit; simpl in Hs.
  - injection Hs as <- <-. split; [|done]. simpl. rewrite Hp1, <- Hperm. solve_Permutation.
  - apply result_bind_Ok in Hs as (d2 & Hrem & [= <- <-]).
    assert (NoDup (p_uid <$> ni_pods (dr_node d1))) as Hnd1.
    { assert (vs ++ rest ++ ni_pods (dr_node d1) ≡ₚ pods) as E
        by (rewrite Hp1, <- Hperm; solve_Permutation).
      rewrite <- E, !fmap_app, !NoDup_app in Hnd. apply Hnd. }
    split; [|split]; simpl.
    + assert (pi ∈ ni_pods (dr_node d1)) as Hin by (rewrite Hp1; by left).
      pose proof (removePod_perm _ _ _ _ Hnd1 Hin Hrem) as Hp2. rewrite Hp1 in Hp2.
      apply (Permutation_cons_inv (a := pi)) in Hp2. rewrite <- Hperm, Hp2. solve_Permutation.
    + intros v [?| ->%list_elem_of_singleton]%elem_of_app; auto.
    + by eapply Hundo.
Qed.

Lemma pt_reprieve_loop violating preemptor pods pv l rest d vs n d' vs' n' :
  filters_undo preemptor → NoDup (p_uid <$> pods) → l ⊆ pv →
  reprieve_inv preemptor pods pv (l ++ rest) (d, vs) →
  fold_result (pt_reprieve violating preemptor) (d, vs, n) l = Ok (d', vs', n') →
  reprieve_inv preemptor pods pv rest (d', vs').
Proof.
  intros Hundo Hnd Hpv. revert d vs n. induction l as [|pi l IH]; intros d vs n Hinv Hs; simpl in *.
  - by injection Hs as <- <- <-.
  - apply result_bind_Ok in Hs as ([[d1 vs1] n1] & Hstep & Hs).
    apply result_bind_Ok in Hstep as ([fits [d2 vs2]] & Hr & Hret). injection Hret as -> -> _.
    apply (IH ltac:(set_solver) d1 vs1 n1); [|done].
    eapply pt_reprievePod_inv; [done|done| |done|done]. set_solver.
Qed.

(** When [SelectVictimsOnNode] succeeds on a node whose pods are distinct,
    the victims and the pods left on the node in the dry run are together
    exactly the pods of the node, the preemptor passes the filters on what is
    left, and every victim has a lower priority than the preemptor and is not
    exempted by its priority class. *)
Lemma pt_SelectVictimsOnNode_sound state preemptor nodeInfo pdbs victims num d :
  filters_undo preemptor → NoDup (p_uid <$> ni_pods nodeInfo) →
  pt_SelectVictimsOnNode pcLister curTime state preemptor nodeInfo pdbs = Ok (victims, num, d) →
  victims ++ ni_pods (dr_node d) ≡ₚ ni_pods nodeInfo ∧
  IsSuccess (filter_status preemptor d) = true ∧
  ∀ v, v ∈ victims → pt_evictable preemptor v.
Proof.
  intros Hundo Hnd. unfold pt_SelectVictimsOnNode. intros ([d0 pv] & Hpv & Hs)%result_bind_Ok.
  assert (removal_inv preemptor (ni_pods nodeInfo) (ni_pods nodeInfo) (d0, pv)) as (_ & Hperm & Hev).
  { revert Hpv. apply (fold_result_ind _ (removal_inv preemptor (ni_pods nodeInfo))).
    - intros l1 x l2 a a' Hl Ha Hstep. by eapply pt_victim_step_inv.
    - split; [done|]. split; [done|]. by intros v ?%not_elem_of_nil. }
  simpl in *. case_bool_decide; [by apply result_bind_Ok in Hs as (? & _ & ?)|].
  destruct (IsSuccess (filter_status preemptor d0)) eqn:Hok; simpl in Hs; [|done].
  destruct (pt_filterPodsWithPDBViolation _ _) as [violating other] eqn:Hpdb.
  apply filterPodsWithPDBViolation_perm in Hpdb. rewrite sort_slice_perm in Hpdb.
  apply result_bind_Ok in Hs as ([[d1 vs1] n1] & Hl1 & Hs).
  apply result_bind_Ok in Hs as ([[d2 vs2] n2] & Hl2 & Hs). injection Hs as Hvs _ <-.
  assert (reprieve_inv preemptor (ni_pods nodeInfo) pv (violating ++ other) (d0, [])) as Hinv.
  { split; [|split; [apply list_subseteq_nil|done]]. simpl. by rewrite Hpdb. }
  assert (∀ v, v ∈ violating ++ other → v ∈ pv) as Hin by (intros v; by rewrite Hpdb).
  assert (violating ⊆ pv ∧ other ⊆ pv) as [Hvp Hop] by set_solver.
  pose proof (pt_reprieve_loop _ _ _ _ _ _ _ _ _ _ _ _ Hundo Hnd Hvp Hinv Hl1) as Hinv1.
  rewrite <- (app_nil_r other) in Hinv1.
  destruct (pt_reprieve_loop _ _ _ _ _ _ _ _ _ _ _ _ Hundo Hnd Hop Hinv1 Hl2) as (Hperm2 & Hsub & Hok2).
  simpl in *. assert (victims ≡ₚ vs2) as Ev by (rewrite <- Hvs; case_match; [apply sort_slice_perm|done]).
  split; [by rewrite Ev|]. split; [done|]. intros v Hv. apply Hev, Hsub. by rewrite <- Ev.
Qed.
End Victims.
End PreemptionToleration.

(** ** Witnesses *)

Definition w_policy_class : PriorityClass := {|
  prc_Value := 100;
  prc_Annotations := {[ AnnotationKeyMinimumPreemptablePriority := "1000";
                        AnnotationKeyTolerationSeconds := "60" ]} |}.

Definition w_lister (name : string) : option PriorityClass :=
  if decide (name = "tolerant") then Some w_policy_class else None.

Definition w_candidate (name : string) (class : string) (prio cpu : Z) : Pod := {|
  p_namespace := "a"; p_name := name; p_uid := name; p_labels := ∅; p_annotations := ∅;
  p_owner_references := []; p_deletion_timestamp := None;
  p_containers := [model_container {[ResourceCPU := cores cpu]} ∅]; p_init_containers := [];
  p_overhead := None; p_node_name := "n1"; p_scheduler_name := "";
  p_priority := Some prio; p_priority_class_name := class; p_preemption_policy := None;
  p_seccomp := None; p_phase := PodRunning; p_host_ip := ""; p_nominated_node_name := "";
  p_scheduled_condition := Some {| pc_status := ConditionTrue; pc_last_transition := 0 |} |}.


(** A positive number of seconds beyond 2^63 nanoseconds turns into a negative
    duration, and the candidate is not exempted at all. *)
Definition w_long_class : PriorityClass := {|
  prc_Value := 100;
  prc_Annotations := {[ AnnotationKeyMinimumPreemptablePriority := "1000";
                        AnnotationKeyTolerationSeconds := "10000000000" ]} |}.

Lemma toleration_overflow :
  parsePreemptionTolerationPolicy w_long_class = Some (mkPolicy 1000 10000000000) ∧
  ExemptedFromPreemption (w_candidate "v" "long" 100 1) (w_candidate "p" "" 500 1)
    (λ _, Some w_long_class) second = Some false.
Proof. split; vm_compute; reflexivity. Qed.

Lemma calculateNumCandidates_spec_witness :
  calculateNumCandidates 10 100 5000 = 500 ∧
  calculateNumCandidates 10 100 5000 = Z.min 5000 (Z.max (5000 * 10 / 100) 100).
Proof. split; [by vm_compute|]. apply (calculateNumCandidates_spec 10 100 5000); lia. Defined.

(** A node with 5 cores and no other plugin. *)
#[export] Instance w_pt_handle : PreemptionHandle unit := {|
  RunPreFilterExtensionRemovePod st _ _ _ := (st, None);
  RunPreFilterExtensionAddPod st _ _ _ := (st, None);
  RunFilterPluginsWithNominatedPods _ pod ni :=
    if bool_decide (zsum (λ p, zsum (λ c, milli_of (c_requests c) ResourceCPU) (p_containers p))
         (pod :: ni_pods ni) ≤ 5000)
    then None else Some (NewStatus Unschedulable "Insufficient cpu");
|}.

Lemma w_filters_undo preemptor : filters_undo (S := unit) preemptor.
Proof.
  intros d p d1 d2 Hadd Hnd Hrem.
  pose proof (addPod_perm _ _ _ _ Hadd) as Hp1.
  assert (p ∈ ni_pods (dr_node d1)) as Hin by (rewrite Hp1; by left).
  pose proof (removePod_perm _ _ _ _ Hnd Hin Hrem) as Hp2. rewrite Hp1 in Hp2.
  apply (Permutation_cons_inv (a := p)) in Hp2. unfold filter_status.
  assert (∀ f : Pod → Z, zsum f (preemptor :: ni_pods (dr_node d)) =
    zsum f (preemptor :: ni_pods (dr_node d2))) as E by (intros f; by rewrite Hp2).
  cbn [RunFilterPluginsWithNominatedPods w_pt_handle]. by rewrite E.
Qed.

Definition w_pt_node : NodeInfo := {|
  ni_node := None; ni_pods := [w_candidate "low" "" 0 3; w_candidate "tol" "tolerant" 100 1;
                               w_candidate "small" "" 1 1];
  ni_allocatable := zero_resource; ni_requested := zero_resource; ni_nonzero_requested := zero_resource |}.

Definition w_pt_select : result StatusData (list Pod * Z * DryRun unit) :=
  pt_SelectVictimsOnNode w_lister second tt (w_candidate "high" "" 500 3) w_pt_node
    ([] : list PodDisruptionBudget).

Lemma pt_SelectVictimsOnNode_sound_witness :
  ∃ victims num d, w_pt_select = Ok (victims, num, d) ∧ p_name <$> victims = ["low"] ∧
    victims ++ ni_pods (dr_node d) ≡ₚ ni_pods w_pt_node.
Proof.
  assert ((λ r : list Pod * Z * DryRun unit, p_name <$> r.1.1) <$> w_pt_select = Ok ["low"]) as Hn
    by (vm_compute; reflexivity).
  destruct w_pt_select as [[[victims num] d]| |] eqn:Hsel; [|done..].
  exists victims, num, d. split; [done|]. split; [by injection Hn|].
  apply (pt_SelectVictimsOnNode_sound w_lister second tt (w_candidate "high" "" 500 3) w_pt_node []
    victims num d); [apply w_filters_undo| |exact Hsel].
  change (NoDup ["low"; "tol"; "small"]). by apply (bool_decide_eq_true_1 _).
Defined.
