(* ===== verification/QuotaPreemption.v ===== *)
(** * Preemption under quotas makes room

    File CapacityScheduling says whom [SelectVictimsOnNode] may choose.  Here the
    dry run is followed to its end: once the chosen pods are gone the preemptor fits, on
    the node and in its quota.  Nothing in this file is a definition of the code. *)

From S2P Require Import Prelude GoSort K8s K8sModel ResourceUtil ElasticQuota Preemption CapacityScheduling.
From S2P Require Import PreemptionToleration QuotaAdmission.

Section MakesRoom.
Context `{MapOrder} `{QuantityOps} `{!FrameworkOps} `{GoSort} {Others : Type}.
Context `{!QuantitySpec} `{!FrameworkSpec} `{!NodeInfoOps} `{!NodeInfoSpec} `{LabelSelectorOps}.
Context `{!PreemptionHandle (CycleState (Others := Others))} `{!CapacityHandle (Others := Others)}.
Context (request : string → Resource).
Hypothesis requests_no_debt : ∀ key, no_debt (request key).

Abbreviation Infos := (gmap string ElasticQuotaInfo).
Abbreviation Cycle := (CycleState (Others := Others)).

(** Like [CapacityHandle], for the other extension. *)
Class CapacityAddHandle : Prop := {
  run_add_spec (st : Cycle) preemptor p ni st' s :
    RunPreFilterExtensionAddPod st preemptor p ni = (st', s) → IsSuccess s = true →
    cy_snapshot st' = cy_snapshot (AddPod st p).1;
}.

Context `{!CapacityAddHandle}.

(** ** Snapshots without some pods *)

Definition quota_without (ns : string) (gone : list Pod) (i i' : ElasticQuotaInfo) : Prop :=
  same_bounds i i' ∧ quota_inv request ns i' ∧
  ∀ k, k ∈ eq_pods i' ↔ k ∈ eq_pods i ∧ ∀ p, p ∈ gone → p_namespace p = ns → GetPodKey p ≠ Some k.

(** [s] is [c] with the pods [gone] removed. *)
Definition without (c s : Infos) (gone : list Pod) : Prop :=
  ∀ ns, match c !! ns, s !! ns with
        | Some i, Some i' => quota_without ns gone i i'
        | None, None => True
        | _, _ => False
        end.

(** The pods of a node: distinct, and each held by its quota if there is one. *)
Record node_held (c : Infos) (pods : list Pod) : Prop := {
  nh_uids : NoDup (p_uid <$> pods);
  nh_held p : p ∈ pods → ∃ k, GetPodKey p = Some k ∧ computePodResourceRequest p = request k ∧
    ∀ i, c !! p_namespace p = Some i → k ∈ eq_pods i;
  nh_keys p q : p ∈ pods → q ∈ pods → GetPodKey p = GetPodKey q → p = q;
}.

Lemma without_refl c : safe request c → without c c [].
Proof.
  intros Hc ns. destruct (c !! ns) as [i|] eqn:Hi; [|done]. split; [done|]. split; [by apply (safe_quotas request c Hc)|].
  set_solver.
Qed.

Lemma without_same c s gone gone' : (∀ p, p ∈ gone ↔ p ∈ gone') → without c s gone → without c s gone'.
Proof.
  intros Hg Hw ns. specialize (Hw ns). destruct (c !! ns), (s !! ns); try done.
  destruct Hw as (? & ? & Hp). split; [done|]. split; [done|]. intros k. rewrite Hp. by setoid_rewrite Hg.
Qed.

(** One quota changes. *)
Lemma without_update c s gone gone' ns f :
  without c s gone →
  (∀ ns', ns' ≠ ns → ∀ p, p_namespace p = ns' → p ∈ gone ↔ p ∈ gone') →
  (∀ i i', c !! ns = Some i → s !! ns = Some i' → quota_without ns gone' i (f i').1) →
  without c (update_quota s ns f).1 gone'.
Proof.
  intros Hw Hother Hf ns'. pose proof (Hw ns') as Hns'. unfold update_quota.
  assert (Hne : ns' ≠ ns → match c !! ns', s !! ns' with
    | Some i, Some i' => quota_without ns' gone' i i' | None, None => True | _, _ => False end).
  { intros Hne. destruct (c !! ns') as [i|], (s !! ns') as [i'|]; try done.
    destruct Hns' as (? & ? & Hp). split; [done|]. split; [done|]. intros k. rewrite Hp.
    pose proof (Hother ns' Hne). naive_solver. }
  destruct (s !! ns) as [i'|] eqn:Hi'.
  - assert (Hf' : ∀ i, c !! ns = Some i → quota_without ns gone' i (f i').1) by (intros i Hi; by apply Hf).
    destruct (f i') as [i2 err]. cbn [fst]. destruct (decide (ns' = ns)) as [->|Hn].
    + rewrite lookup_insert_eq. rewrite Hi' in Hns'. destruct (c !! ns); [by apply Hf'|done].
    + rewrite lookup_insert_ne by done. by apply Hne.
  - cbn [fst]. destruct (decide (ns' = ns)) as [->|Hn]; [|by apply Hne].
    rewrite Hi' in *. by destruct (c !! ns).
Qed.

Lemma bounds_add i pod : same_bounds i (addPodIfNotPresent i pod).1.
Proof. unfold addPodIfNotPresent. repeat case_match; by split. Qed.

Lemma same_bounds_trans i j l : same_bounds i j → same_bounds j l → same_bounds i l.
Proof. intros [? ?] [? ?]. split; congruence. Qed.

Lemma without_remove c s gone p k :
  without c s gone → GetPodKey p = Some k → computePodResourceRequest p = request k →
  without c (update_quota s (p_namespace p) (λ i, deletePodIfPresent i p)).1 (gone ++ [p]).
Proof.
  intros Hw Hk Hr. eapply without_update; [exact Hw| |].
  - intros ns' Hne q Hq. rewrite elem_of_app, list_elem_of_singleton. naive_solver.
  - intros i i' Hi Hi'. specialize (Hw (p_namespace p)). rewrite Hi, Hi' in Hw. destruct Hw as (Hb & Hq & Hp).
    assert (Hok : consistent request (OpDelete p)) by (intros key Hkey; cbn in *; congruence).
    split; [eapply same_bounds_trans; [done|apply delete_bounds]|]. split; [exact (pod_op_inv request _ i' _ Hok Hq)|].
    intros k'. assert (eq_pods (deletePodIfPresent i' p).1 = eq_pods i' ∖ {[k]}) as ->.
    { unfold deletePodIfPresent. rewrite Hk. case_decide; cbn; set_solver. }
    rewrite elem_of_difference, elem_of_singleton, Hp. setoid_rewrite elem_of_app. setoid_rewrite list_elem_of_singleton.
    split; [intros [[? Hg] Hne]|intros [? Hg]]; (split; [try split|]); try done; [|naive_solver|].
    + intros q [Hin| ->] Hns; [by apply Hg|congruence].
    + intros ->. by apply (Hg p (or_intror eq_refl)).
Qed.

Lemma without_add c s gone p pods :
  node_held c pods → p ∈ pods → gone ⊆ pods → p ∉ gone → without c s (p :: gone) →
  without c (update_quota s (p_namespace p) (λ i, addPodIfNotPresent i p)).1 gone.
Proof.
  intros Hheld Hp Hgone Hnew Hw. destruct (nh_held _ _ Hheld p Hp) as (k & Hk & Hr & Hin).
  eapply without_update; [exact Hw| |].
  - intros ns' Hne q Hq. rewrite elem_of_cons. naive_solver.
  - intros i i' Hi Hi'. specialize (Hw (p_namespace p)). rewrite Hi, Hi' in Hw. destruct Hw as (Hb & Hq & Hpods).
    assert (Hok : consistent request (OpAdd p)) by (intros key Hkey; cbn in *; congruence).
    split; [eapply same_bounds_trans; [done|apply bounds_add]|]. split; [exact (pod_op_inv request _ i' _ Hok Hq)|].
    intros k'. assert (eq_pods (addPodIfNotPresent i' p).1 = {[k]} ∪ eq_pods i') as ->.
    { unfold addPodIfNotPresent. rewrite Hk. case_decide; cbn; set_solver. }
    rewrite elem_of_union, elem_of_singleton, Hpods. setoid_rewrite elem_of_cons. split.
    + intros [->|[? Hg]]; [|naive_solver]. split; [by apply Hin|]. intros q Hq' Hns Hkq. apply Hnew.
      rewrite (nh_keys _ _ Hheld p q); [done|done|by apply Hgone|congruence].
    + intros [? Hg]. destruct (decide (k' = k)) as [->|Hne]; [by left|right]. split; [done|].
      intros q [->|Hq'] Hns; [congruence|by apply Hg].
Qed.

(** *** Safety and room *)

Lemma held_without d ns gone i i' : quota_without ns gone i i' → held request d i' ≤ held request d i.
Proof.
  intros (_ & _ & Hp). apply sum_set_le; [intros k; apply requests_no_debt|]. intros k. rewrite Hp. tauto.
Qed.

Lemma sum_held_without d c s gone : without c s gone → sum_held request d s ≤ sum_held request d c.
Proof.
  intros Hw. apply sum_map_le2. intros ns. specialize (Hw ns).
  destruct (c !! ns), (s !! ns); try done. by eapply held_without.
Qed.

Lemma sum_min_without d c s gone : without c s gone → sum_min d s = sum_min d c.
Proof.
  intros Hw. apply Z.le_antisymm; apply sum_map_le2; intros ns; specialize (Hw ns);
    destruct (c !! ns) as [i|], (s !! ns) as [i'|]; try done; destruct Hw as ([Hmin _] & _);
    cbn; unfold min_of; by rewrite Hmin.
Qed.

Lemma without_safe c s gone : safe request c → without c s gone → safe request s.
Proof.
  intros Hc Hw. assert (∀ ns i', s !! ns = Some i' → ∃ i, c !! ns = Some i ∧ quota_without ns gone i i') as Hs.
  { intros ns i' Hi'. specialize (Hw ns). rewrite Hi' in Hw. destruct (c !! ns) as [i|]; [by exists i|done]. }
  split.
  - intros ns i' Hi'. by destruct (Hs ns i' Hi') as (i & _ & _ & ? & _).
  - intros ns i' d Hi' max Hmax. destruct (Hs ns i' Hi') as (i & Hi & Hq). pose proof (held_without d _ _ _ _ Hq).
    destruct Hq as ([_ Hm] & _). rewrite Hm in Hmax. pose proof (safe_max request c Hc ns i d Hi max Hmax). lia.
  - intros ns i' Hi'. destruct (Hs ns i' Hi') as (i & Hi & [Hm _] & _). unfold min_of. rewrite Hm. by apply (safe_mins request c Hc ns).
  - intros d. rewrite (sum_min_without d c s gone Hw). pose proof (sum_held_without d c s gone Hw).
    pose proof (safe_sum request c Hc d). lia.
  - intros d. rewrite (sum_min_without d c s gone Hw). by apply (safe_fits request c Hc).
Qed.

(** Room depends only on which pods are gone. *)
Lemma without_room c s s' gone pod : without c s gone → without c s' gone → room request s pod → room request s' pod.
Proof.
  intros Hw Hw' (Hok & Hreq & Hroom). split; [done|]. split; [done|]. intros i' Hi' d.
  assert (Hheld : ∀ ns, match s !! ns, s' !! ns with
    | Some j, Some j' => same_bounds j j' ∧ eq_pods j' = eq_pods j | None, None => True | _, _ => False end).
  { intros ns. specialize (Hw ns). specialize (Hw' ns). destruct (c !! ns), (s !! ns), (s' !! ns); try done.
    destruct Hw as ([? ?] & _ & Hp), Hw' as ([? ?] & _ & Hp'). split; [split; congruence|]. apply set_eq.
    intros k. by rewrite Hp, Hp'. }
  assert (sum_held request d s' = sum_held request d s) as ->.
  { apply Z.le_antisymm; apply sum_map_le2; intros ns; specialize (Hheld ns);
      destruct (s !! ns), (s' !! ns); try done; destruct Hheld as [_ Hp]; unfold held; by rewrite Hp. }
  rewrite (sum_min_without d c s' gone Hw'), <- (sum_min_without d c s gone Hw).
  pose proof (Hheld (p_namespace pod)) as Hns. rewrite Hi' in Hns. destruct (s !! p_namespace pod) as [i|] eqn:Hi; [|done].
  destruct Hns as [[_ Hm] Hp]. destruct (Hroom i eq_refl d) as [Hmax Hsum]. split; [|done].
  intros max Emax. rewrite Hm in Emax. unfold held. rewrite Hp. by apply Hmax.
Qed.

(** ** The dry run *)

Section DryRun.
Context (c : Infos) (pod : Pod) (pods : list Pod).
Hypothesis c_safe : safe request c.
Hypothesis pods_held : node_held c pods.
Hypothesis undo : filters_undo (S := Cycle) pod.

(** The dry run stands at: [gone] removed, the rest on the node. *)
Definition at_gone (d : DryRun Cycle) (gone : list Pod) : Prop :=
  (∃ s, cy_snapshot (dr_state d) = Some s ∧ without c s gone) ∧ gone ++ ni_pods (dr_node d) ≡ₚ pods.

(** The preemptor passes the filters and its quotas. *)
Definition fits_now (d : DryRun Cycle) : Prop :=
  IsSuccess (filter_status pod d) = true ∧ ∀ s, cy_snapshot (dr_state d) = Some s → room request s pod.

Lemma addPod_snapshot d p d' s :
  Preemption.addPod pod d p = Ok d' → cy_snapshot (dr_state d) = Some s →
  cy_snapshot (dr_state d') = Some (update_quota s (p_namespace p) (λ i, addPodIfNotPresent i p)).1.
Proof.
  unfold Preemption.addPod. intros Hr Hs.
  destruct (RunPreFilterExtensionAddPod _ _ _ _) as [st stat] eqn:Hrun.
  destruct (IsSuccess stat) eqn:Hsuc; simpl in Hr; [|done]. injection Hr as <-. simpl.
  rewrite (run_add_spec _ _ _ _ _ _ Hrun Hsuc). unfold AddPod, getElasticQuotaSnapshotState.
  rewrite Hs. by destruct (update_quota _ _ _).
Qed.

Lemma at_gone_perm d gone gone' : gone ≡ₚ gone' → at_gone d gone → at_gone d gone'.
Proof.
  intros Hg [(s & Hs & Hw) Hp]. split; [|by rewrite <- Hg]. exists s. split; [done|].
  eapply without_same; [|exact Hw]. intros p. by rewrite Hg.
Qed.

Lemma at_gone_nodup d gone : at_gone d gone → NoDup (p_uid <$> gone ++ ni_pods (dr_node d)).
Proof. intros [_ Hp]. rewrite Hp. apply (nh_uids _ _ pods_held). Qed.

Lemma remove_at d gone p d' :
  at_gone d gone → p ∈ ni_pods (dr_node d) → removePod pod d p = Ok d' → at_gone d' (gone ++ [p]).
Proof.
  intros Hat Hp Hr. pose proof (at_gone_nodup _ _ Hat) as Hnd. destruct Hat as [(s & Hs & Hw) Hperm].
  assert (Hin : p ∈ pods) by (rewrite <- Hperm; set_solver).
  destruct (nh_held _ _ pods_held p Hin) as (k & Hk & Hreq & _). split.
  - eexists. split; [eapply removePod_snapshot; [exact Hr|exact Hs]|]. by eapply without_remove.
  - rewrite <- Hperm, fmap_app in *. apply NoDup_app in Hnd as (_ & _ & Hnd).
    rewrite (removePod_perm _ _ _ _ Hnd Hp Hr). solve_Permutation.
Qed.

Lemma add_at d gone p d' : at_gone d (p :: gone) → Preemption.addPod pod d p = Ok d' → at_gone d' gone.
Proof.
  intros Hat Hr. pose proof (at_gone_nodup _ _ Hat) as Hnd. destruct Hat as [(s & Hs & Hw) Hperm].
  assert (Hsub : p :: gone ⊆ pods) by (rewrite <- Hperm; set_solver).
  apply NoDup_fmap_1 in Hnd. apply NoDup_cons in Hnd as [Hnew _]. split.
  - eexists. split; [eapply addPod_snapshot; [exact Hr|exact Hs]|]. eapply without_add; [done| | | |done]; set_solver.
  - rewrite (addPod_perm _ _ _ _ Hr), <- Hperm. solve_Permutation.
Qed.

Lemma remove_twice d gone p d1 : at_gone d gone → p ∈ gone → ¬ removePod pod d p = Ok d1.
Proof.
  intros Hat Hp. pose proof (at_gone_nodup _ _ Hat) as Hnd. rewrite fmap_app in Hnd.
  apply NoDup_app in Hnd as (_ & Hdis & _). unfold removePod. rewrite ni_RemovePod_absent; [done|].
  apply Hdis, list_elem_of_fmap. by exists p.
Qed.

(** Adding a pod and removing it again changes nothing that matters. *)
Lemma undo_fits d gone p d1 d2 :
  at_gone d (p :: gone) → fits_now d → Preemption.addPod pod d p = Ok d1 → removePod pod d1 p = Ok d2 →
  at_gone d2 (gone ++ [p]) ∧ fits_now d2.
Proof.
  intros Hat [Hf Hroom] Hadd Hrem. pose proof (add_at _ _ _ _ Hat Hadd) as Hat1.
  assert (Hin : p ∈ ni_pods (dr_node d1)) by (rewrite (addPod_perm _ _ _ _ Hadd); left).
  pose proof (remove_at _ _ _ _ Hat1 Hin Hrem) as Hat2. split; [done|]. split.
  - apply (undo d p d1 d2); [done| |done|done]. pose proof (at_gone_nodup _ _ Hat1) as Hnd. rewrite fmap_app in Hnd.
    by apply NoDup_app in Hnd as (_ & _ & ?).
  - intros s2 Hs2. destruct Hat as [(s & Hs & Hw) _], Hat2 as [(s2' & Hs2' & Hw2) _].
    assert (s2' = s2) as -> by congruence. eapply without_room; [|exact Hw2|by apply Hroom].
    eapply without_same; [|exact Hw]. intros q. set_solver.
Qed.

(** *** The quota check *)

(** The sums that the check looks at are at least what the pod asks for. *)
Definition sums_cover (inEQ total : Resource) : Prop :=
  resource_wf total ∧ ∀ d, get d (computePodResourceRequest pod) ≤ get d inEQ ∧
    get d (computePodResourceRequest pod) ≤ get d total ∧
    get d inEQ + sum_held request d c < 2 ^ 63 ∧ get d total + sum_held request d c < 2 ^ 63.

Lemma over_quota_room d gone i inEQ total :
  event_ok request (EvReserve pod) → no_debt (computePodResourceRequest pod) → c !! p_namespace pod = Some i →
  sums_cover inEQ total → at_gone d gone → over_quota pod d inEQ total = Ok false →
  ∀ s, cy_snapshot (dr_state d) = Some s → room request s pod.
Proof.
  intros Hok Hreq Hi [Hwf Hcover] [(s' & Hs' & Hw) _] Hover s Hs. assert (s' = s) as -> by congruence.
  pose proof (without_safe _ _ _ c_safe Hw) as Hsafe. split; [done|]. split; [done|]. intros j Hj d0.
  unfold over_quota, preemptor_info, current in Hover. rewrite Hs in Hover. cbn [default from_option id] in Hover.
  rewrite Hj in Hover. cbn in Hover. destruct (usedOverMaxWith j inEQ) eqn:Hmax; [done|].
  assert (Hbound : ∀ d, 0 ≤ sum_held request d s ≤ sum_held request d c).
  { intros d'. split; [|by apply (sum_held_without d' c s gone)]. apply sum_map_nonneg. intros ? ? _. by apply held_nonneg. }
  destruct (aggregatedUsedOverMinWith_spec s total) as (b & Hb & Hiff).
  { intros ns i' Hi'. by destruct (safe_quotas request s Hsafe ns i' Hi') as (_ & ? & _). }
  { done. }
  { intros d'. rewrite (sum_used_held request requests_no_debt) by done. specialize (Hcover d'). specialize (Hbound d').
    specialize (Hreq d'). unfold in64. lia. }
  { intros d'. split; [by apply (sum_min_nonneg request)|]. pose proof (safe_fits request s Hsafe d').
    pose proof (sum_min_nonneg request s d' Hsafe). unfold in64. lia. }
  rewrite Hb in Hover. cbn in Hover. injection Hover as ->.
  assert (Hheld : held request d0 j ≤ sum_held request d0 s)
    by (apply (sum_map_ge (held request d0) s (p_namespace pod)); [by apply held_nonneg|done]).
  pose proof (held_nonneg request requests_no_debt d0 j). specialize (Hcover d0). specialize (Hbound d0). specialize (Hreq d0).
  split.
  - destruct (decide (0 < get d0 inEQ)) as [Hpos|Hzero].
    + pose proof (under_max j inEQ d0 Hmax) as Hu. rewrite (used_held request requests_no_debt s (p_namespace pod) j) in Hu by done.
      intros max Em. specialize (Hu ltac:(unfold in64; lia) Hpos max Em). lia.
    + intros max Em. pose proof (safe_max request s Hsafe _ _ d0 Hj max Em). lia.
  - rewrite <- (sum_used_held request requests_no_debt) by done. apply Z.nlt_ge. intros Hgt.
    assert (false = true) as [=]. apply Hiff. exists d0. lia.
Qed.

(** *** The loops *)

Context (pf : PreFilterState).
Hypothesis pod_ok : event_ok request (EvReserve pod).
Hypothesis req_no_debt : no_debt (computePodResourceRequest pod).
Hypothesis pf_covers : ∀ i, c !! p_namespace pod = Some i →
  podReq pf = computePodResourceRequest pod ∧ sums_cover (podReq pf) (podReq pf) ∧
  sums_cover (nominatedPodsReqInEQWithPodReq pf) (nominatedPodsReqWithPodReq pf).

Definition limits_of : option (Resource * Resource) :=
  (λ _, (nominatedPodsReqInEQWithPodReq pf, nominatedPodsReqWithPodReq pf)) <$> c !! p_namespace pod.

(** The check of [reprievePod], with or without a quota. *)
Lemma limits_room d gone :
  at_gone d gone →
  match limits_of with None => mret false | Some (inEQ, total) => over_quota pod d inEQ total end = Ok false →
  ∀ s, cy_snapshot (dr_state d) = Some s → room request s pod.
Proof.
  unfold limits_of. intros Hat Hover. destruct (c !! p_namespace pod) as [i|] eqn:Hi; cbn in Hover.
  - destruct (pf_covers i eq_refl) as (_ & _ & Hc). by eapply over_quota_room.
  - intros s Hs. destruct Hat as [(s' & Hs' & Hw) _]. assert (s' = s) as -> by congruence.
    split; [done|]. split; [done|]. intros j Hj. specialize (Hw (p_namespace pod)). by rewrite Hi, Hj in Hw.
Qed.

Lemma reprievePod_at d vs pi rest fits d' vs' :
  at_gone d (vs ++ pi :: rest) → fits_now d → reprievePod limits_of pod d vs pi = Ok (fits, (d', vs')) →
  at_gone d' (vs' ++ rest) ∧ fits_now d'.
Proof.
  intros Hat Hfits. apply (at_gone_perm _ _ (pi :: vs ++ rest)) in Hat; [|solve_Permutation].
  unfold reprievePod. intros (d1 & Hadd & Hr)%result_bind_Ok. pose proof (add_at _ _ _ _ Hat Hadd) as Hat1.
  apply result_bind_Ok in Hr as ([d2 vs2] & Hd2 & Hr). apply result_bind_Ok in Hr as (over & Hover & Hr).
  assert (Hgone : ∀ d, removePod pod d1 pi = Ok d → at_gone d ((vs ++ [pi]) ++ rest) ∧ fits_now d).
  { intros d0 Hrem. destruct (undo_fits _ _ _ _ _ Hat Hfits Hadd Hrem) as [Hat2 ?]. split; [|done].
    eapply at_gone_perm; [|exact Hat2]. solve_Permutation. }
  destruct (IsSuccess (filter_status pod d1)) eqn:Hok.
  - injection Hd2 as <- <-. destruct over.
    + apply result_bind_Ok in Hr as (d3 & Hrem & Hr). injection Hr as _ <- <-. by apply Hgone.
    + injection Hr as _ <- <-. split; [done|]. split; [done|]. by eapply limits_room.
  - apply result_bind_Ok in Hd2 as (d3 & Hrem & [= <- <-]). destruct (Hgone _ Hrem) as [Hat3 Hfits3]. destruct over.
    + apply result_bind_Ok in Hr as (d4 & Hrem' & _). exfalso. by apply (remove_twice _ _ pi _ Hat3 ltac:(set_solver) Hrem').
    + injection Hr as _ <- <-. done.
Qed.

Lemma violating_loop l rest d vs n d' vs' n' :
  at_gone d (vs ++ l ++ rest) → fits_now d →
  fold_result (reprieve_violating limits_of pod) (d, vs, n) l = Ok (d', vs', n') →
  at_gone d' (vs' ++ rest) ∧ fits_now d'.
Proof.
  revert d vs n. induction l as [|pi l IH]; intros d vs n Hat Hf Hs; simpl in Hs.
  - by injection Hs as <- <- <-.
  - apply result_bind_Ok in Hs as ([[d1 vs1] n1] & Hstep & Hs).
    apply result_bind_Ok in Hstep as ([fits [d2 vs2]] & Hr & [= -> -> _]).
    destruct (reprievePod_at _ _ _ _ _ _ _ Hat Hf Hr). by eapply IH.
Qed.

Lemma other_loop l d vs d' vs' :
  at_gone d (vs ++ l) → fits_now d →
  fold_result (reprieve_other limits_of pod) (d, vs) l = Ok (d', vs') → at_gone d' vs' ∧ fits_now d'.
Proof.
  revert d vs. induction l as [|pi l IH]; intros d vs Hat Hf Hs; simpl in Hs.
  - injection Hs as <- <-. by rewrite app_nil_r in Hat.
  - apply result_bind_Ok in Hs as ([d1 vs1] & Hstep & Hs).
    apply result_bind_Ok in Hstep as ([fits [d2 vs2]] & Hr & [= -> ->]).
    destruct (reprievePod_at _ _ _ _ _ _ _ Hat Hf Hr). by eapply IH.
Qed.

Lemma victim_loop moreThanMin l d vs d' vs' :
  at_gone d vs → (∀ p, p ∈ l → p ∈ ni_pods (dr_node d)) → NoDup l →
  fold_result (victim_step moreThanMin pod) (d, vs) l = Ok (d', vs') → at_gone d' vs'.
Proof.
  revert d vs. induction l as [|p l IH]; intros d vs Hat Hin Hnd Hs; simpl in Hs; [by injection Hs as <- <-|].
  apply NoDup_cons in Hnd as [Hnew Hnd]. apply result_bind_Ok in Hs as ([d1 vs1] & Hstep & Hs).
  destruct (candidate _ _ _ _); [|injection Hstep as <- <-; eapply IH; [done| |done|done]; set_solver].
  apply result_bind_Ok in Hstep as (d2 & Hrem & [= <- <-]).
  assert (Hp : p ∈ ni_pods (dr_node d)) by (apply Hin; left). pose proof (remove_at _ _ _ _ Hat Hp Hrem) as Hat2.
  eapply IH; [exact Hat2| |done|done]. intros q Hq.
  destruct Hat as [_ Hperm], Hat2 as [_ Hperm2].
  assert (Hq' : q ∈ (vs ++ [p]) ++ ni_pods (dr_node d2)) by (rewrite Hperm2, <- Hperm; set_solver).
  pose proof (nh_uids _ _ pods_held) as Hu. apply NoDup_fmap_1 in Hu. rewrite <- Hperm in Hu.
  apply NoDup_app in Hu as (_ & Hdis & _). rewrite !elem_of_app, list_elem_of_singleton in Hq'.
  destruct Hq' as [[Hv|Heq]|?]; [by destruct (Hdis q Hv); set_solver|congruence|done].
Qed.

(** The whole dry run. *)
Lemma SelectVictims_at state nodeInfo pdbs victims num :
  cy_snapshot state = Some c → cy_preFilter state = Some pf → ni_pods nodeInfo ≡ₚ pods →
  SelectVictimsOnNode state pod nodeInfo pdbs = Ok (victims, num) →
  ∃ d, at_gone d victims ∧ fits_now d.
Proof.
  intros Hs Hp Hpods. unfold SelectVictimsOnNode, getElasticQuotaSnapshotState, getPreFilterState. rewrite Hs, Hp.
  set (l := sort_slice _ _). assert (Hl : l ≡ₚ pods) by (unfold l; by rewrite sort_slice_perm).
  intros ([d0 pv] & Hpv & Hr)%result_bind_Ok.
  assert (Hat0 : at_gone d0 pv).
  { apply (victim_loop _ _ _ _ _ _) in Hpv; [done| |done|].
    - split; [|done]. exists c. split; [done|]. by apply without_refl.
    - rewrite Hl. eapply NoDup_fmap_1. apply (nh_uids _ _ pods_held). }
  case_bool_decide; [by apply result_bind_Ok in Hr as (? & _ & ?)|].
  destruct (IsSuccess (filter_status pod d0)) eqn:Hok; simpl in Hr; [|done].
  apply result_bind_Ok in Hr as (over & Hover & Hr). destruct over; [done|].
  assert (Hfit0 : fits_now d0).
  { split; [done|]. destruct (decide (c !! p_namespace pod = None)) as [Hi|[i Hi]%not_eq_None_Some].
    - eapply limits_room; [done|]. unfold limits_of. by rewrite Hi.
    - rewrite Hi in Hover. destruct (pf_covers i Hi) as (_ & Hc & _). by eapply over_quota_room. }
  destruct (filterPodsWithPDBViolation _ _) as [violating other] eqn:Hpdb.
  apply filterPodsWithPDBViolation_perm in Hpdb. rewrite sort_slice_perm in Hpdb.
  apply result_bind_Ok in Hr as ([[d1 vs1] n1] & Hl1 & Hr). apply result_bind_Ok in Hr as ([d2 vs2] & Hl2 & Hr).
  injection Hr as Hv _. fold limits_of in Hl1, Hl2.
  destruct (violating_loop violating other d0 [] 0 d1 vs1 n1) as [Hat1 Hfit1]; [|done|done|].
  { eapply at_gone_perm; [|exact Hat0]. cbn. by rewrite Hpdb. }
  destruct (other_loop other d1 vs1 d2 vs2) as [Hat2 Hfit2]; [done..|]. exists d2. split; [|done].
  eapply at_gone_perm; [|exact Hat2]. rewrite <- Hv. destruct (negb _ && negb _); [by rewrite sort_slice_perm|done].
Qed.
End DryRun.

(** ** PreFilter, before and after *)

(** What PreFilter leaves in the cycle state, whether or not the pod passes. *)
Lemma PreFilter_leaves c fh nodes nodeList (state state' : Cycle) status pod :
  NodeInfos_List fh = Some nodeList → ni_node <$> nodeList = Some <$> nodes →
  PreFilter c fh state pod = Ret (state', status) →
  cy_snapshot state' = Some c ∧ ∃ pf, cy_preFilter state' = Some pf ∧
  ∀ i, c !! p_namespace pod = Some i →
    podReq pf = computePodResourceRequest pod ∧ resource_wf (nominatedPodsReqWithPodReq pf) ∧
    ∀ d, get d (nominatedPodsReqInEQWithPodReq pf) =
           nominated_sum (counts_in_quota c pod) d (nominated_pods fh nodes) +₆₄ get d (computePodResourceRequest pod) ∧
         get d (nominatedPodsReqWithPodReq pf) =
           nominated_sum (counts_in_total c pod) d (nominated_pods fh nodes) +₆₄ get d (computePodResourceRequest pod).
Proof.
  intros Hlist Hnodes. unfold PreFilter, snapshotElasticQuota. rewrite infos_clone_id, Hlist.
  destruct (c !! p_namespace pod) as [eq|] eqn:Heq; [|by intros [= <- <-]; split; [done|eexists]].
  rewrite (nominated_nodes_fold c fh pod nodeList nodes) by done. cbn [mbind outcome_bind].
  destruct (nominated_fold c pod (nominated_pods fh nodes) (zero_resource, zero_resource)) as (Hq & Ht & Eq & Et);
    [apply zero_resource_wf..|].
  destruct (foldl _ _ (nominated_pods fh nodes)) as [q t]. simpl in *.
  set (inEQ := res_Add q _). set (total := res_Add t _).
  set (pf := mkPreFilterState (computePodResourceRequest pod) inEQ total).
  assert (Hpf : ∀ i, Some eq = Some i → podReq pf = computePodResourceRequest pod ∧ resource_wf total ∧
    ∀ d, get d inEQ = nominated_sum (counts_in_quota c pod) d (nominated_pods fh nodes) +₆₄ get d (computePodResourceRequest pod) ∧
      get d total = nominated_sum (counts_in_total c pod) d (nominated_pods fh nodes) +₆₄ get d (computePodResourceRequest pod)).
  { intros i _. split; [done|]. split; [by apply res_Add_wf|]. intros d. unfold inEQ, total.
    by rewrite !get_add_request, Eq, Et, !get_zero, !Z.add_0_l, !wrap64_add_l. }
  clearbody inEQ total. destruct (usedOverMaxWith eq inEQ).
  { intros [= <- <-]. split; [done|]. by exists pf. }
  destruct (aggregatedUsedOverMinWith c total) as [over|]; [|done]. simpl.
  destruct over; intros [= <- <-]; (split; [done|]); by exists pf.
Qed.

Lemma own_nomination_sum (counts : Pod → bool) d ps :
  Forall (λ p, counts p = false) ps → nominated_sum counts d ps = 0.
Proof. unfold nominated_sum, zsum. induction 1 as [|p ps Hp _ IH]; cbn; [done|]. by rewrite Hp. Qed.

(** A pod with room passes, unless other pods are nominated. *)
Lemma room_passes c fh nodes nodeList (state : Cycle) pod :
  safe request c → room request c pod → NodeInfos_List fh = Some nodeList → ni_node <$> nodeList = Some <$> nodes →
  Forall (λ p, p_uid p = p_uid pod) (nominated_pods fh nodes) →
  (∀ d, get d (computePodResourceRequest pod) + sum_held request d c < 2 ^ 63) →
  ∃ state' status, PreFilter c fh state pod = Ret (state', status) ∧ IsSuccess status = true.
Proof.
  intros Hc (Hok & Hreq & Hroom) Hlist Hnodes Hown Hfit.
  assert (Hq : ∀ d, nominated_sum (counts_in_quota c pod) d (nominated_pods fh nodes) = 0).
  { intros d. apply own_nomination_sum. eapply Forall_impl; [exact Hown|]. intros p Hp. unfold counts_in_quota.
    rewrite bool_decide_false; [done|]. auto. }
  assert (Ht : ∀ d, nominated_sum (counts_in_total c pod) d (nominated_pods fh nodes) = 0).
  { intros d. apply own_nomination_sum. eapply Forall_impl; [exact Hown|]. intros p Hp. unfold counts_in_total, counts_in_quota.
    rewrite bool_decide_false; [done|]. auto. }
  assert (Hs : ∀ d, 0 ≤ sum_held request d c) by (intros d; apply sum_map_nonneg; intros ? ? _; by apply held_nonneg).
  destruct (PreFilter_result c fh nodes nodeList state pod) as (st & stat & Hpre & _ & Hres); [|done|done| |].
  { intros ns i Hi. by destruct (safe_quotas request c Hc ns i Hi) as (_ & ? & _). }
  { intros d. rewrite Ht, (sum_used_held request requests_no_debt) by done. specialize (Hfit d). specialize (Hreq d).
    specialize (Hs d). pose proof (sum_min_nonneg request c d Hc). pose proof (safe_fits request c Hc d). unfold in64. lia. }
  exists st, stat. split; [done|]. destruct (c !! p_namespace pod) as [i|] eqn:Hi; [|done].
  destruct Hres as (pf & _ & Hpf & Hiff). apply Hiff. split.
  - unfold usedOverMaxWith. destruct (eq_Max i) as [max|] eqn:Hmax; [|done]. apply not_true_iff_false.
    intros (d & _ & Hgt)%cmp2_spec. destruct (Hroom i eq_refl d) as [Hm _]. specialize (Hm max Hmax).
    pose proof (held_nonneg request requests_no_debt d i). specialize (Hfit d). specialize (Hreq d).
    pose proof (sum_map_ge (held request d) c _ i (held_nonneg request requests_no_debt d) Hi) as Hle.
    fold (sum_held request d c) in Hle.
    rewrite Hpf, Hq, Z.add_0_l, (used_held request requests_no_debt c _ i d Hc Hi), wrap64_add_l, wrap64_id in Hgt
      by (unfold in64; lia). lia.
  - intros d. rewrite Ht, (sum_used_held request requests_no_debt) by done. destruct (Hroom i eq_refl d) as [_ Hsum]. lia.
Qed.

Lemma evicted_without c gone victims s :
  (∀ p, p ∈ victims → ∃ k, GetPodKey p = Some k ∧ computePodResourceRequest p = request k) → without c s gone →
  without c (foldl handle s (EvDeletePod <$> victims)) (gone ++ victims).
Proof.
  revert s gone. induction victims as [|p victims IH]; intros s gone Hk Hw; simpl; [by rewrite app_nil_r|].
  destruct (Hk p) as (k & Hkey & Hr); [by left|].
  replace (gone ++ p :: victims) with ((gone ++ [p]) ++ victims) by by rewrite <- app_assoc.
  apply IH; [intros q Hq; apply Hk; by right|]. by eapply without_remove.
Qed.

(** C4: preemption makes room.  The quotas are those of any run of the scheduler; PreFilter
    has looked at a pod and left its state in the cycle (it may have rejected the pod).  If the
    plugin then finds victims on a node of distinct pods held by their quotas, the victims and
    the pods left on the node in the dry run are the pods of the node, the pod passes the filters there,
    and once the deletions of the victims are reported PreFilter admits the pod, as long
    as no other pod is nominated. *)
Theorem preemption_makes_room c fh nodes nodeList (state state' : Cycle) status pod nodeInfo pdbs victims num :
  run (Others := Others) request c None → event_ok request (EvReserve pod) →
  NodeInfos_List fh = Some nodeList → ni_node <$> nodeList = Some <$> nodes → sums_fit c fh nodes pod →
  PreFilter c fh state pod = Ret (state', status) →
  node_held c (ni_pods nodeInfo) → filters_undo (S := Cycle) pod →
  SelectVictimsOnNode state' pod nodeInfo pdbs = Ok (victims, num) →
  (∃ d : DryRun Cycle, victims ++ ni_pods (dr_node d) ≡ₚ ni_pods nodeInfo ∧ IsSuccess (filter_status pod d) = true) ∧
  ∀ fh' nodes' nodeList' (state2 : Cycle),
    NodeInfos_List fh' = Some nodeList' → ni_node <$> nodeList' = Some <$> nodes' →
    Forall (λ p, p_uid p = p_uid pod) (nominated_pods fh' nodes') →
    ∃ state3 status3,
      PreFilter (foldl handle c (EvDeletePod <$> victims)) fh' state2 pod = Ret (state3, status3) ∧
      IsSuccess status3 = true.
Proof.
  intros Hrun Hok Hlist Hnodes (Hreq & Hnom & Hfit) Hpre Hheld Hundo Hsel.
  destruct (run_safe request requests_no_debt c None Hrun) as [Hc _].
  destruct (PreFilter_leaves _ _ _ _ _ _ _ _ Hlist Hnodes Hpre) as (Hsnap & pf & Hpf & Hleft).
  assert (Hs : ∀ d, sum_used d c = sum_held request d c ∧ 0 ≤ sum_held request d c).
  { intros d. split; [by apply sum_used_held|]. apply sum_map_nonneg. intros ? ? _. by apply held_nonneg. }
  assert (Hreq64 : ∀ d, get d (computePodResourceRequest pod) + sum_held request d c < 2 ^ 63).
  { intros d. specialize (Hfit d). pose proof (nominated_sum_le c pod d _ Hnom). destruct (Hs d) as [E _]. lia. }
  assert (Hcover : ∀ i, c !! p_namespace pod = Some i →
    podReq pf = computePodResourceRequest pod ∧ sums_cover c pod (podReq pf) (podReq pf) ∧
    sums_cover c pod (nominatedPodsReqInEQWithPodReq pf) (nominatedPodsReqWithPodReq pf)).
  { intros i Hi. destruct (Hleft i Hi) as (Epod & Hwf & Hget). split; [done|]. rewrite Epod. split.
    - split; [apply computePodResourceRequest_wf|]. intros d. specialize (Hreq64 d). lia.
    - split; [done|]. intros d. destruct (Hget d) as [-> ->]. specialize (Hfit d). specialize (Hreq d).
      pose proof (nominated_sum_le c pod d _ Hnom). destruct (Hs d) as [E ?].
      rewrite !wrap64_id by (unfold in64; lia). lia. }
  destruct (SelectVictims_at c pod (ni_pods nodeInfo) Hc Hheld Hundo pf Hok Hreq Hcover state' nodeInfo pdbs victims num)
    as (d & [(s & Hsd & Hw) Hperm] & Hfd & Hroom); [done..|].
  split; [by exists d|]. intros fh' nodes' nodeList' state2 Hlist' Hnodes' Hown.
  assert (Hw' : without c (foldl handle c (EvDeletePod <$> victims)) victims).
  { apply (evicted_without c [] victims c); [|by apply without_refl]. intros p Hp.
    destruct (nh_held _ _ Hheld p) as (k & ? & ? & _); [rewrite <- Hperm; set_solver|]. by exists k. }
  eapply room_passes; [by eapply without_safe| |done|done|done|].
  - eapply without_room; [exact Hw|exact Hw'|by apply Hroom].
  - intros d0. pose proof (sum_held_without d0 _ _ _ Hw'). specialize (Hreq64 d0). lia.
Qed.
End MakesRoom.

(** ** Witness *)

#[export] Instance w_capacity_add_handle : CapacityAddHandle (Others := unit).
Proof. split. intros st preemptor p ni st' s E _. simpl in E. by rewrite E. Qed.

(** The filter of the instance looks at the sum of the requests only. *)
Lemma w_undo pod : filters_undo (S := CycleState (Others := unit)) pod.
Proof.
  intros d p d1 d2 Hadd Hnd Hrem. pose proof (addPod_perm _ _ _ _ Hadd) as H1.
  assert (Hin : p ∈ ni_pods (dr_node d1)) by (rewrite H1; left).
  pose proof (removePod_perm _ _ _ _ Hnd Hin Hrem) as H2. rewrite H1 in H2. apply Permutation_cons_inv in H2.
  unfold filter_status. cbn [RunFilterPluginsWithNominatedPods w_preemption_handle].
  assert (zsum (λ p, MilliCPU (computePodResourceRequest p)) (pod :: ni_pods (dr_node d2)) =
          zsum (λ p, MilliCPU (computePodResourceRequest p)) (pod :: ni_pods (dr_node d))) as E by (by apply zsum_perm; rewrite H2).
  by rewrite E.
Qed.

(** Namespace "a" uses 4 of its 5 cores with two pods on a node of 5; a more important
    pod of 2 cores is rejected, and one of the two has to go. *)
Definition w_high : Pod := model_pod "a" "high" "" 5 {[ResourceCPU := cores 2]}.
Definition w_full_node : NodeInfo := w_node_info [w_pod "a" "p1" 0; w_pod "a" "p2" 0].

Definition w_victims (r : outcome (CycleState (Others := unit) * Status)) : result StatusData (list string) :=
  match r with
  | Ret (state, _) => victim_names (SelectVictimsOnNode state w_high w_full_node ([] : list PodDisruptionBudget))
  | Panic => Crash
  end.

Definition passes (r : outcome (CycleState (Others := unit) * Status)) : bool :=
  match r with Ret (_, status) => IsSuccess status | Panic => false end.

Lemma w_two_eq : w_two = {["a" := w_info "a" {["p1"; "p2"]} 3000 5000 4000; "b" := w_info "b" ∅ 3000 3000 0]}.
Proof. vm_compute. reflexivity. Qed.

Lemma w_full_held : node_held w_request w_two [w_pod "a" "p1" 0; w_pod "a" "p2" 0].
Proof.
  split.
  - apply (bool_decide_eq_true_1 _). by vm_compute.
  - intros p [->|[->|[]%elem_of_nil]%elem_of_cons]%elem_of_cons; eexists; (split; [reflexivity|]);
      (split; [vm_compute; reflexivity|]); intros i; rewrite w_two_eq, lookup_insert_eq; intros [= <-]; cbn; set_solver.
  - intros p q [->|[->|[]%elem_of_nil]%elem_of_cons]%elem_of_cons [->|[->|[]%elem_of_nil]%elem_of_cons]%elem_of_cons;
      by intros [=].
Qed.

Lemma w_high_fits : sums_fit w_two (w_handle []) [w_node] w_high.
Proof.
  assert (computePodResourceRequest w_high = w_request "high") as Hreq by (vm_compute; reflexivity).
  split; [|split; [apply Forall_nil_2|]].
  - intros d. rewrite Hreq. destruct d; by_dim.
  - intros d. unfold nominated_sum. rewrite Hreq, w_two_eq. unfold sum_used.
    rewrite sum_map_insert, sum_map_singleton by done. destruct d; by_dim.
Qed.

Lemma preemption_makes_room_witness :
  passes (PreFilter w_two (w_handle []) w_state w_high) = false ∧
  w_victims (PreFilter w_two (w_handle []) w_state w_high) = Ok ["p1"] ∧
  ∃ victims, p_name <$> victims = ["p1"] ∧
    passes (PreFilter (foldl handle w_two (EvDeletePod <$> victims)) (w_handle [w_high]) w_state w_high) = true.
Proof.
  split; [vm_compute; reflexivity|]. split; [vm_compute; reflexivity|].
  assert (Hv : w_victims (PreFilter w_two (w_handle []) w_state w_high) = Ok ["p1"]) by (vm_compute; reflexivity).
  destruct (PreFilter w_two (w_handle []) w_state w_high) as [[state' status]|] eqn:Hpre; [|discriminate Hv].
  unfold w_victims, victim_names in Hv.
  destruct (SelectVictimsOnNode state' w_high w_full_node ([] : list PodDisruptionBudget)) as [[victims num]| |] eqn:Hsel;
    [|discriminate Hv..].
  injection Hv as Hv. exists victims. split; [exact Hv|].
  destruct (preemption_makes_room w_request ltac:(intros key d; destruct d; by_dim) w_two (w_handle []) [w_node]
    [w_node_info []] w_state state' status w_high w_full_node [] victims num w_run_two
    ltac:(intros key [= <-]; vm_compute; reflexivity) (eq_refl _) (eq_refl _) w_high_fits Hpre w_full_held (w_undo w_high) Hsel)
    as [_ Hpass].
  destruct (Hpass (w_handle [w_high]) [w_node] [w_node_info []] w_state (eq_refl _) (eq_refl _)) as (st & stat & E & Es).
  { apply Forall_singleton. reflexivity. }
  unfold passes. rewrite E. exact Es.
Defined.
