(* ===== verification/PostFilter.v ===== *)
(** * The PostFilter plugins

    pkg/capacityscheduling/capacity_scheduling.go and
    pkg/preemptiontoleration/preemption_toleration.go: [PostFilter] of both
    plugins, with the rest of the interface they hand to the preemption
    evaluator of the scheduler ([OrderedScoreFuncs], [CandidatesToVictimsMap]),
    and the constructor of PreemptionToleration.

    The evaluator is code of Kubernetes: it reads the pod again from the lister,
    picks candidate nodes, dry-runs the plugin on each, lets the extenders of the
    scheduler change the candidates, chooses one and evicts its victims.  It is
    the class [Evaluator] here, and [EvaluatorSpec] says what is documented of
    it.  Extenders may return other victims; what is proved about the evicted pods
    has the condition that they only narrow the candidates.  The metric
    [PostFilter] counts is left out. *)

From S2P Require Import Prelude GoSort K8s K8sModel ResourceUtil ElasticQuota Preemption CapacityScheduling PreemptionToleration.

Section Evaluator.
Context `{QuantityOps} `{LabelSelectorOps}.

(** ** Candidates *)

Record Victims := mkVictims { v_Pods : list Pod; v_NumPDBViolations : Z }.
Record Candidate := mkCandidate { cand_Name : string; cand_Victims : Victims }.

(** The two plugins have the same [CandidatesToVictimsMap] ... *)
Definition CandidatesToVictimsMap (candidates : list Candidate) : gmap string Victims :=
  foldl (λ m c, <[cand_Name c := cand_Victims c]> m) ∅ candidates.

Definition pt_CandidatesToVictimsMap (candidates : list Candidate) : gmap string Victims :=
  foldl (λ m c, <[cand_Name c := cand_Victims c]> m) ∅ candidates.

(** ... and neither scores the candidate nodes itself. *)
Definition OrderedScoreFuncs (nodesToVictims : gmap string Victims) : list (string → Z) := [].

Definition pt_OrderedScoreFuncs (nodesToVictims : gmap string Victims) : list (string → Z) := [].

(** ** The evaluator *)

(** preemption.Interface; [S] is the type of the cycle state. *)
Record Interface (S : Type) := mkInterface {
  if_OrderedScoreFuncs : gmap string Victims → list (string → Z);
  if_GetOffsetAndNumCandidates : Z → outcome (Z * Z);
  if_CandidatesToVictimsMap : list Candidate → gmap string Victims;
  if_PodEligibleToPreemptOthers : Pod → Status → bool * string;
  if_SelectVictimsOnNode : S → Pod → NodeInfo → list PodDisruptionBudget → result StatusData (list Pod * Z);
}.
Arguments if_CandidatesToVictimsMap {S} _ _.
Arguments if_PodEligibleToPreemptOthers {S} _ _ _.
Arguments if_SelectVictimsOnNode {S} _ _ _ _ _.

(** What [Preempt] returns, and the pods it has evicted through the API. *)
Record PostFilterResult := mkPostFilterResult {
  pf_NominatedNodeName : option string;
  pf_status : Status;
  pf_evicted : list Pod;
}.

(** What the evaluator is given beside the interface and the cycle state: the nodes of the
    scheduler's snapshot, the extenders of the scheduler (which see the pod and the candidates and answer
    with candidates of their own, or fail), the lister of pods, by namespace and name,
    and the budgets. *)
Record EvaluatorFields := mkEvaluatorFields {
  ev_nodes : list NodeInfo;
  ev_callExtenders : Pod → list Candidate → option (list Candidate);
  ev_PodLister : string → string → option Pod;
  ev_pdbs : list PodDisruptionBudget;
}.

(** A node without entry in [NodeToStatusMap] has the nil status. *)
Class Evaluator : Type := {
  Preempt {S} : Interface S → EvaluatorFields → S → Pod → gmap string StatusData → outcome PostFilterResult;
}.

(** [c] is what a dry run on a node of the snapshot gave. *)
Definition dry_run_of {S} (itf : Interface S) (ev : EvaluatorFields) (state : S) (pod : Pod) (c : Candidate) : Prop :=
  ∃ ni n, ni ∈ ev_nodes ev ∧ ni_node ni = Some n ∧ n_name n = cand_Name c ∧
    if_SelectVictimsOnNode itf state pod ni (ev_pdbs ev) =
      Ok (v_Pods (cand_Victims c), v_NumPDBViolations (cand_Victims c)).

(** The pod as the lister has it. *)
Definition latest_of (ev : EvaluatorFields) (pod : Pod) : option Pod :=
  ev_PodLister ev (p_namespace pod) (p_name pod).

(** [Preempt] goes on with the latest version of the pod and evicts nothing when that is not eligible; the
    dry runs give candidates, the extenders turn them into others, and what it evicts are
    victims of one of these; it can only nominate the node of
    that candidate (none, when an API call fails half way). *)
Class EvaluatorSpec `{!Evaluator} : Prop := {
  Preempt_evicts {S} (itf : Interface S) ev state pod m r :
    Preempt itf ev state pod m = Ret r → pf_evicted r ≠ [] →
    ∃ latest, latest_of ev pod = Some latest ∧
    (if_PodEligibleToPreemptOthers itf latest (m !! p_nominated_node_name latest)).1 = true ∧
    ∃ dry_runs candidates node victims,
      Forall (dry_run_of itf ev state latest) dry_runs ∧
      ev_callExtenders ev latest dry_runs = Some candidates ∧
      if_CandidatesToVictimsMap itf candidates !! node = Some victims ∧
      pf_evicted r ⊆ v_Pods victims ∧
      (∀ nominated, pf_NominatedNodeName r = Some nominated → nominated = node);
}.

(** The extenders take nodes and victims out, and add none.  They need not: an extender that supports
    preemption may answer with other victims.  It is so when none of them supports preemption, for then the
    candidates stay as they are. *)
Definition extenders_narrow (ev : EvaluatorFields) : Prop :=
  ∀ pod before after c, ev_callExtenders ev pod before = Some after → c ∈ after →
    ∃ c', c' ∈ before ∧ cand_Name c' = cand_Name c ∧ v_Pods (cand_Victims c) ⊆ v_Pods (cand_Victims c').

(** An evaluator that takes the first candidate and evicts all its victims. *)
Definition dry_run {S} (itf : Interface S) (ev : EvaluatorFields) (state : S) (pod : Pod) (ni : NodeInfo) : option Candidate :=
  match ni_node ni, if_SelectVictimsOnNode itf state pod ni (ev_pdbs ev) with
  | Some n, Ok (victims, num) => Some (mkCandidate (n_name n) (mkVictims victims num))
  | _, _ => None
  end.

Definition first_candidate {S} (itf : Interface S) (ev : EvaluatorFields) (state : S) (pod : Pod)
    (m : gmap string StatusData) : outcome PostFilterResult :=
  let unschedulable := mkPostFilterResult None (Some (NewStatus Unschedulable "")) [] in
  match latest_of ev pod with
  | None => Ret unschedulable
  | Some pod =>
      if negb (if_PodEligibleToPreemptOthers itf pod (m !! p_nominated_node_name pod)).1 then Ret unschedulable
      else match ev_callExtenders ev pod (omap (dry_run itf ev state pod) (ev_nodes ev)) with
      | Some (c :: candidates) =>
          match if_CandidatesToVictimsMap itf (c :: candidates) !! cand_Name c with
          | Some victims => Ret (mkPostFilterResult (Some (cand_Name c)) None (v_Pods victims))
          | None => Ret unschedulable
          end
      | _ => Ret unschedulable
      end
  end.

Lemma CandidatesToVictimsMap_lookup candidates node victims :
  CandidatesToVictimsMap candidates !! node = Some victims →
  ∃ c, c ∈ candidates ∧ cand_Name c = node ∧ cand_Victims c = victims.
Proof.
  unfold CandidatesToVictimsMap. induction candidates as [|c candidates IH] using rev_ind; [done|].
  rewrite foldl_snoc, lookup_insert_Some. intros [[? ?]|[_ Hm]].
  - exists c. set_solver.
  - destruct (IH Hm) as (c' & ? & ?). exists c'. set_solver.
Qed.
(** Where the extenders narrow, the victims of a candidate are victims of a dry run on its node. *)
Lemma candidate_dry_run {S} (itf : Interface S) ev state pod dry candidates c :
  extenders_narrow ev → ev_callExtenders ev pod dry = Some candidates → Forall (dry_run_of itf ev state pod) dry →
  c ∈ candidates →
  ∃ ni n victims num, ni ∈ ev_nodes ev ∧ ni_node ni = Some n ∧ n_name n = cand_Name c ∧
    if_SelectVictimsOnNode itf state pod ni (ev_pdbs ev) = Ok (victims, num) ∧ v_Pods (cand_Victims c) ⊆ victims.
Proof.
  intros Hnarrow Hext Hall Hc. destruct (Hnarrow _ _ _ _ Hext Hc) as (c' & Hc' & <- & Hsub).
  rewrite Forall_forall in Hall. destruct (Hall c' Hc') as (ni & n & Hni & Hn & Hname & Hsel).
  by exists ni, n, (v_Pods (cand_Victims c')), (v_NumPDBViolations (cand_Victims c')).
Qed.
End Evaluator.

Arguments mkInterface {_ _ S} _ _ _ _ _.
Arguments if_CandidatesToVictimsMap {_ _ S} _ _.
Arguments if_PodEligibleToPreemptOthers {_ _ S} _ _ _.
Arguments if_SelectVictimsOnNode {_ _ S} _ _ _ _ _.

#[export] Instance w_evaluator `{QuantityOps} `{LabelSelectorOps} : Evaluator := {| Preempt := @first_candidate _ _ |}.

#[export] Instance w_evaluator_spec `{QuantityOps} `{LabelSelectorOps} : EvaluatorSpec.
Proof.
  split. intros S itf ev state pod m r. simpl. unfold first_candidate.
  destruct (latest_of ev pod) as [latest|]; [|by intros [= <-]].
  destruct (if_PodEligibleToPreemptOthers itf latest _).1 eqn:Hel; [|by intros [= <-]]. simpl.
  set (dry := omap (dry_run itf ev state latest) (ev_nodes ev)).
  destruct (ev_callExtenders ev latest dry) as [[|c cs]|] eqn:Hcs; [by intros [= <-]| |by intros [= <-]].
  destruct (if_CandidatesToVictimsMap itf (c :: cs) !! _) as [vs|] eqn:Hm; [|by intros [= <-]].
  intros [= <-] _. exists latest. split; [done|]. split; [done|]. exists dry, (c :: cs), (cand_Name c), vs.
  split; [|split; [done|split; [done|split; [done|by intros ? [= <-]]]]].
  apply Forall_forall. intros c' (ni & Hni & Hf)%list_elem_of_omap. unfold dry_run in Hf.
  destruct (ni_node ni) as [n|] eqn:Hn; [|done].
  destruct (if_SelectVictimsOnNode itf state latest ni _) as [[victims num]| |] eqn:Hsel; [|done..].
  injection Hf as <-. by exists ni, n.
Qed.

(** ** CapacityScheduling *)

Section Capacity.
Context `{MapOrder} `{GoSort} `{QuantityOps} `{!FrameworkOps} `{!NodeInfoOps} `{LabelSelectorOps}.
Context {Others : Type} `{!PreemptionHandle (CycleState (Others := Others))}.

Abbreviation Cycle := (CycleState (Others := Others)).

Definition preemptor_GetOffsetAndNumCandidates (n : Z) : outcome (Z * Z) := Ret (0, n).

(** The type [preemptor]. *)
Definition preemptor (fh : Handle) (state : Cycle) : Interface Cycle := {|
  if_OrderedScoreFuncs := OrderedScoreFuncs;
  if_GetOffsetAndNumCandidates := preemptor_GetOffsetAndNumCandidates;
  if_CandidatesToVictimsMap := CandidatesToVictimsMap;
  if_PodEligibleToPreemptOthers := CapacityScheduling.PodEligibleToPreemptOthers fh state;
  if_SelectVictimsOnNode := SelectVictimsOnNode;
|}.

Definition PostFilter `{!Evaluator} (fh : Handle) (ev : EvaluatorFields)
    (state : Cycle) (pod : Pod) (m : gmap string StatusData) : outcome PostFilterResult :=
  Preempt (preemptor fh state) ev state pod m.

(** A pod with a graceful deletion under way on the nominated node, less
    important than the preemptor and of its quota. *)
Definition own_victim_terminating (fh : Handle) (infos : gmap string ElasticQuotaInfo) (pod p : Pod) : Prop :=
  ∃ ni, NodeInfos_Get fh (p_nominated_node_name pod) = Some ni ∧ p ∈ ni_pods ni ∧
    is_Some (p_deletion_timestamp p) ∧ is_Some (infos !! p_namespace pod) ∧
    p_namespace p = p_namespace pod ∧ PodPriority p < PodPriority pod.

Lemma capacity_eligible fh (state : Cycle) pod st infos :
  cy_snapshot state = Some infos →
  (CapacityScheduling.PodEligibleToPreemptOthers fh state pod st).1 = true →
  p_preemption_policy pod ≠ Some PreemptNever ∧ is_Some (cy_preFilter state) ∧
  (p_nominated_node_name pod ≠ "" → status_Code st ≠ UnschedulableAndUnresolvable →
   ∀ p, ¬ own_victim_terminating fh infos pod p).
Proof.
  intros Hs. unfold CapacityScheduling.PodEligibleToPreemptOthers, getPreFilterState, getElasticQuotaSnapshotState.
  case_bool_decide; [done|]. destruct (cy_preFilter state) as [pf|]; [|done]. rewrite Hs. intros He.
  split; [done|]. split; [done|]. intros Hnom Hst p (ni & Hget & Hp & Hdel & [info Hinfo] & Hns & Hprio).
  destruct (Nat.ltb_spec 0 (String.length (p_nominated_node_name pod))) as [_|Hlen].
  2: { destruct (p_nominated_node_name pod); simpl in Hlen; [done|lia]. }
  rewrite bool_decide_eq_false_2, Hget, Hinfo in He by done.
  destruct (existsb _ _) eqn:Hex; [done|]. apply not_true_iff_false in Hex. apply Hex.
  apply existsb_exists. exists p. split; [by apply list_elem_of_In|].
  rewrite bool_decide_eq_true_2 by done. rewrite Hns, Hinfo, !bool_decide_eq_true_2 by done. done.
Qed.

(** C11: what PostFilter of CapacityScheduling evicts for a pod.  When anything is evicted, the pod as the
    lister has it may preempt at all, and no earlier victim of its own quota is terminating on
    the node nominated for it, unless that node was found unschedulable and unresolvable.  If the
    extenders of the scheduler only narrow the candidates (none of them supports preemption, for example),
    all the evicted pods run on one node of the snapshot,
    the only one that can be nominated, and each may be evicted under the
    quota policy: with a quota of its own in use beyond its minimum the pod
    takes less important pods of its namespace, within its minimum only pods of
    quotas that borrow, without quota less important pods outside all quotas. *)
Theorem capacity_PostFilter_evicts `{!CapacityHandle (Others := Others)} `{!Evaluator} `{!EvaluatorSpec}
    fh ev (state : Cycle) pod m infos r :
  cy_snapshot state = Some infos →
  PostFilter fh ev state pod m = Ret r → pf_evicted r ≠ [] →
  ∃ latest, latest_of ev pod = Some latest ∧
  p_preemption_policy latest ≠ Some PreemptNever ∧
  (p_nominated_node_name latest ≠ "" →
   status_Code (m !! p_nominated_node_name latest) ≠ UnschedulableAndUnresolvable →
   ∀ p, ¬ own_victim_terminating fh infos latest p) ∧
  (extenders_narrow ev →
   ∃ ni n pf, ni ∈ ev_nodes ev ∧ ni_node ni = Some n ∧
    (∀ nominated, pf_NominatedNodeName r = Some nominated → nominated = n_name n) ∧
    cy_preFilter state = Some pf ∧
    ∀ v, v ∈ pf_evicted r → v ∈ ni_pods ni ∧
      evictable (ni_pods ni) latest infos (nominatedPodsReqInEQWithPodReq pf) v).
Proof.
  intros Hs Hp Hne.
  destruct (Preempt_evicts _ _ _ _ _ _ Hp Hne) as (latest & Hlatest & Hel & dry & cs & node & vs & Hall & Hcs & Hm & Hev & Hnom).
  destruct (capacity_eligible _ _ _ _ _ Hs Hel) as (Hpol & [pf Hpf] & Hterm).
  exists latest. split; [done|]. split; [done|]. split; [done|]. intros Hnarrow.
  apply CandidatesToVictimsMap_lookup in Hm as (c & Hc & <- & <-).
  destruct (candidate_dry_run _ _ _ _ _ _ _ Hnarrow Hcs Hall Hc) as (ni & n & pods & num & Hni & Hn & Hname & Hsel & Hsub).
  exists ni, n, pf. split; [done|]. split; [done|]. rewrite Hname. split; [done|]. split; [done|].
  cbn [if_SelectVictimsOnNode preemptor] in Hsel. intros v Hv. eapply SelectVictimsOnNode_evictable; [done..|]. by apply Hsub, Hev.
Qed.
End Capacity.

(** ** PreemptionToleration *)

Section Toleration.
Context `{GoSort} `{QuantityOps} `{!FrameworkOps} `{!NodeInfoOps} `{LabelSelectorOps}.
Context {S : Type} `{!PreemptionHandle S}.

Record PreemptionTolerationArgs := {
  MinCandidateNodesPercentage : Z;
  MinCandidateNodesAbsolute : Z;
}.

(** The plugin, less its handles.  [pl_curTime] is in nanoseconds since 1970. *)
Record PreemptionToleration := mkPreemptionToleration {
  pl_args : PreemptionTolerationArgs;
  pl_curTime : Z;
}.

(** The zero [time.Time], January 1 of year 1. *)
Definition zero_time : Z := -62135596800 * 10 ^ 9.

(** [rawArgs] is [None] when it has another type;
    [validate] is [ValidateDefaultPreemptionArgs] of the scheduler. *)
Definition NewPreemptionToleration (validate : PreemptionTolerationArgs → option string)
    (rawArgs : option PreemptionTolerationArgs) : string + PreemptionToleration :=
  match rawArgs with
  | None => inl "want *PreemptionTolerationArgs"
  | Some args =>
      match validate args with
      | Some err => inl err
      | None => inr (mkPreemptionToleration args zero_time)
      end
  end.

Context (pcLister : string → option PriorityClass) (NodeInfos_Get : string → option NodeInfo) (random : Z → Z).

(** The plugin is the interface itself. *)
Definition pl_interface (pl : PreemptionToleration) : Interface S := {|
  if_OrderedScoreFuncs := pt_OrderedScoreFuncs;
  if_GetOffsetAndNumCandidates :=
    GetOffsetAndNumCandidates (MinCandidateNodesPercentage (pl_args pl)) (MinCandidateNodesAbsolute (pl_args pl)) random;
  if_CandidatesToVictimsMap := pt_CandidatesToVictimsMap;
  if_PodEligibleToPreemptOthers := PreemptionToleration.PodEligibleToPreemptOthers NodeInfos_Get;
  if_SelectVictimsOnNode state pod ni pdbs :=
    '(victims, num, _) ← pt_SelectVictimsOnNode pcLister (pl_curTime pl) state pod ni pdbs;
    mret (victims, num);
|}.

(** The evaluator is built before the clock is read but holds the pointer to the plugin. *)
Definition pt_PostFilter `{!Evaluator} (pl : PreemptionToleration) (now : Z) (ev : EvaluatorFields)
    (state : S) (pod : Pod) (m : gmap string StatusData) : PreemptionToleration * outcome PostFilterResult :=
  let pl := mkPreemptionToleration (pl_args pl) now in
  (pl, Preempt (pl_interface pl) ev state pod m).

Lemma pt_eligible pod st :
  (PreemptionToleration.PodEligibleToPreemptOthers NodeInfos_Get pod st).1 = true →
  p_preemption_policy pod ≠ Some PreemptNever ∧
  (p_nominated_node_name pod ≠ "" → status_Code st ≠ UnschedulableAndUnresolvable →
   ∀ ni p, NodeInfos_Get (p_nominated_node_name pod) = Some ni → p ∈ ni_pods ni →
     is_Some (p_deletion_timestamp p) → PodPriority pod ≤ PodPriority p).
Proof.
  unfold PreemptionToleration.PodEligibleToPreemptOthers. case_bool_decide; [done|]. intros He.
  split; [done|]. intros Hnom Hst ni p Hget Hp Hdel.
  destruct (Nat.ltb_spec 0 (String.length (p_nominated_node_name pod))) as [_|Hlen].
  2: { destruct (p_nominated_node_name pod); simpl in Hlen; [done|lia]. }
  rewrite bool_decide_eq_false_2, Hget in He by done.
  destruct (existsb _ _) eqn:Hex; [done|]. apply not_true_iff_false in Hex.
  apply Znot_gt_le. intros Hprio. apply Hex, existsb_exists. exists p. split; [by apply list_elem_of_In|].
  rewrite !bool_decide_eq_true_2 by (done || lia). done.
Qed.

(** C22: what PostFilter of PreemptionToleration evicts for a pod.  It reads the clock first.  When anything is
    evicted, the policy of the pod as the lister has it is not Never, and no
    less important pod is terminating on its nominated node, unless
    that node was found unschedulable and unresolvable.  If the extenders of the scheduler only narrow
    the candidates (none of them supports preemption, for example), whatever is evicted runs on one node of the
    snapshot, the only one that can be nominated, has a lower priority than
    the pod and is not exempted from preemption by its priority class at the
    time that was read; and in the dry run that chose the victims, they and the pods left over
    are exactly the pods of that node, and the pod passes the filters next to
    those left over. *)
Theorem pt_PostFilter_evicts `{!NodeInfoSpec} `{!Evaluator} `{!EvaluatorSpec}
    pl now ev (state : S) pod m pl' r :
  (∀ latest, latest_of ev pod = Some latest → filters_undo (S := S) latest) →
  (∀ ni, ni ∈ ev_nodes ev → NoDup (p_uid <$> ni_pods ni)) →
  pt_PostFilter pl now ev state pod m = (pl', Ret r) → pf_evicted r ≠ [] →
  pl_curTime pl' = now ∧
  ∃ latest, latest_of ev pod = Some latest ∧
  p_preemption_policy latest ≠ Some PreemptNever ∧
  (p_nominated_node_name latest ≠ "" →
   status_Code (m !! p_nominated_node_name latest) ≠ UnschedulableAndUnresolvable →
   ∀ ni p, NodeInfos_Get (p_nominated_node_name latest) = Some ni → p ∈ ni_pods ni →
     is_Some (p_deletion_timestamp p) → PodPriority latest ≤ PodPriority p) ∧
  (extenders_narrow ev →
   ∃ ni n victims (d : DryRun S), ni ∈ ev_nodes ev ∧ ni_node ni = Some n ∧
    (∀ nominated, pf_NominatedNodeName r = Some nominated → nominated = n_name n) ∧
    pf_evicted r ⊆ victims ∧ victims ++ ni_pods (dr_node d) ≡ₚ ni_pods ni ∧
    IsSuccess (filter_status latest d) = true ∧
    ∀ v, v ∈ pf_evicted r → PodPriority v < PodPriority latest ∧
      ExemptedFromPreemption v latest pcLister now = Some false).
Proof.
  intros Hundo Hnd. unfold pt_PostFilter. intros [= <- Hp] Hne.
  destruct (Preempt_evicts _ _ _ _ _ _ Hp Hne) as (latest & Hlatest & Hel & dry & cs & node & vs & Hall & Hcs & Hm & Hev & Hnom).
  destruct (pt_eligible _ _ Hel) as [Hpol Hterm]. split; [done|]. exists latest.
  split; [done|]. split; [done|]. split; [done|]. intros Hnarrow.
  apply CandidatesToVictimsMap_lookup in Hm as (c & Hc & <- & <-).
  destruct (candidate_dry_run _ _ _ _ _ _ _ Hnarrow Hcs Hall Hc) as (ni & n & victims & num & Hni & Hn & Hname & Hsel & Hsub).
  simpl in Hsel. apply result_bind_Ok in Hsel as ([[victims' num'] d] & Hsel & [= -> ->]).
  destruct (pt_SelectVictimsOnNode_sound _ _ _ _ _ _ _ _ _ (Hundo _ Hlatest) (Hnd ni Hni) Hsel) as (Hperm & Hok & Hevict).
  exists ni, n, victims, d. split; [done|]. split; [done|]. rewrite Hname. split; [done|].
  split; [by etrans|]. split; [done|]. split; [done|].
  intros v Hv. apply Hevict. by apply Hsub, Hev.
Qed.
End Toleration.

(** ** Witnesses *)

(** No extender supports preemption; the lister has the pod as it is. *)
Definition w_fields (nodes : list NodeInfo) (pod : Pod) : EvaluatorFields :=
  mkEvaluatorFields nodes (λ _ candidates, Some candidates) (λ _ _, Some pod) [].

Lemma w_fields_narrow nodes pod : extenders_narrow (w_fields nodes pod).
Proof. intros p before after c [= <-] Hc. by exists c. Qed.

(** "high" of quota "a", which "low" uses up, on the only node. *)
Definition w_high : Pod := CapacityScheduling.w_pod "a" "high" 5.
Definition w_capacity_fields : EvaluatorFields :=
  w_fields [w_node_info [CapacityScheduling.w_pod "a" "low" 0; CapacityScheduling.w_pod "b" "other" 0]] w_high.
Definition w_post_filter : outcome PostFilterResult :=
  PostFilter (Others := unit) (w_handle []) w_capacity_fields (w_dry_state 2000) w_high ∅.

Lemma capacity_PostFilter_evicts_witness :
  ∃ r, w_post_filter = Ret r ∧ (p_name <$> pf_evicted r) = ["low"] ∧ pf_NominatedNodeName r = Some "n1" ∧
    ∀ v, v ∈ pf_evicted r → v ∈ [CapacityScheduling.w_pod "a" "low" 0; CapacityScheduling.w_pod "b" "other" 0].
Proof.
  assert (match w_post_filter with Ret r => Some (p_name <$> pf_evicted r, pf_NominatedNodeName r) | Panic => None end
    = Some (["low"], Some "n1")) as Hn by (vm_compute; reflexivity).
  destruct w_post_filter as [r|] eqn:Hr; [|discriminate]. injection Hn as Hev Hnom.
  exists r. split; [reflexivity|]. split; [exact Hev|]. split; [exact Hnom|].
  assert (pf_evicted r ≠ []) as Hne by (intros E; rewrite E in Hev; discriminate).
  destruct (capacity_PostFilter_evicts (w_handle []) w_capacity_fields (w_dry_state 2000) _ ∅ w_dry_infos r eq_refl Hr Hne)
    as (latest & _ & _ & _ & Hnode).
  destruct (Hnode (w_fields_narrow _ _)) as (ni & n & pf & ->%list_elem_of_singleton & _ & _ & _ & Hv).
  intros v Hin. exact (proj1 (Hv v Hin)).
Defined.

Definition w_args : PreemptionTolerationArgs :=
  {| MinCandidateNodesPercentage := 10; MinCandidateNodesAbsolute := 100 |}.

Definition w_pt_nodes : list NodeInfo := [{|
  ni_node := Some w_node; ni_pods := ni_pods w_pt_node;
  ni_allocatable := zero_resource; ni_requested := zero_resource; ni_nonzero_requested := zero_resource |}].

Definition w_pt_pod : Pod := w_candidate "high" "" 500 3.

Definition w_pt_post_filter : PreemptionToleration * outcome PostFilterResult :=
  pt_PostFilter w_lister (λ _, None) (λ _, 0) (mkPreemptionToleration w_args zero_time) second
    (w_fields w_pt_nodes w_pt_pod) tt w_pt_pod ∅.

Lemma pt_PostFilter_evicts_witness :
  ∃ pl r, w_pt_post_filter = (pl, Ret r) ∧ p_name <$> pf_evicted r = ["low"] ∧ pl_curTime pl = second ∧
    ∀ v, v ∈ pf_evicted r → ExemptedFromPreemption v w_pt_pod w_lister second = Some false.
Proof.
  assert (match w_pt_post_filter.2 with Ret r => Some (p_name <$> pf_evicted r) | Panic => None end
    = Some ["low"]) as Hn by (vm_compute; reflexivity).
  destruct w_pt_post_filter as [pl [r|]] eqn:Hr; [|discriminate]. injection Hn as Hev.
  exists pl, r. split; [reflexivity|]. split; [exact Hev|].
  assert (pf_evicted r ≠ []) as Hne by (intros E; rewrite E in Hev; discriminate).
  destruct (pt_PostFilter_evicts w_lister (λ _, None) (λ _, 0) (mkPreemptionToleration w_args zero_time) second
    (w_fields w_pt_nodes w_pt_pod) tt w_pt_pod ∅ pl r) as (Hnow & latest & [= <-] & _ & _ & Hnode);
    [intros latest _; apply w_filters_undo| |exact Hr|exact Hne|].
  - intros ni ->%list_elem_of_singleton. change (NoDup ["low"; "tol"; "small"]). by apply (bool_decide_eq_true_1 _).
  - destruct (Hnode (w_fields_narrow _ _)) as (ni & n & vs & d & _ & _ & _ & _ & _ & _ & Hv).
    split; [exact Hnow|]. intros v Hin. exact (proj2 (Hv v Hin)).
Defined.
