(* ===== verification/NetworkAware.v ===== *)
(** * pkg/networkaware/util and pkg/networkaware/topologicalsort

    The records hold the fields that are read of the AppGroup and
    NetworkTopology custom resources, whose Go types come from third-party
    packages; so do the label keys and well-known names, which are parameters
    ([NetworkAwareNames]). *)

From S2P Require Import Prelude GoSort Strconv K8s K8sModel.

Class NetworkAwareNames : Type := {
  AppGroupLabel : string;
  AppGroupSelectorLabel : string;
  NetworkTopologyRegion : string;
  NetworkTopologyZone : string;
  NetworkTopologyNetperfCosts : string;
}.

(** k8s.io/api: the topology labels of a node. *)
Definition LabelTopologyRegion : string := "topology.kubernetes.io/region".
Definition LabelTopologyZone : string := "topology.kubernetes.io/zone".

Record DependenciesInfo := { dep_Selector : string; dep_MaxNetworkCost : Z }.
Record AppGroupWorkload := { agw_Selector : string; agw_Dependencies : list DependenciesInfo }.
Record AppGroupTopologyInfo := { agt_Selector : string; agt_Index : Z }.
Record AppGroup := {
  ag_UID : string;
  ag_Workloads : list AppGroupWorkload;
  ag_TopologyOrder : list AppGroupTopologyInfo;
}.

Record CostInfo := { ci_Destination : string; ci_NetworkCost : Z }.
Record OriginInfo := { oi_Origin : string; oi_CostList : list CostInfo }.
Record TopologyInfo := { ti_TopologyKey : string; ti_OriginList : list OriginInfo }.
Record WeightInfo := { wi_Name : string; wi_TopologyList : list TopologyInfo }.
Record NetworkTopology := { nt_UID : string; nt_Weights : list WeightInfo }.

Section NetworkAware.
Context `{NetworkAwareNames} `{QuantityOps}.

(** ** util.go *)

Record CostKey := mkCostKey { Origin : string; Destination : string }.

#[export] Instance CostKey_eq_dec : EqDecision CostKey.
Proof. solve_decision. Defined.
#[export] Instance CostKey_countable : Countable CostKey.
Proof.
  refine (inj_countable' (λ k, (Origin k, Destination k)) (λ p, mkCostKey p.1 p.2) _). by intros [].
Defined.

Record ScheduledInfo := {
  si_Name : string;
  si_Selector : string;
  si_ReplicaID : string;
  si_Hostname : string;
}.

Abbreviation ScheduledList := (list ScheduledInfo).

(** A nil label map reads as empty. *)
Definition GetNodeRegion (node : Node) : string := default "" (n_labels node !! LabelTopologyRegion).
Definition GetNodeZone (node : Node) : string := default "" (n_labels node !! LabelTopologyZone).
Definition GetPodAppGroupLabel (pod : Pod) : string := default "" (p_labels pod !! AppGroupLabel).
Definition GetPodAppGroupSelector (pod : Pod) : string :=
  default "" (p_labels pod !! AppGroupSelectorLabel).

Definition ByTopologyKey : TopologyInfo → TopologyInfo → bool := by_key ti_TopologyKey.
Definition ByOrigin : OriginInfo → OriginInfo → bool := by_key oi_Origin.
Definition ByDestination : CostInfo → CostInfo → bool := by_key ci_Destination.
Definition ByWorkloadSelector : AppGroupTopologyInfo → AppGroupTopologyInfo → bool := by_key agt_Selector.

(** The three searches have the loop of [bsearch]. *)
Definition FindPodOrder (t : list AppGroupTopologyInfo) (selector : string) : outcome Z :=
  found ← bsearch agt_Selector t selector;
  Ret (match found with Some info => agt_Index info | None => -1 end).

Definition FindOriginCosts (originList : list OriginInfo) (origin : string) : outcome (list CostInfo) :=
  found ← bsearch oi_Origin originList origin;
  Ret (match found with Some info => oi_CostList info | None => [] end).

Definition FindTopologyKey (topologyList : list TopologyInfo) (key : string) : outcome (list OriginInfo) :=
  found ← bsearch ti_TopologyKey topologyList key;
  Ret (match found with Some info => ti_OriginList info | None => [] end).

(** The group is behind a pointer; nil is the empty list of dependencies. *)
Definition GetDependencyList (pod : Pod) (ag : option AppGroup) : outcome (list DependenciesInfo) :=
  ag ← deref ag;
  Ret (foldl (λ dependencyList w,
         if bool_decide (agw_Selector w = default "" (p_labels pod !! AppGroupSelectorLabel))
         then dependencyList ++ agw_Dependencies w else dependencyList) [] (ag_Workloads ag)).

Definition GetScheduledList (pods : list Pod) : ScheduledList :=
  foldl (λ scheduledList p,
    if Nat.ltb 0 (String.length (p_node_name p)) then
      scheduledList ++ [{| si_Name := p_name p; si_Selector := GetPodAppGroupSelector p;
                           si_ReplicaID := p_uid p; si_Hostname := p_node_name p |}]
    else scheduledList) [] pods.

(** C39: [FindPodOrder] always returns, without leaving the slice; on a slice
    sorted by selector it returns the index of an entry of the workload if
    there is one, and -1 exactly when there is none (indices not being -1). *)
Theorem FindPodOrder_spec t selector :
  ∃ order, FindPodOrder t selector = Ret order ∧
  (order = -1 ∨ ∃ info, info ∈ t ∧ agt_Selector info = selector ∧ agt_Index info = order) ∧
  (key_sorted agt_Selector t → (∀ info, info ∈ t → agt_Index info ≠ -1) →
   (order = -1 ↔ ∀ info, info ∈ t → agt_Selector info ≠ selector)).
Proof.
  unfold FindPodOrder. destruct (bsearch_sound agt_Selector t selector) as (r & Hr & Hsound).
  rewrite Hr. eexists. split; [done|]. split.
  - destruct r as [info|]; [|by left]. right. exists info. by destruct (Hsound info).
  - intros Hs Hidx. destruct r as [info|].
    + destruct (Hsound info) as [Hin Hk]; [done|]. split; [by intros ?%Hidx|]. intros Hno. by apply Hno in Hin.
    + split; [|done]. intros _ info Hin Hk.
      by destruct (bsearch_complete agt_Selector t selector None Hs Hr) as [? ?]; [exists info|].
Qed.

Lemma FindOriginCosts_sound originList origin :
  ∃ costs, FindOriginCosts originList origin = Ret costs ∧
  ∀ c, c ∈ costs → ∃ info, info ∈ originList ∧ oi_Origin info = origin ∧ c ∈ oi_CostList info.
Proof.
  unfold FindOriginCosts. destruct (bsearch_sound oi_Origin originList origin) as (r & -> & Hsound).
  eexists. split; [done|]. destruct r as [info|]; [|by intros c ?%not_elem_of_nil].
  intros c Hc. exists info. by destruct (Hsound info).
Qed.

(** ** topologicalsort.go *)

Record QueuedPodInfo := { qp_Pod : Pod; qp_Timestamp : Z }.

Section Less.
(** [PrioritySort.Less] of the in-tree plugin, and [client.Get], which fails
    ([None]) when there is no such object. *)
Context (PrioritySort_Less : QueuedPodInfo → QueuedPodInfo → bool).
Context (client_Get : string → string → option AppGroup) (namespaces : list string).

Fixpoint findAppGroupTopologicalSort_loop (agName : string) (namespaces : list string) : option AppGroup :=
  match namespaces with
  | [] => None
  | namespace :: rest =>
      match client_Get namespace agName with
      | None => findAppGroupTopologicalSort_loop agName rest
      | Some appGroup => Some appGroup
      end
  end.

Definition findAppGroupTopologicalSort (agName : string) : option AppGroup :=
  findAppGroupTopologicalSort_loop agName namespaces.

Definition Less (pInfo1 pInfo2 : QueuedPodInfo) : outcome bool :=
  let p1AppGroup := GetPodAppGroupLabel (qp_Pod pInfo1) in
  let p2AppGroup := GetPodAppGroupLabel (qp_Pod pInfo2) in
  if negb (bool_decide (p1AppGroup = p2AppGroup)) || Nat.eqb (String.length p1AppGroup) 0
  then Ret (PrioritySort_Less pInfo1 pInfo2)
  else
    appGroup ← deref (findAppGroupTopologicalSort p1AppGroup);
    let labelsP1 := p_labels (qp_Pod pInfo1) in
    let labelsP2 := p_labels (qp_Pod pInfo2) in
    orderP1 ← FindPodOrder (ag_TopologyOrder appGroup) (default "" (labelsP1 !! AppGroupSelectorLabel));
    orderP2 ← FindPodOrder (ag_TopologyOrder appGroup) (default "" (labelsP2 !! AppGroupSelectorLabel));
    Ret (bool_decide (orderP1 <= orderP2)).

(** Within an AppGroup whose topology order is sorted by selector and lists
    each workload once, [Less] puts the pods in the topology's order: for two
    listed workloads it says whether the index of the first is at most that of
    the second. *)
Theorem Less_topology pInfo1 pInfo2 group appGroup info1 info2 :
  GetPodAppGroupLabel (qp_Pod pInfo1) = group → GetPodAppGroupLabel (qp_Pod pInfo2) = group →
  group ≠ "" → findAppGroupTopologicalSort group = Some appGroup →
  key_sorted agt_Selector (ag_TopologyOrder appGroup) →
  (∀ i j, i ∈ ag_TopologyOrder appGroup → j ∈ ag_TopologyOrder appGroup →
          agt_Selector i = agt_Selector j → i = j) →
  info1 ∈ ag_TopologyOrder appGroup → info2 ∈ ag_TopologyOrder appGroup →
  agt_Selector info1 = GetPodAppGroupSelector (qp_Pod pInfo1) →
  agt_Selector info2 = GetPodAppGroupSelector (qp_Pod pInfo2) →
  Less pInfo1 pInfo2 = Ret (bool_decide (agt_Index info1 ≤ agt_Index info2)).
Proof.
  intros H1 H2 Hne Hfind Hs Huniq Hin1 Hin2 Hk1 Hk2. unfold Less. rewrite H1, H2.
  rewrite bool_decide_true by done. simpl.
  destruct (String.length group) eqn:Hlen; simpl; [by destruct group|]. rewrite Hfind. simpl.
  assert (∀ info pod, info ∈ ag_TopologyOrder appGroup → agt_Selector info = GetPodAppGroupSelector pod →
    FindPodOrder (ag_TopologyOrder appGroup) (default "" (p_labels pod !! AppGroupSelectorLabel)) =
    Ret (agt_Index info)) as Horder.
  { intros info pod Hin Hk. unfold FindPodOrder. unfold GetPodAppGroupSelector in Hk. rewrite <- Hk.
    destruct (bsearch_sound agt_Selector (ag_TopologyOrder appGroup) (agt_Selector info)) as (r & Hr & Hsound).
    rewrite Hr. destruct (bsearch_complete _ _ _ _ Hs Hr) as [info' ->]; [by exists info|].
    destruct (Hsound info' eq_refl) as [Hin' Hk']. simpl. by rewrite (Huniq info' info). }
  rewrite (Horder info1 (qp_Pod pInfo1)), (Horder info2 (qp_Pod pInfo2)) by done. done.
Qed.
End Less.
End NetworkAware.

(** ** Witness *)

Definition w_order : AppGroup := {| ag_UID := "u"; ag_Workloads := [];
  ag_TopologyOrder := [{| agt_Selector := "back"; agt_Index := 2 |};
                       {| agt_Selector := "front"; agt_Index := 1 |}] |}.

Definition w_queued (workload : string) : QueuedPodInfo :=
  {| qp_Pod := with_labels (model_pod "a" workload "" 0 ∅) {["appgroup" := "g"; "workload" := workload]};
     qp_Timestamp := 0 |}.

Definition w_sort_names : NetworkAwareNames := {|
  AppGroupLabel := "appgroup"; AppGroupSelectorLabel := "workload";
  NetworkTopologyRegion := "region"; NetworkTopologyZone := "zone";
  NetworkTopologyNetperfCosts := "NetperfCosts" |}.

Lemma Less_topology_witness :
  Less (H := w_sort_names) (λ _ _, false) (λ _ _, Some w_order) ["ns"] (w_queued "front") (w_queued "back") =
  Ret (bool_decide (1 ≤ 2)).
Proof.
  apply (Less_topology (H := w_sort_names) (λ _ _, false) (λ _ _, Some w_order) ["ns"] (w_queued "front")
    (w_queued "back") "g" w_order {| agt_Selector := "front"; agt_Index := 1 |}
    {| agt_Selector := "back"; agt_Index := 2 |}); try (by vm_compute).
  - intros [|[|i]] [|[|j]] x y Hi Hj Hij; simplify_eq/=; try lia. by vm_compute.
  - intros i j Hi Hj. simpl in Hi, Hj. rewrite !elem_of_cons in Hi, Hj.
    destruct Hi as [->|[->|Hi]], Hj as [->|[->|Hj]]; try done; by apply not_elem_of_nil in Hi || by apply not_elem_of_nil in Hj.
  - right. by left.
  - by left.
Defined.

(** ** The order of the queue *)

(** PrioritySort: a higher priority first, then the pod that has waited longer. *)
Definition w_PrioritySort_Less (a b : QueuedPodInfo) : bool :=
  let pa := PodPriority (qp_Pod a) in
  let pb := PodPriority (qp_Pod b) in
  bool_decide (pa > pb) || (bool_decide (pa = pb) && bool_decide (qp_Timestamp a < qp_Timestamp b)).

Definition w_grouped (workload : string) (priority : Z) : QueuedPodInfo :=
  {| qp_Pod := with_labels (model_pod "a" workload "" priority ∅) {["appgroup" := "g"; "workload" := workload]};
     qp_Timestamp := 0 |}.

Definition w_alone (priority : Z) : QueuedPodInfo :=
  {| qp_Pod := model_pod "a" "alone" "" priority ∅; qp_Timestamp := 0 |}.

Definition w_Less : QueuedPodInfo → QueuedPodInfo → outcome bool :=
  Less (H := w_sort_names) w_PrioritySort_Less (λ _ _, Some w_order) ["ns"].

(** Topology decides within a group and priority otherwise, so the comparison has a cycle: the
    last workload of a group goes before a pod of lower priority, that one before
    the first workload, whose priority is lower still, and the first before the last. *)
Lemma Less_cyclic :
  w_Less (w_grouped "back" 30) (w_alone 20) = Ret true ∧
  w_Less (w_alone 20) (w_grouped "front" 10) = Ret true ∧
  w_Less (w_grouped "front" 10) (w_grouped "back" 30) = Ret true ∧
  w_Less (w_grouped "back" 30) (w_grouped "front" 10) = Ret false.
Proof. by vm_compute. Qed.

(** Two pods of the same workload are each before the other. *)
Lemma Less_reflexive : w_Less (w_grouped "front" 0) (w_grouped "front" 0) = Ret true.
Proof. by vm_compute. Qed.

(** A group that no namespace has ends in a nil dereference. *)
Lemma Less_missing_group_panics :
  Less (H := w_sort_names) w_PrioritySort_Less (λ _ _, None) ["ns"] (w_grouped "front" 0) (w_grouped "back" 0) = Panic.
Proof. by vm_compute. Qed.
