(* ===== verification/NetworkOverhead.v ===== *)
(** * pkg/networkaware/networkoverhead

    The NetworkOverhead plugin: the cost map of a node, the satisfied and
    violated dependencies, the accumulated cost, and the extension points
    PreFilter, Filter and Score.  The cycle state is the optional
    [PreFilterState] the plugin writes.

    [sort.Sort] on the topology lists sorts slices that several calls share;
    each call of the model sorts the list it receives, which gives the same
    list again when the keys are distinct. *)

From S2P Require Import Prelude GoSort Strconv Float64 K8s K8sModel NetworkAware.
Open Scope Z_scope.

Section NetworkOverhead.
Context `{NetworkAwareNames} `{GoSort} `{QuantityOps}.

(** ** Definitions *)

Definition MaxCost : Z := 100.
Definition SameHostname : Z := 0.
Definition SameZone : Z := 1.

Abbreviation CostMap := (gmap CostKey Z).

Record PreFilterState := {
  scoreEqually : bool;
  agName : string;
  appGroup : option AppGroup;
  networkTopology : option NetworkTopology;
  dependencyList : list DependenciesInfo;
  scheduledList : list ScheduledInfo;
  nodeCostMap : gmap string CostMap;
  satisfiedMap : gmap string Z;
  violatedMap : gmap string Z;
  finalCostMap : gmap string Z;
}.

(** [&PreFilterState{scoreEqually: true}] *)
Definition initial_state : PreFilterState := {|
  scoreEqually := true; agName := ""; appGroup := None; networkTopology := None;
  dependencyList := []; scheduledList := []; nodeCostMap := ∅; satisfiedMap := ∅;
  violatedMap := ∅; finalCostMap := ∅ |}.

(** The plugin's fields and what it reads of the cluster: [client.Get] for the
    two custom resources, the pods of an AppGroup, the snapshot of the nodes. *)
Record NetworkOverhead := {
  no_namespaces : list string;
  no_weightsName : string;
  no_ntName : string;
  no_Get_AppGroup : string → string → option AppGroup;
  no_Get_NetworkTopology : string → string → option NetworkTopology;
  no_podLister_List : string → option (list Pod);
  no_NodeInfos_List : option (list NodeInfo);
  no_NodeInfos_Get : string → option NodeInfo;
}.

Fixpoint findAppGroup_loop (no : NetworkOverhead) (agName : string) (namespaces : list string) :
    option AppGroup :=
  match namespaces with
  | [] => None
  | namespace :: rest =>
      match no_Get_AppGroup no namespace agName with
      | None => findAppGroup_loop no agName rest
      | Some appGroup =>
          if negb (bool_decide (ag_UID appGroup = "")) then Some appGroup
          else findAppGroup_loop no agName rest
      end
  end.

Definition findAppGroupNetworkOverhead (no : NetworkOverhead) (agName : string) : option AppGroup :=
  findAppGroup_loop no agName (no_namespaces no).

Fixpoint findNetworkTopology_loop (no : NetworkOverhead) (namespaces : list string) :
    option NetworkTopology :=
  match namespaces with
  | [] => None
  | namespace :: rest =>
      match no_Get_NetworkTopology no namespace (no_ntName no) with
      | None => findNetworkTopology_loop no rest
      | Some networkTopology =>
          if negb (bool_decide (nt_UID networkTopology = "")) then Some networkTopology
          else findNetworkTopology_loop no rest
      end
  end.

Definition findNetworkTopologyNetworkOverhead (no : NetworkOverhead) : option NetworkTopology :=
  findNetworkTopology_loop no (no_namespaces no).

Definition manual_weights (no : NetworkOverhead) : bool :=
  negb (bool_decide (no_weightsName no = NetworkTopologyNetperfCosts)).

Definition sortNetworkTopologyCosts (no : NetworkOverhead) (networkTopology : option NetworkTopology) :
    outcome (option NetworkTopology) :=
  if manual_weights no then
    nt ← deref networkTopology;
    Ret (Some {| nt_UID := nt_UID nt;
                 nt_Weights := (λ w, {| wi_Name := wi_Name w;
                                        wi_TopologyList := sort_slice ByTopologyKey (wi_TopologyList w) |})
                               <$> nt_Weights nt |})
  else Ret networkTopology.

(** The costs of one origin, and the loop that adds them to the map. *)
Definition origin_costs (no : NetworkOverhead) (w : WeightInfo) (key origin : string) :
    outcome (list CostInfo) :=
  topologyList ← FindTopologyKey (wi_TopologyList w) key;
  let topologyList := if manual_weights no then sort_slice ByOrigin topologyList else topologyList in
  FindOriginCosts topologyList origin.

Definition add_costs (origin : string) (costMap : CostMap) (costs : list CostInfo) : CostMap :=
  foldl (λ costMap c, <[mkCostKey origin (ci_Destination c) := ci_NetworkCost c]> costMap) costMap costs.

Definition populate_weight (no : NetworkOverhead) (region zone : string) (costMap : CostMap)
    (w : WeightInfo) : outcome CostMap :=
  if negb (bool_decide (wi_Name w = no_weightsName no)) then Ret costMap
  else
    costMap ←
      (if negb (bool_decide (region = ""))
       then costs ← origin_costs no w NetworkTopologyRegion region; Ret (add_costs region costMap costs)
       else Ret costMap);
    if negb (bool_decide (zone = ""))
    then costs ← origin_costs no w NetworkTopologyZone zone; Ret (add_costs zone costMap costs)
    else Ret costMap.

Definition populateCostMap (no : NetworkOverhead) (costMap : CostMap)
    (networkTopology : option NetworkTopology) (region zone : string) : outcome CostMap :=
  nt ← deref networkTopology;
  fold_outcome (populate_weight no region zone) costMap (nt_Weights nt).

(** One pass of the inner loop of [checkMaxNetworkCostRequirements]; the
    counters (satisfied, violated) that the code returns beside an error are
    ignored by its caller and left out. *)
Definition check_dependency (no : NetworkOverhead) (nodeName region zone : string) (costMap : CostMap)
    (podAllocated : ScheduledInfo) (acc : Z * Z) (d : DependenciesInfo) : result string (Z * Z) :=
  let '(satisfied, violated) := acc in
  if negb (bool_decide (si_Selector podAllocated = dep_Selector d)) then mret acc
  else if bool_decide (si_Hostname podAllocated = nodeName) then mret (satisfied + 1, violated)
  else match no_NodeInfos_Get no (si_Hostname podAllocated) with
  | None => Err "nodeinfo not found"
  | Some podNodeInfo =>
      podNode ← lift (deref (ni_node podNodeInfo));
      let regionPodNodeInfo := GetNodeRegion podNode in
      let zonePodNodeInfo := GetNodeZone podNode in
      if bool_decide (regionPodNodeInfo = "") && bool_decide (zonePodNodeInfo = "")
      then mret (satisfied, violated + 1)
      else if bool_decide (region = regionPodNodeInfo) then
        if bool_decide (zone = zonePodNodeInfo) then mret (satisfied + 1, violated)
        else match costMap !! mkCostKey zone zonePodNodeInfo with
             | Some cost =>
                 if bool_decide (cost <= dep_MaxNetworkCost d)
                 then mret (satisfied + 1, violated) else mret (satisfied, violated + 1)
             | None => mret acc
             end
      else match costMap !! mkCostKey region regionPodNodeInfo with
           | Some cost =>
               if bool_decide (cost <= dep_MaxNetworkCost d)
               then mret (satisfied + 1, violated) else mret (satisfied, violated + 1)
           | None => mret acc
           end
  end.

Definition checkMaxNetworkCostRequirements (no : NetworkOverhead) (scheduledList : list ScheduledInfo)
    (dependencyList : list DependenciesInfo) (nodeName region zone : string) (costMap : CostMap) :
    result string (Z * Z) :=
  fold_result (λ acc podAllocated,
    if negb (bool_decide (si_Hostname podAllocated = ""))
    then fold_result (check_dependency no nodeName region zone costMap podAllocated) acc dependencyList
    else mret acc) (0, 0) scheduledList.

Definition cost_dependency (no : NetworkOverhead) (nodeName region zone : string) (costMap : CostMap)
    (podAllocated : ScheduledInfo) (cost : Z) (d : DependenciesInfo) : result string Z :=
  if negb (bool_decide (si_Selector podAllocated = dep_Selector d)) then mret cost
  else if bool_decide (si_Hostname podAllocated = nodeName) then mret (cost +₆₄ SameHostname)
  else match no_NodeInfos_Get no (si_Hostname podAllocated) with
  | None => Err "nodeinfo not found"
  | Some podNodeInfo =>
      podNode ← lift (deref (ni_node podNodeInfo));
      let regionPodNodeInfo := GetNodeRegion podNode in
      let zonePodNodeInfo := GetNodeZone podNode in
      if bool_decide (regionPodNodeInfo = "") && bool_decide (zonePodNodeInfo = "")
      then mret (cost +₆₄ MaxCost)
      else if bool_decide (region = regionPodNodeInfo) then
        if bool_decide (zone = zonePodNodeInfo) then mret (cost +₆₄ SameZone)
        else match costMap !! mkCostKey zone zonePodNodeInfo with
             | Some value => mret (cost +₆₄ value)
             | None => mret (cost +₆₄ MaxCost)
             end
      else match costMap !! mkCostKey region regionPodNodeInfo with
           | Some value => mret (cost +₆₄ value)
           | None => mret (cost +₆₄ MaxCost)
           end
  end.

Definition getAccumulatedCost (no : NetworkOverhead) (scheduledList : list ScheduledInfo)
    (dependencyList : list DependenciesInfo) (nodeName region zone : string) (costMap : CostMap) :
    result string Z :=
  fold_result (λ cost podAllocated,
    fold_result (cost_dependency no nodeName region zone costMap podAllocated) cost dependencyList)
    0 scheduledList.

Record NodeMaps := mkNodeMaps {
  nm_cost : gmap string CostMap;
  nm_satisfied : gmap string Z;
  nm_violated : gmap string Z;
  nm_final : gmap string Z;
}.

(** [return nil, framework.NewStatus(...)] on the error of a call. *)
Definition map_err {E E' A} (f : E → E') (m : result E A) : result E' A :=
  match m with Ok a => Ok a | Err e => Err (f e) | Crash => Crash end.

Definition node_step (no : NetworkOverhead) (networkTopology : option NetworkTopology)
    (scheduledList : list ScheduledInfo) (dependencyList : list DependenciesInfo)
    (maps : NodeMaps) (nodeInfo : NodeInfo) : result StatusData NodeMaps :=
  node ← lift (deref (ni_node nodeInfo));
  let region := GetNodeRegion node in
  let zone := GetNodeZone node in
  costMap ← lift (populateCostMap no ∅ networkTopology region zone);
  '(satisfied, violated) ← map_err (λ _, NewStatus Error "pod hostname not found")
    (checkMaxNetworkCostRequirements no scheduledList dependencyList (n_name node) region zone costMap);
  cost ← map_err (λ _, NewStatus Error "getting pod hostname from Snapshot")
    (getAccumulatedCost no scheduledList dependencyList (n_name node) region zone costMap);
  mret (mkNodeMaps (<[n_name node := costMap]> (nm_cost maps))
                   (<[n_name node := satisfied]> (nm_satisfied maps))
                   (<[n_name node := violated]> (nm_violated maps))
                   (<[n_name node := cost]> (nm_final maps))).

Abbreviation CycleState := (option PreFilterState).

Definition PreFilter (no : NetworkOverhead) (pod : Pod) : outcome (CycleState * Status) :=
  let state := Some initial_state in
  let agName := GetPodAppGroupLabel pod in
  if Nat.eqb (String.length agName) 0
  then Ret (state, Some (NewStatus Success "Pod does not belong to an AppGroup, return"))
  else
  let appGroup := findAppGroupNetworkOverhead no agName in
  let networkTopology := findNetworkTopologyNetworkOverhead no in
  networkTopology ← sortNetworkTopologyCosts no networkTopology;
  dependencyList ← GetDependencyList pod appGroup;
  if bool_decide (dependencyList = [] :> list DependenciesInfo)
  then Ret (state, Some (NewStatus Success "Pod has no dependencies, return"))
  else match no_podLister_List no agName with
  | None => Ret (state, Some (NewStatus Success "Error while returning pods from appGroup, return"))
  | Some pods =>
      if bool_decide (pods = [] :> list Pod)
      then Ret (state, Some (NewStatus Success "No pods yet allocated, return"))
      else
      let scheduledList := GetScheduledList pods in
      if bool_decide (scheduledList = [] :> list ScheduledInfo)
      then Ret (state, Some (NewStatus Success "Scheduled list is empty, return"))
      else match no_NodeInfos_List no with
      | None => Ret (state, Some (NewStatus Error "Error getting the nodelist"))
      | Some nodeList =>
          match fold_result (node_step no networkTopology scheduledList dependencyList)
                  (mkNodeMaps ∅ ∅ ∅ ∅) nodeList with
          | Crash => Panic
          | Err status => Ret (state, Some status)
          | Ok maps =>
              Ret (Some {| scoreEqually := false; agName := agName; appGroup := appGroup;
                           networkTopology := networkTopology; dependencyList := dependencyList;
                           scheduledList := scheduledList; nodeCostMap := nm_cost maps;
                           satisfiedMap := nm_satisfied maps; violatedMap := nm_violated maps;
                           finalCostMap := nm_final maps |},
                   Some (NewStatus Success "PreFilter State updated"))
          end
      end
  end.

Definition Filter (cycleState : CycleState) (nodeInfo : NodeInfo) : Status :=
  match ni_node nodeInfo with
  | None => Some (NewStatus Error "node not found")
  | Some node =>
  match cycleState with
  | None => Some (NewStatus Error "not eligible due to failed to read from cycleState")
  | Some preFilterState =>
      if scoreEqually preFilterState then None
      else
        let satisfied := default 0 (satisfiedMap preFilterState !! n_name node) in
        let violated := default 0 (violatedMap preFilterState !! n_name node) in
        if bool_decide (violated > satisfied)
        then Some (NewStatus Unschedulable
               "Node does not meet several network requirements from Workload dependencies")
        else None
  end
  end.

Definition Score (cycleState : CycleState) (nodeInfo : NodeInfo) : outcome (Z * Status) :=
  node ← deref (ni_node nodeInfo);
  match cycleState with
  | None => Ret (MinNodeScore, Some (NewStatus Error
              "not eligible due to failed to read from cycleState, return min score"))
  | Some preFilterState =>
      if scoreEqually preFilterState
      then Ret (MinNodeScore, Some (NewStatus Success "scoreEqually enabled: minimum score"))
      else Ret (default 0 (finalCostMap preFilterState !! n_name node), Some (NewStatus Success
             "Accumulated cost added as score, normalization ensures lower costs are favored"))
  end.

(** The running maximum and minimum, started at the extremes of an int64. *)
Definition getMinMaxScores (scores : list NodeScore) : Z * Z :=
  let '(max, min) :=
    foldl (λ '(max, min) nodeScore,
      (if bool_decide (ns_score nodeScore > max) then ns_score nodeScore else max,
       if bool_decide (ns_score nodeScore < min) then ns_score nodeScore else min))
      (MinInt64, MaxInt64) scores in
  (min, max).

Definition norm_score (minCost maxCost : Z) (nodeScore : NodeScore) : NodeScore :=
  let normCost :=
    if bool_decide (maxCost ≠ minCost)
    then f64_div (f64_mul (f64_of_int MaxNodeScore) (f64_of_int (ns_score nodeScore -₆₄ minCost)))
                 (f64_of_int (maxCost -₆₄ minCost))
    else f64_of_int (ns_score nodeScore -₆₄ minCost) in
  {| ns_name := ns_name nodeScore; ns_score := MaxNodeScore -₆₄ int_of_float normCost |}.

Definition NormalizeScore (scores : list NodeScore) : list NodeScore :=
  let '(minCost, maxCost) := getMinMaxScores scores in
  if bool_decide (minCost = 0) && bool_decide (maxCost = 0) then scores
  else map (norm_score minCost maxCost) scores.

(** ** A reference account of the dependencies

    How an allocated pod is linked to the node: both loops classify it the same
    way and differ in what they count. *)

Inductive link := SameHost | NearBy | Unlocated | Declared (cost : Z) | Undeclared.

Definition link_of (no : NetworkOverhead) (nodeName region zone : string) (costMap : CostMap)
    (podAllocated : ScheduledInfo) : result string link :=
  if decide (si_Hostname podAllocated = nodeName) then mret SameHost
  else match no_NodeInfos_Get no (si_Hostname podAllocated) with
  | None => Err "nodeinfo not found"
  | Some podNodeInfo =>
      podNode ← lift (deref (ni_node podNodeInfo));
      let key := if decide (region = GetNodeRegion podNode)
                 then mkCostKey zone (GetNodeZone podNode)
                 else mkCostKey region (GetNodeRegion podNode) in
      mret (if decide (GetNodeRegion podNode = "" ∧ GetNodeZone podNode = "") then Unlocated
            else if decide (region = GetNodeRegion podNode ∧ zone = GetNodeZone podNode) then NearBy
            else match costMap !! key with Some cost => Declared cost | None => Undeclared end)
  end.

Definition link_satisfied (l : link) (d : DependenciesInfo) : Z :=
  match l with
  | SameHost | NearBy => 1
  | Declared cost => if decide (cost ≤ dep_MaxNetworkCost d) then 1 else 0
  | Unlocated | Undeclared => 0
  end.

Definition link_violated (l : link) (d : DependenciesInfo) : Z :=
  match l with
  | Unlocated => 1
  | Declared cost => if decide (cost ≤ dep_MaxNetworkCost d) then 0 else 1
  | SameHost | NearBy | Undeclared => 0
  end.

Definition link_cost (l : link) : Z :=
  match l with
  | SameHost => SameHostname
  | NearBy => SameZone
  | Unlocated | Undeclared => MaxCost
  | Declared cost => cost
  end.

(** The allocated pods with the dependencies on their workload. *)
Definition dependent_pairs (scheduledList : list ScheduledInfo) (dependencyList : list DependenciesInfo) :
    list (ScheduledInfo * DependenciesInfo) :=
  scheduledList ≫= λ p, (λ d, (p, d)) <$> filter (λ d, si_Selector p = dep_Selector d) dependencyList.

Section Account.
Context (no : NetworkOverhead) (nodeName region zone : string) (costMap : CostMap).

Abbreviation the_link := (link_of no nodeName region zone costMap).

Definition known_link (p : ScheduledInfo) : link :=
  match the_link p with Ok l => l | _ => Undeclared end.

Definition total (f : link → DependenciesInfo → Z) (pairs : list (ScheduledInfo * DependenciesInfo)) : Z :=
  zsum (λ pd, f (known_link pd.1) pd.2) pairs.

Lemma check_dependency_link p acc d :
  check_dependency no nodeName region zone costMap p acc d =
  if decide (si_Selector p = dep_Selector d)
  then l ← the_link p; mret (acc.1 + link_satisfied l d, acc.2 + link_violated l d)
  else mret acc.
Proof.
  destruct acc as [s v]. unfold check_dependency, link_of. simpl.
  case_bool_decide; simpl; [rewrite decide_True by done|by rewrite decide_False].
  case_bool_decide; [rewrite decide_True by done; simpl; by rewrite Z.add_0_r|rewrite decide_False by done].
  destruct (no_NodeInfos_Get no (si_Hostname p)) as [ni|]; [|done].
  destruct (ni_node ni) as [n|]; [|done]. simpl.
  repeat case_bool_decide; simpl; repeat case_decide; try tauto; simpl; repeat case_match;
    simplify_eq; simpl; repeat case_decide; try done; rewrite ?Z.add_0_r; done.
Qed.

Lemma cost_dependency_link p cost d :
  cost_dependency no nodeName region zone costMap p cost d =
  if decide (si_Selector p = dep_Selector d)
  then l ← the_link p; mret (cost +₆₄ link_cost l)
  else mret cost.
Proof.
  unfold cost_dependency, link_of.
  case_bool_decide; simpl; [rewrite decide_True by done|by rewrite decide_False].
  case_bool_decide; [by rewrite decide_True|rewrite decide_False by done].
  destruct (no_NodeInfos_Get no (si_Hostname p)) as [ni|]; [|done].
  destruct (ni_node ni) as [n|]; [|done]. simpl.
  repeat case_bool_decide; simpl; repeat case_decide; try tauto; simpl; repeat case_match; by simplify_eq.
Qed.

(** The two loops over all pairs. *)
Lemma check_pairs p dl acc acc' :
  fold_result (check_dependency no nodeName region zone costMap p) acc dl = Ok acc' →
  let pairs := (λ d, (p, d)) <$> filter (λ d, si_Selector p = dep_Selector d) dl in
  acc'.1 = acc.1 + total link_satisfied pairs ∧ acc'.2 = acc.2 + total link_violated pairs.
Proof.
  revert acc. induction dl as [|d dl IH]; intros acc Hf; cbn in Hf.
  { injection Hf as <-. cbn. lia. }
  rewrite check_dependency_link in Hf. rewrite filter_cons.
  case_decide; [|by apply IH in Hf]. unfold total, known_link. cbn.
  destruct (the_link p) as [l| |] eqn:Hl; [|done|done]. cbn in Hf.
  apply IH in Hf as [E1 E2]. unfold total, zsum, known_link in *. cbn in *. split; lia.
Qed.

Lemma cost_pairs p dl cost cost' :
  in64 cost →
  fold_result (cost_dependency no nodeName region zone costMap p) cost dl = Ok cost' →
  cost' = cost +₆₄ total (λ l _, link_cost l)
    ((λ d, (p, d)) <$> filter (λ d, si_Selector p = dep_Selector d) dl).
Proof.
  revert cost. induction dl as [|d dl IH]; intros cost H64 Hf; cbn in Hf.
  { injection Hf as <-. cbn. rewrite Z.add_0_r. by rewrite wrap64_id. }
  rewrite cost_dependency_link in Hf. rewrite filter_cons.
  case_decide; [|by apply IH in Hf]. unfold total, known_link. cbn.
  destruct (the_link p) as [l| |] eqn:Hl; [|done|done]. cbn in Hf.
  apply IH in Hf; [|apply wrap64_in]. rewrite Hf, wrap64_add_l.
  unfold total, zsum, known_link. f_equal. lia.
Qed.

Lemma total_cons f p sl dl :
  total f (dependent_pairs (p :: sl) dl) =
  total f ((λ d, (p, d)) <$> filter (λ d, si_Selector p = dep_Selector d) dl) +
  total f (dependent_pairs sl dl).
Proof. apply zsum_app. Qed.

Lemma check_total sl dl sv :
  (∀ p, p ∈ sl → si_Hostname p ≠ "") →
  checkMaxNetworkCostRequirements no sl dl nodeName region zone costMap = Ok sv →
  sv = (total link_satisfied (dependent_pairs sl dl), total link_violated (dependent_pairs sl dl)).
Proof.
  intros Hhost. unfold checkMaxNetworkCostRequirements.
  enough (∀ acc, fold_result (λ acc p, if negb (bool_decide (si_Hostname p = ""))
      then fold_result (check_dependency no nodeName region zone costMap p) acc dl else mret acc) acc sl = Ok sv →
    sv = (acc.1 + total link_satisfied (dependent_pairs sl dl),
          acc.2 + total link_violated (dependent_pairs sl dl))) as Hgen by (intros Hf; by apply Hgen in Hf).
  induction sl as [|p sl IH]; intros acc Hf; cbn in Hf.
  { injection Hf as <-. destruct acc. cbn. by rewrite !Z.add_0_r. }
  rewrite bool_decide_false in Hf by (apply Hhost; by left). cbn in Hf.
  destruct (fold_result _ acc dl) as [acc'| |] eqn:Hp; [|done|done]. cbn in Hf.
  apply check_pairs in Hp as [E1 E2]. apply IH in Hf; [|intros; apply Hhost; by right].
  rewrite Hf, E1, E2, !total_cons. f_equal; lia.
Qed.

Lemma cost_total sl dl cost :
  getAccumulatedCost no sl dl nodeName region zone costMap = Ok cost →
  cost = wrap64 (total (λ l _, link_cost l) (dependent_pairs sl dl)).
Proof.
  unfold getAccumulatedCost.
  enough (∀ acc, in64 acc → fold_result (λ cost p,
      fold_result (cost_dependency no nodeName region zone costMap p) cost dl) acc sl = Ok cost →
    cost = acc +₆₄ total (λ l _, link_cost l) (dependent_pairs sl dl)) as Hgen
    by (intros Hf; apply Hgen in Hf; [done|wrap_lia]).
  induction sl as [|p sl IH]; intros acc H64 Hf; cbn in Hf.
  { injection Hf as <-. cbn. rewrite Z.add_0_r. by rewrite wrap64_id. }
  destruct (fold_result _ acc dl) as [acc'| |] eqn:Hp; [|done|done]. cbn in Hf.
  apply cost_pairs in Hp; [|done]. apply IH in Hf; [|rewrite Hp; apply wrap64_in].
  rewrite Hf, Hp, wrap64_add_l, total_cons. f_equal; lia.
Qed.
End Account.

(** ** From PreFilter to Filter and Score *)

Lemma GetScheduledList_hostname pods p : p ∈ GetScheduledList pods → si_Hostname p ≠ "".
Proof.
  unfold GetScheduledList.
  enough (∀ acc, (∀ q, q ∈ acc → si_Hostname q ≠ "") →
    ∀ q, q ∈ foldl (λ scheduledList p, if Nat.ltb 0 (String.length (p_node_name p))
      then scheduledList ++ [{| si_Name := p_name p; si_Selector := GetPodAppGroupSelector p;
                                si_ReplicaID := p_uid p; si_Hostname := p_node_name p |}]
      else scheduledList) acc pods → si_Hostname q ≠ "") as Hgen
    by (apply Hgen; by intros q ?%not_elem_of_nil).
  induction pods as [|pod pods IH]; intros acc Hacc; cbn [foldl]; [exact Hacc|]. apply IH.
  destruct (Nat.ltb 0 (String.length (p_node_name pod))) eqn:Hlen; [|exact Hacc].
  intros q [?| ->%list_elem_of_singleton]%elem_of_app; [auto|]. cbn.
  intros E. rewrite E in Hlen. done.
Qed.

(** What PreFilter has stored for one node. *)
Definition stored (no : NetworkOverhead) (nt : option NetworkTopology) (sl : list ScheduledInfo)
    (dl : list DependenciesInfo) (maps : NodeMaps) (ni : NodeInfo) : Prop :=
  ∃ node costMap sv cost, ni_node ni = Some node ∧
    populateCostMap no ∅ nt (GetNodeRegion node) (GetNodeZone node) = Ret costMap ∧
    checkMaxNetworkCostRequirements no sl dl (n_name node) (GetNodeRegion node) (GetNodeZone node)
      costMap = Ok sv ∧
    getAccumulatedCost no sl dl (n_name node) (GetNodeRegion node) (GetNodeZone node) costMap = Ok cost ∧
    nm_satisfied maps !! n_name node = Some sv.1 ∧ nm_violated maps !! n_name node = Some sv.2 ∧
    nm_final maps !! n_name node = Some cost.

Definition node_name (ni : NodeInfo) : option string := n_name <$> ni_node ni.

Lemma map_err_Ok {E E' A} (f : E → E') (m : result E A) a : map_err f m = Ok a ↔ m = Ok a.
Proof. destruct m; simpl; split; congruence. Qed.

Lemma node_step_stored no nt sl dl maps ni maps' :
  node_step no nt sl dl maps ni = Ok maps' → stored no nt sl dl maps' ni ∧
  ∀ ni', stored no nt sl dl maps ni' → node_name ni' ≠ node_name ni → stored no nt sl dl maps' ni'.
Proof.
  unfold node_step. intros (node & Hnode%lift_Ok & Hs)%result_bind_Ok.
  destruct (ni_node ni) as [n|] eqn:Hn; [|done]. injection Hnode as ->.
  apply result_bind_Ok in Hs as (costMap & Hcm%lift_Ok & Hs).
  apply result_bind_Ok in Hs as ([s v] & Hsv%map_err_Ok & Hs).
  apply result_bind_Ok in Hs as (cost & Hcost%map_err_Ok & Hs). injection Hs as <-. split.
  - exists node, costMap, (s, v), cost. cbn. by rewrite !lookup_insert_eq.
  - intros ni' (node' & cm & sv & c & Hn' & ? & ? & ? & ? & ? & ?) Hne.
    exists node', cm, sv, c. cbn.
    assert (n_name node ≠ n_name node') by (unfold node_name in Hne; rewrite Hn, Hn' in Hne; cbn in Hne; congruence).
    by rewrite !lookup_insert_ne.
Qed.

Lemma node_fold_stored no nt sl dl maps nodeList maps' :
  NoDup (node_name <$> nodeList) →
  fold_result (node_step no nt sl dl) maps nodeList = Ok maps' →
  ∀ ni, ni ∈ nodeList → stored no nt sl dl maps' ni.
Proof.
  intros Hnd Hf. revert Hf. apply (fold_result_ind _ (λ seen maps, ∀ ni, ni ∈ seen → stored no nt sl dl maps ni));
    [|by intros ni ?%not_elem_of_nil].
  intros l1 x l2 a a' Hl Ha Hstep ni Hin. apply node_step_stored in Hstep as [Hx Hother].
  apply elem_of_app in Hin as [Hin| ->%list_elem_of_singleton]; [|done].
  apply Hother; [by apply Ha|]. intros E. rewrite Hl, fmap_app, fmap_cons in Hnd.
  apply NoDup_app in Hnd as (_ & Hdis & _). apply (Hdis (node_name ni)).
  - apply list_elem_of_fmap. by exists ni.
  - rewrite E. by left.
Qed.

#[local] Arguments total : simpl never.
#[local] Arguments dependent_pairs : simpl never.

(** C37: when PreFilter has recorded the dependencies of a pod, then on every
    node of the snapshot Filter rejects exactly when more of the pairs
    (allocated pod, dependency on its workload) violate the maximal network
    cost than satisfy it, and Score is the sum of the link costs of the pairs,
    both by one classification of the links: same host, same region and zone,
    node without location, declared cost, or undeclared.  An undeclared link
    counts as neither satisfied nor violated, yet costs [MaxCost]. *)
Theorem PreFilter_Filter_Score no pod st status nodeList ni :
  PreFilter no pod = Ret (Some st, status) → scoreEqually st = false →
  no_NodeInfos_List no = Some nodeList → NoDup (node_name <$> nodeList) → ni ∈ nodeList →
  IsSuccess status = true ∧
  ∃ node costMap, ni_node ni = Some node ∧
    populateCostMap no ∅ (networkTopology st) (GetNodeRegion node) (GetNodeZone node) = Ret costMap ∧
    let total := total no (n_name node) (GetNodeRegion node) (GetNodeZone node) costMap in
    let pairs := dependent_pairs (scheduledList st) (dependencyList st) in
    (IsSuccess (Filter (Some st) ni) = false ↔
     total link_satisfied pairs < total link_violated pairs) ∧
    (fst <$> Score (Some st) ni) = Ret (wrap64 (total (λ l _, link_cost l) pairs)).
Proof.
  unfold PreFilter. intros Hpre Hse Hlist Hnd Hin.
  destruct (Nat.eqb _ 0); [by injection Hpre as <- _|].
  apply outcome_bind_Ret in Hpre as (nt & _ & Hpre).
  apply outcome_bind_Ret in Hpre as (dl & _ & Hpre).
  case_bool_decide; [by injection Hpre as <- _|].
  destruct (no_podLister_List _ _) as [pods|]; [|by injection Hpre as <- _].
  do 2 (case_bool_decide; [by injection Hpre as <- _|]). rewrite Hlist in Hpre.
  destruct (fold_result _ _ nodeList) as [maps| |] eqn:Hf; [|by injection Hpre as <- _|done].
  injection Hpre as <- <-. split; [done|]. cbn.
  destruct (node_fold_stored _ _ _ _ _ _ _ Hnd Hf ni Hin)
    as (node & costMap & sv & cost & Hn & Hcm & Hsv & Hcost & Es & Ev & Ef).
  exists node, costMap. split; [done|]. split; [done|].
  apply check_total in Hsv; [|by apply GetScheduledList_hostname].
  apply cost_total in Hcost. unfold Filter, Score. rewrite Hn. cbn. rewrite Es, Ev, Ef, Hsv, Hcost. cbn.
  split; [|done]. case_bool_decide; cbn; [split; [lia|done]|split; [done|lia]].
Qed.
End NetworkOverhead.

(** ** Normalisation *)

Lemma min_max_loop l : ∀ max min max' min',
  foldl (λ '(max, min) nodeScore,
      (if bool_decide (ns_score nodeScore > max) then ns_score nodeScore else max,
       if bool_decide (ns_score nodeScore < min) then ns_score nodeScore else min)) (max, min) l = (max', min') →
  max ≤ max' ∧ min' ≤ min ∧ (∀ s, s ∈ l → min' ≤ ns_score s ≤ max') ∧
  (max' = max ∨ ∃ s, s ∈ l ∧ ns_score s = max') ∧ (min' = min ∨ ∃ s, s ∈ l ∧ ns_score s = min').
Proof.
  induction l as [|s l IH]; intros max min max' min'; cbn.
  { intros [= <- <-]. split_and!; [lia|lia|by intros s ?%elem_of_nil|by left|by left]. }
  intros Hf. apply IH in Hf as (Hmax & Hmin & Hall & Hx & Hn). clear IH.
  repeat case_bool_decide; split_and!; try lia;
    try (intros x [->|Hin]%elem_of_cons; [lia|by apply Hall]);
    try (destruct Hx as [->|(x & ? & ?)]; [first [by left|right; exists s; split; [left|done]]
                                          |right; exists x; split; [by right|done]]);
    (destruct Hn as [->|(x & ? & ?)]; [first [by left|right; exists s; split; [left|done]]
                                          |right; exists x; split; [by right|done]]).
Qed.

Lemma getMinMaxScores_spec scores s0 :
  s0 ∈ scores → (∀ s, s ∈ scores → in64 (ns_score s)) →
  ∃ lo hi, getMinMaxScores scores = (lo, hi) ∧
    (∃ s, s ∈ scores ∧ ns_score s = lo) ∧ (∃ s, s ∈ scores ∧ ns_score s = hi) ∧
    ∀ s, s ∈ scores → lo ≤ ns_score s ≤ hi.
Proof.
  intros H0in Hin. unfold getMinMaxScores.
  destruct (foldl _ _ scores) as [hi lo] eqn:E. apply min_max_loop in E as (Hmax & Hmin & Hall & Hx & Hn).
  exists lo, hi. pose proof (Hall _ H0in). pose proof (Hin _ H0in) as Hs0.
  unfold in64, MinInt64, MaxInt64 in *. split_and!; [done| | |done].
  - destruct Hn as [E|?]; [|done]. exists s0. split; [done|lia].
  - destruct Hx as [E|?]; [|done]. exists s0. split; [done|lia].
Qed.


(** ** Witness *)

#[export] Instance w_names : NetworkAwareNames := {|
  AppGroupLabel := "appgroup"; AppGroupSelectorLabel := "workload";
  NetworkTopologyRegion := "region"; NetworkTopologyZone := "zone";
  NetworkTopologyNetperfCosts := "NetperfCosts" |}.

Definition w_node (name zone : string) : Node := {| n_name := name;
  n_labels := {[LabelTopologyRegion := "r"; LabelTopologyZone := zone]};
  n_unschedulable := false; n_capacity := ∅; n_allocatable := ∅ |}.

Definition w_ni (name zone : string) : NodeInfo := {| ni_node := Some (w_node name zone); ni_pods := [];
  ni_allocatable := zero_resource; ni_requested := zero_resource; ni_nonzero_requested := zero_resource |}.

Definition w_front : Pod := with_labels (model_pod "a" "front" "" 0 ∅)
  {["appgroup" := "g"; "workload" := "front"]}.
Definition w_db : Pod := with_labels (model_pod "a" "db" "n2" 0 ∅)
  {["appgroup" := "g"; "workload" := "db"]}.

Definition w_group : AppGroup := {| ag_UID := "u";
  ag_Workloads := [{| agw_Selector := "front";
                      agw_Dependencies := [{| dep_Selector := "db"; dep_MaxNetworkCost := 5 |}] |}];
  ag_TopologyOrder := [] |}.

Definition w_costs : WeightInfo := {| wi_Name := "UserDefined"; wi_TopologyList :=
  [{| ti_TopologyKey := "zone"; ti_OriginList :=
      [{| oi_Origin := "z1"; oi_CostList := [{| ci_Destination := "z2"; ci_NetworkCost := 10 |}] |}] |};
   {| ti_TopologyKey := "region"; ti_OriginList := [] |}] |}.

Definition w_plugin : NetworkOverhead := {|
  no_namespaces := ["ns"]; no_weightsName := "UserDefined"; no_ntName := "nt";
  no_Get_AppGroup _ _ := Some w_group;
  no_Get_NetworkTopology _ _ := Some {| nt_UID := "u"; nt_Weights := [w_costs] |};
  no_podLister_List _ := Some [w_db];
  no_NodeInfos_List := Some [w_ni "n1" "z1"; w_ni "n2" "z2"];
  no_NodeInfos_Get name := if decide (name = "n2") then Some (w_ni "n2" "z2") else None |}.

(** The pod is rejected on n1, where the database costs 10, and accepted on n2. *)
Lemma PreFilter_Filter_Score_witness :
  ∃ st status, PreFilter w_plugin w_front = Ret (Some st, status) ∧ scoreEqually st = false ∧
    IsSuccess (Filter (Some st) (w_ni "n1" "z1")) = false ∧
    IsSuccess (Filter (Some st) (w_ni "n2" "z2")) = true ∧
    fst <$> Score (Some st) (w_ni "n1" "z1") = Ret 10 ∧
    IsSuccess status = true.
Proof.
  destruct (PreFilter w_plugin w_front) as [[[st|] status]|] eqn:Hpre; [|by vm_compute in Hpre..].
  exists st, status. split; [done|].
  assert (scoreEqually st = false) as Hse.
  { assert (scoreEqually <$> (PreFilter w_plugin w_front ≫= λ r, deref r.1) = Ret false) as E
      by (vm_compute; reflexivity). rewrite Hpre in E. by injection E. }
  split; [done|].
  assert ((λ st, (IsSuccess (Filter (Some st) (w_ni "n1" "z1")), IsSuccess (Filter (Some st) (w_ni "n2" "z2")),
    fst <$> Score (Some st) (w_ni "n1" "z1"))) <$> (PreFilter w_plugin w_front ≫= λ r, deref r.1) =
    Ret (false, true, Ret 10)) as E by (vm_compute; reflexivity).
  rewrite Hpre in E. injection E as E1 E2 E3. split; [done|]. split; [done|]. split; [done|].
  apply (PreFilter_Filter_Score w_plugin w_front st status [w_ni "n1" "z1"; w_ni "n2" "z2"]
    (w_ni "n1" "z1") Hpre Hse eq_refl); [|by left].
  change (NoDup [Some "n1"; Some "n2"]). by apply (bool_decide_eq_true_1 _).
Defined.

Definition w_costs_scores : list NodeScore :=
  [{| ns_name := "a"; ns_score := 7 |}; {| ns_name := "b"; ns_score := 4 |}; {| ns_name := "c"; ns_score := 13 |}].

