(* ===== verification/QosSort.v ===== *)
(** * pkg/qos/queue_sort.go

    The QOSSort plugin orders the scheduling queue by priority, QoS class and
    time of arrival. *)

From S2P Require Import Prelude GoSort K8s K8sModel.

Section QosSort.
Context `{QuantityOps} `{!FrameworkOps}.

(** The fields of framework.QueuedPodInfo that are read; timestamps are
    nanoseconds. *)
Record QueuedPodInfo := mkQueuedPodInfo { qp_Pod : Pod; qp_Timestamp : Z }.

(** The precedence map: all three classes have an entry. *)
Definition qosOrder (c : PodQOSClass) : Z :=
  match c with
  | PodQOSBestEffort => 1
  | PodQOSBurstable => 2
  | PodQOSGuaranteed => 3
  end.

Definition compQOS (p1 p2 : Pod) : Z :=
  let p1QOS := GetPodQOS p1 in
  let p2QOS := GetPodQOS p2 in
  if bool_decide (qosOrder p1QOS > qosOrder p2QOS) then 1
  else if bool_decide (qosOrder p1QOS < qosOrder p2QOS) then -1
  else 0.

Definition Less (pInfo1 pInfo2 : QueuedPodInfo) : bool :=
  let p1 := PodPriority (qp_Pod pInfo1) in
  let p2 := PodPriority (qp_Pod pInfo2) in
  if negb (bool_decide (p1 = p2)) then bool_decide (p1 > p2)
  else
    let qosResult := compQOS (qp_Pod pInfo1) (qp_Pod pInfo2) in
    if negb (bool_decide (qosResult = 0)) then bool_decide (qosResult > 0)
    else bool_decide (qp_Timestamp pInfo1 < qp_Timestamp pInfo2).

(** The order as one lexicographic comparison. *)
Definition before (a b : QueuedPodInfo) : Prop :=
  let p i := PodPriority (qp_Pod i) in
  let q i := qosOrder (GetPodQOS (qp_Pod i)) in
  p a > p b ∨ p a = p b ∧ (q a > q b ∨ q a = q b ∧ qp_Timestamp a < qp_Timestamp b).

Lemma Less_before a b : Less a b = true ↔ before a b.
Proof.
  unfold Less, compQOS, before.
  repeat first [case_bool_decide | progress simpl]; split; intros; try done; lia.
Qed.

Lemma Less_not_before a b : Less a b = false ↔ ¬ before a b.
Proof. rewrite <- Less_before. by destruct (Less a b). Qed.

Lemma Less_strict_weak : StrictWeak Less.
Proof.
  split.
  - intros a b. rewrite Less_before, Less_not_before. unfold before. lia.
  - intros a b c. rewrite !Less_not_before. unfold before. lia.
Qed.

(** [Less] is a strict weak order, and any queue sorted with it, by any
    sorting algorithm, is a permutation of the pods in which an earlier pod has
    a higher priority, or the same priority and a better QoS class, or the
    same of both and did not arrive later. *)
Theorem queue_sorted `{GoSort} (queue : list QueuedPodInfo) :
  StrictWeak Less ∧ sort_slice Less queue ≡ₚ queue ∧
  ∀ i j a b, sort_slice Less queue !! i = Some a → sort_slice Less queue !! j = Some b → (i < j)%nat →
    let p x := PodPriority (qp_Pod x) in
    let q x := qosOrder (GetPodQOS (qp_Pod x)) in
    p a > p b ∨ p a = p b ∧ (q a > q b ∨ q a = q b ∧ qp_Timestamp a ≤ qp_Timestamp b).
Proof.
  split; [apply Less_strict_weak|]. split; [apply sort_slice_perm|].
  intros i j a b Hi Hj Hij p q.
  pose proof (sort_slice_lookup Less queue i j a b Less_strict_weak Hi Hj Hij) as Hba.
  apply Less_not_before in Hba. unfold before in Hba. subst p q. simpl. lia.
Qed.
End QosSort.
