(* ===== verification/ScoreNorm.v ===== *)
(** * pkg/podstate and pkg/noderesources: integer node scores

    The PodState plugin and the NodeResourcesAllocatable plugin score a node
    with an int64 and stretch the scores of all nodes over the framework's
    range with the same [NormalizeScore]. *)

From S2P Require Import Prelude K8s K8sModel.

(** ** The common NormalizeScore *)

Definition highest_lowest (scores : list NodeScore) : Z * Z :=
  foldl (λ '(highest, lowest) nodeScore,
    (if bool_decide (ns_score nodeScore > highest) then ns_score nodeScore else highest,
     if bool_decide (ns_score nodeScore < lowest) then ns_score nodeScore else lowest))
    (- MaxInt64, MaxInt64) scores.

(** The branch tests that the divisor is not zero. *)
Definition normalize (lowest oldRange newRange : Z) (nodeScore : NodeScore) : NodeScore := {|
  ns_name := ns_name nodeScore;
  ns_score :=
    if bool_decide (oldRange = 0) then MinNodeScore
    else wrap64 (Z.quot ((ns_score nodeScore -₆₄ lowest) *₆₄ newRange) oldRange) +₆₄ MinNodeScore |}.

Definition NormalizeScore (scores : list NodeScore) : list NodeScore :=
  let '(highest, lowest) := highest_lowest scores in
  let oldRange := highest -₆₄ lowest in
  let newRange := MaxNodeScore - MinNodeScore in
  normalize lowest oldRange newRange <$> scores.

(** podstate's copy *)
Definition ps_NormalizeScore (scores : list NodeScore) : list NodeScore := NormalizeScore scores.

Section Bounds.
Context (B : Z) (HB64 : 2 * B * 100 < 2 ^ 63).

Definition bounded (scores : list NodeScore) : Prop :=
  ∀ s, s ∈ scores → - B ≤ ns_score s ≤ B.

Lemma highest_lowest_spec scores :
  scores ≠ [] → bounded scores →
  ∃ hi lo, highest_lowest scores = (hi, lo) ∧
    (∃ s, s ∈ scores ∧ ns_score s = hi) ∧ (∃ s, s ∈ scores ∧ ns_score s = lo) ∧
    ∀ s, s ∈ scores → lo ≤ ns_score s ≤ hi.
Proof.
  intros Hne Hb. unfold highest_lowest.
  assert (∀ l hi lo, (∃ s, s ∈ scores ∧ ns_score s = hi) → (∃ s, s ∈ scores ∧ ns_score s = lo) →
    l ⊆ scores → ∃ hi' lo', foldl (λ '(highest, lowest) nodeScore,
      (if bool_decide (ns_score nodeScore > highest) then ns_score nodeScore else highest,
       if bool_decide (ns_score nodeScore < lowest) then ns_score nodeScore else lowest)) (hi, lo) l =
      (hi', lo') ∧ hi ≤ hi' ∧ lo' ≤ lo ∧
      (∃ s, s ∈ scores ∧ ns_score s = hi') ∧ (∃ s, s ∈ scores ∧ ns_score s = lo') ∧
      ∀ s, s ∈ l → lo' ≤ ns_score s ≤ hi') as Hloop.
  { induction l as [|s l IH]; intros hi lo Hhi Hlo Hsub; simpl.
    - exists hi, lo. split; [done|]. repeat (split; [done || lia|]). by intros s ?%not_elem_of_nil.
    - destruct (IH (if bool_decide (ns_score s > hi) then ns_score s else hi)
                   (if bool_decide (ns_score s < lo) then ns_score s else lo))
        as (hi' & lo' & E & ? & ? & ? & ? & Hall).
      + case_bool_decide; [exists s; split; [apply Hsub; by left|done]|done].
      + case_bool_decide; [exists s; split; [apply Hsub; by left|done]|done].
      + intros x Hx. apply Hsub. by right.
      + exists hi', lo'. split; [done|]. repeat case_bool_decide; repeat (split; [done || lia|]);
          intros x [->|Hx]%elem_of_cons; auto; lia. }
  destruct scores as [|s scores]; [done|]. simpl.
  assert (- B ≤ ns_score s ≤ B) by (apply Hb; by left).
  rewrite !bool_decide_true by (unfold MaxInt64; lia).
  destruct (Hloop scores (ns_score s) (ns_score s)) as (hi & lo & E & ? & ? & ? & ? & Hall).
  - exists s. split; [by left|done].
  - exists s. split; [by left|done].
  - intros x Hx. by right.
  - exists hi, lo. split; [done|]. split; [done|]. split; [done|].
    intros x [->|Hx]%elem_of_cons; [lia|auto].
Qed.

Lemma normalize_value lo hi s :
  - B ≤ lo → hi ≤ B → lo ≤ ns_score s ≤ hi →
  ns_score (normalize lo (hi -₆₄ lo) 100 s) =
  if decide (hi = lo) then 0 else (ns_score s - lo) * 100 / (hi - lo).
Proof.
  intros Hlo Hhi Hs. unfold normalize, MinNodeScore. cbn [ns_score].
  rewrite (wrap64_id (hi - lo)) by (unfold in64; lia).
  destruct (decide (hi = lo)) as [->|Hne]; [by rewrite bool_decide_true by lia|].
  rewrite bool_decide_false by lia.
  rewrite (wrap64_id (ns_score s - lo)) by (unfold in64; lia).
  rewrite (wrap64_id ((ns_score s - lo) * 100)) by (unfold in64; lia).
  rewrite Z.quot_div_nonneg by lia.
  assert (0 ≤ (ns_score s - lo) * 100 / (hi - lo) ≤ 100).
  { split; [apply Z.div_pos; lia|]. apply Z.div_le_upper_bound; nia. }
  rewrite Z.add_0_r, wrap64_wrap. apply wrap64_id. unfold in64. lia.
Qed.
End Bounds.

(** On scores of absolute value below 2^55, [NormalizeScore] keeps the
    nodes in place, maps every score into [0, 100], preserves their order, and
    maps the lowest score to 0 and the highest to 100 (all to 0 when they are
    equal). *)
Theorem NormalizeScore_spec B scores :
  0 ≤ B < 2 ^ 55 → bounded B scores →
  ns_name <$> NormalizeScore scores = ns_name <$> scores ∧
  ∃ f : Z → Z, ns_score <$> NormalizeScore scores = f <$> (ns_score <$> scores) ∧
    (∀ s, s ∈ scores → 0 ≤ f (ns_score s) ≤ 100) ∧
    (∀ s t, s ∈ scores → t ∈ scores → ns_score s ≤ ns_score t → f (ns_score s) ≤ f (ns_score t)) ∧
    (∀ s, s ∈ scores → (∀ t, t ∈ scores → ns_score s ≤ ns_score t) → f (ns_score s) = 0) ∧
    (∀ s t, s ∈ scores → t ∈ scores → ns_score t < ns_score s →
            (∀ t, t ∈ scores → ns_score t ≤ ns_score s) → f (ns_score s) = 100).
Proof.
  intros [HB HB55] Hb. assert (2 * B * 100 < 2 ^ 63) as HB64 by lia.
  split.
  { unfold NormalizeScore. destruct (highest_lowest scores). rewrite <- list_fmap_compose.
    by apply list_fmap_ext. }
  destruct scores as [|s0 scores0]; [exists id; repeat split; intros; try done; by exfalso; eapply not_elem_of_nil|].
  destruct (highest_lowest_spec B HB64 (s0 :: scores0)) as (hi & lo & E & Hhi & Hlo & Hall); [done|done|].
  unfold NormalizeScore. rewrite E. change (MaxNodeScore - MinNodeScore) with 100.
  set (scores := s0 :: scores0) in *. clearbody scores.
  destruct Hhi as (sh & Hsh & Eh), Hlo as (sl & Hsl & El).
  pose proof (Hb sh Hsh) as Hbh. pose proof (Hb sl Hsl) as Hbl.
  exists (λ z, if decide (hi = lo) then 0 else (z - lo) * 100 / (hi - lo)).
  split.
  { rewrite <- !list_fmap_compose. apply list_fmap_ext. intros i s Hi. cbn.
    apply list_elem_of_lookup_2 in Hi. apply (normalize_value B HB64); [lia|lia|by apply Hall]. }
  split; [|split; [|split]].
  - intros s Hs. specialize (Hall s Hs). case_decide; [lia|].
    split; [apply Z.div_pos; lia|]. apply Z.div_le_upper_bound; nia.
  - intros s t Hs Ht Hst. case_decide; [lia|]. apply Z.div_le_mono; [|nia].
    specialize (Hall s Hs). lia.
  - intros s Hs Hmin. case_decide; [done|]. specialize (Hmin sl Hsl). specialize (Hall s Hs).
    replace (ns_score s - lo) with 0 by lia. done.
  - intros s t Hs Ht Hlt Hmax. specialize (Hmax sh Hsh). pose proof (Hall s Hs). pose proof (Hall t Ht).
    rewrite decide_False by lia. replace (ns_score s) with hi by lia.
    rewrite Z.mul_comm, Z.div_mul by lia. done.
Qed.

(** ** PodState *)

Section PodState.
Context `{QuantityOps}.

Definition ps_score (NominatedPodsForNode : string → list Pod) (nodeInfo : NodeInfo) :
    outcome (Z * Status) :=
  node ← deref (ni_node nodeInfo);
  let nominatedPodNum := Z.of_nat (length (NominatedPodsForNode (n_name node))) in
  let terminatingPodNum :=
    foldl (λ n p, if bool_decide (is_Some (p_deletion_timestamp p)) then n +₆₄ 1 else n) 0 (ni_pods nodeInfo) in
  Ret (terminatingPodNum -₆₄ nominatedPodNum, None).
End PodState.

(** ** NodeResourcesAllocatable *)

Section Allocatable.
Context `{MapOrder} `{QuantityOps} `{!FrameworkOps}.

Inductive ModeType := Least | Most | OtherMode.

Definition defaultResourcesToWeightMap : gmap string Z :=
  {[ResourceMemory := 1; ResourceCPU := Z.shiftl 1 20]}.

Definition calculatePodResourceRequest (pod : Pod) (resource : string) : Z :=
  let podRequest := foldl (λ podRequest container,
    match c_requests container !! resource with
    | Some qty => podRequest +₆₄ q_Value qty
    | None => podRequest
    end) 0 (p_containers pod) in
  let podRequest := foldl (λ podRequest initContainer,
    match c_requests initContainer !! resource with
    | Some qty => let value := q_Value qty in
                  if bool_decide (podRequest < value) then value else podRequest
    | None => podRequest
    end) podRequest (p_init_containers pod) in
  match p_overhead pod with
  | Some overhead =>
      match overhead !! resource with
      | Some quantity => podRequest +₆₄ q_Value quantity
      | None => podRequest
      end
  | None => podRequest
  end.

Definition calculateResourceAllocatableRequest (nodeInfo : NodeInfo) (pod : Pod) (resource : string) : Z * Z :=
  let podRequest := calculatePodResourceRequest pod resource in
  if bool_decide (resource = ResourceCPU)
  then (MilliCPU (ni_allocatable nodeInfo), MilliCPU (ni_nonzero_requested nodeInfo) +₆₄ podRequest)
  else if bool_decide (resource = ResourceMemory)
  then (Memory (ni_allocatable nodeInfo), Memory (ni_nonzero_requested nodeInfo) +₆₄ podRequest)
  else if bool_decide (resource = ResourceEphemeralStorage)
  then (EphemeralStorage (ni_allocatable nodeInfo), EphemeralStorage (ni_requested nodeInfo) +₆₄ podRequest)
  else if IsScalarResourceName resource
  then (scalar (ni_allocatable nodeInfo) resource, scalar (ni_requested nodeInfo) resource +₆₄ podRequest)
  else (0, 0).

Definition score (capacity : Z) (mode : ModeType) : Z :=
  match mode with
  | Least => -1 *₆₄ capacity
  | Most => capacity
  | OtherMode => 0
  end.

Definition score_step (mode : ModeType) (allocable : gmap string Z) (acc : Z * Z)
    (entry : string * Z) : Z * Z :=
  let '(nodeScore, weightSum) := acc in
  let '(resource, weight) := entry in
  let resourceScore := score (default 0 (allocable !! resource)) mode in
  (nodeScore +₆₄ resourceScore *₆₄ weight, weightSum +₆₄ weight).

Definition resourceScorer (resToWeightMap : gmap string Z) (mode : ModeType)
    (requested allocable : gmap string Z) : outcome Z :=
  let '(nodeScore, weightSum) :=
    foldl (score_step mode allocable) (0, 0) (range resToWeightMap) in
  go_div nodeScore weightSum.

(** The loop of [resourceAllocationScorer.score] over the weights. *)
Definition collect_step (nodeInfo : NodeInfo) (pod : Pod) (acc : gmap string Z * gmap string Z)
    (entry : string * Z) : gmap string Z * gmap string Z :=
  let '(allocatable, requested) := acc in
  let '(a, r) := calculateResourceAllocatableRequest nodeInfo pod entry.1 in
  (<[entry.1 := a]> allocatable, <[entry.1 := r]> requested).

Definition allocation_score (resToWeightMap : gmap string Z) (mode : ModeType) (pod : Pod)
    (nodeInfo : NodeInfo) : outcome (Z * Status) :=
  match ni_node nodeInfo with
  | None => Ret (0, Some (NewStatus Error "node not found"))
  | Some _ =>
      let '(allocatable, requested) :=
        foldl (collect_step nodeInfo pod) (∅, ∅) (range resToWeightMap) in
      s ← resourceScorer resToWeightMap mode requested allocatable;
      Ret (s, None)
  end.

(** [framework.Status] of a nil error; the weights are validated to be
    positive. *)
Definition al_Score (resToWeightMap : gmap string Z) (mode : ModeType) (pod : Pod)
    (nodeInfo : NodeInfo) : outcome (Z * Status) :=
  allocation_score resToWeightMap mode pod nodeInfo.

(** ** Properties of the Allocatable score *)

Definition allocatable_of (nodeInfo : NodeInfo) (resource : string) : Z :=
  let r := ni_allocatable nodeInfo in
  if decide (resource = ResourceCPU) then MilliCPU r
  else if decide (resource = ResourceMemory) then Memory r
  else if decide (resource = ResourceEphemeralStorage) then EphemeralStorage r
  else if IsScalarResourceName resource then scalar r resource else 0.

Definition mode_sign (mode : ModeType) : Z :=
  match mode with Least => -1 | Most => 1 | OtherMode => 0 end.

(** The weighted sum of the allocatable resources, and the sum of the weights. *)
Definition weighted_sum (nodeInfo : NodeInfo) (weights : list (string * Z)) : Z :=
  zsum (λ e, allocatable_of nodeInfo e.1 * e.2) weights.
Definition weight_sum (weights : list (string * Z)) : Z := zsum snd weights.

Lemma calculate_allocatable nodeInfo pod resource :
  (calculateResourceAllocatableRequest nodeInfo pod resource).1 = allocatable_of nodeInfo resource.
Proof.
  unfold calculateResourceAllocatableRequest, allocatable_of.
  repeat case_bool_decide; repeat case_decide; try done. by destruct (IsScalarResourceName resource).
Qed.

Lemma allocatable_map_lookup nodeInfo pod (m : gmap string Z) k w acc :
  m !! k = Some w →
  (foldl (collect_step nodeInfo pod) acc (range m)).1 !! k = Some (allocatable_of nodeInfo k).
Proof.
  intros Hk. assert ((k, w) ∈ range m) as Hin by by apply elem_of_range. revert Hin.
  induction (range m) as [|[k' w'] l IH] using rev_ind; intros Hin; [by apply not_elem_of_nil in Hin|].
  rewrite foldl_snoc. destruct (foldl _ _ l) as [a' r'] eqn:Hf. unfold collect_step. cbn.
  pose proof (calculate_allocatable nodeInfo pod k') as Hc.
  destruct (calculateResourceAllocatableRequest nodeInfo pod k') as [x y]. cbn in *. subst x.
  rewrite lookup_insert. case_decide as Hkk; [by subst|].
  apply elem_of_app in Hin as [Hin|Hin%list_elem_of_singleton]; [by apply IH|congruence].
Qed.

Lemma score_loop mode allocable l ns ws :
  foldl (score_step mode allocable) (wrap64 ns, wrap64 ws) l =
  (wrap64 (ns + zsum (λ e : string * Z, mode_sign mode * default 0 (allocable !! e.1) * e.2) l),
   wrap64 (ws + zsum snd l)).
Proof.
  revert ns ws. induction l as [|[k w] l IH]; intros ns ws; cbn [foldl score_step].
  { cbn. by rewrite !Z.add_0_r. }
  assert (score (default 0 (allocable !! k)) mode *₆₄ w =
    wrap64 (mode_sign mode * default 0 (allocable !! k) * w)) as ->.
  { destruct mode; unfold score, mode_sign; [apply wrap64_mul_l|f_equal; lia..]. }
  rewrite wrap64_add_l, wrap64_add_r.
  rewrite wrap64_add_l, IH. cbn. f_equal; f_equal; unfold zsum; lia.
Qed.

(** With positive weights whose weighted sum fits in an int64, the score of
    a node is the weighted mean of its allocatable resources, rounded towards
    zero, taken negatively in mode Least; it does not depend on the iteration
    order of the weights, and there is no division by zero. *)
Theorem al_Score_spec weights mode pod nodeInfo node :
  ni_node nodeInfo = Some node → weights ≠ ∅ → map_Forall (λ _ w, 0 < w) weights →
  in64 (weighted_sum nodeInfo (map_to_list weights)) → weight_sum (map_to_list weights) < 2 ^ 63 →
  - 2 ^ 63 < weighted_sum nodeInfo (map_to_list weights) →
  al_Score weights mode pod nodeInfo =
  Ret (Z.quot (mode_sign mode * weighted_sum nodeInfo (map_to_list weights))
              (weight_sum (map_to_list weights)), None).
Proof.
  intros Hn Hne Hpos H64 Hws Hmin. unfold al_Score, allocation_score. rewrite Hn.
  destruct (foldl _ _ _) as [allocatable requested] eqn:Hf.
  assert (∀ k w, weights !! k = Some w → allocatable !! k = Some (allocatable_of nodeInfo k)) as Halloc.
  { intros k w Hk. pose proof (allocatable_map_lookup nodeInfo pod weights k w (∅, ∅) Hk) as E. by rewrite Hf in E. }
  assert (0 < weight_sum (map_to_list weights)) as Hwpos.
  { apply map_choose in Hne as (k & w & Hk). pose proof (Hpos k w Hk) as Hw.
    change (0 < sum_map id weights). rewrite (sum_map_delete id weights k w Hk). cbn.
    enough (0 ≤ sum_map id (delete k weights)) by (cbn in *; lia). apply sum_map_nonneg.
    apply (map_Forall_delete _ _ k) in Hpos. eapply map_Forall_impl; [done|]. cbn. lia. }
  assert (resourceScorer weights mode requested allocatable =
    Ret (Z.quot (mode_sign mode * weighted_sum nodeInfo (map_to_list weights))
              (weight_sum (map_to_list weights)))) as ->; [|done].
  unfold resourceScorer. change (0, 0) with (wrap64 0, wrap64 0). rewrite score_loop.
  assert (zsum (λ e : string * Z, mode_sign mode * default 0 (allocatable !! e.1) * e.2) (range weights) =
    mode_sign mode * weighted_sum nodeInfo (map_to_list weights)) as ->.
  { unfold weighted_sum. rewrite range_perm, zsum_mul_l. apply zsum_ext.
    intros [k w] Hin%elem_of_map_to_list. cbn. rewrite (Halloc k w Hin). cbn. lia. }
  rewrite (range_perm _ weights). fold (weight_sum (map_to_list weights)).
  set (W := weighted_sum _ _) in *. set (D := weight_sum _) in *. rewrite !Z.add_0_l.
  assert (in64 (mode_sign mode * W)) as Hs by (unfold in64 in *; destruct mode; simpl; lia).
  rewrite (wrap64_id D), (wrap64_id (mode_sign mode * W)) by (done || unfold in64; lia).
  unfold go_div. rewrite decide_False by lia. f_equal. apply wrap64_id.
  assert (- 2 ^ 63 < mode_sign mode * W < 2 ^ 63) as HN
    by (unfold in64 in *; destruct mode; simpl; lia).
  set (N := mode_sign mode * W) in *. clearbody N D.
  assert (Z.abs (Z.quot N D) ≤ Z.abs N) as Hq.
  { rewrite <- Z.quot_abs by lia. rewrite Z.quot_div_nonneg by lia. apply Z.div_le_upper_bound; nia. }
  unfold in64 in *. lia.
Qed.
End Allocatable.

(** ** Witnesses *)

Definition w_scores : list NodeScore :=
  [{| ns_name := "a"; ns_score := -3 |}; {| ns_name := "b"; ns_score := 7 |};
   {| ns_name := "c"; ns_score := 0 |}].

Lemma NormalizeScore_spec_witness :
  (ns_score <$> NormalizeScore w_scores) = [0; 100; 30] ∧
  (ns_name <$> NormalizeScore w_scores) = ["a"; "b"; "c"].
Proof.
  split; [by vm_compute|].
  apply (NormalizeScore_spec 10 w_scores); [lia|].
  intros s Hs. unfold w_scores in Hs. rewrite !elem_of_cons, elem_of_nil in Hs.
  destruct Hs as [->|[->|[->|[]]]]; simpl; lia.
Defined.

Definition w_alloc_node : NodeInfo := {|
  ni_node := Some {| n_name := "n"; n_labels := ∅; n_unschedulable := false; n_capacity := ∅;
                     n_allocatable := ∅ |};
  ni_pods := [];
  ni_allocatable := {| MilliCPU := 4000; Memory := 2 ^ 33; EphemeralStorage := 0; AllowedPodNumber := 110;
                       ScalarResources := ∅ |};
  ni_requested := zero_resource; ni_nonzero_requested := zero_resource |}.

Lemma al_Score_spec_witness :
  al_Score defaultResourcesToWeightMap Least (model_pod "a" "p" "" 0 ∅) w_alloc_node =
  Ret (Z.quot (-1 * weighted_sum w_alloc_node (map_to_list defaultResourcesToWeightMap))
              (weight_sum (map_to_list defaultResourcesToWeightMap)), None) ∧
  fst <$> al_Score defaultResourcesToWeightMap Least (model_pod "a" "p" "" 0 ∅) w_alloc_node = Ret (-12191).
Proof.
  split; [|by vm_compute].
  apply (al_Score_spec defaultResourcesToWeightMap Least (model_pod "a" "p" "" 0 ∅) w_alloc_node
    {| n_name := "n"; n_labels := ∅; n_unschedulable := false; n_capacity := ∅; n_allocatable := ∅ |}).
  - done.
  - done.
  - intros k w. unfold defaultResourcesToWeightMap. rewrite lookup_insert, lookup_singleton.
    repeat case_decide; intros [= <-]; done.
  - by vm_compute.
  - by vm_compute.
  - by vm_compute.
Defined.
