(* ===== verification/NodeConfig.v ===== *)
(** * pkg/noderesourcetopology/nodeconfig, and the NodeResourceTopology object

    The records hold the fields of the NodeResourceTopology custom resource
    (NRT for short) that are read.  Its Go types, their helper functions and
    the names of the policies and scopes come from third-party packages: they
    are the class [NrtAPI]. *)

From S2P Require Import Prelude K8s K8sModel.

Record AttributeInfo := { at_Name : string; at_Value : string }.
Record CostInfo := { cost_Name : string; cost_Value : Z }.

Record ResourceInfo `{QuantityOps} := {
  ri_Name : string;
  ri_Capacity : Quantity;
  ri_Allocatable : Quantity;
  ri_Available : Quantity;
}.

Record Zone `{QuantityOps} := {
  z_Name : string;
  z_Type : string;
  z_Costs : list CostInfo;
  z_Resources : list ResourceInfo;
}.

Record NodeResourceTopology `{QuantityOps} := {
  nrt_Name : string;
  nrt_Annotations : gmap string string;
  nrt_TopologyPolicies : list string;
  nrt_Attributes : list AttributeInfo;
  nrt_Zones : list Zone;
}.

Class NrtAPI : Type := {
  SingleNUMANodePodLevel : string;
  SingleNUMANodeContainerLevel : string;
  BestEffortPodLevel : string;
  BestEffortContainerLevel : string;
  RestrictedPodLevel : string;
  RestrictedContainerLevel : string;
  (* k8s.io/kubernetes/pkg/kubelet/apis/config *)
  ContainerTopologyManagerScope : string;
  PodTopologyManagerScope : string;
  NoneTopologyManagerPolicy : string;
  BestEffortTopologyManagerPolicy : string;
  RestrictedTopologyManagerPolicy : string;
  SingleNumaNodeTopologyManagerPolicy : string;
  (* helper/attribute.Get and helper/numanode.NameToID *)
  attribute_Get : list AttributeInfo → string → option AttributeInfo;
  NameToID : string → option Z;
}.

Section NodeConfig.
Context `{NrtAPI} `{QuantityOps}.

(** ** Definitions *)

Definition AttributeScope : string := "topologyManagerScope".
Definition AttributePolicy : string := "topologyManagerPolicy".

Definition IsValidScope (scope : string) : bool :=
  bool_decide (scope = ContainerTopologyManagerScope) || bool_decide (scope = PodTopologyManagerScope).

Definition IsValidPolicy (policy : string) : bool :=
  bool_decide (policy = NoneTopologyManagerPolicy) || bool_decide (policy = BestEffortTopologyManagerPolicy) ||
  bool_decide (policy = RestrictedTopologyManagerPolicy) ||
  bool_decide (policy = SingleNumaNodeTopologyManagerPolicy).

Record TopologyManager := mkTopologyManager { Scope : string; Policy : string }.

Definition TopologyManagerDefaults : TopologyManager :=
  mkTopologyManager ContainerTopologyManagerScope NoneTopologyManagerPolicy.

Definition TopologyManager_Equal (conf other : TopologyManager) : bool :=
  if negb (bool_decide (Scope conf = Scope other)) then false
  else if negb (bool_decide (Policy conf = Policy other)) then false
  else true.

Definition update_attribute (conf : TopologyManager) (attr : AttributeInfo) : TopologyManager :=
  if bool_decide (at_Name attr = AttributeScope) && IsValidScope (at_Value attr)
  then mkTopologyManager (at_Value attr) (Policy conf)
  else if bool_decide (at_Name attr = AttributePolicy) && IsValidPolicy (at_Value attr)
  then mkTopologyManager (Scope conf) (at_Value attr)
  else conf.

Definition updateFromAttributes (conf : TopologyManager) (attrs : list AttributeInfo) : TopologyManager :=
  foldl update_attribute conf attrs.

Definition updateFromPolicies (conf : TopologyManager) (topologyPolicies : list string) : TopologyManager :=
  match topologyPolicies with
  | [] => conf
  | policyName :: _ =>
      if bool_decide (policyName = SingleNUMANodePodLevel)
      then mkTopologyManager PodTopologyManagerScope SingleNumaNodeTopologyManagerPolicy
      else if bool_decide (policyName = SingleNUMANodeContainerLevel)
      then mkTopologyManager ContainerTopologyManagerScope SingleNumaNodeTopologyManagerPolicy
      else if bool_decide (policyName = BestEffortPodLevel)
      then mkTopologyManager PodTopologyManagerScope BestEffortTopologyManagerPolicy
      else if bool_decide (policyName = BestEffortContainerLevel)
      then mkTopologyManager ContainerTopologyManagerScope BestEffortTopologyManagerPolicy
      else if bool_decide (policyName = RestrictedPodLevel)
      then mkTopologyManager PodTopologyManagerScope RestrictedTopologyManagerPolicy
      else if bool_decide (policyName = RestrictedContainerLevel)
      then mkTopologyManager ContainerTopologyManagerScope RestrictedTopologyManagerPolicy
      else conf
  end.

Definition TopologyManagerFromNodeResourceTopology (nodeTopology : NodeResourceTopology) : TopologyManager :=
  let conf := TopologyManagerDefaults in
  let conf := updateFromPolicies conf (nrt_TopologyPolicies nodeTopology) in
  updateFromAttributes conf (nrt_Attributes nodeTopology).

(** attr_watch.go *)
Definition areAttrsChanged (oldNrt newNrt : NodeResourceTopology) : bool :=
  let oldConf := TopologyManagerFromNodeResourceTopology oldNrt in
  let newConf := TopologyManagerFromNodeResourceTopology newNrt in
  negb (TopologyManager_Equal oldConf newConf).

(** ** Properties *)

(** The last attribute with a valid value, as the attributes are listed. *)
Definition last_valid (name : string) (valid : string → bool) (attrs : list AttributeInfo) : option string :=
  last (at_Value <$> filter (λ a, at_Name a = name ∧ valid (at_Value a) = true) attrs).

Lemma filter_snoc {A} (P : A → Prop) `{!∀ x, Decision (P x)} (l : list A) x :
  filter P (l ++ [x]) = filter P l ++ (if decide (P x) then [x] else []).
Proof. by rewrite filter_app, filter_cons, filter_nil. Qed.

Lemma updateFromAttributes_spec conf attrs :
  updateFromAttributes conf attrs =
  mkTopologyManager (default (Scope conf) (last_valid AttributeScope IsValidScope attrs))
                    (default (Policy conf) (last_valid AttributePolicy IsValidPolicy attrs)).
Proof.
  unfold updateFromAttributes, last_valid.
  induction attrs as [|a attrs IH] using rev_ind; [by destruct conf|].
  rewrite foldl_snoc, IH, !filter_snoc, !fmap_app. unfold update_attribute.
  assert (AttributeScope ≠ AttributePolicy) by done.
  destruct (decide (at_Name a = AttributeScope ∧ IsValidScope (at_Value a) = true)) as [[Hn Hv]|Hs].
  - rewrite bool_decide_true, Hv by done. cbn. rewrite last_snoc, decide_False by (intros [? _]; congruence).
    cbn. by rewrite app_nil_r.
  - replace (bool_decide (at_Name a = AttributeScope) && IsValidScope (at_Value a)) with false.
    2: { symmetry. apply not_true_iff_false. rewrite andb_true_iff, bool_decide_eq_true. tauto. }
    cbn. rewrite app_nil_r.
    destruct (decide (at_Name a = AttributePolicy ∧ IsValidPolicy (at_Value a) = true)) as [[Hn Hv]|Hp].
    + rewrite bool_decide_true, Hv by done. cbn. by rewrite last_snoc.
    + replace (bool_decide (at_Name a = AttributePolicy) && IsValidPolicy (at_Value a)) with false.
      2: { symmetry. apply not_true_iff_false. rewrite andb_true_iff, bool_decide_eq_true. tauto. }
      cbn. by rewrite app_nil_r.
Qed.

Lemma last_valid_valid name valid attrs v : last_valid name valid attrs = Some v → valid v = true.
Proof.
  unfold last_valid. intros Hl. apply last_Some in Hl as [l Hl].
  assert (v ∈ at_Value <$> filter (λ a, at_Name a = name ∧ valid (at_Value a) = true) attrs) as Hin.
  { rewrite Hl. apply elem_of_app. right. by left. }
  apply list_elem_of_fmap in Hin as (a & -> & Ha). by apply list_elem_of_filter in Ha as [[_ ?] _].
Qed.

(** The configuration read from an NRT object always has a valid scope and
    a valid policy, whatever the object holds; each of the two is the last
    valid attribute of its name, and without one what the first deprecated
    policy says, or else the default. *)
Theorem TopologyManagerFromNodeResourceTopology_spec nrt :
  let conf := TopologyManagerFromNodeResourceTopology nrt in
  let fallback := updateFromPolicies TopologyManagerDefaults (nrt_TopologyPolicies nrt) in
  IsValidScope (Scope conf) = true ∧ IsValidPolicy (Policy conf) = true ∧
  Scope conf = default (Scope fallback) (last_valid AttributeScope IsValidScope (nrt_Attributes nrt)) ∧
  Policy conf = default (Policy fallback) (last_valid AttributePolicy IsValidPolicy (nrt_Attributes nrt)).
Proof.
  cbn zeta. unfold TopologyManagerFromNodeResourceTopology. rewrite updateFromAttributes_spec. cbn [Scope Policy].
  set (fallback := updateFromPolicies _ _).
  assert (IsValidScope (Scope fallback) = true ∧ IsValidPolicy (Policy fallback) = true) as [Hs Hp].
  { subst fallback. unfold updateFromPolicies, IsValidScope, IsValidPolicy. rewrite !orb_true_iff, !bool_decide_eq_true.
    repeat case_match; cbn; tauto. }
  split; [|split; [|done]].
  - destruct (last_valid AttributeScope _ _) eqn:E; cbn; [by apply last_valid_valid in E|done].
  - destruct (last_valid AttributePolicy _ _) eqn:E; cbn; [by apply last_valid_valid in E|done].
Qed.
End NodeConfig.

(** ** A concrete instance of the NRT helpers *)

#[export] Instance model_nrt_api : NrtAPI := {|
  SingleNUMANodePodLevel := "SingleNUMANodePodLevel";
  SingleNUMANodeContainerLevel := "SingleNUMANodeContainerLevel";
  BestEffortPodLevel := "BestEffortPodLevel";
  BestEffortContainerLevel := "BestEffortContainerLevel";
  RestrictedPodLevel := "RestrictedPodLevel";
  RestrictedContainerLevel := "RestrictedContainerLevel";
  ContainerTopologyManagerScope := "container";
  PodTopologyManagerScope := "pod";
  NoneTopologyManagerPolicy := "none";
  BestEffortTopologyManagerPolicy := "best-effort";
  RestrictedTopologyManagerPolicy := "restricted";
  SingleNumaNodeTopologyManagerPolicy := "single-numa-node";
  attribute_Get attrs name := head (filter (λ a, at_Name a = name) attrs);
  NameToID name :=
    if bool_decide (name = "node-0") then Some 0
    else if bool_decide (name = "node-1") then Some 1 else None;
|}.
