(* ===== verification/Stringify.v ===== *)
(** * pkg/noderesourcetopology/stringify: objects in log messages

    [stringify.go]: resource lists and NRT objects as text.  The numbers of a
    quantity and the rendering of a number of bytes are third-party operations. *)

From stdpp Require Import pretty.
From S2P Require Import Prelude GoSort Strconv K8s K8sModel NodeConfig.

(** resource.Quantity.AsInt64, 0 when the quantity is not an integer, and
    go-humanize's [IBytes]. *)
Class RenderOps `{QuantityOps} : Type := {
  q_AsInt64 : Quantity → Z * bool;
  IBytes : Z → string;
}.

(** ** Definitions *)

Section Stringify.
Context `{MapOrder} `{GoSort} `{QuantityOps} `{!FrameworkOps} `{!RenderOps}.

Definition needsHumanization (rn : string) : bool :=
  if bool_decide (rn = ResourceMemory) then true
  else if bool_decide (rn = ResourceStorage) || bool_decide (rn = ResourceEphemeralStorage) then true
  else IsHugePageResourceName rn.

(** The conversion [uint64(v)]. *)
Definition to_uint64 (v : Z) : Z := v mod 2 ^ 64.

(** [strconv.FormatInt] in base 10, or [humanize.IBytes]. *)
Definition render (resName : string) (resVal : Z) : string :=
  if needsHumanization resName then IBytes (to_uint64 resVal) else pretty resVal.

(** An element of the list for the logger is a name or a value, both strings. *)
Definition ResourceListToLoggableWithValues (items : list string) (resources : resource_list) : list string :=
  let resNames := foldl (λ resNames '(resName, _), resNames ++ [resName]) [] (range resources) in
  let resNames := sort_slice str_lt resNames in
  foldl (λ items resName,
    let qty := default q_zero (resources !! resName) in
    let items := items ++ [resName] in
    let '(resVal, _) := q_AsInt64 qty in
    items ++ [render resName resVal]) items resNames.

Definition ResourceListToLoggable (resources : resource_list) : list string :=
  ResourceListToLoggableWithValues [] resources.

Definition ResourceList (resources : resource_list) : string :=
  let resNames := foldl (λ resNames '(resName, _), resNames ++ [resName]) [] (range resources) in
  let resNames := sort_slice str_lt resNames in
  let resItems := foldl (λ resItems resName,
    let qty := default q_zero (resources !! resName) in
    let '(resVal, _) := q_AsInt64 qty in
    resItems ++ [resName +:+ "=" +:+ render resName resVal]) [] resNames in
  Join resItems ",".

Definition nrtResourceInfo (resInfo : ResourceInfo) : string :=
  let '(capVal, _) := q_AsInt64 (ri_Capacity resInfo) in
  let '(allocVal, _) := q_AsInt64 (ri_Allocatable resInfo) in
  let '(availVal, _) := q_AsInt64 (ri_Available resInfo) in
  if negb (needsHumanization (ri_Name resInfo))
  then ri_Name resInfo +:+ "=" +:+ pretty capVal +:+ "/" +:+ pretty allocVal +:+ "/" +:+ pretty availVal
  else ri_Name resInfo +:+ "=" +:+ IBytes (to_uint64 capVal) +:+ "/" +:+ IBytes (to_uint64 allocVal) +:+ "/" +:+
       IBytes (to_uint64 availVal).

Definition nrtResourceInfoListToString (resInfoList : list ResourceInfo) : string :=
  Join (foldl (λ items resInfo, items ++ [nrtResourceInfo resInfo]) [] resInfoList) ",".

(** The slice [numaItems] that the loop fills is not used. *)
Definition NodeResourceTopologyResources (nrtObj : NodeResourceTopology) : string :=
  let zones := foldl (λ zones zoneInfo,
    zones ++ [z_Name zoneInfo +:+ "=<" +:+ nrtResourceInfoListToString (z_Resources zoneInfo) +:+ ">"]) [] (nrt_Zones nrtObj) in
  nrt_Name nrtObj +:+ "={" +:+ Join zones "," +:+ "}".
End Stringify.

(** ** The text of a resource list *)

Lemma foldl_snoc_map {A B} (step : list B → A → list B) (f : A → B) l :
  (∀ acc x, step acc x = acc ++ [f x]) → foldl step [] l = map f l.
Proof.
  intros Hstep. enough (∀ acc, foldl step acc l = acc ++ map f l) as E by apply E.
  induction l as [|x l IH]; intros acc; cbn; [by rewrite app_nil_r|]. by rewrite Hstep, IH, <- app_assoc.
Qed.

Lemma str_lt_strict_weak : StrictWeak str_lt.
Proof.
  split; [apply str_lt_asym|]. intros a b c Hab Hbc.
  destruct (decide (a = b)) as [->|Hne]; [done|]. destruct (decide (b = c)) as [->|Hne']; [done|].
  apply str_lt_trichotomy in Hab; [|done]. apply str_lt_trichotomy in Hbc; [|done].
  apply str_lt_asym. by eapply str_lt_trans.
Qed.

(** Sorting distinct strings leaves no choice. *)
Lemma sorted_strings_unique (l l' : list string) :
  l ≡ₚ l' → StronglySorted (not_after str_lt) l → StronglySorted (not_after str_lt) l' → l = l'.
Proof.
  intros Hp Hs. revert l' Hp. induction Hs as [|a l Hs IH Ha]; intros l' Hp Hs'.
  - by apply Permutation_nil in Hp as ->.
  - destruct Hs' as [|b l' Hs' Hb]; [by symmetry in Hp; apply Permutation_nil in Hp|].
    assert (a = b) as ->.
    { destruct (decide (a = b)) as [|Hne]; [done|]. exfalso. rewrite Forall_forall in Ha, Hb.
      assert (Hb' : b ∈ a :: l) by (rewrite Hp; left). assert (Ha' : a ∈ b :: l') by (rewrite <- Hp; left).
      apply elem_of_cons in Hb' as [->|Hb']; [done|]. apply elem_of_cons in Ha' as [->|Ha']; [done|].
      specialize (Ha b Hb'). specialize (Hb a Ha'). unfold not_after in *.
      apply str_lt_trichotomy in Hb; [|done]. congruence. }
    f_equal. apply IH; [|done]. by apply Permutation_cons_inv in Hp.
Qed.

Section Order.
Context `{QuantityOps} `{!FrameworkOps} `{!RenderOps}.

(** The names of the resources in the order of the text. *)
Definition sorted_names `{MapOrder} `{GoSort} (resources : resource_list) : list string :=
  sort_slice str_lt (map fst (range resources)).

Lemma sorted_names_spec `{MapOrder} `{GoSort} resources :
  sorted_names resources ≡ₚ elements (dom resources) ∧ StronglySorted (not_after str_lt) (sorted_names resources).
Proof.
  split; [|apply sort_slice_sorted, str_lt_strict_weak]. unfold sorted_names. rewrite sort_slice_perm.
  rewrite (Permutation_map fst (range_perm _ resources)). apply NoDup_Permutation.
  - apply NoDup_fst_map_to_list.
  - apply NoDup_elements.
  - intros n. rewrite elem_of_elements, elem_of_dom, list_elem_of_fmap. split.
    + intros ([k q] & -> & Hk%elem_of_map_to_list). by exists q.
    + intros [q Hq]. exists (n, q). split; [done|]. by apply elem_of_map_to_list.
Qed.

Lemma ResourceList_names `{MapOrder} `{GoSort} resources :
  ResourceList resources =
  Join (map (λ n, n +:+ "=" +:+ render n (q_AsInt64 (default q_zero (resources !! n))).1) (sorted_names resources)) ",".
Proof.
  unfold ResourceList, sorted_names.
  assert (foldl (λ (resNames : list string) '(resName, _), resNames ++ [resName]) [] (range resources) =
          map fst (range resources)) as ->.
  { apply foldl_snoc_map. by intros ? []. }
  f_equal. apply foldl_snoc_map. intros items n. by destruct (q_AsInt64 _).
Qed.

(** The text of a resource list lists each resource once, in the order of the names, and
    does not depend on the order in which the map is visited or on how the names are sorted. *)
Theorem ResourceList_deterministic (M1 M2 : MapOrder) (S1 S2 : GoSort) resources :
  @ResourceList M1 S1 _ _ _ resources = @ResourceList M2 S2 _ _ _ resources ∧
  @sorted_names M1 S1 resources ≡ₚ elements (dom resources).
Proof.
  destruct (@sorted_names_spec M1 S1 resources) as [Hp1 Hs1]. destruct (@sorted_names_spec M2 S2 resources) as [Hp2 Hs2].
  split; [|done]. rewrite !ResourceList_names. f_equal. f_equal. apply sorted_strings_unique; [by rewrite Hp1, Hp2|done..].
Qed.
End Order.

(** ** Evaluation *)

(** [AsInt64] of the model, whose numbers are in units of 10^-9: the whole numbers. *)
Definition z_AsInt64 (q : Z) : Z * bool := if decide (q mod 10 ^ 9 = 0) then (q / 10 ^ 9, true) else (0, false).

Definition z_IBytes (z : Z) : string := pretty (z / 1024) +:+ " KiB".

#[local] Instance w_render : @RenderOps ZQuantity := {| q_AsInt64 := z_AsInt64; IBytes := z_IBytes |}.

Definition w_half_a_core : gmap string Z := <[ResourceMemory := bytes 2048]> {[ResourceCPU := 500000000%Z]}.

(** Half a core is not an integer and is logged as 0. *)
Lemma half_a_core_logged_as_zero :
  @ResourceList _ _ ZQuantity _ w_render w_half_a_core = "cpu=0,memory=2 KiB".
Proof. by vm_compute. Qed.
