(* ===== verification/NrtCache.v ===== *)
(** * pkg/noderesourcetopology/cache: the interface and its simple
    implementations

    The resource predicates of [resourcerequests/exclusive.go], the pod
    predicates of [podprovider] and [cache/foreign_pods.go], the interface
    every cache implements ([cache.go]) as the class [NrtCache] with its
    contract [NrtCacheSpec], and the [Passthrough] and [DiscardReserved]
    caches.  The OverReserve cache is in the file OverReserve. *)

From S2P Require Import Prelude K8s K8sModel ResourceUtil NodeConfig.

(** ** Exclusive resources *)

Section Exclusive.
Context `{MapOrder} `{QuantityOps} `{!FrameworkOps}.

Definition IncludeNonNative (pod : Pod) : bool :=
  let non_native c := existsb (λ '(resource, _), negb (IsNativeResource resource)) (range (c_requests c)) in
  existsb non_native (p_init_containers pod) || existsb non_native (p_containers pod).

Definition IsExclusive (qos : PodQOSClass) (resource : string) (quantity : Quantity) : bool :=
  if negb (IsNativeResource resource) then true
  else if negb (bool_decide (qos = PodQOSGuaranteed)) then false
  else if bool_decide (resource = ResourceCPU) &&
          (bool_decide (q_Value quantity *₆₄ 1000 = q_MilliValue quantity) &&
           bool_decide (q_Value quantity > 0)) then true
  else if (bool_decide (resource = ResourceMemory) || IsHugePageResourceName resource) &&
          bool_decide (q_Value quantity > 0) then true
  else false.

Definition areExclusiveForAnyContainer (qos : PodQOSClass) (containers : list Container) : bool :=
  existsb (λ ctr, existsb (λ '(resource, quantity), IsExclusive qos resource quantity)
    (range (c_requests ctr))) containers.

Definition AreExclusiveForPod (pod : Pod) : bool :=
  let qos := GetPodQOS pod in
  areExclusiveForAnyContainer qos (p_init_containers pod ++ p_containers pod).

(** *** Which pods matter to the cache *)

(** podprovider.go *)
Definition IsPodRelevantShared (pod : Pod) : bool := bool_decide (p_phase pod = PodRunning).

Definition IsPodRelevantDedicated (pod : Pod) : bool :=
  if bool_decide (p_phase pod = PodPending) then false
  else if bool_decide (p_node_name pod = "") then false
  else true.

(** foreign_pods.go; the two globals of the package are arguments. *)
Definition IsForeignPod (schedProfileNames : gset string) (onlyExclusiveResources : bool) (pod : Pod) : bool :=
  if bool_decide (p_node_name pod = "") then false
  else if bool_decide (p_scheduler_name pod ∈ schedProfileNames) then false
  else if negb onlyExclusiveResources then true
  else AreExclusiveForPod pod.
End Exclusive.

(** ** The interface *)

Record CachedNRTInfo := { Generation : Z; Fresh : bool }.

(** [client.Get]: the NRT object of a node, as the API server has it. *)
Abbreviation nrt_client := (string → option NodeResourceTopology).

Class NrtCache `{QuantityOps} (S : Type) : Type := {
  GetCachedNRTCopy : S → string → Pod → option NodeResourceTopology * CachedNRTInfo;
  NodeMaybeOverReserved : S → string → Pod → S;
  NodeHasForeignPods : S → string → Pod → S;
  ReserveNodeResources : S → string → Pod → S;
  UnreserveNodeResources : S → string → Pod → S;
  PostBind : S → string → Pod → S;
}.

(** [zone_le a b]: the zone [a] is [b] with some of its available amounts
    lowered, never below zero (or a negative one raised to zero). *)
Section Contract.
Context `{QuantityOps} `{!QuantitySpec}.

Definition resource_le (a b : ResourceInfo) : Prop :=
  ri_Name a = ri_Name b ∧ ri_Capacity a = ri_Capacity b ∧
  (0 ≤ amount (ri_Available b) → 0 ≤ amount (ri_Available a)) ∧
  amount (ri_Available a) ≤ Z.max 0 (amount (ri_Available b)).

Definition zone_le (a b : Zone) : Prop :=
  z_Name a = z_Name b ∧ z_Type a = z_Type b ∧ z_Costs a = z_Costs b ∧
  Forall2 resource_le (z_Resources a) (z_Resources b).

Definition nrt_le (a b : NodeResourceTopology) : Prop :=
  nrt_Name a = nrt_Name b ∧ nrt_Annotations a = nrt_Annotations b ∧
  nrt_TopologyPolicies a = nrt_TopologyPolicies b ∧ nrt_Attributes a = nrt_Attributes b ∧
  Forall2 zone_le (nrt_Zones a) (nrt_Zones b).

Lemma resource_le_refl a : resource_le a a.
Proof. split_and!; [done..|lia]. Qed.

Lemma zone_le_refl a : zone_le a a.
Proof. split_and!; [done..|]. apply Forall_Forall2_diag, Forall_true. apply resource_le_refl. Qed.

Lemma nrt_le_refl a : nrt_le a a.
Proof. split_and!; [done..|]. apply Forall_Forall2_diag, Forall_true. apply zone_le_refl. Qed.
End Contract.

(** What a cache promises the plugin, as long as only pods with non-negative
    requests are reserved: [source] is the object the answer is made from. *)
Class NrtCacheSpec `{QuantityOps} `{!QuantitySpec} (S : Type) `{!NrtCache S} : Type := {
  cache_ok : S → Prop;
  source : S → string → option NodeResourceTopology;
  (* a copy never offers more than its source, and is offered as fresh *)
  get_conservative s nodeName pod nrt info :
    cache_ok s → GetCachedNRTCopy s nodeName pod = (Some nrt, info) →
    Fresh info = true ∧ ∃ src, source s nodeName = Some src ∧ nrt_le nrt src;
  (* fresh data is only missing when there is no source *)
  get_missing s nodeName pod info :
    GetCachedNRTCopy s nodeName pod = (None, info) → Fresh info = true → source s nodeName = None;
  (* the calls of the scheduler do not change what the answers are made from *)
  calls_keep s s' nodeName pod :
    cache_ok s → pod_nonneg pod →
    s' ∈ [NodeMaybeOverReserved s nodeName pod; NodeHasForeignPods s nodeName pod;
          ReserveNodeResources s nodeName pod; UnreserveNodeResources s nodeName pod;
          PostBind s nodeName pod] →
    cache_ok s' ∧ source s' = source s;
}.

(** ** Passthrough *)

Section Passthrough.
Context `{QuantityOps}.

Record Passthrough := { pt_client : nrt_client }.

Definition pt_GetCachedNRTCopy (pt : Passthrough) (nodeName : string) :
    option NodeResourceTopology * CachedNRTInfo :=
  let info := {| Generation := 0; Fresh := true |} in
  match pt_client pt nodeName with
  | None => (None, info)
  | Some nrt => (Some nrt, info)
  end.

#[export] Instance passthrough_cache : NrtCache Passthrough := {|
  GetCachedNRTCopy pt nodeName _ := pt_GetCachedNRTCopy pt nodeName;
  NodeMaybeOverReserved pt _ _ := pt;
  NodeHasForeignPods pt _ _ := pt;
  ReserveNodeResources pt _ _ := pt;
  UnreserveNodeResources pt _ _ := pt;
  PostBind pt _ _ := pt;
|}.

#[export] Instance passthrough_spec `{!QuantitySpec} : NrtCacheSpec Passthrough.
Proof.
  refine {| cache_ok _ := True; source := pt_client |}.
  2: { intros pt nodeName pod info. cbn. unfold pt_GetCachedNRTCopy. by destruct (pt_client pt nodeName). }
  2: { intros s s' nodeName pod _ _. rewrite !elem_of_cons, elem_of_nil. naive_solver. }
  intros pt nodeName pod nrt info _. cbn. unfold pt_GetCachedNRTCopy.
  destruct (pt_client pt nodeName) as [n|]; intros [= <- <-]. split; [done|].
  exists n. split; [done|apply nrt_le_refl].
Defined.
End Passthrough.

(** ** DiscardReserved *)

Section DiscardReserved.
Context `{QuantityOps}.

(** The keys of a set of reservations; every value the code stores is true. *)
Record DiscardReserved := {
  dr_client : nrt_client;
  reservationMap : gmap string (gset string);
}.

Definition NewDiscardReserved (client : nrt_client) : DiscardReserved :=
  {| dr_client := client; reservationMap := ∅ |}.

Definition dr_GetCachedNRTCopy (pt : DiscardReserved) (nodeName : string) :
    option NodeResourceTopology * CachedNRTInfo :=
  let reserved := match reservationMap pt !! nodeName with
                  | Some t => bool_decide (0 < size t)%nat
                  | None => false
                  end in
  if reserved then (None, {| Generation := 0; Fresh := false |})
  else
    let info := {| Generation := 0; Fresh := true |} in
    match dr_client pt nodeName with
    | None => (None, info)
    | Some nrt => (Some nrt, info)
    end.

Definition dr_ReserveNodeResources (pt : DiscardReserved) (nodeName : string) (pod : Pod) : DiscardReserved :=
  let uids := default ∅ (reservationMap pt !! nodeName) in
  {| dr_client := dr_client pt;
     reservationMap := <[nodeName := {[p_uid pod]} ∪ uids]> (reservationMap pt) |}.

(** [delete] on a missing inner map does nothing. *)
Definition removeReservationForNode (pt : DiscardReserved) (nodeName : string) (pod : Pod) : DiscardReserved :=
  {| dr_client := dr_client pt;
     reservationMap := alter (λ t, t ∖ {[p_uid pod]}) nodeName (reservationMap pt) |}.

#[export] Instance discard_cache : NrtCache DiscardReserved := {|
  GetCachedNRTCopy pt nodeName _ := dr_GetCachedNRTCopy pt nodeName;
  NodeMaybeOverReserved pt _ _ := pt;
  NodeHasForeignPods pt _ _ := pt;
  ReserveNodeResources := dr_ReserveNodeResources;
  UnreserveNodeResources := removeReservationForNode;
  PostBind := removeReservationForNode;
|}.

#[export] Instance discard_spec `{!QuantitySpec} : NrtCacheSpec DiscardReserved.
Proof.
  refine {| cache_ok _ := True; source := dr_client |}.
  2: { intros pt nodeName pod info. cbn. unfold dr_GetCachedNRTCopy.
       set (reserved := match _ with Some t => _ | None => _ end). destruct reserved; [by intros [= <-]|].
       by destruct (dr_client pt nodeName). }
  2: { intros s s' nodeName pod _ _. rewrite !elem_of_cons, elem_of_nil. naive_solver. }
  intros pt nodeName pod nrt info _. cbn. unfold dr_GetCachedNRTCopy.
  set (reserved := match _ with Some t => _ | None => _ end). destruct reserved; [done|].
  destruct (dr_client pt nodeName) as [n|]; intros [= <- <-]. split; [done|].
  exists n. split; [done|apply nrt_le_refl].
Defined.

(** *** Properties *)

Inductive dr_op := DrReserve (nodeName : string) (pod : Pod) | DrUnreserve (nodeName : string) (pod : Pod)
                 | DrPostBind (nodeName : string) (pod : Pod).

Definition dr_apply (pt : DiscardReserved) (o : dr_op) : DiscardReserved :=
  match o with
  | DrReserve nodeName pod => ReserveNodeResources pt nodeName pod
  | DrUnreserve nodeName pod => UnreserveNodeResources pt nodeName pod
  | DrPostBind nodeName pod => PostBind pt nodeName pod
  end.

Definition dr_run (client : nrt_client) (ops : list dr_op) : DiscardReserved :=
  foldl dr_apply (NewDiscardReserved client) ops.

(** The operation is about the pod with this UID on this node. *)
Definition dr_about (nodeName uid : string) (o : dr_op) : Prop :=
  match o with DrReserve n p | DrUnreserve n p | DrPostBind n p => n = nodeName ∧ p_uid p = uid end.

(** Reserved, and neither unreserved nor bound since. *)
Definition dr_pending (ops : list dr_op) (nodeName uid : string) : Prop :=
  ∃ ops1 pod ops2, ops = ops1 ++ DrReserve nodeName pod :: ops2 ∧ p_uid pod = uid ∧
    Forall (λ o, ¬ dr_about nodeName uid o) ops2.

Lemma dr_pending_snoc ops o nodeName uid :
  dr_pending (ops ++ [o]) nodeName uid ↔
  (∃ pod, o = DrReserve nodeName pod ∧ p_uid pod = uid) ∨
  (dr_pending ops nodeName uid ∧ ¬ dr_about nodeName uid o).
Proof.
  split.
  - intros (ops1 & pod & ops2 & E & Hu & Hf). destruct ops2 as [|o' ops2 _] using rev_ind.
    + apply app_inj_tail in E as [-> ->]. eauto.
    + rewrite app_comm_cons, app_assoc in E. apply app_inj_tail in E as [-> ->].
      apply Forall_app in Hf as [Hf Ho]. right. split; [by exists ops1, pod, ops2|].
      rewrite Forall_singleton in Ho. exact Ho.
  - intros [(pod & -> & Hu)|[(ops1 & pod & ops2 & -> & Hu & Hf) Ho]].
    + exists ops, pod, []. done.
    + exists ops1, pod, (ops2 ++ [o]). split_and!; [by rewrite <- app_assoc|done|].
      apply Forall_app. split; [done|by rewrite Forall_singleton].
Qed.

Lemma dr_run_lookup client ops nodeName uid :
  uid ∈ default ∅ (reservationMap (dr_run client ops) !! nodeName) ↔ dr_pending ops nodeName uid.
Proof.
  unfold dr_run. induction ops as [|o ops IH] using rev_ind.
  - split; [intros Hin|intros (ops1 & pod & ops2 & E & _)].
    + cbn in Hin. rewrite lookup_empty in Hin. set_solver.
    + by destruct ops1.
  - rewrite foldl_snoc, dr_pending_snoc, <- IH. clear IH.
    set (pt := foldl dr_apply _ ops).
    destruct o as [n p|n p|n p]; cbn;
      (destruct (decide (n = nodeName)) as [->|Hn];
       [rewrite ?lookup_insert_eq, ?lookup_alter_eq|rewrite ?lookup_insert_ne, ?lookup_alter_ne by done]);
      try (split; [intros ?; right; naive_solver | intros [(? & ? & _)|[? _]]; simplify_eq; done]);
      generalize (reservationMap pt !! nodeName); intros t.
    + cbn. rewrite elem_of_union, elem_of_singleton. split; [|naive_solver].
      destruct (decide (p_uid p = uid)); naive_solver.
    + destruct t; cbn; set_solver.
    + destruct t; cbn; set_solver.
Qed.

Lemma dr_run_client client ops : dr_client (dr_run client ops) = client.
Proof.
  unfold dr_run. induction ops as [|o ops IH] using rev_ind; [done|].
  rewrite foldl_snoc. by destruct o.
Qed.

(** After any sequence of operations, the cache offers no data for a
    node, and says its data is stale, exactly while some pod is reserved on the
    node without having been unreserved or bound since; otherwise it passes on
    what the API server has. *)
Theorem DiscardReserved_spec client ops nodeName pod :
  ((∃ uid, dr_pending ops nodeName uid) →
   GetCachedNRTCopy (dr_run client ops) nodeName pod = (None, {| Generation := 0; Fresh := false |})) ∧
  ((¬ ∃ uid, dr_pending ops nodeName uid) →
   GetCachedNRTCopy (dr_run client ops) nodeName pod = (client nodeName, {| Generation := 0; Fresh := true |})).
Proof.
  pose proof (dr_run_lookup client ops nodeName) as Hl. cbn. unfold dr_GetCachedNRTCopy.
  rewrite dr_run_client. split.
  - intros [uid Hu]. apply Hl in Hu.
    destruct (reservationMap _ !! nodeName) as [t|]; cbn in Hu; [|set_solver].
    rewrite bool_decide_true; [done|]. apply Nat.neq_0_lt_0, size_non_empty_iff. set_solver.
  - intros Hno.
    assert (match reservationMap (dr_run client ops) !! nodeName with
            | Some t => bool_decide (0 < size t)%nat | None => false end = false) as ->.
    { destruct (reservationMap _ !! nodeName) as [t|]; [|done]. cbn in Hl.
      apply bool_decide_eq_false. intros Hs. apply Hno.
      destruct (set_choose_L t) as [uid Hu]; [intros ->; rewrite size_empty in Hs; lia|].
      exists uid. by apply Hl. }
    by destruct (client nodeName).
Qed.
End DiscardReserved.

(** ** Witnesses *)

Definition w_nrt : NodeResourceTopology := {|
  nrt_Name := "n"; nrt_Annotations := ∅; nrt_TopologyPolicies := []; nrt_Attributes := [];
  nrt_Zones := [] |}.

Definition w_dr_pod : Pod := model_pod "a" "p" "" 0 ∅.

Lemma DiscardReserved_spec_witness :
  GetCachedNRTCopy (dr_run (λ _, Some w_nrt) [DrReserve "n" w_dr_pod]) "n" w_dr_pod =
  (None, {| Generation := 0; Fresh := false |}).
Proof.
  apply (proj1 (DiscardReserved_spec (λ _, Some w_nrt) [DrReserve "n" w_dr_pod] "n" w_dr_pod)).
  exists "p", [], w_dr_pod, []. done.
Defined.
