(* ===== verification/OverReserve.v ===== *)
(** * pkg/noderesourcetopology/cache: the OverReserve cache

    [store.go] (the NRT store, the reservations of a node, the counters, the
    pod fingerprint), [overreserve.go] (the cache and its resynchronisation)
    and [attr_watch.go] (the watcher of configuration changes).

    Every method of the cache runs under its lock, so a concurrent execution
    is a sequence of them, the type [op].  [Resync] is three such sections:
    it reads the marks under the lock ([GetDesyncedNodes]), decides without it
    ([resync_updates]) and applies its decision under the lock ([FlushNodes]);
    [step] interleaves them with the other methods.  [ProcessEvent] takes no lock: it
    reads the store and marks the node at two moments ([event_node], [mark_changed]),
    between which anything may run.

    The fingerprint of a set of pods is computed by a third-party package, the
    class [PodFingerprint]. *)

From S2P Require Import Prelude K8s K8sModel ResourceUtil NodeConfig NrtCache.

(** apis/config/types.go *)
Inductive CacheResyncMethod := CacheResyncAutodetect | CacheResyncAll | CacheResyncOnlyExclusiveResources.
Inductive CacheResyncScope := CacheResyncScopeAll | CacheResyncScopeOnlyResources.

#[export] Instance CacheResyncMethod_eq_dec : EqDecision CacheResyncMethod.
Proof. solve_decision. Defined.
#[export] Instance CacheResyncScope_eq_dec : EqDecision CacheResyncScope.
Proof. solve_decision. Defined.

(** [Check] of a fingerprint: nil, ErrSignatureMismatch, another error. *)
Inductive pfp_error := ErrSignatureMismatch | ErrMalformed.

Class PodFingerprint : Type := {
  pfp_Attribute : string;
  pfp_AttributeMethod : string;
  pfp_MethodWithExclusiveResources : string;
  pfp_Annotation : string;
  (* the pods added, as (namespace, name), checked against a fingerprint *)
  pfp_Check : list (string * string) → string → option pfp_error;
}.

(** ** Definitions *)

Section OverReserve.
Context `{MapOrder} `{QuantityOps} `{!FrameworkOps} `{NrtAPI} `{PodFingerprint}.

(** *** store.go *)

Abbreviation nrtStore := (gmap string NodeResourceTopology).

Definition newNrtStore (nrts : list NodeResourceTopology) : nrtStore :=
  foldl (λ data nrt, <[nrt_Name nrt := nrt]> data) ∅ nrts.

Definition Contains (nrs : nrtStore) (nodeName : string) : bool := bool_decide (is_Some (nrs !! nodeName)).
Definition GetNRTCopyByNodeName (nrs : nrtStore) (nodeName : string) : option NodeResourceTopology :=
  nrs !! nodeName.
Definition nrts_Update (nrs : nrtStore) (nrt : NodeResourceTopology) : nrtStore :=
  <[nrt_Name nrt := nrt]> nrs.

Abbreviation resourceStore := (gmap string resource_list).

Definition pod_key (pod : Pod) : string := p_namespace pod +:+ "/" +:+ p_name pod.

(** AddPod and DeletePod also return whether the pod was there before. *)
Definition rs_AddPod (rs : resourceStore) (pod : Pod) : resourceStore * bool :=
  let key := pod_key pod in
  let ok := bool_decide (is_Some (rs !! key)) in
  let resData := GetPodEffectiveRequest pod in
  (<[key := resData]> rs, ok).

Definition rs_DeletePod (rs : resourceStore) (pod : Pod) : resourceStore * bool :=
  let key := pod_key pod in
  let ok := bool_decide (is_Some (rs !! key)) in
  (delete key rs, ok).

Definition set_Available (zr : ResourceInfo) (q : Quantity) : ResourceInfo :=
  {| ri_Name := ri_Name zr; ri_Capacity := ri_Capacity zr; ri_Allocatable := ri_Allocatable zr; ri_Available := q |}.

Definition deduct_resource (res : resource_list) (zr : ResourceInfo) : ResourceInfo :=
  match res !! ri_Name zr with
  | None => zr
  | Some qty =>
      if bool_decide (q_Cmp (ri_Available zr) qty = Lt) then set_Available zr q_zero
      else set_Available zr (q_Sub (ri_Available zr) qty)
  end.

Definition deduct_zone (res : resource_list) (zone : Zone) : Zone := {|
  z_Name := z_Name zone; z_Type := z_Type zone; z_Costs := z_Costs zone;
  z_Resources := map (deduct_resource res) (z_Resources zone) |}.

Definition deduct (nrt : NodeResourceTopology) (res : resource_list) : NodeResourceTopology := {|
  nrt_Name := nrt_Name nrt; nrt_Annotations := nrt_Annotations nrt;
  nrt_TopologyPolicies := nrt_TopologyPolicies nrt; nrt_Attributes := nrt_Attributes nrt;
  nrt_Zones := map (deduct_zone res) (nrt_Zones nrt) |}.

Definition UpdateNRT (rs : resourceStore) (nrt : NodeResourceTopology) : NodeResourceTopology :=
  foldl (λ nrt '(_, res), deduct nrt res) nrt (range rs).

Abbreviation counter := (gmap string Z).

Definition Incr (cnt : counter) (key : string) : counter :=
  <[key := default 0 (cnt !! key) +₆₄ 1]> cnt.
Definition IsSet (cnt : counter) (key : string) : bool := bool_decide (is_Some (cnt !! key)).
Definition cnt_Delete (cnt : counter) (key : string) : counter := delete key cnt.
Definition Keys (cnt : counter) : list string := (range cnt).*1.
Definition Clone (cnt : counter) : counter :=
  foldl (λ (cloned : counter) '(key, val), <[key := val]> cloned) ∅ (range cnt).

Definition podFingerprintForNodeTopology (nrt : NodeResourceTopology) (method : CacheResyncMethod) : string * bool :=
  match attribute_Get (nrt_Attributes nrt) pfp_Attribute with
  | Some attr =>
      let wantsOnlyExclRes :=
        if bool_decide (method = CacheResyncOnlyExclusiveResources) then true
        else if bool_decide (method = CacheResyncAutodetect) then
          match attribute_Get (nrt_Attributes nrt) pfp_AttributeMethod with
          | Some attrMethod => bool_decide (at_Value attrMethod = pfp_MethodWithExclusiveResources)
          | None => false
          end
        else false in
      (at_Value attr, wantsOnlyExclRes)
  | None => (default "" (nrt_Annotations nrt !! pfp_Annotation), false)
  end.

Record podData := { pd_Namespace : string; pd_Name : string; pd_HasExclusiveResources : bool }.

Definition checkPodFingerprintForNode (objs : list podData) (pfpExpected : string) (onlyExclRes : bool) :
    option pfp_error :=
  let added := filter (λ obj, ¬ (onlyExclRes = true ∧ pd_HasExclusiveResources obj = false)) objs in
  pfp_Check (map (λ obj, (pd_Namespace obj, pd_Name obj)) added) pfpExpected.

(** *** overreserve.go *)

Record OverReserve := {
  generation : Z;
  nrts : nrtStore;
  assumedResources : gmap string resourceStore;
  nodesMaybeOverreserved : counter;
  nodesWithForeignPods : counter;
  nodesWithAttrUpdate : counter;
  resyncMethod : CacheResyncMethod;
  isPodRelevant : Pod → bool;
}.

(** apis/config/types.go, NodeResourceTopologyCache: the fields read here. *)
Record CacheConfig := {
  cfg_ResyncMethod : option CacheResyncMethod;
  cfg_ResyncScope : option CacheResyncScope;
}.

Definition getCacheResyncMethod (cfg : option CacheConfig) : CacheResyncMethod :=
  match cfg ≫= cfg_ResyncMethod with Some m => m | None => CacheResyncAutodetect end.

Definition getCacheResyncScope (cfg : option CacheConfig) : CacheResyncScope :=
  match cfg ≫= cfg_ResyncScope with Some s => s | None => CacheResyncScopeAll end.

(** [nrtObjs] is what [client.List] returns, [None] an error; the boolean tells
    whether the watcher is started. *)
Definition NewOverReserve (cfg : option CacheConfig) (nrtObjs : option (list NodeResourceTopology))
    (relevant : Pod → bool) : option (OverReserve * bool) :=
  match nrtObjs with
  | None => None
  | Some items =>
      Some ({| generation := 0; nrts := newNrtStore items; assumedResources := ∅;
               nodesMaybeOverreserved := ∅; nodesWithForeignPods := ∅; nodesWithAttrUpdate := ∅;
               resyncMethod := getCacheResyncMethod cfg; isPodRelevant := relevant |},
            bool_decide (getCacheResyncScope cfg = CacheResyncScopeAll))
  end.

Definition set_assumed (ov : OverReserve) (a : gmap string resourceStore) : OverReserve := {|
  generation := generation ov; nrts := nrts ov; assumedResources := a;
  nodesMaybeOverreserved := nodesMaybeOverreserved ov; nodesWithForeignPods := nodesWithForeignPods ov;
  nodesWithAttrUpdate := nodesWithAttrUpdate ov; resyncMethod := resyncMethod ov;
  isPodRelevant := isPodRelevant ov |}.

Definition set_marks (ov : OverReserve) (maybe foreign attr : counter) : OverReserve := {|
  generation := generation ov; nrts := nrts ov; assumedResources := assumedResources ov;
  nodesMaybeOverreserved := maybe; nodesWithForeignPods := foreign;
  nodesWithAttrUpdate := attr; resyncMethod := resyncMethod ov;
  isPodRelevant := isPodRelevant ov |}.

Definition ov_GetCachedNRTCopy (ov : OverReserve) (nodeName : string) :
    option NodeResourceTopology * CachedNRTInfo :=
  if IsSet (nodesWithForeignPods ov) nodeName
  then (None, {| Generation := generation ov; Fresh := false |})
  else
    let info := {| Generation := generation ov; Fresh := true |} in
    match GetNRTCopyByNodeName (nrts ov) nodeName with
    | None => (None, info)
    | Some nrt =>
        match assumedResources ov !! nodeName with
        | None => (Some nrt, info)
        | Some nodeAssumedResources => (Some (UpdateNRT nodeAssumedResources nrt), info)
        end
    end.

Definition ov_NodeMaybeOverReserved (ov : OverReserve) (nodeName : string) : OverReserve :=
  set_marks ov (Incr (nodesMaybeOverreserved ov) nodeName) (nodesWithForeignPods ov) (nodesWithAttrUpdate ov).

Definition ov_NodeHasForeignPods (ov : OverReserve) (nodeName : string) : OverReserve :=
  if negb (Contains (nrts ov) nodeName) then ov
  else set_marks ov (nodesMaybeOverreserved ov) (Incr (nodesWithForeignPods ov) nodeName) (nodesWithAttrUpdate ov).

Definition ov_ReserveNodeResources (ov : OverReserve) (nodeName : string) (pod : Pod) : OverReserve :=
  let nodeAssumedResources := default ∅ (assumedResources ov !! nodeName) in
  let ov := set_assumed ov (<[nodeName := (rs_AddPod nodeAssumedResources pod).1]> (assumedResources ov)) in
  set_marks ov (cnt_Delete (nodesMaybeOverreserved ov) nodeName) (nodesWithForeignPods ov) (nodesWithAttrUpdate ov).

Definition ov_UnreserveNodeResources (ov : OverReserve) (nodeName : string) (pod : Pod) : OverReserve :=
  match assumedResources ov !! nodeName with
  | None => ov
  | Some nodeAssumedResources =>
      set_assumed ov (<[nodeName := (rs_DeletePod nodeAssumedResources pod).1]> (assumedResources ov))
  end.

Record DesyncedNodes := {
  dn_Generation : Z;
  MaybeOverReserved : list string;
  ConfigChanged : list string;
}.

Definition dn_Len (rn : DesyncedNodes) : nat := length (MaybeOverReserved rn) + length (ConfigChanged rn).

Definition GetDesyncedNodes (ov : OverReserve) : DesyncedNodes :=
  let nodes := Clone (nodesWithForeignPods ov) in
  let nodes := foldl Incr nodes (Keys (nodesMaybeOverreserved ov)) in
  let configChangeNodes := Clone (nodesWithAttrUpdate ov) in
  {| dn_Generation := generation ov; MaybeOverReserved := Keys nodes; ConfigChanged := Keys configChangeNodes |}.

Definition pod_step (relevant : Pod → bool) (nodeToObjsMap : gmap string (list podData)) (pod : Pod) :
    gmap string (list podData) :=
  if negb (relevant pod) then nodeToObjsMap
  else
    let nodeObjs := default [] (nodeToObjsMap !! p_node_name pod) in
    <[p_node_name pod := nodeObjs ++ [{| pd_Namespace := p_namespace pod; pd_Name := p_name pod;
        pd_HasExclusiveResources := AreExclusiveForPod pod |}]]> nodeToObjsMap.

(** [pods] is what [podLister.List] returns, [None] an error. *)
Definition makeNodeToPodDataMap (pods : option (list Pod)) (relevant : Pod → bool) :
    option (gmap string (list podData)) :=
  foldl (pod_step relevant) ∅ <$> pods.

(** The body of the first loop of [Resync]: the object to flush, if any. *)
Definition resync_candidate (client : nrt_client) (method : CacheResyncMethod)
    (nodeToObjsMap : gmap string (list podData)) (nodeName : string) : option NodeResourceTopology :=
  nrtCandidate ← client nodeName;
  objs ← nodeToObjsMap !! nodeName;
  let '(pfpExpected, onlyExclRes) := podFingerprintForNodeTopology nrtCandidate method in
  if bool_decide (pfpExpected = "") then None
  else match checkPodFingerprintForNode objs pfpExpected onlyExclRes with
       | Some ErrSignatureMismatch => None
       | Some ErrMalformed => None
       | None => Some nrtCandidate
       end.

(** What [Resync] decides between its two critical sections; [None] when it
    returns early, without a flush. *)
Definition resync_updates (client : nrt_client) (pods : option (list Pod)) (relevant : Pod → bool)
    (method : CacheResyncMethod) (nodes : DesyncedNodes) : option (list NodeResourceTopology) :=
  if bool_decide (dn_Len nodes = 0%nat) then None
  else
    nodeToObjsMap ← makeNodeToPodDataMap pods relevant;
    Some (omap (resync_candidate client method nodeToObjsMap) (MaybeOverReserved nodes) ++
          omap client (ConfigChanged nodes)).

Definition flush_node (ov : OverReserve) (nrt : NodeResourceTopology) : OverReserve := {|
  generation := generation ov;
  nrts := nrts_Update (nrts ov) nrt;
  assumedResources := delete (nrt_Name nrt) (assumedResources ov);
  nodesMaybeOverreserved := cnt_Delete (nodesMaybeOverreserved ov) (nrt_Name nrt);
  nodesWithForeignPods := cnt_Delete (nodesWithForeignPods ov) (nrt_Name nrt);
  nodesWithAttrUpdate := cnt_Delete (nodesWithAttrUpdate ov) (nrt_Name nrt);
  resyncMethod := resyncMethod ov; isPodRelevant := isPodRelevant ov |}.

(** The generation is a uint64. *)
Definition bump_generation (ov : OverReserve) : OverReserve := {|
  generation := (generation ov + 1) mod 2 ^ 64; nrts := nrts ov; assumedResources := assumedResources ov;
  nodesMaybeOverreserved := nodesMaybeOverreserved ov; nodesWithForeignPods := nodesWithForeignPods ov;
  nodesWithAttrUpdate := nodesWithAttrUpdate ov; resyncMethod := resyncMethod ov;
  isPodRelevant := isPodRelevant ov |}.

Definition FlushNodes (ov : OverReserve) (updates : list NodeResourceTopology) : OverReserve :=
  let ov := foldl flush_node ov updates in
  match updates with [] => ov | _ => bump_generation ov end.

(** Without anything running in between. *)
Definition Resync (ov : OverReserve) (client : nrt_client) (pods : option (list Pod)) : OverReserve :=
  match resync_updates client pods (isPodRelevant ov) (resyncMethod ov) (GetDesyncedNodes ov) with
  | None => ov
  | Some updates => FlushNodes ov updates
  end.

(** *** attr_watch.go *)

(** An event: whether its type is Modified, and its object if that is an NRT. *)
Record watch_event := { ev_modified : bool; ev_object : option NodeResourceTopology }.

Definition ProcessEvent (ov : OverReserve) (ev : watch_event) : OverReserve * bool :=
  if negb (ev_modified ev) then (ov, false)
  else match ev_object ev with
  | None => (ov, false)
  | Some nrtObj =>
      match GetNRTCopyByNodeName (nrts ov) (nrt_Name nrtObj) with
      | None => (ov, false)
      | Some nrtCur =>
          if negb (areAttrsChanged nrtCur nrtObj) then (ov, false)
          else (set_marks ov (nodesMaybeOverreserved ov) (nodesWithForeignPods ov)
                  (Incr (nodesWithAttrUpdate ov) (nrt_Name nrtObj)), true)
      end
  end.

(** The method takes no lock.  What it does at once is to read the store, after which it knows whether to
    mark a node, and, at some later moment, to increment the counter of the node. *)
Definition event_node (data : nrtStore) (ev : watch_event) : option string :=
  if negb (ev_modified ev) then None
  else match ev_object ev with
  | None => None
  | Some nrtObj =>
      match GetNRTCopyByNodeName data (nrt_Name nrtObj) with
      | None => None
      | Some nrtCur => if negb (areAttrsChanged nrtCur nrtObj) then None else Some (nrt_Name nrtObj)
      end
  end.

Definition mark_changed (ov : OverReserve) (nodeName : string) : OverReserve :=
  set_marks ov (nodesMaybeOverreserved ov) (nodesWithForeignPods ov) (Incr (nodesWithAttrUpdate ov) nodeName).

Lemma ProcessEvent_halves ov ev :
  ProcessEvent ov ev = match event_node (nrts ov) ev with
                       | None => (ov, false)
                       | Some nodeName => (mark_changed ov nodeName, true)
                       end.
Proof. unfold ProcessEvent, event_node. by repeat case_match. Qed.

(** foreign_pods.go: the handler of pod events. *)
Definition foreignCache (schedProfileNames : gset string) (onlyExclusiveResources : bool)
    (ov : OverReserve) (pod : Pod) : OverReserve :=
  if negb (IsForeignPod schedProfileNames onlyExclusiveResources pod) then ov
  else ov_NodeHasForeignPods ov (p_node_name pod).

#[export] Instance overreserve_cache : NrtCache OverReserve := {|
  GetCachedNRTCopy ov nodeName _ := ov_GetCachedNRTCopy ov nodeName;
  NodeMaybeOverReserved ov nodeName _ := ov_NodeMaybeOverReserved ov nodeName;
  NodeHasForeignPods ov nodeName _ := ov_NodeHasForeignPods ov nodeName;
  ReserveNodeResources := ov_ReserveNodeResources;
  UnreserveNodeResources := ov_UnreserveNodeResources;
  PostBind ov _ _ := ov;
|}.

(** ** Deducting the reservations *)

Section Deduction.
Context `{!QuantitySpec} `{!FrameworkSpec}.

(** The amount of a resource that the reservations of a node add up to. *)
Definition assumed_amount (rs : resourceStore) (name : string) : Z :=
  sum_map (λ res, amount_of res name) rs.

Definition rs_nonneg (rs : resourceStore) : Prop := map_Forall (λ _ res, nonneg res) rs.

(** [deducted f b a]: the object [a] is [b] with the amount [f name] taken from
    the available amount of each resource [name] of each zone, down to zero. *)
Definition deducted (f : string → Z) (b a : NodeResourceTopology) : Prop :=
  nrt_Name a = nrt_Name b ∧ nrt_Annotations a = nrt_Annotations b ∧
  nrt_TopologyPolicies a = nrt_TopologyPolicies b ∧ nrt_Attributes a = nrt_Attributes b ∧
  Forall2 (λ za zb, z_Name za = z_Name zb ∧ z_Type za = z_Type zb ∧ z_Costs za = z_Costs zb ∧
    Forall2 (λ ra rb, ri_Name ra = ri_Name rb ∧ ri_Capacity ra = ri_Capacity rb ∧
      (0 ≤ amount (ri_Available rb) →
       amount (ri_Available ra) = Z.max 0 (amount (ri_Available rb) - f (ri_Name rb))) ∧
      amount (ri_Available ra) ≤ Z.max 0 (amount (ri_Available rb)))
      (z_Resources za) (z_Resources zb)) (nrt_Zones a) (nrt_Zones b).

Lemma deduct_resource_same res zr :
  ri_Name (deduct_resource res zr) = ri_Name zr ∧ ri_Capacity (deduct_resource res zr) = ri_Capacity zr.
Proof. unfold deduct_resource. repeat case_match; done. Qed.

Lemma deduct_resource_amount res zr :
  nonneg res → 0 ≤ amount (ri_Available zr) →
  amount (ri_Available (deduct_resource res zr)) =
  Z.max 0 (amount (ri_Available zr) - amount_of res (ri_Name zr)).
Proof.
  intros Hr Ha. specialize (Hr (ri_Name zr)). unfold deduct_resource, amount_of in *.
  destruct (res !! ri_Name zr) as [qty|]; [|cbn; lia].
  rewrite q_Cmp_spec. case_bool_decide as Hc; cbn; rewrite ?amount_zero, ?amount_Sub. 
  - rewrite Z.compare_lt_iff in Hc. lia.
  - destruct (Z.compare_spec (amount (ri_Available zr)) (amount qty)); [lia|done|lia].
Qed.

Lemma deduct_resource_le res zr :
  nonneg res → amount (ri_Available (deduct_resource res zr)) ≤ Z.max 0 (amount (ri_Available zr)).
Proof.
  intros Hr. destruct (decide (0 ≤ amount (ri_Available zr))) as [Ha|Ha].
  - rewrite deduct_resource_amount by done. specialize (Hr (ri_Name zr)). lia.
  - unfold deduct_resource. destruct (res !! ri_Name zr) as [qty|] eqn:E; [|lia].
    specialize (Hr (ri_Name zr)). unfold amount_of in Hr. rewrite E in Hr.
    rewrite q_Cmp_spec, bool_decide_true by (rewrite Z.compare_lt_iff; lia). cbn. rewrite amount_zero. lia.
Qed.

Lemma deduct_deducted res nrt : nonneg res → deducted (amount_of res) nrt (deduct nrt res).
Proof.
  intros Hr. split_and!; [done..|]. cbn. apply Forall2_fmap_l, Forall_Forall2_diag, Forall_true.
  intros z. split_and!; [done..|]. cbn. apply Forall2_fmap_l, Forall_Forall2_diag, Forall_true.
  intros zr. unfold compose. pose proof (deduct_resource_same res zr) as [-> ->].
  split_and!; [done..| |]; [by apply deduct_resource_amount|by apply deduct_resource_le].
Qed.

Lemma deducted_trans f g a b c :
  (∀ name, 0 ≤ g name) → deducted g b c → deducted f a b → deducted (λ n, f n + g n) a c.
Proof.
  intros Hg (? & ? & ? & ? & Hbc) (? & ? & ? & ? & Hab). split_and!; [congruence..|].
  eapply Forall2_trans; [|exact Hbc|exact Hab]. cbn.
  intros zc zb za (? & ? & ? & Hz) (? & ? & ? & Hz'). split_and!; [congruence..|].
  eapply Forall2_trans; [|exact Hz|exact Hz']. cbn.
  intros rc rb ra (? & ? & Hr & Hle) (Hn & ? & Hr' & Hle'). split_and!; [congruence..| |lia].
  intros Ha. rewrite Hr; rewrite Hr' by done; rewrite ?Hn; [|lia]. specialize (Hg (ri_Name ra)). lia.
Qed.

Lemma deducted_refl nrt : deducted (λ _, 0) nrt nrt.
Proof.
  split_and!; [done..|]. apply Forall_Forall2_diag, Forall_true. intros z.
  split_and!; [done..|]. apply Forall_Forall2_diag, Forall_true. intros zr. split_and!; [done..|lia|lia].
Qed.

Lemma deducted_ext f g b a : (∀ n, f n = g n) → deducted f b a → deducted g b a.
Proof.
  intros Hfg (? & ? & ? & ? & Hz). split_and!; [done..|].
  eapply Forall2_impl; [exact Hz|]. intros za zb (? & ? & ? & Hr). split_and!; [done..|].
  eapply Forall2_impl; [exact Hr|]. intros ra rb (? & ? & ? & ?). by rewrite <- Hfg.
Qed.

Lemma deduct_all (l : list (string * resource_list)) nrt nrt' f :
  deducted f nrt nrt' → Forall (λ e, nonneg e.2) l →
  deducted (λ n, f n + zsum (λ e, amount_of e.2 n) l) nrt (foldl (λ nrt '(_, res), deduct nrt res) nrt' l).
Proof.
  intros Hd Hl. revert f nrt' Hd. induction Hl as [|[k res] l Hr _ IH]; intros f nrt' Hd; cbn.
  - eapply deducted_ext; [|done]. intros n. lia.
  - eapply deducted_ext; [|apply (IH (λ n, f n + amount_of res n))].
    + intros n. cbn. unfold zsum. lia.
    + eapply deducted_trans; [done| |done]. by apply deduct_deducted.
Qed.

Lemma UpdateNRT_deducted rs nrt : rs_nonneg rs → deducted (assumed_amount rs) nrt (UpdateNRT rs nrt).
Proof.
  intros Hrs. unfold UpdateNRT. eapply deducted_ext; [|apply (deduct_all _ _ _ (λ _, 0))].
  - intros n. cbn. unfold assumed_amount. by rewrite <- zsum_range.
  - apply deducted_refl.
  - apply Forall_forall. intros [k res] Hin. apply elem_of_range in Hin. by apply (Hrs k).
Qed.

Lemma deducted_le f b a : (∀ n, 0 ≤ f n) → deducted f b a → nrt_le a b.
Proof.
  intros Hf (? & ? & ? & ? & Hz). split_and!; [done..|].
  eapply Forall2_impl; [exact Hz|]. intros za zb (? & ? & ? & Hr). split_and!; [done..|].
  eapply Forall2_impl; [exact Hr|]. intros ra rb (? & ? & Ha & ?). split_and!; [done..| |done].
  intros Hb. rewrite Ha by done. specialize (Hf (ri_Name rb)). lia.
Qed.

Lemma assumed_nonneg rs name : rs_nonneg rs → 0 ≤ assumed_amount rs name.
Proof. intros Hrs. apply sum_map_nonneg. intros k res Hk. by apply (Hrs k). Qed.

Lemma assumed_empty name : assumed_amount ∅ name = 0.
Proof. apply sum_map_empty. Qed.

(** C13: a node marked as holding foreign pods yields no data, reported
    as stale; a node without a stored object yields no data, reported as
    fresh; any other node yields its stored object in which every zone offers
    what is stored minus the sum of the reservations of the node, down to
    zero, for every order in which the reservations are visited. *)
Theorem GetCachedNRTCopy_spec ov nodeName pod :
  let rs := default ∅ (assumedResources ov !! nodeName) in
  rs_nonneg rs →
  if IsSet (nodesWithForeignPods ov) nodeName
  then GetCachedNRTCopy ov nodeName pod = (None, {| Generation := generation ov; Fresh := false |})
  else match nrts ov !! nodeName with
  | None => GetCachedNRTCopy ov nodeName pod = (None, {| Generation := generation ov; Fresh := true |})
  | Some nrt => ∃ nrt',
      GetCachedNRTCopy ov nodeName pod = (Some nrt', {| Generation := generation ov; Fresh := true |}) ∧
      deducted (assumed_amount rs) nrt nrt'
  end.
Proof.
  cbn zeta. intros Hrs. cbn [GetCachedNRTCopy overreserve_cache]. unfold ov_GetCachedNRTCopy, GetNRTCopyByNodeName.
  destruct (IsSet _ _); [done|]. destruct (nrts ov !! nodeName) as [nrt|]; [|done].
  destruct (assumedResources ov !! nodeName) as [rs|]; cbn in *; eexists; (split; [done|]).
  - by apply UpdateNRT_deducted.
  - eapply deducted_ext; [|apply deducted_refl]. intros n. by rewrite assumed_empty.
Qed.
End Deduction.

(** ** The ledger of reservations *)

(** The critical sections of the cache.  An event of the watcher is processed at once ([OpEvent]), or
    the node it concerns is marked later ([OpMark]). *)
Inductive op :=
| OpReserve (nodeName : string) (pod : Pod)
| OpUnreserve (nodeName : string) (pod : Pod)
| OpMaybe (nodeName : string)
| OpForeign (nodeName : string)
| OpEvent (ev : watch_event)
| OpMark (nodeName : string)
| OpFlush (updates : list NodeResourceTopology).

Definition apply (ov : OverReserve) (o : op) : OverReserve :=
  match o with
  | OpReserve nodeName pod => ov_ReserveNodeResources ov nodeName pod
  | OpUnreserve nodeName pod => ov_UnreserveNodeResources ov nodeName pod
  | OpMaybe nodeName => ov_NodeMaybeOverReserved ov nodeName
  | OpForeign nodeName => ov_NodeHasForeignPods ov nodeName
  | OpEvent ev => (ProcessEvent ov ev).1
  | OpMark nodeName => mark_changed ov nodeName
  | OpFlush updates => FlushNodes ov updates
  end.

Definition run (ov : OverReserve) (ops : list op) : OverReserve := foldl apply ov ops.

(** The operation sets or clears the reservation [key] of the node. *)
Definition about (nodeName key : string) (o : op) : Prop :=
  match o with
  | OpReserve n pod | OpUnreserve n pod => n = nodeName ∧ pod_key pod = key
  | OpFlush updates => nodeName ∈ nrt_Name <$> updates
  | _ => False
  end.

#[export] Instance about_dec nodeName key o : Decision (about nodeName key o).
Proof. destruct o; cbn; apply _. Defined.

(** The pod was reserved on the node, and neither reserved again or unreserved
    under its name, nor its node flushed, since. *)
Definition reserved (ops : list op) (nodeName : string) (pod : Pod) : Prop :=
  ∃ ops1 ops2, ops = ops1 ++ OpReserve nodeName pod :: ops2 ∧
    Forall (λ o, ¬ about nodeName (pod_key pod) o) ops2.

Lemma reserved_snoc ops o nodeName pod :
  reserved (ops ++ [o]) nodeName pod ↔
  o = OpReserve nodeName pod ∨ (reserved ops nodeName pod ∧ ¬ about nodeName (pod_key pod) o).
Proof.
  split.
  - intros (ops1 & ops2 & E & Hf). destruct ops2 as [|o' ops2 _] using rev_ind.
    + apply app_inj_tail in E as [-> ->]. by left.
    + rewrite app_comm_cons, app_assoc in E. apply app_inj_tail in E as [-> ->].
      rewrite Forall_app, Forall_singleton in Hf. destruct Hf as [Hf Ho].
      right. split; [by exists ops1, ops2|done].
  - intros [->|[(ops1 & ops2 & -> & Hf) Ho]]; [by exists ops, []|].
    exists ops1, (ops2 ++ [o]). split; [by rewrite <- app_assoc|].
    by rewrite Forall_app, Forall_singleton.
Qed.

Lemma flush_lookup updates ov n :
  n ∉ nrt_Name <$> updates →
  nrts (foldl flush_node ov updates) !! n = nrts ov !! n ∧
  assumedResources (foldl flush_node ov updates) !! n = assumedResources ov !! n ∧
  nodesMaybeOverreserved (foldl flush_node ov updates) !! n = nodesMaybeOverreserved ov !! n ∧
  nodesWithForeignPods (foldl flush_node ov updates) !! n = nodesWithForeignPods ov !! n ∧
  nodesWithAttrUpdate (foldl flush_node ov updates) !! n = nodesWithAttrUpdate ov !! n.
Proof.
  revert ov. induction updates as [|u us IH]; intros ov Hn; [done|].
  cbn in Hn. apply not_elem_of_cons in Hn as [Hne Hn]. cbn [foldl].
  destruct (IH (flush_node ov u) Hn) as (-> & -> & -> & -> & ->). cbn.
  unfold nrts_Update, cnt_Delete. by rewrite lookup_insert_ne, !lookup_delete_ne by done.
Qed.

Lemma flush_lookup_in updates ov n :
  n ∈ nrt_Name <$> updates →
  (∃ u, u ∈ updates ∧ nrt_Name u = n ∧ nrts (foldl flush_node ov updates) !! n = Some u) ∧
  assumedResources (foldl flush_node ov updates) !! n = None ∧
  nodesMaybeOverreserved (foldl flush_node ov updates) !! n = None ∧
  nodesWithForeignPods (foldl flush_node ov updates) !! n = None ∧
  nodesWithAttrUpdate (foldl flush_node ov updates) !! n = None.
Proof.
  revert ov. induction updates as [|u us IH]; intros ov Hn; [by apply elem_of_nil in Hn|]. cbn [foldl].
  destruct (decide (n ∈ nrt_Name <$> us)) as [Hin|Hout].
  - destruct (IH (flush_node ov u) Hin) as [(v & Hv & Hname & Hst) Hrest].
    split; [|done]. exists v. split_and!; [by right|done..].
  - cbn in Hn. apply elem_of_cons in Hn as [Hu|]; [|done].
    destruct (flush_lookup us (flush_node ov u) n Hout) as (-> & -> & -> & -> & ->). cbn.
    unfold nrts_Update, cnt_Delete. rewrite <- Hu, lookup_insert_eq, !lookup_delete_eq.
    split; [|done]. exists u. split_and!; [by left|done..].
Qed.

Lemma FlushNodes_fields ov updates :
  nrts (FlushNodes ov updates) = nrts (foldl flush_node ov updates) ∧
  assumedResources (FlushNodes ov updates) = assumedResources (foldl flush_node ov updates) ∧
  nodesMaybeOverreserved (FlushNodes ov updates) = nodesMaybeOverreserved (foldl flush_node ov updates) ∧
  nodesWithForeignPods (FlushNodes ov updates) = nodesWithForeignPods (foldl flush_node ov updates) ∧
  nodesWithAttrUpdate (FlushNodes ov updates) = nodesWithAttrUpdate (foldl flush_node ov updates).
Proof. unfold FlushNodes. by destruct updates. Qed.

Lemma ProcessEvent_assumed ov ev : assumedResources (ProcessEvent ov ev).1 = assumedResources ov.
Proof. unfold ProcessEvent. repeat case_match; done. Qed.

Definition held (ov : OverReserve) (nodeName key : string) : option resource_list :=
  default ∅ (assumedResources ov !! nodeName) !! key.

Lemma held_apply ov o n key :
  (¬ about n key o → held (apply ov o) n key = held ov n key) ∧
  (about n key o → held (apply ov o) n key =
     match o with OpReserve _ pod => Some (GetPodEffectiveRequest pod) | _ => None end).
Proof.
  unfold held. destruct o as [m pod|m pod|m|m|ev|m|us]; cbn [apply about].
  - cbn. destruct (decide (m = n)) as [->|Hm].
    + rewrite lookup_insert_eq. cbn. split; intros Hk.
      * apply lookup_insert_ne. tauto.
      * destruct Hk as [_ ->]. apply lookup_insert_eq.
    + rewrite lookup_insert_ne by done. split; [done|tauto].
  - unfold ov_UnreserveNodeResources. destruct (decide (m = n)) as [->|Hm].
    + destruct (assumedResources ov !! n) as [rs|] eqn:E; cbn.
      * rewrite lookup_insert_eq. cbn. split; intros Hk.
        -- apply lookup_delete_ne. tauto.
        -- destruct Hk as [_ ->]. apply lookup_delete_eq.
      * rewrite E. split; [done|]. intros _. cbn. apply lookup_empty.
    + destruct (assumedResources ov !! m) as [rs|]; cbn; [|tauto].
      rewrite lookup_insert_ne by done. split; [done|tauto].
  - by split.
  - unfold ov_NodeHasForeignPods. split; [|done]. by destruct (negb _).
  - rewrite ProcessEvent_assumed. by split.
  - by split.
  - destruct (FlushNodes_fields ov us) as (_ & -> & _). split; intros Hn.
    + by destruct (flush_lookup us ov n Hn) as (_ & -> & _).
    + destruct (flush_lookup_in us ov n Hn) as (_ & -> & _). cbn. apply lookup_empty.
Qed.

(** C9: at any point of any interleaving of the critical sections of the
    cache, the reservations of a node are exactly the effective requests of
    the pods reserved on it that were not unreserved, reserved again under the
    same name, or flushed with their node since: no reservation is lost
    otherwise, and none survives. *)
Theorem reservations_exact ov ops nodeName key res :
  assumedResources ov = ∅ →
  held (run ov ops) nodeName key = Some res ↔
  ∃ pod, reserved ops nodeName pod ∧ pod_key pod = key ∧ res = GetPodEffectiveRequest pod.
Proof.
  intros H0v. unfold run. induction ops as [|o ops IH] using rev_ind.
  - unfold held. cbn. rewrite H0v. split; [|intros (pod & (? & ? & ? & _) & _); by destruct x].
    rewrite lookup_empty. cbn. by rewrite lookup_empty.
  - rewrite foldl_snoc. destruct (held_apply (foldl apply ov ops) o nodeName key) as [Hno Hyes].
    destruct (decide (about nodeName key o)) as [Ha|Ha].
    + rewrite (Hyes Ha). split.
      * destruct o as [m pod| | | | | |]; intros [= <-]. destruct Ha as [-> Hk].
        exists pod. split; [|done]. apply reserved_snoc. by left.
      * intros (pod & [->|[_ Hn]]%reserved_snoc & <- & ->); [done|]. by destruct Hn.
    + rewrite (Hno Ha), IH. split; intros (pod & Hr & <- & ->); exists pod; (split; [|done]).
      * apply reserved_snoc. by right.
      * apply reserved_snoc in Hr as [->|[Hr _]]; [|done]. by destruct Ha.
Qed.

(** ** Resynchronisation *)

(** The pods of a node that the fingerprint of an object is about. *)
Definition fingerprint_pods (relevant : Pod → bool) (onlyExclRes : bool) (nodeName : string)
    (pods : list Pod) : list Pod :=
  filter (λ pod, relevant pod = true ∧ p_node_name pod = nodeName ∧
    ¬ (onlyExclRes = true ∧ AreExclusiveForPod pod = false)) pods.

(** The object of a node agrees with the pods that the scheduler sees there:
    there is one, and the fingerprint it carries checks. *)
Definition verified (relevant : Pod → bool) (method : CacheResyncMethod) (pods : list Pod)
    (nrt : NodeResourceTopology) : Prop :=
  let '(pfp, onlyExclRes) := podFingerprintForNodeTopology nrt method in
  (∃ pod, pod ∈ pods ∧ relevant pod = true ∧ p_node_name pod = nrt_Name nrt) ∧ pfp ≠ "" ∧
  pfp_Check (map (λ pod, (p_namespace pod, p_name pod))
    (fingerprint_pods relevant onlyExclRes (nrt_Name nrt) pods)) pfp = None.

Definition data_of (pod : Pod) : podData := {|
  pd_Namespace := p_namespace pod; pd_Name := p_name pod;
  pd_HasExclusiveResources := AreExclusiveForPod pod |}.

Lemma node_pods_lookup relevant pods nodeName :
  foldl (pod_step relevant) ∅ pods !! nodeName =
  match filter (λ pod, relevant pod = true ∧ p_node_name pod = nodeName) pods with
  | [] => None
  | l => Some (map data_of l)
  end.
Proof.
  induction pods as [|pod pods IH] using rev_ind; [by cbn; rewrite lookup_empty|].
  rewrite foldl_snoc, filter_app, filter_cons, filter_nil.
  set (m := foldl _ _ _) in *. unfold pod_step.
  destruct (relevant pod) eqn:Hr; cbn [negb].
  - destruct (decide (p_node_name pod = nodeName)) as [<-|Hn].
    + rewrite lookup_insert_eq, IH, decide_True by done.
      by destruct (filter _ pods); cbn; rewrite ?map_app.
    + rewrite lookup_insert_ne, IH, decide_False, app_nil_r by (done || tauto). done.
  - rewrite IH, decide_False, app_nil_r by (intros [? _]; congruence). done.
Qed.

Lemma filter_map {A B} (f : A → B) (P : B → Prop) `{!∀ x, Decision (P x)} l :
  filter P (map f l) = map f (filter (λ a, P (f a)) l).
Proof.
  induction l as [|a l IH]; [done|]. rewrite map_cons, !filter_cons, IH. by case_decide.
Qed.

(** What the first loop of [Resync] accepts. *)
Lemma resync_candidate_spec client method relevant pods nodeName nrt :
  (∀ n c, client n = Some c → nrt_Name c = n) →
  resync_candidate client method (foldl (pod_step relevant) ∅ pods) nodeName = Some nrt ↔
  client nodeName = Some nrt ∧ verified relevant method pods nrt.
Proof.
  intros Hc. unfold resync_candidate, verified.
  destruct (client nodeName) as [c|] eqn:E; cbn; [|naive_solver].
  rewrite node_pods_lookup. pose proof (Hc _ _ E) as <-.
  destruct (podFingerprintForNodeTopology c method) as [pfp excl] eqn:Hp.
  destruct (filter _ pods) as [|pod0 node_pods] eqn:Hf; cbn.
  - split; [done|]. intros [[= <-] Hv]. rewrite Hp in Hv. destruct Hv as [(pod & Hin & Hr & Hn) _].
    assert (pod ∈ filter (λ pod, relevant pod = true ∧ p_node_name pod = nrt_Name c) pods) as Hx.
    { by apply list_elem_of_filter. }
    rewrite Hf in Hx. by apply elem_of_nil in Hx.
  - assert (∃ pod, pod ∈ pods ∧ relevant pod = true ∧ p_node_name pod = nrt_Name c) as Hex.
    { exists pod0. assert (pod0 ∈ filter (λ pod, relevant pod = true ∧ p_node_name pod = nrt_Name c) pods) as Hx
        by (rewrite Hf; left). apply list_elem_of_filter in Hx. naive_solver. }
    assert (checkPodFingerprintForNode (map data_of (pod0 :: node_pods)) pfp excl =
      pfp_Check (map (λ pod, (p_namespace pod, p_name pod)) (fingerprint_pods relevant excl (nrt_Name c) pods)) pfp) as Hck.
    { unfold checkPodFingerprintForNode. f_equal. rewrite <- Hf, filter_map, map_map. unfold data_of at 1 2. f_equal.
      unfold fingerprint_pods. rewrite list_filter_filter.
      apply list_filter_iff. cbn. tauto. }
    cbn in Hck. rewrite Hck. case_bool_decide as Hp0.
    + split; [done|]. intros [[= <-] Hv]. rewrite Hp in Hv. by destruct Hv as (_ & ? & _).
    + destruct (pfp_Check _ pfp) as [[]|] eqn:Hk.
      1-2: split; [done|]; intros [[= <-] Hv]; rewrite Hp in Hv; destruct Hv as (_ & _ & Hv); congruence.
      split; [intros [= <-]; split; [done|]; by rewrite Hp|by intros [[= <-] _]].
Qed.

Lemma elem_of_Keys cnt n : n ∈ Keys cnt ↔ is_Some (cnt !! n).
Proof.
  unfold Keys. rewrite list_elem_of_fmap. split.
  - intros ([k v] & -> & Hin). apply elem_of_range in Hin. eauto.
  - intros [v Hv]. exists (n, v). split; [done|]. by apply elem_of_range.
Qed.

Lemma Clone_id cnt : Clone cnt = cnt.
Proof.
  apply map_eq. intros k. unfold Clone.
  rewrite (foldl_range_lookup (λ _ _ v, Some v)).
  - rewrite lookup_empty. by destruct (cnt !! k).
  - intros acc k' v j. cbn. case_decide; simplify_eq; [apply lookup_insert_eq|by apply lookup_insert_ne].
Qed.

Lemma foldl_Incr cnt l n : is_Some (foldl Incr cnt l !! n) ↔ is_Some (cnt !! n) ∨ n ∈ l.
Proof.
  revert cnt. induction l as [|k l IH]; intros cnt; cbn; [rewrite elem_of_nil; tauto|].
  rewrite IH, elem_of_cons. unfold Incr. destruct (decide (k = n)) as [->|Hk].
  - rewrite lookup_insert_eq. naive_solver.
  - rewrite lookup_insert_ne by done. naive_solver.
Qed.

Lemma GetDesyncedNodes_spec ov n :
  (n ∈ MaybeOverReserved (GetDesyncedNodes ov) ↔
   is_Some (nodesWithForeignPods ov !! n) ∨ is_Some (nodesMaybeOverreserved ov !! n)) ∧
  (n ∈ ConfigChanged (GetDesyncedNodes ov) ↔ is_Some (nodesWithAttrUpdate ov !! n)).
Proof.
  unfold GetDesyncedNodes. cbn. rewrite !Clone_id. split; [|apply elem_of_Keys].
  by rewrite elem_of_Keys, foldl_Incr, elem_of_Keys.
Qed.

(** [client.Get] of a name returns the object of that name. *)
Definition client_ok (client : nrt_client) : Prop := ∀ n c, client n = Some c → nrt_Name c = n.

(** What [Resync] may flush for the marks it has read. *)
Lemma resync_updates_spec client pods relevant method nodes updates nrt :
  client_ok client → resync_updates client (Some pods) relevant method nodes = Some updates →
  nrt ∈ updates ↔
  client (nrt_Name nrt) = Some nrt ∧
  (nrt_Name nrt ∈ MaybeOverReserved nodes ∧ verified relevant method pods nrt ∨
   nrt_Name nrt ∈ ConfigChanged nodes).
Proof.
  intros Hc. unfold resync_updates. case_bool_decide; [done|]. cbn. intros [= <-].
  rewrite elem_of_app, !list_elem_of_omap. split.
  - intros [(n & Hn & Hx)|(n & Hn & Hx)].
    + apply resync_candidate_spec in Hx as [Hx Hv]; [|done]. rewrite (Hc _ _ Hx). tauto.
    + rewrite (Hc _ _ Hx). tauto.
  - intros [Hcl [[Hn Hv]|Hn]].
    + left. exists (nrt_Name nrt). split; [done|]. by apply resync_candidate_spec.
    + right. by exists (nrt_Name nrt).
Qed.

(** C19: when nothing runs in between, a resynchronisation replaces the
    object of exactly those nodes that either are marked (as holding foreign
    pods, or as filtered out) and whose object at the API server carries a
    fingerprint of the pods the scheduler sees there, or whose configuration
    changed; those nodes lose their reservations and their marks, and
    everything about the other nodes stays as it is. *)
Theorem Resync_spec ov client pods n :
  client_ok client →
  let ov' := Resync ov client (Some pods) in
  let marked := is_Some (nodesWithForeignPods ov !! n) ∨ is_Some (nodesMaybeOverreserved ov !! n) in
  let refreshed c := client n = Some c ∧
    (marked ∧ verified (isPodRelevant ov) (resyncMethod ov) pods c ∨ is_Some (nodesWithAttrUpdate ov !! n)) in
  (∀ c, refreshed c →
    nrts ov' !! n = Some c ∧ assumedResources ov' !! n = None ∧ nodesMaybeOverreserved ov' !! n = None ∧
    nodesWithForeignPods ov' !! n = None ∧ nodesWithAttrUpdate ov' !! n = None) ∧
  ((∀ c, ¬ refreshed c) →
    nrts ov' !! n = nrts ov !! n ∧ assumedResources ov' !! n = assumedResources ov !! n ∧
    nodesMaybeOverreserved ov' !! n = nodesMaybeOverreserved ov !! n ∧
    nodesWithForeignPods ov' !! n = nodesWithForeignPods ov !! n ∧
    nodesWithAttrUpdate ov' !! n = nodesWithAttrUpdate ov !! n).
Proof.
  intros Hc. cbn zeta. unfold Resync. destruct (GetDesyncedNodes_spec ov n) as [Hm Ha].
  destruct (resync_updates _ _ _ _ _) as [us|] eqn:E.
  - assert (Hus : ∀ c, c ∈ us ∧ nrt_Name c = n ↔ client n = Some c ∧
      ((is_Some (nodesWithForeignPods ov !! n) ∨ is_Some (nodesMaybeOverreserved ov !! n)) ∧
       verified (isPodRelevant ov) (resyncMethod ov) pods c ∨ is_Some (nodesWithAttrUpdate ov !! n))).
    { intros c. rewrite (resync_updates_spec _ _ _ _ _ _ _ Hc E), <- Hm, <- Ha. split.
      - intros [? <-]. tauto.
      - intros [Hcl Hd]. rewrite (Hc _ _ Hcl). tauto. }
    destruct (FlushNodes_fields ov us) as (-> & -> & -> & -> & ->). split.
    + intros c Hr. apply Hus in Hr as Hin. destruct Hin as [Hin Hname].
      destruct (flush_lookup_in us ov n) as [(u & Hu & Hun & Hst) Hrest].
      { apply list_elem_of_fmap. by exists c. }
      split; [|done]. rewrite Hst. f_equal. destruct (Hus u) as [Hu' _].
      destruct (Hu' (conj Hu Hun)) as [Hcu _]. destruct Hr as [Hcc _]. congruence.
    + intros Hno. apply flush_lookup. intros (c & Hcn & Hin)%list_elem_of_fmap.
      apply (Hno c), Hus. done.
  - split; [|done]. intros c [_ Hd]. unfold resync_updates in E.
    case_bool_decide as Hlen; [|by cbn in E]. unfold dn_Len in Hlen.
    rewrite <- Hm, <- Ha in Hd. destruct (MaybeOverReserved _), (ConfigChanged _); cbn in Hlen; try lia.
    rewrite !elem_of_nil in Hd. tauto.
Qed.

(** ** Interleaving the resynchronisation with the scheduler *)

(** Where the (single) resynchronisation loop is. *)
Inductive phase :=
| Idle
| Collected (nodes : DesyncedNodes)
| Decided (updates : list NodeResourceTopology).

(** An operation of the scheduler, of the pod informer or of the watcher. *)
Definition not_flush (o : op) : Prop := match o with OpFlush _ => False | _ => True end.

(** A node is marked only after its object was found in the store, from which none is ever removed. *)
Definition mark_known (ov : OverReserve) (o : op) : Prop :=
  match o with OpMark nodeName => is_Some (nrts ov !! nodeName) | _ => True end.

Inductive step : OverReserve * phase → OverReserve * phase → Prop :=
| step_op ov ph o : not_flush o → mark_known ov o → step (ov, ph) (apply ov o, ph)
| step_collect ov : step (ov, Idle) (ov, Collected (GetDesyncedNodes ov))
| step_decide ov nodes client pods updates :
    client_ok client →
    resync_updates client (Some pods) (isPodRelevant ov) (resyncMethod ov) nodes = Some updates →
    step (ov, Collected nodes) (ov, Decided updates)
| step_give_up ov nodes : step (ov, Collected nodes) (ov, Idle)
| step_flush ov updates : step (ov, Decided updates) (FlushNodes ov updates, Idle).

Inductive reachable (ov0 : OverReserve) : OverReserve * phase → Prop :=
| reach_init : reachable ov0 (ov0, Idle)
| reach_step s s' : reachable ov0 s → step s s' → reachable ov0 s'.

(** The decision to flush an object is backed: pods verified it, or the
    configuration of its node is still marked as changed. *)
Definition backed (ov : OverReserve) (nrt : NodeResourceTopology) : Prop :=
  (∃ pods, verified (isPodRelevant ov) (resyncMethod ov) pods nrt) ∨
  is_Some (nodesWithAttrUpdate ov !! nrt_Name nrt).

Record consistent (s : OverReserve * phase) : Prop := {
  (* only nodes with data are marked as foreign or changed *)
  foreign_known n : is_Some (nodesWithForeignPods s.1 !! n) → is_Some (nrts s.1 !! n);
  changed_known n : is_Some (nodesWithAttrUpdate s.1 !! n) → is_Some (nrts s.1 !! n);
  names_match n nrt : nrts s.1 !! n = Some nrt → nrt_Name nrt = n;
  phase_backed : match s.2 with
    | Idle => True
    | Collected nodes => ∀ n, n ∈ ConfigChanged nodes → is_Some (nodesWithAttrUpdate s.1 !! n)
    | Decided updates => Forall (backed s.1) updates
    end;
}.

Lemma Incr_is_Some cnt k n : is_Some (Incr cnt k !! n) ↔ k = n ∨ is_Some (cnt !! n).
Proof.
  unfold Incr. destruct (decide (k = n)) as [->|Hk].
  - rewrite lookup_insert_eq. naive_solver.
  - rewrite lookup_insert_ne by done. naive_solver.
Qed.

(** What the operations other than a flush leave alone. *)
Lemma apply_keeps ov o :
  not_flush o →
  nrts (apply ov o) = nrts ov ∧ isPodRelevant (apply ov o) = isPodRelevant ov ∧
  resyncMethod (apply ov o) = resyncMethod ov ∧
  (∀ n, is_Some (nodesWithAttrUpdate ov !! n) → is_Some (nodesWithAttrUpdate (apply ov o) !! n)) ∧
  (∀ n, is_Some (nodesWithForeignPods ov !! n) → is_Some (nodesWithForeignPods (apply ov o) !! n)) ∧
  (mark_known ov o → ∀ n, is_Some (nodesWithAttrUpdate (apply ov o) !! n) →
        is_Some (nodesWithAttrUpdate ov !! n) ∨ is_Some (nrts ov !! n)) ∧
  (∀ n, is_Some (nodesWithForeignPods (apply ov o) !! n) →
        is_Some (nodesWithForeignPods ov !! n) ∨ is_Some (nrts ov !! n)).
Proof.
  destruct o as [m pod|m pod|m|m|[md obj]|m|us]; intros Hf; [..|done]; cbn [apply].
  - split_and!; naive_solver.
  - unfold ov_UnreserveNodeResources. destruct (assumedResources ov !! m); cbn; split_and!; naive_solver.
  - split_and!; naive_solver.
  - unfold ov_NodeHasForeignPods, Contains. case_bool_decide as Hc; cbn [negb]; [|split_and!; naive_solver].
    split_and!; try done; try naive_solver; intros n; cbn; rewrite Incr_is_Some; naive_solver.
  - unfold ProcessEvent, GetNRTCopyByNodeName. cbn. destruct md, obj as [o|]; cbn; try (split_and!; naive_solver).
    destruct (nrts ov !! nrt_Name o) as [c|] eqn:Hc; [|split_and!; naive_solver].
    destruct (areAttrsChanged c o); cbn; [|split_and!; naive_solver].
    split_and!; try done; try naive_solver; try (intros _); intros n; cbn; rewrite Incr_is_Some; naive_solver.
  - unfold mark_changed. cbn. split_and!; try done; [|intros Hkn|]; intros n; cbn; rewrite ?Incr_is_Some; naive_solver.
Qed.

Lemma FlushNodes_config ov us :
  isPodRelevant (FlushNodes ov us) = isPodRelevant ov ∧ resyncMethod (FlushNodes ov us) = resyncMethod ov.
Proof.
  assert (isPodRelevant (foldl flush_node ov us) = isPodRelevant ov ∧
          resyncMethod (foldl flush_node ov us) = resyncMethod ov) as [Hi Hr].
  { revert ov. induction us as [|u us IH]; intros ov; [done|]. apply (IH (flush_node ov u)). }
  unfold FlushNodes. by destruct us.
Qed.

Lemma step_consistent s s' : consistent s → step s s' → consistent s'.
Proof.
  intros [Hf Ha Hn Hp] Hs. destruct Hs as [ov ph o Ho Hkn|ov|ov nodes client pods updates Hc E|ov nodes|ov us]; cbn in *.
  - destruct (apply_keeps ov o Ho) as (Hk & Hi & Hm & Hak & Hfk & Han & Hfn). split; cbn; rewrite ?Hk; [..|].
    + intros n [?|?]%Hfn; auto.
    + intros n [?|?]%Han; auto.
    + done.
    + destruct ph as [|nodes|us]; [done|auto|]. eapply Forall_impl; [exact Hp|].
      intros u. unfold backed. rewrite Hi, Hm. intros [?|?]; auto.
  - split; cbn; try done. intros n Hin. by apply GetDesyncedNodes_spec.
  - split; cbn; try done. apply Forall_forall. intros u Hu.
    apply (resync_updates_spec _ _ _ _ _ _ _ Hc E) in Hu as (_ & [[_ Hv]|Hch]); [left; eauto|right; auto].
  - by split.
  - destruct (FlushNodes_fields ov us) as (En & _ & _ & Ef & Ea).
    split; cbn; rewrite ?En, ?Ef, ?Ea; [| | |done]; intros n;
      (destruct (decide (n ∈ nrt_Name <$> us)) as [Hin|Hout];
       [destruct (flush_lookup_in us ov n Hin) as ((u & _ & Hu & E1) & _ & _ & E4 & E5)
       |destruct (flush_lookup us ov n Hout) as (E1 & _ & _ & E4 & E5)]); rewrite ?E1, ?E4, ?E5; auto;
      try by intros [? ?].
    by intros nrt [= <-].
Qed.

Lemma reachable_consistent ov0 s : consistent (ov0, Idle) → reachable ov0 s → consistent s.
Proof. intros H0v. induction 1 as [|s s' _ IH Hs]; [done|]. by apply (step_consistent s). Qed.

Lemma new_consistent cfg items relevant ov watch :
  NewOverReserve cfg (Some items) relevant = Some (ov, watch) → consistent (ov, Idle).
Proof.
  intros [= <- _]. split; cbn; try (intros n [? Hx]; by rewrite lookup_empty in Hx); [|done].
  unfold newNrtStore. induction items as [|i items IH] using rev_ind; intros n nrt.
  - cbn. by rewrite lookup_empty.
  - rewrite foldl_snoc. destruct (decide (nrt_Name i = n)) as [<-|Hi].
    + rewrite lookup_insert_eq. by intros [= <-].
    + rewrite lookup_insert_ne by done. apply IH.
Qed.


(** ** The cache keeps the contract of the interface *)

Section Implementation.
Context `{!QuantitySpec} `{!FrameworkSpec}.

Definition ov_ok (ov : OverReserve) : Prop := map_Forall (λ _ rs, rs_nonneg rs) (assumedResources ov).

Lemma ov_ok_default ov n : ov_ok ov → rs_nonneg (default ∅ (assumedResources ov !! n)).
Proof.
  intros Hok. destruct (assumedResources ov !! n) as [rs|] eqn:E; cbn; [by apply (Hok n)|].
  intros k r. by rewrite lookup_empty.
Qed.

Lemma ov_ok_insert ov n rs :
  ov_ok ov → rs_nonneg rs → map_Forall (λ _ rs, rs_nonneg rs) (<[n := rs]> (assumedResources ov)).
Proof. intros Hok Hrs. apply map_Forall_insert_2; done. Qed.

#[export] Instance overreserve_spec : NrtCacheSpec OverReserve.
Proof.
  refine {| cache_ok := ov_ok; source ov := λ n, nrts ov !! n |}.
  - intros ov n pod nrt info Hok. cbn. unfold ov_GetCachedNRTCopy, GetNRTCopyByNodeName.
    destruct (IsSet _ _); [done|]. destruct (nrts ov !! n) as [src|]; [|done].
    pose proof (ov_ok_default ov n Hok) as Hrs.
    destruct (assumedResources ov !! n) as [rs|]; intros [= <- <-]; (split; [done|]); exists src; (split; [done|]).
    + eapply deducted_le; [|by apply UpdateNRT_deducted]. intros name. by apply assumed_nonneg.
    + apply nrt_le_refl.
  - intros ov n pod info. cbn. unfold ov_GetCachedNRTCopy, GetNRTCopyByNodeName.
    destruct (IsSet _ _); [by intros [= <-]|]. destruct (nrts ov !! n); [|done].
    by destruct (assumedResources ov !! n).
  - intros ov ov' n pod Hok Hp. rewrite !elem_of_cons, elem_of_nil. cbn.
    intros [->|[->|[->|[->|[->|[]]]]]]; cbn.
    + done.
    + unfold ov_NodeHasForeignPods. by destruct (negb _).
    + split; [|done]. apply ov_ok_insert; [done|]. apply map_Forall_insert_2.
      * by apply GetPodEffectiveRequest_nonneg.
      * by apply ov_ok_default.
    + unfold ov_UnreserveNodeResources. destruct (assumedResources ov !! n) as [rs|] eqn:E; [|done].
      split; [|done]. apply ov_ok_insert; [done|]. cbn. apply map_Forall_delete. by apply (Hok n).
    + done.
Defined.
End Implementation.
End OverReserve.

(** ** Witnesses *)

(** The fingerprint of a set of pods: their names, one after the other. *)
#[export] Instance model_fingerprint : PodFingerprint := {|
  pfp_Attribute := "nodeTopologyPodsFingerprint";
  pfp_AttributeMethod := "nodeTopologyPodsFingerprintMethod";
  pfp_MethodWithExclusiveResources := "with-exclusive-resources";
  pfp_Annotation := "topology.node.k8s.io/fingerprint";
  pfp_Check pods pfp :=
    if bool_decide (foldr (λ p s, p.2 +:+ s) "" pods = pfp) then None else Some ErrSignatureMismatch;
|}.

Definition w_zone (name : string) (cpus : Z) : Zone := {|
  z_Name := name; z_Type := "Node"; z_Costs := [];
  z_Resources := [{| ri_Name := ResourceCPU; ri_Capacity := cores 8; ri_Allocatable := cores 8; ri_Available := cores cpus |}] |}.

Definition w_object (cpus : Z) (pfp : string) : NodeResourceTopology := {|
  nrt_Name := "n"; nrt_Annotations := ∅; nrt_TopologyPolicies := [];
  nrt_Attributes := [{| at_Name := pfp_Attribute; at_Value := pfp |}];
  nrt_Zones := [w_zone "node-0" cpus; w_zone "node-1" 1] |}.

Definition w_running : Pod := model_pod "a" "old" "n" 0 {[ResourceCPU := cores 4]}.
Definition w_new : Pod := model_pod "a" "new" "n" 0 {[ResourceCPU := cores 2]}.

Definition w_cache : OverReserve := {|
  generation := 0; nrts := newNrtStore [w_object 8 ""]; assumedResources := ∅;
  nodesMaybeOverreserved := ∅; nodesWithForeignPods := ∅; nodesWithAttrUpdate := ∅;
  resyncMethod := CacheResyncAll; isPodRelevant := IsPodRelevantShared |}.

Definition w_client : nrt_client := λ n, if bool_decide (n = "n") then Some (w_object 4 "old") else None.

Lemma w_client_ok : client_ok w_client.
Proof. intros n c. unfold w_client. case_bool_decide as Hn; [|done]. intros [= <-]. done. Qed.

(** The CPU that each zone of an answer offers. *)
Definition offered (answer : option NodeResourceTopology * CachedNRTInfo) : list (list Z) :=
  match answer.1 with
  | Some nrt => map (λ z, map ri_Available (z_Resources z)) (nrt_Zones nrt)
  | None => []
  end.

Lemma w_reserved_nonneg :
  rs_nonneg (default ∅ (assumedResources (run w_cache [OpReserve "n" w_running]) !! "n")).
Proof.
  apply (ov_ok_default (run w_cache [OpReserve "n" w_running])).
  refine (proj1 (calls_keep w_cache _ "n" w_running _ _ _)).
  - intros k rs Hk. cbn in Hk. by rewrite lookup_empty in Hk.
  - split_and!.
    + apply Forall_singleton. intros name. unfold amount_of.
      cbn [c_requests model_container]. rewrite lookup_singleton. by case_decide.
    + constructor.
    + intros name. apply Z.eq_le_incl. symmetry. apply amount_of_empty.
  - right. right. left.
Qed.

Lemma GetCachedNRTCopy_spec_witness :
  offered (GetCachedNRTCopy (run w_cache [OpReserve "n" w_running]) "n" w_new) = [[cores 4]; [0]] ∧
  ∃ nrt', GetCachedNRTCopy (run w_cache [OpReserve "n" w_running]) "n" w_new =
    (Some nrt', {| Generation := 0; Fresh := true |}).
Proof.
  split; [by vm_compute|].
  pose proof (GetCachedNRTCopy_spec (run w_cache [OpReserve "n" w_running]) "n" w_new w_reserved_nonneg)
    as (nrt' & Hget & _).
  by exists nrt'.
Defined.

Lemma reservations_exact_witness :
  held (run w_cache [OpReserve "n" w_running; OpReserve "n" w_new; OpUnreserve "n" w_running]) "n" "a/new" =
  Some (GetPodEffectiveRequest w_new).
Proof.
  apply (reservations_exact w_cache); [done|]. exists w_new.
  split; [|done]. exists [OpReserve "n" w_running], [OpUnreserve "n" w_running].
  split; [done|]. apply Forall_singleton. cbn. intros [_ Hk]. by vm_compute in Hk.
Defined.

Definition w_dirty : OverReserve := run w_cache [OpReserve "n" w_running; OpForeign "n"].

Lemma Resync_spec_witness :
  offered (GetCachedNRTCopy w_dirty "n" w_new) = [] ∧
  offered (GetCachedNRTCopy (Resync w_dirty w_client (Some [w_running])) "n" w_new) = [[cores 4]; [cores 1]] ∧
  nrts (Resync w_dirty w_client (Some [w_running])) !! "n" = Some (w_object 4 "old").
Proof.
  split; [by vm_compute|]. split; [by vm_compute|].
  apply (proj1 (Resync_spec w_dirty w_client [w_running] "n" w_client_ok) (w_object 4 "old")).
  split; [done|]. left. split; [left; by eexists|]. unfold verified. cbn.
  split_and!; [|done|by vm_compute]. exists w_running. split; [left|done].
Defined.


(** A pod reserved after the resynchronisation has decided, and before it
    flushes, loses its reservation: the next copy offers its CPUs again. *)
Lemma flush_loses_reservation :
  let updates := default [] (resync_updates w_client (Some [w_running]) (isPodRelevant w_dirty)
    (resyncMethod w_dirty) (GetDesyncedNodes w_dirty)) in
  let before := run w_dirty [OpReserve "n" w_new] in
  let after := FlushNodes before updates in
  is_Some (held before "n" "a/new") ∧ held after "n" "a/new" = None ∧
  offered (GetCachedNRTCopy after "n" w_new) = [[cores 4]; [cores 1]].
Proof. split_and!; [by eexists|by vm_compute|by vm_compute]. Qed.
