(* ===== verification/NrtWatcher.v ===== *)
(** * pkg/noderesourcetopology/cache/attr_watch.go: the loop of the watcher

    [Watcher.NodeResourceTopologies] runs in its own goroutine and hands every
    event of a watch on the NRT objects to [ProcessEvent] of OverReserve.v.
    The function below is one turn of its loops: which case of the [select]
    is taken is a choice of the runtime, and an argument.  The goroutine uses the
    maps of the cache without its lock, so [ProcessEvent] is not atomic: receiving an event,
    reading the store and incrementing the counter are three turns, and
    [wt_step] lets the API server, the context and the other methods of the cache
    run in between.  (A single read or write of a map is taken to be atomic.) *)

From S2P Require Import Prelude K8s K8sModel ResourceUtil NodeConfig NrtCache OverReserve.

(** ** Definitions *)

(** What happens next: Watch returns, and whether with an error, or a case of the select, or
    ProcessEvent goes on. *)
Inductive wt_choice := Watch (failed : bool) | ResultChan | CtxDone | Go.

Section Watcher.
Context `{MapOrder} `{QuantityOps} `{!FrameworkOps} `{NrtAPI} `{PodFingerprint}.

(** The channel of a watch: what was sent and not received, and whether it is closed. *)
Record watch_chan := { ch_events : list watch_event; ch_closed : bool }.

Definition empty_chan : watch_chan := {| ch_events := []; ch_closed := false |}.

(** What a receive from a closed channel gives: no type and no object. *)
Definition zero_event : watch_event := {| ev_modified := false; ev_object := None |}.

(** Where the goroutine is: before the call of Watch, in the inner loop, in ProcessEvent before it reads
    the store (with what was received, unless the channel was closed) or before it marks a node, or returned. *)
Inductive wt_pc :=
| ToWatch
| Selecting (wa : watch_chan)
| Reading (wa : watch_chan) (received : option watch_event)
| Marking (wa : watch_chan) (nodeName : string)
| Returned.

(** One turn; [None] when the chosen case is not ready, in which case a
    receive blocks. *)
Definition NodeResourceTopologies (ctx_done : bool) (ov : OverReserve) (pc : wt_pc) (c : wt_choice) :
    option (OverReserve * wt_pc) :=
  match pc, c with
  | ToWatch, Watch failed => Some (ov, if failed then Returned else Selecting empty_chan)
  | Selecting wa, ResultChan =>
      match ch_events wa with
      | ev :: rest => Some (ov, Reading {| ch_events := rest; ch_closed := ch_closed wa |} (Some ev))
      | [] => if ch_closed wa then Some (ov, Reading wa None) else None
      end
  | Reading wa received, Go =>
      match event_node (nrts ov) (default zero_event received) with
      | None => Some (ov, Selecting wa)
      | Some nodeName => Some (ov, Marking wa nodeName)
      end
  | Marking wa nodeName, Go => Some (mark_changed ov nodeName, Selecting wa)
  | Selecting wa, CtxDone => if ctx_done then Some (ov, Returned) else None
  | _, _ => None
  end.

(** The cache, the goroutine, and whether the context is cancelled. *)
Record wt_state := mkState { wt_cache : OverReserve; wt_at : wt_pc; wt_cancelled : bool }.

(** The channel of the watch, while there is one. *)
Definition with_chan (pc : wt_pc) (f : watch_chan → watch_chan) : option wt_pc :=
  match pc with
  | Selecting wa => Some (Selecting (f wa))
  | Reading wa ev => Some (Reading (f wa) ev)
  | Marking wa n => Some (Marking (f wa) n)
  | ToWatch | Returned => None
  end.

Definition send (ev : watch_event) (wa : watch_chan) : watch_chan :=
  {| ch_events := if ch_closed wa then ch_events wa else ch_events wa ++ [ev]; ch_closed := ch_closed wa |}.
Definition close (wa : watch_chan) : watch_chan := {| ch_events := ch_events wa; ch_closed := true |}.

Definition chan_open (pc : wt_pc) : Prop :=
  match pc with Selecting wa | Reading wa _ | Marking wa _ => ch_closed wa = false | _ => False end.

(** A step: a turn of the goroutine, a method of the cache called elsewhere, an event of the
    API server, the end of the watch on its side, or the cancellation of the context. *)
Inductive wt_label := Turn (c : wt_choice) | Other (o : op) | Sent (ev : watch_event) | Closed | Cancelled.

Definition not_event (o : op) : Prop := match o with OpEvent _ | OpMark _ => False | _ => True end.

Inductive wt_step : wt_state → wt_label → wt_state → Prop :=
| step_turn ov pc done c ov' pc' :
    NodeResourceTopologies done ov pc c = Some (ov', pc') →
    wt_step (mkState ov pc done) (Turn c) (mkState ov' pc' done)
| step_other ov pc done o :
    not_event o → wt_step (mkState ov pc done) (Other o) (mkState (apply ov o) pc done)
| step_sent ov pc pc' done ev :
    chan_open pc → with_chan pc (send ev) = Some pc' →
    wt_step (mkState ov pc done) (Sent ev) (mkState ov pc' done)
| step_closed ov pc pc' done :
    with_chan pc close = Some pc' → wt_step (mkState ov pc done) Closed (mkState ov pc' done)
| step_cancelled ov pc done : wt_step (mkState ov pc done) Cancelled (mkState ov pc true).

Inductive wt_run (s : wt_state) : list wt_label → wt_state → Prop :=
| run_nil : wt_run s [] s
| run_snoc tr s' l s'' : wt_run s tr s' → wt_step s' l s'' → wt_run s (tr ++ [l]) s''.

(** The goroutine as NewOverReserve starts it. *)
Definition started (ov : OverReserve) : wt_state := mkState ov ToWatch false.

(** ** What a run did *)

(** The events that the API server sent. *)
Definition sent (tr : list wt_label) : list watch_event :=
  omap (λ l, match l with Sent ev => Some ev | _ => None end) tr.

(** The methods called elsewhere. *)
Definition others (tr : list wt_label) : list op :=
  omap (λ l, match l with Other o => Some o | _ => None end) tr.

(** The number of calls of Watch. *)
Definition watches (tr : list wt_label) : nat :=
  length (omap (λ l, match l with Turn (Watch failed) => Some failed | _ => None end) tr).

(** What was sent on the channel and is not handled yet. *)
Definition pending (pc : wt_pc) : list watch_event :=
  match pc with
  | Selecting wa | Marking wa _ => ch_events wa
  | Reading wa received => option_list received ++ ch_events wa
  | _ => []
  end.

(** *** The abstract watcher *)

(** The moments of a run: a method of the cache that ran elsewhere, the store read for an event, and the
    mark that it led to. *)
Inductive moment := Done (o : op) | Read (ev : watch_event) | Marked (nodeName : string).

Definition effect (ov : OverReserve) (mo : moment) : OverReserve :=
  match mo with
  | Done o => apply ov o
  | Read _ => ov
  | Marked nodeName => mark_changed ov nodeName
  end.
Definition replay (ov : OverReserve) (ms : list moment) : OverReserve := foldl effect ov ms.

Definition done_of (ms : list moment) : list op :=
  omap (λ mo, match mo with Done o => Some o | _ => None end) ms.
Definition read_of (ms : list moment) : list watch_event :=
  omap (λ mo, match mo with Read ev => Some ev | _ => None end) ms.

(** The event reports a changed configuration of the node [n], compared with its object in the cache. *)
Definition reports (ov : OverReserve) (ev : watch_event) (n : string) : Prop :=
  ev_modified ev = true ∧ ∃ obj cur, ev_object ev = Some obj ∧ nrt_Name obj = n ∧
    nrts ov !! n = Some cur ∧ areAttrsChanged cur obj = true.

(** The events are handled one after the other: each is compared with the store, and when it reports another
    configuration of a node the next thing the watcher does is to mark that node.  [todo] is the
    node that is to be marked next. *)
Inductive handled (ov0 : OverReserve) : list moment → option string → Prop :=
| handled_nil : handled ov0 [] None
| handled_done ms todo o : handled ov0 ms todo → not_event o → handled ov0 (ms ++ [Done o]) todo
| handled_read ms ev todo :
    handled ov0 ms None → (∀ n, todo = Some n ↔ reports (replay ov0 ms) ev n) →
    handled ov0 (ms ++ [Read ev]) todo
| handled_mark ms n : handled ov0 ms (Some n) → handled ov0 (ms ++ [Marked n]) None.

Definition to_mark (pc : wt_pc) : option string := match pc with Marking _ n => Some n | _ => None end.

(** The object of the node is replaced by a flush. *)
Definition flushes (n : string) (o : op) : Prop :=
  match o with OpFlush updates => n ∈ nrt_Name <$> updates | _ => False end.

Definition keeps_mark (n : string) (mo : moment) : Prop :=
  match mo with Done o => ¬ flushes n o | _ => True end.
Definition elsewhere (mo : moment) : Prop := match mo with Done _ => True | _ => False end.

(** An event was read that reported a change of the configuration of [n], the node was marked for it, and
    its object was not replaced since the mark. *)
Definition config_changed (ov0 : OverReserve) (ms : list moment) (n : string) : Prop :=
  ∃ ms1 ev ms2 ms3, ms = ms1 ++ Read ev :: ms2 ++ Marked n :: ms3 ∧ reports (replay ov0 ms1) ev n ∧
    Forall elsewhere ms2 ∧ Forall (keeps_mark n) ms3.

(** *** Marks *)

(** An event was read that reports a change of the configuration of [n], and nothing was marked since. *)
Definition awaited (ov0 : OverReserve) (ms : list moment) (n : string) : Prop :=
  ∃ ms1 ev ms2, ms = ms1 ++ Read ev :: ms2 ∧ reports (replay ov0 ms1) ev n ∧ Forall elsewhere ms2.

Lemma replay_snoc ov ms mo : replay ov (ms ++ [mo]) = effect (replay ov ms) mo.
Proof. unfold replay. by rewrite foldl_snoc. Qed.

Lemma event_node_reports ov ev n : event_node (nrts ov) ev = Some n ↔ reports ov ev n.
Proof.
  unfold event_node, GetNRTCopyByNodeName, reports. destruct ev as [md [obj|]]; cbn.
  2: { split; [by destruct md|]. by intros (_ & ? & ? & [=] & _). }
  destruct md; cbn; [|split; [done|by intros [[=] _]]].
  destruct (nrts ov !! nrt_Name obj) as [cur|] eqn:E.
  - destruct (areAttrsChanged cur obj) eqn:Ec; cbn; split.
    + intros [= <-]. split; [done|]. by exists obj, cur.
    + by intros (_ & ? & ? & [= <-] & <- & _).
    + done.
    + intros (_ & ? & ? & [= <-] & <- & ? & ?). congruence.
  - split; [done|]. intros (_ & ? & ? & [= <-] & <- & ? & ?). congruence.
Qed.

Lemma handled_awaited ov0 ms n : handled ov0 ms (Some n) → awaited ov0 ms n.
Proof.
  remember (Some n) as todo eqn:E. intros Hh. revert n E.
  induction Hh as [|ms todo o _ IH Ho|ms ev todo _ _ Hr|ms m _ _]; intros n E; try done.
  - destruct (IH n E) as (ms1 & ev & ms2 & -> & Hr & Hf). exists ms1, ev, (ms2 ++ [Done o]).
    split; [by rewrite <- app_assoc|]. split; [done|]. apply Forall_app. split; [done|]. by apply Forall_singleton.
  - exists ms, ev, []. split_and!; [done| |done]. by apply Hr.
Qed.

Lemma config_changed_snoc ov0 ms mo n :
  config_changed ov0 (ms ++ [mo]) n ↔
  (mo = Marked n ∧ awaited ov0 ms n) ∨ (config_changed ov0 ms n ∧ keeps_mark n mo).
Proof.
  split.
  - intros (ms1 & ev & ms2 & ms3 & E & Hr & Hel & Hk). induction ms3 as [|mo' ms3 _] using rev_ind.
    + replace (ms1 ++ Read ev :: ms2 ++ [Marked n]) with ((ms1 ++ Read ev :: ms2) ++ [Marked n]) in E
        by (by rewrite <- app_assoc).
      apply app_inj_tail in E as [-> ->]. left. split; [done|]. by exists ms1, ev, ms2.
    + replace (ms1 ++ Read ev :: ms2 ++ Marked n :: ms3 ++ [mo']) with
        ((ms1 ++ Read ev :: ms2 ++ Marked n :: ms3) ++ [mo']) in E by (by rewrite <- !app_assoc; cbn; rewrite <- app_assoc).
      apply app_inj_tail in E as [-> ->]. apply Forall_app in Hk as [Hk [Hmo _]%Forall_cons]. right.
      split; [by exists ms1, ev, ms2, ms3|done].
  - intros [(-> & ms1 & ev & ms2 & -> & Hr & Hel)|[(ms1 & ev & ms2 & ms3 & -> & Hr & Hel & Hk) Hmo]].
    + exists ms1, ev, ms2, []. split_and!; try done. by rewrite <- app_assoc.
    + exists ms1, ev, ms2, (ms3 ++ [mo]). split_and!; try done.
      * rewrite <- !app_assoc. cbn. by rewrite <- app_assoc.
      * apply Forall_app. split; [done|]. by apply Forall_singleton.
Qed.

(** The mark of a node after a method that ran elsewhere. *)
Lemma apply_mark ov o n :
  not_event o →
  is_Some (nodesWithAttrUpdate (apply ov o) !! n) ↔ is_Some (nodesWithAttrUpdate ov !! n) ∧ ¬ flushes n o.
Proof.
  intros Ho. destruct o as [m pod|m pod|m|m|ev|m|us]; cbn [apply flushes]; try done.
  - cbn. tauto.
  - unfold ov_UnreserveNodeResources. case_match; cbn; tauto.
  - cbn. tauto.
  - unfold ov_NodeHasForeignPods. case_match; cbn; tauto.
  - destruct (FlushNodes_fields ov us) as (_ & _ & _ & _ & ->).
    destruct (decide (n ∈ nrt_Name <$> us)) as [Hin|Hout].
    + destruct (flush_lookup_in us ov n Hin) as (_ & _ & _ & _ & ->). split; [by intros []|]. tauto.
    + destruct (flush_lookup us ov n Hout) as (_ & _ & _ & _ & ->). tauto.
Qed.

(** A node is marked exactly when its configuration was reported changed. *)
Lemma handled_marks ov0 ms todo n :
  nodesWithAttrUpdate ov0 = ∅ → handled ov0 ms todo →
  is_Some (nodesWithAttrUpdate (replay ov0 ms) !! n) ↔ config_changed ov0 ms n.
Proof.
  intros H0m. induction 1 as [|ms todo o _ IH Ho|ms ev todo _ IH Hr|ms m Hm IH].
  - cbn. rewrite H0m, lookup_empty. split; [by intros []|]. by intros ([] & ? & ? & ? & [=] & _).
  - rewrite replay_snoc, config_changed_snoc. cbn [effect keeps_mark]. rewrite apply_mark, IH by done. naive_solver.
  - rewrite replay_snoc, config_changed_snoc. cbn [effect keeps_mark]. rewrite IH. naive_solver.
  - rewrite replay_snoc, config_changed_snoc. cbn. rewrite Incr_is_Some, IH.
    apply handled_awaited in Hm. naive_solver.
Qed.

(** ** Runs *)

(** The run is one of the abstract watcher. *)
Record explains (ov0 : OverReserve) (tr : list wt_label) (s : wt_state) (ms : list moment) : Prop := {
  ex_cache : wt_cache s = replay ov0 ms;
  ex_handled : handled ov0 ms (to_mark (wt_at s));
  ex_done : done_of ms = others tr;
  ex_prefix : read_of ms `prefix_of` sent tr;
  ex_sent : wt_at s ≠ Returned → sent tr = read_of ms ++ pending (wt_at s);
  ex_watches : watches tr = match wt_at s with ToWatch => 0%nat | _ => 1%nat end;
}.

Lemma moments_snoc ms mo :
  done_of (ms ++ [mo]) = done_of ms ++ match mo with Done o => [o] | _ => [] end ∧
  read_of (ms ++ [mo]) = read_of ms ++ match mo with Read ev => [ev] | _ => [] end.
Proof. unfold done_of, read_of. rewrite !omap_app. by destruct mo. Qed.

Lemma trace_snoc tr l :
  sent (tr ++ [l]) = sent tr ++ match l with Sent ev => [ev] | _ => [] end ∧
  others (tr ++ [l]) = others tr ++ match l with Other o => [o] | _ => [] end ∧
  watches (tr ++ [l]) = (watches tr + match l with Turn (Watch _) => 1 | _ => 0 end)%nat.
Proof. unfold sent, others, watches. rewrite !omap_app, length_app. by destruct l as [[]| | | |]. Qed.

(** What a turn does to the abstract run. *)
Definition turned (ov : OverReserve) (pc : wt_pc) (ov' : OverReserve) (pc' : wt_pc) (mos : list moment) : Prop :=
  match mos with
  | [] => ov' = ov ∧ to_mark pc = to_mark pc' ∧ (pc' ≠ Returned → pending pc = pending pc' ∧ pc ≠ Returned)
  | [Read ev] => ov' = ov ∧ to_mark pc = None ∧ to_mark pc' = event_node (nrts ov) ev ∧
      pending pc = ev :: pending pc' ∧ pc ≠ Returned
  | [Marked n] => ov' = mark_changed ov n ∧ to_mark pc = Some n ∧ to_mark pc' = None ∧
      pending pc = pending pc' ∧ pc ≠ Returned
  | _ => False
  end.

Lemma turn_cases done ov pc c ov' pc' :
  NodeResourceTopologies done ov pc c = Some (ov', pc') →
  (∃ mos, turned ov pc ov' pc' mos) ∧ pc' ≠ ToWatch ∧ (pc = ToWatch ↔ ∃ failed, c = Watch failed).
Proof.
  unfold NodeResourceTopologies. intros Hn.
  destruct pc as [|[evs closed]|wa [ev|]|wa n|], c as [failed| | |]; try done; cbn in Hn.
  - injection Hn as <- <-. split; [|split; [by destruct failed|by split; [eauto|]]]. exists []. by destruct failed.
  - destruct evs as [|ev rest].
    + destruct closed; [|done]. injection Hn as <- <-. split; [by exists []|]. split; [done|]. by split; [|intros []].
    + injection Hn as <- <-. split; [by exists []|]. split; [done|]. by split; [|intros []].
  - destruct done; [|done]. injection Hn as <- <-. split; [by exists []|]. split; [done|]. by split; [|intros []].
  - destruct (event_node (nrts ov) ev) eqn:E; injection Hn as <- <-;
      (split; [by exists [Read ev]|split; [done|by split; [|intros []]]]).
  - injection Hn as <- <-. split; [by exists []|]. split; [done|]. by split; [|intros []].
  - injection Hn as <- <-. split; [by exists [Marked n]|]. split; [done|]. by split; [|intros []].
Qed.

Lemma with_chan_same pc f pc' :
  with_chan pc f = Some pc' → to_mark pc' = to_mark pc ∧ pc ≠ Returned ∧ pc' ≠ Returned ∧ pc ≠ ToWatch ∧ pc' ≠ ToWatch.
Proof. destruct pc; cbn; intros [= <-]; done. Qed.

Lemma send_pending pc ev pc' : chan_open pc → with_chan pc (send ev) = Some pc' → pending pc' = pending pc ++ [ev].
Proof. destruct pc; cbn; intros Ho; intros [= <-]; cbn; rewrite ?Ho, ?app_assoc; done. Qed.

Lemma close_pending pc pc' : with_chan pc close = Some pc' → pending pc' = pending pc.
Proof. by destruct pc; cbn; intros [= <-]. Qed.

Lemma turn_explained ov0 tr s ov' pc' ms mos c :
  explains ov0 tr s ms → turned (wt_cache s) (wt_at s) ov' pc' mos → pc' ≠ ToWatch →
  (wt_at s = ToWatch ↔ ∃ failed, c = Watch failed) →
  explains ov0 (tr ++ [Turn c]) (mkState ov' pc' (wt_cancelled s)) (ms ++ mos).
Proof.
  intros [Hc Hh Hd Hp Hs Hw] Ht Hpc Hwatch. destruct (trace_snoc tr (Turn c)) as (Es & Eo & Ew).
  rewrite app_nil_r in Es, Eo.
  assert (watches (tr ++ [Turn c]) = match pc' with ToWatch => 0%nat | _ => 1%nat end) as Hw'.
  { rewrite Ew, Hw. destruct (wt_at s); destruct c; try naive_solver; by destruct pc'. }
  destruct mos as [|mo [|]]; cbn in Ht; [|..|by destruct mo].
  - destruct Ht as (-> & Hm & Hpend). rewrite app_nil_r.
    split; cbn; rewrite ?Es, ?Eo; [done|by rewrite <- Hm|done|done| |done].
    intros Hr. destruct (Hpend Hr) as [<- Hr']. by apply Hs.
  - destruct (moments_snoc ms mo) as [Ed Er]. destruct mo as [o|ev|n]; [done|..].
    + destruct Ht as (-> & Hm & Hm' & Hpend & Hr). rewrite app_nil_r in Ed. specialize (Hs Hr). rewrite Hpend in Hs.
      split; cbn; rewrite ?Es, ?Eo, ?Ed, ?Er, ?replay_snoc; [done| |done| | |done].
      * rewrite Hm in Hh. apply handled_read; [done|]. intros n. rewrite Hm', Hc. apply event_node_reports.
      * rewrite Hs. exists (pending pc'). by rewrite <- app_assoc.
      * intros _. by rewrite Hs, <- app_assoc.
    + destruct Ht as (-> & Hm & Hm' & Hpend & Hr). rewrite app_nil_r in Ed, Er.
      split; cbn; rewrite ?Es, ?Eo, ?Ed, ?Er, ?replay_snoc; [by rewrite Hc| |done|done| |done].
      * rewrite Hm', Hm in *. by apply handled_mark.
      * intros _. rewrite <- Hpend. by apply Hs.
Qed.

Lemma explains_step ov0 tr s l s' ms :
  explains ov0 tr s ms → wt_step s l s' → ∃ ms', explains ov0 (tr ++ [l]) s' ms'.
Proof.
  intros Hex Hl. destruct Hl as [ov pc done c ov' pc' Hn|ov pc done o Ho|ov pc pc' done ev Hopen Hpc|ov pc pc' done Hpc|ov pc done].
  - apply turn_cases in Hn as ([mos Ht] & Hpc & Hw). exists (ms ++ mos).
    exact (turn_explained ov0 tr (mkState ov pc done) ov' pc' ms mos c Hex Ht Hpc Hw).
  - destruct Hex as [Hc Hh Hd Hp Hs Hw]. destruct (trace_snoc tr (Other o)) as (Es & Eo & Ew). cbn in *.
    destruct (moments_snoc ms (Done o)) as [Ed Er]. rewrite app_nil_r in Er, Es. exists (ms ++ [Done o]).
    split; cbn; rewrite ?Es, ?Eo, ?Ew, ?Ed, ?Er, ?Hd, ?Hw, ?replay_snoc, ?Nat.add_0_r; try done.
    + by rewrite Hc.
    + by apply handled_done.
  - destruct Hex as [Hc Hh Hd Hp Hs Hw]. destruct (trace_snoc tr (Sent ev)) as (Es & Eo & Ew). cbn in *.
    destruct (with_chan_same _ _ _ Hpc) as (Hm & Hr & Hr' & Ht & Ht'). rewrite app_nil_r in Eo. exists ms.
    split; cbn; rewrite ?Es, ?Eo, ?Ew, ?Hm, ?Hw, ?Nat.add_0_r; try done.
    + by apply prefix_app_r.
    + intros _. rewrite (send_pending _ _ _ Hopen Hpc), app_assoc. by rewrite Hs.
    + by destruct pc, pc'.
  - destruct Hex as [Hc Hh Hd Hp Hs Hw]. destruct (trace_snoc tr Closed) as (Es & Eo & Ew). cbn in *.
    destruct (with_chan_same _ _ _ Hpc) as (Hm & Hr & Hr' & Ht & Ht'). rewrite app_nil_r in Eo, Es. exists ms.
    split; cbn; rewrite ?Es, ?Eo, ?Ew, ?Hm, ?Hw, ?Nat.add_0_r; try done.
    + intros _. rewrite (close_pending _ _ Hpc). by apply Hs.
    + by destruct pc, pc'.
  - destruct Hex as [Hc Hh Hd Hp Hs Hw]. destruct (trace_snoc tr Cancelled) as (Es & Eo & Ew). cbn in *.
    rewrite app_nil_r in Eo, Es. exists ms. split; cbn; by rewrite ?Es, ?Eo, ?Ew, ?Hw, ?Nat.add_0_r.
Qed.

Lemma run_explained ov0 tr s : wt_run (started ov0) tr s → ∃ ms, explains ov0 tr s ms.
Proof.
  induction 1 as [|tr s' l s'' _ [ms IH] Hl]; [|by apply (explains_step _ _ s' l _ ms)].
  exists []. split; try done. apply handled_nil.
Qed.

(** C15: However the goroutine of the watcher interleaves with the methods of a new cache, the API server and
    the cancellation of the context (they may run between any two of receiving an event, comparing it with the store
    and marking the node), the run is one of the abstract watcher: the cache is what the methods and the marks
    give one after the other, the methods in the order in which they were called; the events
    are handled one at a time in the order in which they were sent, all but those still in the channel;
    each event that reports a configuration other than that of the object in the cache
    at that moment leads to a mark of the node, and no other mark is made; so a node is marked
    exactly when such a mark was made for it and its object was not refreshed since; and Watch is called at
    most once. *)
Theorem attr_watch_exact cfg items relevant (ov0 : OverReserve) tr (s : wt_state) :
  NewOverReserve cfg (Some items) relevant = Some (ov0, true) →
  wt_run (started ov0) tr s →
  (watches tr ≤ 1)%nat ∧
  ∃ ms, wt_cache s = replay ov0 ms ∧ handled ov0 ms (to_mark (wt_at s)) ∧
    done_of ms = others tr ∧ read_of ms `prefix_of` sent tr ∧
    (wt_at s ≠ Returned → sent tr = read_of ms ++ pending (wt_at s)) ∧
    ∀ n, is_Some (nodesWithAttrUpdate (wt_cache s) !! n) ↔ config_changed ov0 ms n.
Proof.
  intros Hnew [ms [Hc Hh Hd Hp Hs Hw]]%run_explained. split; [rewrite Hw; by case_match; lia|].
  exists ms. split_and!; try done. intros n. rewrite Hc. apply (handled_marks ov0 ms (to_mark (wt_at s))); [|done].
  unfold NewOverReserve in Hnew. by injection Hnew as <- _.
Qed.

(** Once the API server has ended the watch and the channel is drained, the
    goroutine can receive from it for ever without a change; and whatever
    happens, nothing more is received and Watch is not called again: no change of a
    configuration is seen any more. *)
Lemma closed_watch_never_renewed (s : wt_state) :
  let drained := {| ch_events := []; ch_closed := true |} in
  wt_at s = Selecting drained →
  (∀ k, wt_run s (flat_map (λ _, [Turn ResultChan; Turn Go]) (seq 0 k)) s) ∧
  (∀ tr s', wt_run s tr s' →
    sent tr = [] ∧ watches tr = 0%nat ∧ wt_cache s' = OverReserve.run (wt_cache s) (others tr)).
Proof.
  intros drained. destruct s as [ov pc done]. cbn. intros ->. split.
  - induction k as [|k IH]; [by apply run_nil|]. rewrite seq_S, flat_map_app. cbn.
    change [Turn ResultChan; Turn Go] with ([Turn ResultChan] ++ [Turn Go]). rewrite app_assoc.
    eapply (run_snoc _ _ (mkState ov (Reading drained None) done)); [|by apply step_turn].
    eapply run_snoc; [exact IH|]. by apply step_turn.
  - intros tr s'. remember (mkState ov _ done) as s eqn:Es.
    intros Hr. enough (sent tr = [] ∧ watches tr = 0%nat ∧ wt_cache s' = OverReserve.run ov (others tr) ∧
      (wt_at s' = Returned ∨ wt_at s' = Selecting drained ∨ wt_at s' = Reading drained None))
      as (Hs & Hw & Hc & _) by (subst s; done).
    induction Hr as [|tr s1 l s2 _ IH Hl]; [subst s; cbn; split_and!; by auto|].
    destruct IH as (Hs & Hw & Hc & Hat). destruct (trace_snoc tr l) as (-> & -> & ->). rewrite Hs, Hw. clear Hs Hw.
    destruct Hl as [ov1 pc done1 c ov' pc' Hn|ov1 pc done1 o Hno|ov1 pc pc' done1 ev Hopen Hpc|ov1 pc pc' done1 Hpc|ov1 pc done1];
      cbn in *; rewrite ?app_nil_r; try done.
    + destruct Hat as [->|[->| ->]]; destruct c; cbn in Hn; try done; [|destruct done1|]; simplify_eq; cbn;
        split_and!; auto.
    + unfold OverReserve.run in *. by rewrite foldl_snoc, Hc.
    + by destruct Hat as [->|[->| ->]].
    + destruct Hat as [->|[->| ->]]; cbn in Hpc; simplify_eq; cbn; split_and!; auto.
Qed.
End Watcher.

(** ** Witness *)

(** The kubelet of the node [n] was restarted with another policy. *)
Definition w_reconfigured : NodeResourceTopology := {|
  nrt_Name := "n"; nrt_Annotations := ∅; nrt_TopologyPolicies := [];
  nrt_Attributes := [{| at_Name := AttributePolicy; at_Value := SingleNumaNodeTopologyManagerPolicy |}];
  nrt_Zones := [] |}.

Definition w_event : watch_event := {| ev_modified := true; ev_object := Some w_reconfigured |}.

(** The watch is up, its first event is received and compared, and before the node is marked the
    resynchronisation replaces its object: the mark stays although the object is new. *)
Definition w_labels : list wt_label :=
  [Turn (Watch false); Sent w_event; Turn ResultChan; Turn Go; Other (OpFlush [w_reconfigured]); Turn Go].

Definition w_marked : wt_state :=
  mkState (mark_changed (FlushNodes w_cache [w_reconfigured]) "n") (Selecting empty_chan) false.

Lemma w_watched : wt_run (started w_cache) w_labels w_marked.
Proof.
  set (up := Selecting empty_chan). set (one := Selecting {| ch_events := [w_event]; ch_closed := false |}).
  set (mark := Marking empty_chan "n"). set (read := Reading empty_chan (Some w_event)).
  set (fresh := apply w_cache (OpFlush [w_reconfigured])).
  refine (run_snoc _ [_; _; _; _; _] _ _ _ _ (step_turn fresh mark false Go _ up eq_refl)).
  refine (run_snoc _ [_; _; _; _] _ _ _ _ (step_other w_cache mark false (OpFlush [w_reconfigured]) I)).
  refine (run_snoc _ [_; _; _] _ _ _ _ (step_turn w_cache read false Go w_cache mark eq_refl)).
  refine (run_snoc _ [_; _] _ _ _ _ (step_turn w_cache one false ResultChan w_cache read eq_refl)).
  refine (run_snoc _ [_] _ _ _ _ (step_sent w_cache up one false w_event eq_refl eq_refl)).
  exact (run_snoc _ [] _ _ _ (run_nil _) (step_turn w_cache ToWatch false (Watch false) w_cache up eq_refl)).
Qed.

Lemma attr_watch_exact_witness :
  is_Some (nodesWithAttrUpdate (wt_cache w_marked) !! "n") ∧ (watches w_labels ≤ 1)%nat.
Proof.
  split; [by eexists|].
  refine (proj1 (attr_watch_exact (Some {| cfg_ResyncMethod := Some CacheResyncAll; cfg_ResyncScope := None |})
    [w_object 8 ""] IsPodRelevantShared w_cache w_labels w_marked eq_refl w_watched)).
Defined.
