(* ===== verification/NumaFilter.v ===== *)
(** * pkg/noderesourcetopology: the filter

    The NUMA nodes of a node ([pluginhelpers.go]), the resource accounting
    ([numaresources.go]) and the two filter handlers with the extension points
    that call the cache ([filter.go], [reserve.go], [postbind.go]).  The plugin
    is written against the interface [NrtCache] of the file NrtCache; its
    theorems use the contract [NrtCacheSpec] alone. *)

From S2P Require Import Prelude K8s K8sModel ResourceUtil NodeConfig NrtCache.

(** k8s.io/kubernetes/pkg/kubelet/cm/topologymanager/bitmask: a mask of the
    bits 0 to 63.  [Add] fails, and does nothing, on another bit. *)
Class BitMaskOps : Type := {
  BitMask : Type;
  NewEmptyBitMask : BitMask;
  bm_Fill : BitMask → BitMask;
  bm_Add : BitMask → Z → BitMask;
  bm_And : BitMask → BitMask → BitMask;
  bm_IsEmpty : BitMask → bool;
  bm_GetBits : BitMask → list Z;
  bm_Count : BitMask → Z;
}.

Class BitMaskSpec `{BitMaskOps} : Type := {
  bm_IsSet : BitMask → Z → Prop;
  bm_IsSet_range b n : bm_IsSet b n → 0 ≤ n < 64;
  bm_empty_spec n : ¬ bm_IsSet NewEmptyBitMask n;
  bm_Fill_spec b n : 0 ≤ n < 64 → bm_IsSet (bm_Fill b) n;
  bm_Add_spec b k n : bm_IsSet (bm_Add b k) n ↔ bm_IsSet b n ∨ (n = k ∧ 0 ≤ k < 64);
  bm_And_spec b c n : bm_IsSet (bm_And b c) n ↔ bm_IsSet b n ∧ bm_IsSet c n;
  bm_IsEmpty_spec b : bm_IsEmpty b = true ↔ ∀ n, ¬ bm_IsSet b n;
  bm_GetBits_spec b n : n ∈ bm_GetBits b ↔ bm_IsSet b n;
  bm_GetBits_sorted b : StronglySorted Z.lt (bm_GetBits b);
  bm_Count_spec b : bm_Count b = Z.of_nat (length (bm_GetBits b));
}.

(** ** Definitions *)

Section NumaFilter.
Context `{MapOrder} `{QuantityOps} `{!FrameworkOps} `{NrtAPI} `{BitMaskOps}.

(** *** numaresources.go, pluginhelpers.go *)

Record NUMANode := {
  NUMAID : Z;
  Resources : resource_list;
  Costs : gmap Z Z;
}.

Definition WithCosts (n : NUMANode) (costs : gmap Z Z) : NUMANode :=
  {| NUMAID := NUMAID n; Resources := Resources n; Costs := costs |}.

Definition WithResources (n : NUMANode) (resources : resource_list) : NUMANode :=
  {| NUMAID := NUMAID n; Resources := resources; Costs := Costs n |}.

Definition maxNUMAId : Z := 64.
Definition highestNUMAID : Z := 8.

Definition extractResources (zone : Zone) : resource_list :=
  foldl (λ (res : resource_list) resInfo, <[ri_Name resInfo := ri_Available resInfo]> res) ∅ (z_Resources zone).

Definition extractCosts (costs : list CostInfo) : gmap Z Z :=
  foldl (λ (nodeCosts : gmap Z Z) cost,
    match NameToID (cost_Name cost) with
    | None => nodeCosts
    | Some numaID => if bool_decide (numaID > maxNUMAId) then nodeCosts
                     else <[numaID := cost_Value cost]> nodeCosts
    end) ∅ costs.

Definition numa_step (acc : list Z * list NUMANode) (entry : Z * Zone) : outcome (list Z * list NUMANode) :=
  let '(numaIDToZoneIDx, nodes) := acc in
  let '(i, zone) := entry in
  if negb (bool_decide (z_Type zone = "Node")) then Ret acc
  else match NameToID (z_Name zone) with
  | None => Ret acc
  | Some numaID =>
      if bool_decide (numaID > maxNUMAId) then Ret acc
      else
        numaIDToZoneIDx ← set_index numaIDToZoneIDx numaID i;
        let resources := extractResources zone in
        Ret (numaIDToZoneIDx, nodes ++ [{| NUMAID := numaID; Resources := resources; Costs := ∅ |}])
  end.

Definition createNUMANodeList (zones : list Zone) : outcome (list NUMANode) :=
  acc ← fold_outcome numa_step (replicate (Z.to_nat maxNUMAId) 0, []) (imap (λ i z, (Z.of_nat i, z)) zones);
  let '(numaIDToZoneIDx, nodes) := acc in
  fold_outcome (λ done_nodes node,
    zoneIdx ← index numaIDToZoneIDx (NUMAID node);
    zone ← index zones zoneIdx;
    Ret (done_nodes ++ [WithCosts node (extractCosts (z_Costs zone))])) [] nodes.

Definition isHostLevelResource (resource : string) : bool :=
  if bool_decide (resource = ResourceEphemeralStorage) then true
  else if bool_decide (resource = ResourceStorage) then true
  else if negb (IsNativeResource resource) then true
  else false.

Definition isNUMAAffineResource (resource : string) : bool :=
  if bool_decide (resource = ResourceCPU) then true
  else if bool_decide (resource = ResourceMemory) then true
  else if IsHugePageResourceName resource then true
  else false.

Definition isResourceSetSuitable (qos : PodQOSClass) (resource : string) (quantity numaQuantity : Quantity) : bool :=
  if negb (bool_decide (qos = PodQOSGuaranteed)) && isNUMAAffineResource resource then true
  else negb (bool_decide (q_Cmp numaQuantity quantity = Lt)).

(** The inner loop of [subtractResourcesFromNUMANodeList]: [None] is the error. *)
Definition subtract_step (qos : PodQOSClass) (resources : resource_list) (entry : string * Quantity) :
    result unit resource_list :=
  let '(resName, resQty) := entry in
  let isAffine := isNUMAAffineResource resName in
  if negb (bool_decide (qos = PodQOSGuaranteed)) && isAffine then Ok resources
  else if q_IsZero resQty then Ok resources
  else match resources !! resName with
  | None => Ok resources
  | Some nResQ =>
      let nodeResQty := q_Sub nResQ resQty in
      if bool_decide (q_Sign nodeResQty < 0) then Err tt
      else Ok (<[resName := nodeResQty]> resources)
  end.

Definition subtract_node (numaID : Z) (qos : PodQOSClass) (containerRes : resource_list) (node : NUMANode) :
    result unit NUMANode :=
  if negb (bool_decide (NUMAID node = numaID)) then Ok node
  else resources ← fold_result (subtract_step qos) (Resources node) (range containerRes);
       Ok (WithResources node resources).

(** The nodes updated so far are local to the caller, which drops them when it
    sees the error. *)
Definition subtractResourcesFromNUMANodeList (nodes : list NUMANode) (numaID : Z) (qos : PodQOSClass)
    (containerRes : resource_list) : result unit (list NUMANode) :=
  fold_result (λ done_nodes node, node ← subtract_node numaID qos containerRes node; Ok (done_nodes ++ [node]))
    [] nodes.

(** *** filter.go *)

Definition mask_step (qos : PodQOSClass) (resource : string) (quantity : Quantity) (acc : bool * BitMask)
    (numaNode : NUMANode) : bool * BitMask :=
  let '(hasNUMAAffinity, resourceBitmask) := acc in
  match Resources numaNode !! resource with
  | None => acc
  | Some numaQuantity =>
      if negb (isResourceSetSuitable qos resource quantity numaQuantity) then (true, resourceBitmask)
      else (true, bm_Add resourceBitmask (NUMAID numaNode))
  end.

Definition resource_step (qos : PodQOSClass) (numaNodes : list NUMANode) (nodeResources : resource_list)
    (bitmask : BitMask) (entry : string * Quantity) : result unit BitMask :=
  let '(resource, quantity) := entry in
  if q_IsZero quantity then Ok bitmask
  else if negb (bool_decide (is_Some (nodeResources !! resource))) then Err tt
  else
    let '(hasNUMAAffinity, resourceBitmask) :=
      foldl (mask_step qos resource quantity) (false, NewEmptyBitMask) numaNodes in
    if negb hasNUMAAffinity && isHostLevelResource resource then Ok bitmask
    else
      let bitmask := bm_And bitmask resourceBitmask in
      if bm_IsEmpty bitmask then Err tt else Ok bitmask.

Definition resourcesAvailableInAnyNUMANodes (numaNodes : list NUMANode) (resources : resource_list)
    (qos : PodQOSClass) (nodeInfo : NodeInfo) : outcome (Z * bool) :=
  let numaID := highestNUMAID in
  let bitmask := bm_Fill NewEmptyBitMask in
  let nodeResources := ResourceList (ni_allocatable nodeInfo) in
  match fold_result (resource_step qos numaNodes nodeResources) bitmask (range resources) with
  | Crash => Panic
  | Err _ => Ret (numaID, false)
  | Ok bitmask =>
      numaID ← index (bm_GetBits bitmask) 0;
      Ret (numaID, negb (bm_IsEmpty bitmask))
  end.

Definition init_step (qos : PodQOSClass) (nodeInfo : NodeInfo) (nodes : list NUMANode) (initContainer : Container) :
    result Status (list NUMANode) :=
  fit ← lift (resourcesAvailableInAnyNUMANodes nodes (c_requests initContainer) qos nodeInfo);
  let '(_, match_) := fit in
  if negb match_ then Err (Some (NewStatus Unschedulable "cannot align init container")) else Ok nodes.

Definition container_step (qos : PodQOSClass) (nodeInfo : NodeInfo) (nodes : list NUMANode) (container : Container) :
    result Status (list NUMANode) :=
  fit ← lift (resourcesAvailableInAnyNUMANodes nodes (c_requests container) qos nodeInfo);
  let '(numaID, match_) := fit in
  if negb match_ then Err (Some (NewStatus Unschedulable "cannot align container"))
  else match subtractResourcesFromNUMANodeList nodes numaID qos (c_requests container) with
       | Ok nodes => Ok nodes
       | Err _ => Err (Some (NewStatus Error "inconsistent resource accounting"))
       | Crash => Crash
       end.

(** The value of a computation that returns early with a status. *)
Definition returned {A} (m : result Status A) : outcome Status :=
  match m with Ok _ => Ret None | Err st => Ret st | Crash => Panic end.

Definition singleNUMAContainerLevelHandler (pod : Pod) (zones : list Zone) (nodeInfo : NodeInfo) : outcome Status :=
  returned (
    nodes ← lift (createNUMANodeList zones);
    let qos := GetPodQOS pod in
    _ ← lift (deref (ni_node nodeInfo));
    nodes ← fold_result (init_step qos nodeInfo) nodes (p_init_containers pod);
    fold_result (container_step qos nodeInfo) nodes (p_containers pod)).

Definition singleNUMAPodLevelHandler (pod : Pod) (zones : list Zone) (nodeInfo : NodeInfo) : outcome Status :=
  let resources := GetPodEffectiveRequest pod in
  nodes ← createNUMANodeList zones;
  _ ← deref (ni_node nodeInfo);
  fit ← resourcesAvailableInAnyNUMANodes nodes resources (GetPodQOS pod) nodeInfo;
  let '(numaID, match_) := fit in
  if negb match_ then Ret (Some (NewStatus Unschedulable "cannot align pod")) else Ret None.

Abbreviation filterFn := (Pod → list Zone → NodeInfo → outcome Status).

Definition filterHandlerFromTopologyManager (conf : TopologyManager) : option filterFn :=
  if negb (bool_decide (Policy conf = SingleNumaNodeTopologyManagerPolicy)) then None
  else if bool_decide (Scope conf = PodTopologyManagerScope) then Some singleNUMAPodLevelHandler
  else if bool_decide (Scope conf = ContainerTopologyManagerScope) then Some singleNUMAContainerLevelHandler
  else None.

Definition Filter {S} `{!NrtCache S} (nrtCache : S) (pod : Pod) (nodeInfo : NodeInfo) : outcome (S * Status) :=
  match ni_node nodeInfo with
  | None => Ret (nrtCache, Some (NewStatus Error "node not found"))
  | Some node =>
      if bool_decide (GetPodQOS pod = PodQOSBestEffort) && negb (IncludeNonNative pod) then Ret (nrtCache, None)
      else
        let nodeName := n_name node in
        let '(nodeTopology, info) := GetCachedNRTCopy nrtCache nodeName pod in
        if negb (Fresh info) then Ret (nrtCache, Some (NewStatus Unschedulable "invalid node topology data"))
        else match nodeTopology with
        | None => Ret (nrtCache, None)
        | Some nodeTopology =>
            let conf := TopologyManagerFromNodeResourceTopology nodeTopology in
            match filterHandlerFromTopologyManager conf with
            | None => Ret (nrtCache, None)
            | Some handler =>
                status ← handler pod (nrt_Zones nodeTopology) nodeInfo;
                match status with
                | Some _ => Ret (NodeMaybeOverReserved nrtCache nodeName pod, status)
                | None => Ret (nrtCache, status)
                end
            end
        end
  end.

(** *** reserve.go, postbind.go *)

Definition tm_Reserve {S} `{!NrtCache S} (nrtCache : S) (pod : Pod) (nodeName : string) : S * Status :=
  (ReserveNodeResources nrtCache nodeName pod, Some (NewStatus Success "")).
Definition tm_Unreserve {S} `{!NrtCache S} (nrtCache : S) (pod : Pod) (nodeName : string) : S :=
  UnreserveNodeResources nrtCache nodeName pod.
Definition tm_PostBind {S} `{!NrtCache S} (nrtCache : S) (pod : Pod) (nodeName : string) : S :=
  PostBind nrtCache nodeName pod.

(** ** Fitting a request on one NUMA node *)

Section Specification.
Context `{!QuantitySpec} `{!FrameworkSpec} `{!BitMaskSpec}.

(** What one request needs of the NUMA node [id]: nothing if it is zero; else
    the machine must have the resource, and either no NUMA node exposes it and
    it need not be bound to one, or [id] offers enough of it. *)
Definition fits (qos : PodQOSClass) (nodes : list NUMANode) (nodeResources : resource_list) (id : Z)
    (resource : string) (quantity : Quantity) : Prop :=
  amount quantity = 0 ∨
  (is_Some (nodeResources !! resource) ∧
   ((isHostLevelResource resource = true ∧ Forall (λ n, Resources n !! resource = None) nodes) ∨
    ∃ n q, n ∈ nodes ∧ NUMAID n = id ∧ Resources n !! resource = Some q ∧
      (qos ≠ PodQOSGuaranteed ∧ isNUMAAffineResource resource = true ∨ amount quantity ≤ amount q))).

Definition fits_all (qos : PodQOSClass) (nodes : list NUMANode) (nodeInfo : NodeInfo) (id : Z)
    (resources : resource_list) : Prop :=
  map_Forall (fits qos nodes (ResourceList (ni_allocatable nodeInfo)) id) resources.

Definition ids_ok (nodes : list NUMANode) : Prop := Forall (λ n, 0 ≤ NUMAID n < 64) nodes.

Lemma suitable_spec qos resource quantity numaQuantity :
  isResourceSetSuitable qos resource quantity numaQuantity = true ↔
  qos ≠ PodQOSGuaranteed ∧ isNUMAAffineResource resource = true ∨ amount quantity ≤ amount numaQuantity.
Proof.
  unfold isResourceSetSuitable.
  destruct (negb (bool_decide (qos = PodQOSGuaranteed)) && isNUMAAffineResource resource) eqn:E.
  - apply andb_true_iff in E as [E1 E2]. rewrite negb_true_iff, bool_decide_eq_false in E1. tauto.
  - rewrite q_Cmp_spec, negb_true_iff, bool_decide_eq_false, Z.compare_lt_iff.
    rewrite andb_false_iff, negb_false_iff, bool_decide_eq_true in E.
    split; [intros; right; lia|]. intros [[? ?]|?]; [|lia]. destruct E; congruence.
Qed.

Lemma mask_spec qos resource quantity nodes acc :
  ids_ok nodes →
  let '(aff, mask) := foldl (mask_step qos resource quantity) acc nodes in
  (aff = true ↔ acc.1 = true ∨ ∃ n q, n ∈ nodes ∧ Resources n !! resource = Some q) ∧
  (∀ id, bm_IsSet mask id ↔ bm_IsSet acc.2 id ∨ ∃ n q, n ∈ nodes ∧ NUMAID n = id ∧
     Resources n !! resource = Some q ∧ isResourceSetSuitable qos resource quantity q = true).
Proof.
  intros Hids. revert acc. induction Hids as [|n nodes Hid _ IH]; intros acc; cbn [foldl].
  { destruct acc as [aff mask]. cbn. split; intros; (split; [by left|]);
      (intros [?|(? & ? & Hx & _)]; [done|by apply elem_of_nil in Hx]). }
  specialize (IH (mask_step qos resource quantity acc n)). destruct (foldl _ _ nodes) as [aff mask].
  destruct IH as [IHa IHm]. destruct acc as [aff0 mask0]. unfold mask_step in IHa, IHm. cbn [fst snd].
  split.
  - rewrite IHa. destruct (Resources n !! resource) as [q|] eqn:E.
    + replace (fst _) with true by (by case_match). split; [intros _; right|by left].
      exists n, q. split; [left|done].
    + cbn. split; (intros [?|(m & q & Hm & Hq)]; [by left|right; exists m, q]).
      * split; [by right|done].
      * apply elem_of_cons in Hm as [->|Hm]; [congruence|done].
  - intros id. rewrite IHm. destruct (Resources n !! resource) as [q|] eqn:E;
      [destruct (isResourceSetSuitable qos resource quantity q) eqn:Es|]; cbn [negb snd].
    + rewrite bm_Add_spec. split.
      * intros [[?|[-> _]]|(m & r & Hm & Hr)]; [by left|right; exists n, q|right; exists m, r].
        -- split; [left|done].
        -- split; [by right|done].
      * intros [?|(m & r & Hm & <- & Hr & Hs)]; [by left; left|].
        apply elem_of_cons in Hm as [->|Hm]; [left; right; split; [done|lia]|right; by exists m, r].
    + split; (intros [?|(m & r & Hm & Hid' & Hr & Hs)]; [by left|right; exists m, r]).
      * split; [by right|done].
      * apply elem_of_cons in Hm as [->|Hm]; [congruence|done].
    + split; (intros [?|(m & r & Hm & Hid' & Hr & Hs)]; [by left|right; exists m, r]).
      * split; [by right|done].
      * apply elem_of_cons in Hm as [->|Hm]; [congruence|done].
Qed.

Lemma bm_nonempty b : bm_IsEmpty b = false → ∃ id, bm_IsSet b id.
Proof.
  intros He. destruct (bm_GetBits b) as [|id bits] eqn:E.
  - rewrite (proj2 (bm_IsEmpty_spec b)) in He; [done|]. intros n Hn. apply bm_GetBits_spec in Hn.
    rewrite E in Hn. by apply elem_of_nil in Hn.
  - exists id. apply bm_GetBits_spec. rewrite E. left.
Qed.

Lemma resource_step_spec qos nodes nodeResources mask resource quantity :
  ids_ok nodes →
  match resource_step qos nodes nodeResources mask (resource, quantity) with
  | Ok mask' =>
      ((∃ id, bm_IsSet mask id) → ∃ id, bm_IsSet mask' id) ∧
      ∀ id, bm_IsSet mask' id ↔ bm_IsSet mask id ∧ fits qos nodes nodeResources id resource quantity
  | Err _ => ∀ id, bm_IsSet mask id → ¬ fits qos nodes nodeResources id resource quantity
  | Crash => False
  end.
Proof.
  intros Hids. unfold resource_step, fits. rewrite q_IsZero_spec.
  destruct (decide (amount quantity = 0)) as [Hz|Hz].
  { rewrite bool_decide_true by done. split; [done|]. intros id. tauto. }
  rewrite bool_decide_false by done.
  destruct (decide (is_Some (nodeResources !! resource))) as [Hnr|Hnr].
  2: { rewrite bool_decide_false by done. cbn. tauto. }
  rewrite bool_decide_true by done. cbn [negb].
  pose proof (mask_spec qos resource quantity nodes (false, NewEmptyBitMask) Hids) as Hm.
  destruct (foldl _ _ nodes) as [aff rmask]. destruct Hm as [Haff Hmask]. cbn [fst snd] in *.
  assert (Hset : ∀ id, bm_IsSet rmask id ↔ ∃ n q, n ∈ nodes ∧ NUMAID n = id ∧ Resources n !! resource = Some q ∧
      (qos ≠ PodQOSGuaranteed ∧ isNUMAAffineResource resource = true ∨ amount quantity ≤ amount q)).
  { intros id. rewrite Hmask. setoid_rewrite suitable_spec.
    split; [intros [Hx|?]; [by apply bm_empty_spec in Hx|done]|by right]. }
  destruct (negb aff && isHostLevelResource resource) eqn:Eh.
  - apply andb_true_iff in Eh as [Ea Eh]. split; [done|]. intros id. split; [|tauto]. intros ?. split; [done|].
    right. split; [done|]. left. split; [done|]. apply Forall_forall. intros n Hn.
    destruct (Resources n !! resource) as [q|] eqn:E; [|done].
    rewrite (proj2 Haff) in Ea; [done|]. right. by exists n, q.
  - assert (Hfit : ∀ id, bm_IsSet rmask id ↔ amount quantity = 0 ∨ is_Some (nodeResources !! resource) ∧
      (isHostLevelResource resource = true ∧ Forall (λ n, Resources n !! resource = None) nodes ∨
       ∃ n q, n ∈ nodes ∧ NUMAID n = id ∧ Resources n !! resource = Some q ∧
        (qos ≠ PodQOSGuaranteed ∧ isNUMAAffineResource resource = true ∨ amount quantity ≤ amount q))).
    { intros id. rewrite Hset. split; [tauto|]. intros [?|[_ [[Hh Hno]|?]]]; [done| |done].
      rewrite Hh, andb_true_r, negb_false_iff in Eh. apply Haff in Eh as [?|(n & q & Hn & Hq)]; [done|].
      rewrite Forall_forall in Hno. rewrite Hno in Hq by done. done. }
    destruct (bm_IsEmpty (bm_And mask rmask)) eqn:Ee.
    + rewrite bm_IsEmpty_spec in Ee. intros id Hid Hf. apply (Ee id), bm_And_spec.
      split; [done|]. by apply Hfit.
    + split; [|intros id; by rewrite bm_And_spec, Hfit]. intros _.
      by apply bm_nonempty.
Qed.

Lemma resources_loop qos nodes nodeResources mask (l : list (string * Quantity)) :
  ids_ok nodes → (∃ id, bm_IsSet mask id) →
  match fold_result (resource_step qos nodes nodeResources) mask l with
  | Ok mask' => (∃ id, bm_IsSet mask' id) ∧
      ∀ id, bm_IsSet mask' id ↔ bm_IsSet mask id ∧ Forall (λ e, fits qos nodes nodeResources id e.1 e.2) l
  | Err _ => ∀ id, bm_IsSet mask id → ¬ Forall (λ e, fits qos nodes nodeResources id e.1 e.2) l
  | Crash => False
  end.
Proof.
  intros Hids. revert mask. induction l as [|[resource quantity] l IH]; intros mask Hne.
  { cbn. split; [done|]. intros id. rewrite Forall_nil. tauto. }
  cbn [fold_result]. pose proof (resource_step_spec qos nodes nodeResources mask resource quantity Hids) as Hs.
  destruct (resource_step _ _ _ _ _) as [mask1|[]|]; cbn [mbind result_bind]; [|..|done].
  - destruct Hs as [Hne1 Hs]. specialize (IH mask1 (Hne1 Hne)).
    destruct (fold_result _ mask1 l) as [mask'|[]|]; [|..|done].
    + destruct IH as [? IH]. split; [done|]. intros id. rewrite IH, Hs, Forall_cons. cbn. tauto.
    + intros id Hid [Hf Hl]%Forall_cons. apply (IH id); [by apply Hs|done].
  - intros id Hid [Hf _]%Forall_cons. by apply (Hs id).
Qed.

Lemma fits_all_range qos nodes nodeInfo id resources :
  fits_all qos nodes nodeInfo id resources ↔
  Forall (λ e, fits qos nodes (ResourceList (ni_allocatable nodeInfo)) id e.1 e.2) (range resources).
Proof.
  unfold fits_all, map_Forall. rewrite Forall_forall. split.
  - intros Hf [r q] Hin. by apply Hf, elem_of_range.
  - intros Hf r q Hq. by apply (Hf (r, q)), elem_of_range.
Qed.

(** The shared form of the property below. *)
Lemma available_spec numaNodes resources qos nodeInfo :
  ids_ok numaNodes →
  (∃ id, resourcesAvailableInAnyNUMANodes numaNodes resources qos nodeInfo = Ret (id, true) ∧
     0 ≤ id < 64 ∧ fits_all qos numaNodes nodeInfo id resources ∧
     ∀ id', 0 ≤ id' < id → ¬ fits_all qos numaNodes nodeInfo id' resources) ∨
  (resourcesAvailableInAnyNUMANodes numaNodes resources qos nodeInfo = Ret (highestNUMAID, false) ∧
     ∀ id, 0 ≤ id < 64 → ¬ fits_all qos numaNodes nodeInfo id resources).
Proof.
  intros Hids. unfold resourcesAvailableInAnyNUMANodes.
  assert (Hfull : ∀ id, bm_IsSet (bm_Fill NewEmptyBitMask) id ↔ 0 ≤ id < 64).
  { intros id. split; [apply bm_IsSet_range|apply bm_Fill_spec]. }
  assert (Hne : ∃ id, bm_IsSet (bm_Fill NewEmptyBitMask) id) by (exists 0; by apply Hfull).
  pose proof (resources_loop qos numaNodes (ResourceList (ni_allocatable nodeInfo)) _ (range resources) Hids Hne) as Hl.
  setoid_rewrite fits_all_range. destruct (fold_result _ _ _) as [mask|[]|]; [|..|done].
  - left. destruct Hl as [[k Hk] Hl].
    assert (Hbits : ∀ id, id ∈ bm_GetBits mask ↔ 0 ≤ id < 64 ∧ Forall (λ e, fits qos numaNodes
        (ResourceList (ni_allocatable nodeInfo)) id e.1 e.2) (range resources)).
    { intros id. by rewrite bm_GetBits_spec, Hl, Hfull. }
    pose proof (bm_GetBits_sorted mask) as Hsort. apply bm_GetBits_spec in Hk as Hk'.
    destruct (bm_GetBits mask) as [|id bits]; [by apply elem_of_nil in Hk'|].
    exists id. assert (id ∈ id :: bits) as Hin by left. apply Hbits in Hin as [Hr Hf].
    split_and!; [|lia|lia|done|].
    + cbn. replace (bm_IsEmpty mask) with false; [done|]. symmetry. apply not_true_iff_false.
      intros He. by apply (proj1 (bm_IsEmpty_spec mask) He k).
    + intros id' Hlt Hf'. assert (id' ∈ id :: bits) as Hin by (apply Hbits; split; [lia|done]).
      apply StronglySorted_inv in Hsort as [_ Hsort]. rewrite Forall_forall in Hsort.
      apply elem_of_cons in Hin as [->|Hin]; [lia|]. specialize (Hsort _ Hin). lia.
  - right. split; [done|]. intros id Hid. apply Hl. by apply Hfull.
Qed.

(** C12: on NUMA nodes numbered from 0 to 63 the search never panics, and
    returns the lowest NUMA node on which every requested resource fits, or
    reports that there is none; the iteration order of the request does not
    matter. *)
Theorem resourcesAvailable_lowest numaNodes resources qos nodeInfo id :
  ids_ok numaNodes →
  (resourcesAvailableInAnyNUMANodes numaNodes resources qos nodeInfo = Ret (id, true) ↔
   0 ≤ id < 64 ∧ fits_all qos numaNodes nodeInfo id resources ∧
   ∀ id', 0 ≤ id' < id → ¬ fits_all qos numaNodes nodeInfo id' resources) ∧
  (resourcesAvailableInAnyNUMANodes numaNodes resources qos nodeInfo = Ret (highestNUMAID, false) ↔
   ∀ id', 0 ≤ id' < 64 → ¬ fits_all qos numaNodes nodeInfo id' resources).
Proof.
  intros Hids. destruct (available_spec numaNodes resources qos nodeInfo Hids)
    as [(k & -> & Hr & Hf & Hlow)|[-> Hno]]; split; split.
  - by intros [= <-].
  - intros (Hr' & Hf' & Hlow'). do 2 f_equal. destruct (Z.lt_trichotomy id k) as [?|[?|?]]; [|done|].
    + by destruct (Hlow id ltac:(lia)).
    + by destruct (Hlow' k ltac:(lia)).
  - done.
  - intros Hno. by destruct (Hno k Hr).
  - done.
  - intros (Hr & Hf & _). by destruct (Hno id Hr).
  - done.
  - done.
Qed.

(** ** NUMA nodes and zones *)

(** The NUMA node that a zone describes, if it describes one. *)
Definition numa_of (zone : Zone) : option (Z * resource_list) :=
  if bool_decide (z_Type zone = "Node") then
    match NameToID (z_Name zone) with
    | Some numaID => if bool_decide (numaID > maxNUMAId) then None else Some (numaID, extractResources zone)
    | None => None
    end
  else None.

Definition numa_zones (zones : list Zone) : list (Z * resource_list) := omap numa_of zones.

Definition node_key (n : NUMANode) : Z * resource_list := (NUMAID n, Resources n).

Lemma set_index_Ret {A} (l : list A) i a l' :
  set_index l i a = Ret l' → 0 ≤ i < Z.of_nat (length l) ∧ l' = <[Z.to_nat i := a]> l.
Proof. unfold set_index. case_decide; [|done]. by intros [= <-]. Qed.

Lemma numa_step_Ret acc i zone acc' :
  length acc.1 = 64%nat → numa_step acc (i, zone) = Ret acc' →
  length acc'.1 = 64%nat ∧
  match numa_of zone with
  | None => acc' = acc
  | Some e => 0 ≤ e.1 < 64 ∧ acc'.1 = <[Z.to_nat e.1 := i]> acc.1 ∧ map node_key acc'.2 = map node_key acc.2 ++ [e]
  end.
Proof.
  destruct acc as [idx nodes]. cbn [fst snd]. intros Hlen. unfold numa_step, numa_of.
  case_bool_decide; cbn [negb]; [|by intros [= <-]].
  destruct (NameToID (z_Name zone)) as [id|]; [|by intros [= <-]].
  case_bool_decide; [by intros [= <-]|].
  intros (idx' & [Hr ->]%set_index_Ret & [= <-])%outcome_bind_Ret. cbn. rewrite length_insert, map_app.
  split_and!; [done|lia..|done|done].
Qed.

Lemma numa_fold_Ret zones : ∀ k acc acc',
  length acc.1 = 64%nat →
  fold_outcome numa_step acc (imap (λ i z, (Z.of_nat (k + i), z)) zones) = Ret acc' →
  map node_key acc'.2 = map node_key acc.2 ++ numa_zones zones ∧
  Forall (λ e, 0 ≤ e.1 < 64) (numa_zones zones).
Proof.
  induction zones as [|zone zones IH]; intros k acc acc' Hlen; cbn.
  { intros [= <-]. by rewrite app_nil_r. }
  intros (acc1 & Hs & Hf)%outcome_bind_Ret. apply numa_step_Ret in Hs as [Hlen1 Hs]; [|done].
  assert (imap ((λ i z, (Z.of_nat (k + i), z)) ∘ S) zones = imap (λ i z, (Z.of_nat (S k + i), z)) zones) as Himap.
  { apply imap_ext. intros. cbn. do 2 f_equal. lia. }
  rewrite Himap in Hf. apply IH in Hf as [Hf Hall]; [|done].
  destruct (numa_of zone) as [e|] eqn:E; cbn.
  - destruct Hs as (Hr & _ & Hk). rewrite Hf, Hk, <- app_assoc. split; [done|]. by constructor.
  - by subst acc1.
Qed.

Lemma with_costs_Ret (idx : list Z) (zones : list Zone) (nodes done_nodes nodes' : list NUMANode) :
  fold_outcome (λ done_nodes node, zoneIdx ← index idx (NUMAID node); zone ← index zones zoneIdx;
    Ret (done_nodes ++ [WithCosts node (extractCosts (z_Costs zone))])) done_nodes nodes = Ret nodes' →
  map node_key nodes' = map node_key done_nodes ++ map node_key nodes.
Proof.
  revert done_nodes. induction nodes as [|n nodes IH]; intros done_nodes; cbn.
  { intros [= <-]. by rewrite app_nil_r. }
  intros (d & (zi & _ & (z & _ & [= <-])%outcome_bind_Ret)%outcome_bind_Ret & Hf)%outcome_bind_Ret.
  apply IH in Hf as ->. by rewrite map_app, <- app_assoc.
Qed.

Lemma createNUMANodeList_Ret zones nodes :
  createNUMANodeList zones = Ret nodes → map node_key nodes = numa_zones zones ∧ ids_ok nodes.
Proof.
  unfold createNUMANodeList. intros ([idx nodes0] & Hf & Hc)%outcome_bind_Ret.
  apply with_costs_Ret in Hc. cbn in Hc. apply (numa_fold_Ret zones 0) in Hf as [Hk Hall]; [|done].
  cbn in Hk. rewrite Hk in Hc. split; [done|]. unfold ids_ok. rewrite <- Hc in Hall.
  apply Forall_map in Hall. done.
Qed.

(** ** Charging containers to NUMA nodes *)

(** [charged c n n']: [n'] is [n] after the amount [c r] of each resource [r]
    was taken from it; an amount that was really taken was there. *)
Definition charged (c : string → Z) (n n' : NUMANode) : Prop :=
  NUMAID n' = NUMAID n ∧
  ∀ r, match Resources n !! r, Resources n' !! r with
       | Some q, Some q' => amount q' = amount q - c r ∧ (c r ≠ 0 → 0 ≤ amount q')
       | None, None => True
       | _, _ => False
       end.

Lemma charged_refl n : charged (λ _, 0) n n.
Proof. split; [done|]. intros r. destruct (Resources n !! r); [split; [lia|done]|done]. Qed.

Lemma charged_trans c d n n1 n2 :
  (∀ r, 0 ≤ c r) → (∀ r, 0 ≤ d r) → charged c n n1 → charged d n1 n2 → charged (λ r, c r + d r) n n2.
Proof.
  intros Hc Hd [E1 H1n] [E2 H2n]. split; [congruence|]. intros r. specialize (H1n r). specialize (H2n r).
  specialize (Hc r). specialize (Hd r).
  destruct (Resources n !! r), (Resources n1 !! r), (Resources n2 !! r); try done. lia.
Qed.

Lemma charged_ext c d n n' : (∀ r, c r = d r) → charged c n n' → charged d n n'.
Proof. intros Hcd [E Hn]. split; [done|]. intros r. rewrite <- Hcd. apply Hn. Qed.

(** The amount of a resource in a list of entries. *)
Definition entry_amount (r : string) (e : string * Quantity) : Z := if decide (e.1 = r) then amount e.2 else 0.

Lemma entries_amount (rl : resource_list) r : zsum (entry_amount r) (range rl) = amount_of rl r.
Proof.
  rewrite range_perm. induction rl as [|k q rl Hk IH] using map_ind.
  - by rewrite map_to_list_empty, amount_of_empty.
  - rewrite map_to_list_insert by done. cbn. fold (zsum (entry_amount r) (map_to_list rl)). rewrite IH.
    unfold entry_amount, amount_of. cbn. destruct (decide (k = r)) as [->|Hr].
    + rewrite lookup_insert_eq, Hk. lia.
    + rewrite lookup_insert_ne by done. lia.
Qed.

Lemma subtract_step_charged n resources entry res' :
  0 ≤ amount entry.2 → subtract_step PodQOSGuaranteed resources entry = Ok res' →
  charged (λ r, entry_amount r entry) (WithResources n resources) (WithResources n res').
Proof.
  destruct entry as [name qty]. intros Hq. unfold subtract_step. cbn [bool_decide negb andb].
  rewrite bool_decide_true by done. cbn [negb andb]. rewrite q_IsZero_spec.
  assert (Hsame : (amount qty = 0 ∨ resources !! name = None) →
    charged (λ r, entry_amount r (name, qty)) (WithResources n resources) (WithResources n resources)).
  { intros Hz. split; [done|]. intros r. cbn. unfold entry_amount. cbn.
    destruct (resources !! r) eqn:E; [|done].
    destruct (decide (name = r)) as [->|]; [destruct Hz; [|congruence]|]; split; (lia || done). }
  case_bool_decide as Hz; [intros [= <-]; apply Hsame; auto|].
  destruct (resources !! name) as [q|] eqn:E; [|intros [= <-]; apply Hsame; auto].
  rewrite q_Sign_spec, amount_Sub. case_bool_decide as Hs; [done|]. intros [= <-].
  split; [done|]. intros r. cbn. unfold entry_amount. cbn. destruct (decide (name = r)) as [<-|Hr].
  - rewrite E, lookup_insert_eq, amount_Sub. split; [done|]. lia.
  - rewrite lookup_insert_ne by done. destruct (resources !! r); [|done]. split; [lia|done].
Qed.

Lemma subtract_loop_charged n (l : list (string * Quantity)) : ∀ resources res',
  Forall (λ e, 0 ≤ amount e.2) l →
  fold_result (subtract_step PodQOSGuaranteed) resources l = Ok res' →
  charged (λ r, zsum (entry_amount r) l) (WithResources n resources) (WithResources n res').
Proof.
  induction l as [|e l IH]; intros resources res' Hl; cbn [fold_result].
  { intros [= <-]. apply charged_refl. }
  intros (res1 & Hs & Hf)%result_bind_Ok. apply Forall_cons in Hl as [He Hl].
  apply (subtract_step_charged n) in Hs; [|done]. specialize (IH _ _ Hl Hf).
  eapply charged_ext; [|eapply charged_trans; [| |exact Hs|exact IH]]; intros r; cbn; [done| |].
  - unfold entry_amount. case_decide; lia.
  - apply zsum_nonneg. intros x Hx. rewrite Forall_forall in Hl. specialize (Hl x Hx).
    unfold entry_amount. case_decide; lia.
Qed.

(** What a container assigned to [id] takes from the NUMA node [n]. *)
Definition share (n id : Z) (resources : resource_list) (r : string) : Z :=
  if decide (n = id) then amount_of resources r else 0.

Lemma subtract_node_charged id containerRes n n' :
  nonneg containerRes → subtract_node id PodQOSGuaranteed containerRes n = Ok n' →
  charged (share (NUMAID n) id containerRes) n n'.
Proof.
  intros Hc. unfold subtract_node, share. case_bool_decide as Hid; cbn [negb].
  - intros (res & Hf & [= <-])%result_bind_Ok. apply (subtract_loop_charged n) in Hf.
    + destruct n as [nid res0 costs]. eapply charged_ext; [|exact Hf]. intros r. cbn in *.
      rewrite decide_True by done. apply entries_amount.
    + apply Forall_forall. intros [r q] Hin. apply elem_of_range in Hin. specialize (Hc r).
      unfold amount_of in Hc. by rewrite Hin in Hc.
  - intros [= <-]. eapply charged_ext; [|apply charged_refl]. intros r. cbn. by rewrite decide_False.
Qed.

Lemma fold_append_Forall2 {E A B} (f : A → result E B) (P : A → B → Prop) (l : list A) :
  (∀ x y, f x = Ok y → P x y) → ∀ before l',
  fold_result (λ acc x, y ← f x; Ok (acc ++ [y])) before l = Ok l' →
  ∃ l2, l' = before ++ l2 ∧ Forall2 P l l2.
Proof.
  intros Hf. induction l as [|x l IH]; intros before l'; cbn [fold_result].
  { intros [= <-]. exists []. by rewrite app_nil_r. }
  intros (acc & (y & Hy & [= <-])%result_bind_Ok & Hl)%result_bind_Ok.
  apply IH in Hl as (l2 & -> & Hl2). exists (y :: l2). rewrite <- app_assoc. split; [done|].
  constructor; auto.
Qed.

Lemma subtract_list_charged id containerRes nodes nodes' :
  nonneg containerRes →
  subtractResourcesFromNUMANodeList nodes id PodQOSGuaranteed containerRes = Ok nodes' →
  Forall2 (λ n n', charged (share (NUMAID n) id containerRes) n n') nodes nodes'.
Proof.
  intros Hc Hs. eapply (fold_append_Forall2 _ (λ n n', charged (share (NUMAID n) id containerRes) n n'))
    in Hs as (l2 & -> & Hl2); [done|]. intros n n'. by apply subtract_node_charged.
Qed.

Lemma share_nonneg n id resources r : nonneg resources → 0 ≤ share n id resources r.
Proof. intros Hn. unfold share. case_decide; [apply Hn|lia]. Qed.

Lemma fits_mono qos (c : NUMANode → string → Z) nodes nodes' nodeResources id r q :
  (∀ n r, 0 ≤ c n r) → Forall2 (λ n n', charged (c n) n n') nodes nodes' →
  fits qos nodes' nodeResources id r q → fits qos nodes nodeResources id r q.
Proof.
  intros Hc Hn [?|[Hr [[Hh Hno]|(n' & q' & Hin & Hid & Hq & Hs)]]]; [by left|right; split; [done|]..].
  - left. split; [done|]. apply Forall_forall. intros n Hin.
    apply list_elem_of_lookup in Hin as [i Hi].
    destruct (Forall2_lookup_l _ _ _ _ _ Hn Hi) as (n' & Hi' & _ & Hch). specialize (Hch r).
    rewrite Forall_forall in Hno. rewrite (Hno n') in Hch by (by eapply list_elem_of_lookup_2).
    by destruct (Resources n !! r).
  - right. apply list_elem_of_lookup in Hin as [i Hi'].
    destruct (Forall2_lookup_r _ _ _ _ _ Hn Hi') as (n & Hi & Hid' & Hch). specialize (Hch r).
    rewrite Hq in Hch. destruct (Resources n !! r) as [q0|] eqn:E; [|done]. specialize (Hc n r).
    exists n, q0. split_and!; [by eapply list_elem_of_lookup_2|congruence|done|].
    destruct Hs as [?|?]; [by left|right; lia].
Qed.

(** What the containers of an assignment take from the NUMA node [n]. *)
Definition demand (n : Z) (assignment : list (Container * Z)) (r : string) : Z :=
  zsum (λ a, share n a.2 (c_requests a.1) r) assignment.

Lemma demand_nonneg n assignment r :
  Forall (λ a, nonneg (c_requests a.1)) assignment → 0 ≤ demand n assignment r.
Proof.
  intros Ha. apply zsum_nonneg. intros a Hin. rewrite Forall_forall in Ha. by apply share_nonneg, Ha.
Qed.

Lemma charged_ids_ok (c : NUMANode → string → Z) nodes nodes' :
  Forall2 (λ n n', charged (c n) n n') nodes nodes' → ids_ok nodes → ids_ok nodes'.
Proof.
  intros Hn Hids. induction Hn as [|n n' nodes nodes' [E _] _ IH]; [done|].
  apply Forall_cons in Hids as [? Hids]. apply Forall_cons. split; [lia|by apply IH].
Qed.

Lemma container_step_Ok nodeInfo nodes container nodes' :
  ids_ok nodes → nonneg (c_requests container) →
  container_step PodQOSGuaranteed nodeInfo nodes container = Ok nodes' →
  ∃ id, fits_all PodQOSGuaranteed nodes nodeInfo id (c_requests container) ∧
    Forall2 (λ n n', charged (share (NUMAID n) id (c_requests container)) n n') nodes nodes'.
Proof.
  intros Hids Hc. unfold container_step.
  destruct (available_spec nodes (c_requests container) PodQOSGuaranteed nodeInfo Hids)
    as [(id & -> & _ & Hf & _)|[-> _]]; cbn; [|done].
  destruct (subtractResourcesFromNUMANodeList _ _ _ _) as [n1|[]|] eqn:E; [|done..]. intros [= <-].
  exists id. split; [done|]. by apply subtract_list_charged.
Qed.

Lemma container_loop_Ok nodeInfo containers : ∀ nodes nodes',
  ids_ok nodes → Forall (λ c, nonneg (c_requests c)) containers →
  fold_result (container_step PodQOSGuaranteed nodeInfo) nodes containers = Ok nodes' →
  ∃ ids, length ids = length containers ∧
    Forall (λ a, fits_all PodQOSGuaranteed nodes nodeInfo a.2 (c_requests a.1)) (zip containers ids) ∧
    Forall2 (λ n n', charged (demand (NUMAID n) (zip containers ids)) n n') nodes nodes'.
Proof.
  induction containers as [|c cs IH]; intros nodes nodes' Hids Hnn; cbn [fold_result].
  { intros [= <-]. exists []. split_and!; [done|constructor|].
    apply Forall_Forall2_diag, Forall_true. intros n. apply charged_refl. }
  apply Forall_cons in Hnn as [Hc Hcs]. intros (nodes1 & Hs & Hf)%result_bind_Ok.
  apply container_step_Ok in Hs as (id & Hfit & Hch); [|done..].
  apply IH in Hf as (ids & Hlen & Hfits & Hch'); [|by eapply (charged_ids_ok (λ n, _))|done].
  exists (id :: ids). cbn [length zip zip_with]. split_and!; [lia|constructor; [done|]|].
  - eapply Forall_impl; [exact Hfits|]. intros a Ha r q Hq. specialize (Ha r q Hq).
    eapply (fits_mono _ (λ n, share (NUMAID n) id (c_requests c))); [|exact Hch|exact Ha].
    intros. by apply share_nonneg.
  - eapply Forall2_trans; [|exact Hch|exact Hch']. cbn. intros n n1 n2 H1n H2n.
    pose proof (proj1 H1n) as E1. rewrite E1 in H2n.
    eapply charged_ext; [|eapply charged_trans; [| |exact H1n|exact H2n]]; intros r; cbn; [done| |].
    + by apply share_nonneg.
    + apply demand_nonneg. apply Forall_forall. intros [c' i'] Hin%elem_of_zip_l.
      rewrite Forall_forall in Hcs. by apply Hcs.
Qed.

Lemma init_loop_Ok nodeInfo containers : ∀ nodes nodes',
  ids_ok nodes →
  fold_result (init_step PodQOSGuaranteed nodeInfo) nodes containers = Ok nodes' →
  nodes' = nodes ∧ Forall (λ c, ∃ id, fits_all PodQOSGuaranteed nodes nodeInfo id (c_requests c)) containers.
Proof.
  induction containers as [|c cs IH]; intros nodes nodes' Hids; cbn [fold_result].
  { intros [= <-]. done. }
  intros (nodes1 & Hs & Hf)%result_bind_Ok. unfold init_step in Hs.
  destruct (available_spec nodes (c_requests c) PodQOSGuaranteed nodeInfo Hids)
    as [(id & E & _ & Hfit & _)|[E _]]; rewrite E in Hs; cbn in Hs; [|done].
  injection Hs as <-. apply IH in Hf as [-> Hall]; [|done]. split; [done|].
  constructor; [by exists id|done].
Qed.

(** ** What an accepted pod is promised *)

(** Every positive request fits on the NUMA node [id] that the zones describe,
    or is for a resource of the machine that no zone exposes. *)
Definition zone_fits (zones : list Zone) (nodeInfo : NodeInfo) (id : Z) (resources : resource_list) : Prop :=
  ∀ r q, resources !! r = Some q → 0 < amount q →
    is_Some (ResourceList (ni_allocatable nodeInfo) !! r) ∧
    ((isHostLevelResource r = true ∧ Forall (λ z, z.2 !! r = None) (numa_zones zones)) ∨
     ∃ res q', (id, res) ∈ numa_zones zones ∧ res !! r = Some q' ∧ amount q ≤ amount q').

(** The assignment takes from no NUMA node more than its zone offers. *)
Definition zone_capacity (zones : list Zone) (assignment : list (Container * Z)) : Prop :=
  ∀ id res r q, (id, res) ∈ numa_zones zones → res !! r = Some q → 0 < demand id assignment r →
    demand id assignment r ≤ amount q.

Lemma fits_all_zones zones nodes nodeInfo id resources :
  map node_key nodes = numa_zones zones →
  fits_all PodQOSGuaranteed nodes nodeInfo id resources → zone_fits zones nodeInfo id resources.
Proof.
  intros Hk Hf r q Hq Hpos. specialize (Hf r q Hq). unfold fits in Hf.
  destruct Hf as [?|[Hr [[Hh Hno]|(n & q' & Hn & Hid & Hq' & Hs)]]]; [lia|split; [done|]..].
  - left. split; [done|]. rewrite <- Hk. by apply Forall_map.
  - right. exists (Resources n), q'. split_and!; [|done|naive_solver]. rewrite <- Hk.
    apply list_elem_of_fmap. exists n. split; [|done]. unfold node_key. by rewrite Hid.
Qed.

(** Two resource lists with the same keys, and zones with the same shape, whose
    entries for each resource [r] are related by [R r]. *)
Section EntryRelation.
Context (R : string → Quantity → Quantity → Prop).

Definition entries_rel (a b : resource_list) : Prop :=
  ∀ r, match a !! r, b !! r with
       | Some x, Some y => R r x y
       | None, None => True
       | _, _ => False
       end.

Definition zone_rel (za zb : Zone) : Prop :=
  z_Name za = z_Name zb ∧ z_Type za = z_Type zb ∧
  Forall2 (λ a b, ri_Name a = ri_Name b ∧ R (ri_Name b) (ri_Available a) (ri_Available b))
    (z_Resources za) (z_Resources zb).

Lemma extract_loop_rel la lb :
  Forall2 (λ a b, ri_Name a = ri_Name b ∧ R (ri_Name b) (ri_Available a) (ri_Available b)) la lb →
  ∀ ma mb, entries_rel ma mb →
  entries_rel (foldl (λ (res : resource_list) resInfo, <[ri_Name resInfo := ri_Available resInfo]> res) ma la)
              (foldl (λ (res : resource_list) resInfo, <[ri_Name resInfo := ri_Available resInfo]> res) mb lb).
Proof.
  induction 1 as [|a b la lb [Hn Hab] _ IH]; intros ma mb Hacc; cbn [foldl]; [exact Hacc|].
  apply IH. intros r. rewrite Hn. destruct (decide (ri_Name b = r)) as [<-|Hne].
  - by rewrite !lookup_insert_eq.
  - rewrite !lookup_insert_ne by done. apply Hacc.
Qed.

Lemma zone_rel_extract za zb : zone_rel za zb → entries_rel (extractResources za) (extractResources zb).
Proof. intros (_ & _ & Hr). apply extract_loop_rel; [done|]. intros r. by rewrite lookup_empty. Qed.

Lemma numa_of_rel za zb :
  zone_rel za zb →
  match numa_of za, numa_of zb with
  | Some a, Some b => a.1 = b.1 ∧ entries_rel a.2 b.2
  | None, None => True
  | _, _ => False
  end.
Proof.
  intros Hz. pose proof (zone_rel_extract za zb Hz). destruct Hz as (Hn & Ht & _).
  unfold numa_of. rewrite Hn, Ht. case_bool_decide; [|done].
  destruct (NameToID (z_Name zb)); [|done]. by case_bool_decide.
Qed.

Lemma numa_zones_rel zas zbs :
  Forall2 zone_rel zas zbs →
  Forall2 (λ a b, a.1 = b.1 ∧ entries_rel a.2 b.2) (numa_zones zas) (numa_zones zbs).
Proof.
  induction 1 as [|za zb zas zbs Hz _ IH]; [constructor|]. cbn.
  pose proof (numa_of_rel za zb Hz) as Hn.
  destruct (numa_of za), (numa_of zb); [|done|done|exact IH]. by constructor.
Qed.

(** An entry of the first list has its counterpart in the second, and back. *)
Lemma numa_zones_there zas zbs id res r x :
  Forall2 zone_rel zas zbs → (id, res) ∈ numa_zones zas → res !! r = Some x →
  ∃ resb y, (id, resb) ∈ numa_zones zbs ∧ resb !! r = Some y ∧ R r x y.
Proof.
  intros Hz%numa_zones_rel Hin Hx. apply list_elem_of_lookup in Hin as [i Hi].
  destruct (Forall2_lookup_l _ _ _ _ _ Hz Hi) as ([id' resb] & Hb & Hid & Hab). cbn in *. subst id'.
  specialize (Hab r). rewrite Hx in Hab. destruct (resb !! r) as [y|] eqn:Ey; [|done].
  exists resb, y. split_and!; [by eapply list_elem_of_lookup_2|done|done].
Qed.

Lemma numa_zones_back zas zbs id resb r y :
  Forall2 zone_rel zas zbs → (id, resb) ∈ numa_zones zbs → resb !! r = Some y →
  ∃ res x, (id, res) ∈ numa_zones zas ∧ res !! r = Some x ∧ R r x y.
Proof.
  intros Hz%numa_zones_rel Hin Hy. apply list_elem_of_lookup in Hin as [i Hi].
  destruct (Forall2_lookup_r _ _ _ _ _ Hz Hi) as ([id' res] & Ha & Hid & Hab). cbn in *. subst id'.
  specialize (Hab r). rewrite Hy in Hab. destruct (res !! r) as [x|] eqn:Ex; [|done].
  exists res, x. split_and!; [by eapply list_elem_of_lookup_2|done|done].
Qed.

Lemma numa_zones_none zas zbs r :
  Forall2 zone_rel zas zbs →
  Forall (λ z, z.2 !! r = None) (numa_zones zas) → Forall (λ z, z.2 !! r = None) (numa_zones zbs).
Proof.
  intros Hz Hno. apply Forall_forall. intros [id resb] Hin. cbn.
  destruct (resb !! r) as [y|] eqn:Hy; [|done].
  destruct (numa_zones_back _ _ _ _ _ _ Hz Hin Hy) as (res & x & Hin' & Hx & _).
  rewrite Forall_forall in Hno. specialize (Hno _ Hin'). cbn in Hno. congruence.
Qed.
End EntryRelation.

Definition no_more (r : string) (x y : Quantity) : Prop := amount x ≤ Z.max 0 (amount y).

Lemma zone_le_rel zas zbs : Forall2 zone_le zas zbs → Forall2 (zone_rel no_more) zas zbs.
Proof.
  intros Hz. eapply Forall2_impl; [exact Hz|]. intros za zb (? & ? & _ & Hr). split_and!; [done..|].
  eapply Forall2_impl; [exact Hr|]. by intros a b (? & _ & _ & ?).
Qed.

(** What a conservative copy promises, its source promises. *)
Lemma zone_fits_le zas zbs nodeInfo id resources :
  Forall2 zone_le zas zbs → zone_fits zas nodeInfo id resources → zone_fits zbs nodeInfo id resources.
Proof.
  intros Hz%zone_le_rel Hf r q Hq Hpos. specialize (Hf r q Hq Hpos) as [Hr Hf]. split; [done|].
  destruct Hf as [[Hh Hno]|(res & q' & Hin & Hq' & Hle)].
  - left. split; [done|]. by eapply numa_zones_none.
  - right. destruct (numa_zones_there _ _ _ _ _ _ _ Hz Hin Hq') as (resb & y & Hb & Hy & Hxy).
    unfold no_more in Hxy. exists resb, y. split_and!; [done|done|lia].
Qed.

Lemma zone_capacity_le zas zbs assignment :
  Forall2 zone_le zas zbs → zone_capacity zas assignment → zone_capacity zbs assignment.
Proof.
  intros Hz%zone_le_rel Hf id res r q Hin Hq Hpos.
  destruct (numa_zones_back _ _ _ _ _ _ _ Hz Hin Hq) as (resa & x & Ha & Hx & Hxy).
  specialize (Hf id resa r x Ha Hx Hpos). unfold no_more in Hxy. lia.
Qed.

(** The promise of each of the two scopes. *)
Definition admitted (scope : string) (pod : Pod) (zones : list Zone) (nodeInfo : NodeInfo) : Prop :=
  (scope = PodTopologyManagerScope →
   ∃ id, zone_fits zones nodeInfo id (GetPodEffectiveRequest pod)) ∧
  (scope = ContainerTopologyManagerScope → scope ≠ PodTopologyManagerScope →
   Forall (λ c, ∃ id, zone_fits zones nodeInfo id (c_requests c)) (p_init_containers pod) ∧
   ∃ ids, length ids = length (p_containers pod) ∧
     Forall (λ a, zone_fits zones nodeInfo a.2 (c_requests a.1)) (zip (p_containers pod) ids) ∧
     zone_capacity zones (zip (p_containers pod) ids)).

Lemma admitted_le scope pod zas zbs nodeInfo :
  Forall2 zone_le zas zbs → admitted scope pod zas nodeInfo → admitted scope pod zbs nodeInfo.
Proof.
  intros Hz [Hp Hc]. split.
  - intros Hs. destruct (Hp Hs) as [id Hid]. exists id. by eapply zone_fits_le.
  - intros Hs Hs'. destruct (Hc Hs Hs') as (Hi & ids & Hlen & Hf & Hcap). split.
    + eapply Forall_impl; [exact Hi|]. intros c [id Hid]. exists id. by eapply zone_fits_le.
    + exists ids. split_and!; [done| |by eapply zone_capacity_le].
      eapply Forall_impl; [exact Hf|]. intros a Ha. by eapply zone_fits_le.
Qed.

Lemma pod_handler_admits pod zones nodeInfo :
  GetPodQOS pod = PodQOSGuaranteed →
  singleNUMAPodLevelHandler pod zones nodeInfo = Ret None →
  ∃ id, zone_fits zones nodeInfo id (GetPodEffectiveRequest pod).
Proof.
  intros Hq. unfold singleNUMAPodLevelHandler. rewrite Hq.
  intros (nodes & [Hk Hids]%createNUMANodeList_Ret & (n & _ & Hr)%outcome_bind_Ret)%outcome_bind_Ret.
  destruct (available_spec nodes (GetPodEffectiveRequest pod) PodQOSGuaranteed nodeInfo Hids)
    as [(id & E & _ & Hf & _)|[E _]]; rewrite E in Hr; cbn in Hr; [|done].
  exists id. by eapply fits_all_zones.
Qed.

Lemma returned_None {A} (m : result Status A) :
  m ≠ Err None → returned m = Ret None → ∃ a, m = Ok a.
Proof. destruct m as [a|[st|]|]; cbn; intros Hm E; try done. by exists a. Qed.

Lemma fold_result_not_Err {E A B} (f : A → B → result E A) (e : E) (l : list B) :
  (∀ a b, f a b ≠ Err e) → ∀ a, fold_result f a l ≠ Err e.
Proof.
  intros Hf. induction l as [|x l IH]; intros a; cbn; [done|].
  specialize (Hf a x). destruct (f a x) eqn:E0; cbn; [apply IH|congruence|done].
Qed.

Lemma container_handler_admits pod zones nodeInfo :
  GetPodQOS pod = PodQOSGuaranteed → pod_nonneg pod →
  singleNUMAContainerLevelHandler pod zones nodeInfo = Ret None →
  Forall (λ c, ∃ id, zone_fits zones nodeInfo id (c_requests c)) (p_init_containers pod) ∧
  ∃ ids, length ids = length (p_containers pod) ∧
    Forall (λ a, zone_fits zones nodeInfo a.2 (c_requests a.1)) (zip (p_containers pod) ids) ∧
    zone_capacity zones (zip (p_containers pod) ids).
Proof.
  intros Hq (Hnn & _ & _). unfold singleNUMAContainerLevelHandler. rewrite Hq. intros Hr.
  apply returned_None in Hr as [nodes' Hr].
  - apply result_bind_Ok in Hr as (nodes & [Hk Hids]%lift_Ok%createNUMANodeList_Ret & Hr).
    apply result_bind_Ok in Hr as (n & _ & Hr). apply result_bind_Ok in Hr as (nodes1 & Hi & Hc).
    apply init_loop_Ok in Hi as [-> Hi]; [|done]. split.
    + eapply Forall_impl; [exact Hi|]. intros c [id Hid]. exists id. by eapply fits_all_zones.
    + apply container_loop_Ok in Hc as (ids & Hlen & Hfit & Hch); [|done..].
      exists ids. split_and!; [done| |].
      * eapply Forall_impl; [exact Hfit|]. intros a Ha. by eapply fits_all_zones.
      * intros id res r q Hin Hres Hpos. rewrite <- Hk in Hin. apply list_elem_of_fmap in Hin as (m & Hm & Hin).
        injection Hm as -> ->. apply list_elem_of_lookup in Hin as [i Hi'].
        destruct (Forall2_lookup_l _ _ _ _ _ Hch Hi') as (m' & _ & _ & Hcm). specialize (Hcm r).
        rewrite Hres in Hcm. destruct (Resources m' !! r) as [q'|]; [|done]. lia.
  - unfold lift. destruct (createNUMANodeList zones) as [nodes|]; cbn; [|done].
    destruct (ni_node nodeInfo); cbn; [|done].
    destruct (fold_result (init_step _ _) _ _) as [nodes1|st|] eqn:Ei; cbn; [| |done].
    + apply fold_result_not_Err. intros a c. unfold container_step.
      destruct (resourcesAvailableInAnyNUMANodes _ _ _ _) as [[k [|]]|]; cbn; try done.
      by destruct (subtractResourcesFromNUMANodeList _ _ _ _).
    + intros [= ->]. revert Ei. apply fold_result_not_Err. intros a c. unfold init_step.
      by destruct (resourcesAvailableInAnyNUMANodes _ _ _ _) as [[k [|]]|].
Qed.

Lemma Filter_admits {C : Type} `{!NrtCache C} (s s' : C) pod nodeInfo node nrt info :
  ni_node nodeInfo = Some node → GetPodQOS pod = PodQOSGuaranteed → pod_nonneg pod →
  GetCachedNRTCopy s (n_name node) pod = (Some nrt, info) → Fresh info = true →
  Filter s pod nodeInfo = Ret (s', None) →
  Policy (TopologyManagerFromNodeResourceTopology nrt) = SingleNumaNodeTopologyManagerPolicy →
  s' = s ∧ admitted (Scope (TopologyManagerFromNodeResourceTopology nrt)) pod (nrt_Zones nrt) nodeInfo.
Proof.
  intros Hn Hq Hnn Hget Hfresh. unfold Filter. rewrite Hn, bool_decide_false by congruence. cbn [andb].
  rewrite Hget, Hfresh. cbn [negb]. unfold filterHandlerFromTopologyManager. intros Hf Hpol. revert Hf.
  rewrite Hpol, bool_decide_true by done. cbn [negb]. unfold admitted.
  case_bool_decide as Hs; [|case_bool_decide as Hs'].
  - intros (st & Hh & Hr)%outcome_bind_Ret. destruct st; [done|]. injection Hr as <-.
    split; [done|]. split; [intros _; by apply pod_handler_admits|by intros _ []].
  - intros (st & Hh & Hr)%outcome_bind_Ret. destruct st; [done|]. injection Hr as <-.
    split; [done|]. split; [done|]. intros _ _. by apply container_handler_admits.
  - intros [= <-]. done.
Qed.

(** C8: with any cache that keeps its contract, a guaranteed pod accepted
    on a node whose topology manager requires a single NUMA node really fits
    the object the cache has for the node.  In pod scope one NUMA node offers
    the whole effective request.  In container scope every init container
    fits some NUMA node, and the containers can be assigned to NUMA nodes so
    that each fits its own and no NUMA node is charged more than it offers. *)
Theorem Filter_no_false_positive {C : Type} `{!NrtCache C} `{!NrtCacheSpec C} (s s' : C) pod nodeInfo node src :
  cache_ok s → pod_nonneg pod →
  ni_node nodeInfo = Some node → GetPodQOS pod = PodQOSGuaranteed →
  source s (n_name node) = Some src →
  Policy (TopologyManagerFromNodeResourceTopology src) = SingleNumaNodeTopologyManagerPolicy →
  Filter s pod nodeInfo = Ret (s', None) →
  s' = s ∧ admitted (Scope (TopologyManagerFromNodeResourceTopology src)) pod (nrt_Zones src) nodeInfo.
Proof.
  intros Hok Hnn Hn Hq Hsrc Hpol Hf.
  destruct (GetCachedNRTCopy s (n_name node) pod) as [[nrt|] info] eqn:Hget.
  - destruct (get_conservative _ _ _ _ _ Hok Hget) as (Hfresh & src' & Hsrc' & Hle).
    rewrite Hsrc in Hsrc'. injection Hsrc' as <-. destruct Hle as (_ & _ & Htp & Hattr & Hz).
    assert (TopologyManagerFromNodeResourceTopology nrt = TopologyManagerFromNodeResourceTopology src) as Hconf.
    { unfold TopologyManagerFromNodeResourceTopology. by rewrite Htp, Hattr. }
    rewrite <- Hconf in Hpol |- *.
    destruct (Filter_admits _ _ _ _ _ _ _ Hn Hq Hnn Hget Hfresh Hf Hpol) as [-> Had].
    split; [done|]. by eapply admitted_le.
  - exfalso. destruct (Fresh info) eqn:Hfresh.
    + by rewrite (get_missing _ _ _ _ Hget Hfresh) in Hsrc.
    + unfold Filter in Hf. rewrite Hn, bool_decide_false in Hf by congruence. cbn [andb] in Hf.
      by rewrite Hget, Hfresh in Hf.
Qed.
End Specification.
End NumaFilter.

(** ** Witnesses *)

(** A mask as an integer, of which the bits 0 to 63 count. *)
Definition model_bits (b : Z) : list Z := filter (λ n, Z.testbit b n = true) (seqZ 0 64).

#[export] Instance model_bitmask : BitMaskOps := {|
  BitMask := Z;
  NewEmptyBitMask := 0;
  bm_Fill _ := Z.ones 64;
  bm_Add b k := if decide (0 ≤ k < 64) then Z.lor b (Z.shiftl 1 k) else b;
  bm_And := Z.land;
  bm_IsEmpty b := bool_decide (model_bits b = []);
  bm_GetBits := model_bits;
  bm_Count b := Z.of_nat (length (model_bits b));
|}.

Lemma elem_of_model_bits b n : n ∈ model_bits b ↔ Z.testbit b n = true ∧ 0 ≤ n < 64.
Proof. unfold model_bits. by rewrite list_elem_of_filter, elem_of_seqZ. Qed.

Lemma filter_sorted {A} (R : A → A → Prop) (P : A → Prop) `{!∀ x, Decision (P x)} l :
  StronglySorted R l → StronglySorted R (filter P l).
Proof.
  induction 1 as [|x l _ IH Hx]; [constructor|]. rewrite filter_cons. case_decide; [|done].
  constructor; [done|]. apply Forall_forall. intros y [_ Hy]%list_elem_of_filter.
  by eapply Forall_forall in Hx.
Qed.

#[export] Instance model_bitmask_spec : BitMaskSpec.
Proof.
  refine {| bm_IsSet b n := n ∈ model_bits b |}; cbn.
  - intros b n. rewrite elem_of_model_bits. tauto.
  - intros n. rewrite elem_of_model_bits, Z.bits_0. intros [? _]. done.
  - intros _ n Hn. rewrite elem_of_model_bits. split; [|done]. apply Z.ones_spec_low. lia.
  - intros b k n. rewrite !elem_of_model_bits. case_decide as Hk; [|naive_solver lia].
    rewrite Z.lor_spec, Z.shiftl_mul_pow2, Z.mul_1_l, orb_true_iff by lia.
    rewrite Z.pow2_bits_eqb, Z.eqb_eq by lia. naive_solver lia.
  - intros b c n. rewrite !elem_of_model_bits, Z.land_spec, andb_true_iff. tauto.
  - intros b. rewrite bool_decide_eq_true. split; [intros -> n; apply not_elem_of_nil|].
    intros Hno. destruct (model_bits b) as [|n l]; [done|]. exfalso. apply (Hno n). left.
  - done.
  - intros b. apply filter_sorted. unfold seqZ. cbn. repeat (constructor; [|repeat constructor; lia]). constructor.
  - done.
Defined.

Definition w_numa (id cpus : Z) : NUMANode :=
  {| NUMAID := id; Resources := {[ResourceCPU := cores cpus]}; Costs := ∅ |}.

Definition w_machine : NodeInfo := {|
  ni_node := Some {| n_name := "n"; n_labels := ∅; n_unschedulable := false; n_capacity := ∅; n_allocatable := ∅ |};
  ni_pods := []; ni_allocatable := zero_resource; ni_requested := zero_resource;
  ni_nonzero_requested := zero_resource |}.

Lemma resourcesAvailable_lowest_witness :
  resourcesAvailableInAnyNUMANodes [w_numa 0 2; w_numa 1 8] {[ResourceCPU := cores 4]} PodQOSGuaranteed w_machine =
    Ret (1, true) ∧
  ∀ id', 0 ≤ id' < 1 →
    ¬ fits_all PodQOSGuaranteed [w_numa 0 2; w_numa 1 8] w_machine id' {[ResourceCPU := cores 4]}.
Proof.
  assert (Hids : ids_ok [w_numa 0 2; w_numa 1 8]) by (repeat constructor; cbn; lia).
  pose proof (resourcesAvailable_lowest [w_numa 0 2; w_numa 1 8] {[ResourceCPU := cores 4]}
    PodQOSGuaranteed w_machine 1 Hids) as [[Hl _] _].
  assert (Hrun : resourcesAvailableInAnyNUMANodes [w_numa 0 2; w_numa 1 8] {[ResourceCPU := cores 4]}
    PodQOSGuaranteed w_machine = Ret (1, true)) by (by vm_compute).
  split; [exact Hrun|]. exact (proj2 (proj2 (Hl Hrun))).
Defined.

Definition w_numa_zone (name : string) (cpus : Z) : Zone := {|
  z_Name := name; z_Type := "Node"; z_Costs := [];
  z_Resources := [{| ri_Name := ResourceCPU; ri_Capacity := cores 8; ri_Allocatable := cores 8; ri_Available := cores cpus |}] |}.

Definition w_numa_object : NodeResourceTopology := {|
  nrt_Name := "n"; nrt_Annotations := ∅; nrt_TopologyPolicies := ["SingleNUMANodeContainerLevel"];
  nrt_Attributes := []; nrt_Zones := [w_numa_zone "node-0" 2; w_numa_zone "node-1" 8] |}.

Definition w_guaranteed (cpus1 cpus2 : Z) : Pod :=
  let pod := model_pod "a" "p" "" 0 ∅ in
  let c cpus := model_container {[ResourceCPU := cores cpus]} {[ResourceCPU := cores cpus]} in {|
  p_namespace := p_namespace pod; p_name := p_name pod; p_uid := p_uid pod; p_labels := ∅;
  p_annotations := ∅; p_owner_references := []; p_deletion_timestamp := None;
  p_containers := [c cpus1; c cpus2]; p_init_containers := []; p_overhead := None;
  p_node_name := ""; p_scheduler_name := "default-scheduler"; p_priority := Some 0;
  p_priority_class_name := ""; p_preemption_policy := None; p_seccomp := None; p_phase := PodPending;
  p_host_ip := ""; p_nominated_node_name := ""; p_scheduled_condition := None |}.

Definition w_passthrough : Passthrough := {| pt_client _ := Some w_numa_object |}.

Lemma w_guaranteed_nonneg : pod_nonneg (w_guaranteed 2 8).
Proof.
  split_and!; [|constructor|intros name; apply Z.eq_le_incl; symmetry; apply amount_of_empty].
  repeat constructor; intros name; unfold amount_of; cbn [c_requests model_container];
    rewrite lookup_singleton; by case_decide.
Qed.

(** The containers go to different NUMA nodes; with one CPU more, none of the
    two NUMA nodes can take the second container. *)
Lemma Filter_no_false_positive_witness :
  fmap snd (Filter w_passthrough (w_guaranteed 3 8) w_machine) =
    Ret (Some (NewStatus Unschedulable "cannot align container")) ∧
  admitted "container" (w_guaranteed 2 8) (nrt_Zones w_numa_object) w_machine.
Proof.
  split; [by vm_compute|].
  assert (Hf : fmap snd (Filter w_passthrough (w_guaranteed 2 8) w_machine) = Ret None) by (by vm_compute).
  assert (Hq : GetPodQOS (w_guaranteed 2 8) = PodQOSGuaranteed) by (by vm_compute).
  destruct (Filter w_passthrough (w_guaranteed 2 8) w_machine) as [[s' st]|] eqn:Hrun; [|discriminate Hf].
  cbn in Hf. injection Hf as ->.
  exact (proj2 (Filter_no_false_positive w_passthrough s' (w_guaranteed 2 8) w_machine _
    w_numa_object I w_guaranteed_nonneg (eq_refl _) Hq (eq_refl _) (eq_refl _) Hrun)).
Defined.
