(* ===== verification/NumaAdmission.v ===== *)
(** * The NUMA filter over the OverReserve cache

    The filter of the file NumaFilter with the cache of the file OverReserve:
    a pod that is accepted fits next to every pod reserved on the node. *)

From S2P Require Import Prelude K8s K8sModel ResourceUtil NodeConfig NrtCache OverReserve NumaFilter.

Section NumaAdmission.
Context `{MapOrder} `{QuantityOps} `{!FrameworkOps} `{NrtAPI} `{PodFingerprint} `{BitMaskOps}.
Context `{!QuantitySpec} `{!FrameworkSpec} `{!BitMaskSpec}.

Definition deducted_entry (f : string → Z) (r : string) (x y : Quantity) : Prop :=
  (0 ≤ amount y → amount x = Z.max 0 (amount y - f r)) ∧ amount x ≤ Z.max 0 (amount y).

Lemma deducted_zones f b a :
  deducted f b a → Forall2 (zone_rel (deducted_entry f)) (nrt_Zones a) (nrt_Zones b).
Proof.
  intros (_ & _ & _ & _ & Hz). eapply Forall2_impl; [exact Hz|].
  intros za zb (? & ? & _ & Hr). split_and!; [done..|].
  eapply Forall2_impl; [exact Hr|]. by intros ra rb (? & _ & ?).
Qed.

Lemma deducted_entry_pos f r x y : deducted_entry f r x y → 0 < amount x → f r + amount x ≤ amount y.
Proof. intros [Hx Hle] Hpos. rewrite Hx in Hpos |- * by lia. lia. Qed.

(** What the zones of a stored object still offer to the node [id], with the
    amount [f r] of each resource [r] set aside in every zone. *)
Definition fits_beside (f : string → Z) (zones : list Zone) (id : Z) (resources : resource_list) : Prop :=
  ∀ r q, resources !! r = Some q → 0 < amount q →
    (isHostLevelResource r = true ∧ Forall (λ z, z.2 !! r = None) (numa_zones zones)) ∨
    ∃ res q', (id, res) ∈ numa_zones zones ∧ res !! r = Some q' ∧ f r + amount q ≤ amount q'.

Lemma zone_fits_beside f b a nodeInfo id resources :
  deducted f b a → zone_fits (nrt_Zones a) nodeInfo id resources → fits_beside f (nrt_Zones b) id resources.
Proof.
  intros Hz%deducted_zones Hf r q Hq Hpos. destruct (Hf r q Hq Hpos) as [_ [[Hh Hno]|(res & q' & Hin & Hq' & Hle)]].
  - left. split; [done|]. by eapply numa_zones_none.
  - right. destruct (numa_zones_there _ _ _ _ _ _ _ Hz Hin Hq') as (resb & y & Hb & Hy & Hxy).
    apply deducted_entry_pos in Hxy; [|lia]. exists resb, y. split_and!; [done|done|lia].
Qed.

Lemma Filter_beside ov ov' pod nodeInfo node src :
  ov_ok ov → pod_nonneg pod →
  ni_node nodeInfo = Some node → GetPodQOS pod = PodQOSGuaranteed →
  nrts ov !! n_name node = Some src →
  let conf := TopologyManagerFromNodeResourceTopology src in
  Policy conf = SingleNumaNodeTopologyManagerPolicy → Scope conf = PodTopologyManagerScope →
  Filter ov pod nodeInfo = Ret (ov', None) →
  ov' = ov ∧ ∃ id,
    fits_beside (assumed_amount (default ∅ (assumedResources ov !! n_name node))) (nrt_Zones src) id
      (GetPodEffectiveRequest pod).
Proof.
  cbn zeta. intros Hok Hnn Hn Hq Hsrc Hpol Hscope Hf.
  assert (Hget : ∃ nrt info, GetCachedNRTCopy ov (n_name node) pod = (Some nrt, info) ∧ Fresh info = true ∧
    deducted (assumed_amount (default ∅ (assumedResources ov !! n_name node))) src nrt).
  { pose proof (ov_ok_default ov (n_name node) Hok) as Hrs. revert Hf. unfold Filter.
    rewrite Hn, bool_decide_false by congruence. cbn [andb GetCachedNRTCopy overreserve_cache].
    unfold ov_GetCachedNRTCopy, GetNRTCopyByNodeName. rewrite Hsrc. destruct (IsSet _ _); [done|]. intros _.
    destruct (assumedResources ov !! n_name node) as [rs|]; cbn in *; do 2 eexists; (split; [done|]); (split; [done|]).
    - by apply UpdateNRT_deducted.
    - eapply deducted_ext; [|apply deducted_refl]. intros r. by rewrite assumed_empty. }
  destruct Hget as (nrt & info & Hget & Hfresh & Hd).
  assert (TopologyManagerFromNodeResourceTopology nrt = TopologyManagerFromNodeResourceTopology src) as Hconf.
  { destruct Hd as (_ & _ & Htp & Hattr & _). unfold TopologyManagerFromNodeResourceTopology. by rewrite Htp, Hattr. }
  rewrite <- Hconf in Hpol, Hscope.
  destruct (Filter_admits _ _ _ _ _ _ _ Hn Hq Hnn Hget Hfresh Hf Hpol) as [-> [Hp _]].
  split; [done|]. destruct (Hp Hscope) as [id Hid]. exists id. by eapply zone_fits_beside.
Qed.

(** When the filter accepts a guaranteed pod on a node with the
    single-NUMA-node policy and the pod scope, there is a NUMA node whose
    stored zone can hold, of every requested resource, the request on top of
    all the pods reserved on the whole node (so on top of those that really
    landed on that NUMA node); the cache is left as it was. *)
Theorem Filter_fits_beside_reservations ov ov' pod nodeInfo node src :
  ov_ok ov → pod_nonneg pod →
  ni_node nodeInfo = Some node → GetPodQOS pod = PodQOSGuaranteed →
  nrts ov !! n_name node = Some src →
  let conf := TopologyManagerFromNodeResourceTopology src in
  Policy conf = SingleNumaNodeTopologyManagerPolicy → Scope conf = PodTopologyManagerScope →
  Filter ov pod nodeInfo = Ret (ov', None) →
  ov' = ov ∧ ∃ id,
    fits_beside (assumed_amount (default ∅ (assumedResources ov !! n_name node))) (nrt_Zones src) id
      (GetPodEffectiveRequest pod).
Proof. apply Filter_beside. Qed.
End NumaAdmission.

(** ** Witness *)

Definition w_pod_scope_object : NodeResourceTopology := {|
  nrt_Name := "n"; nrt_Annotations := ∅; nrt_TopologyPolicies := ["SingleNUMANodePodLevel"];
  nrt_Attributes := []; nrt_Zones := [w_numa_zone "node-0" 12; w_numa_zone "node-1" 16] |}.

Definition w_admission_cache (pods : list Pod) : OverReserve := foldl (λ ov pod, ov_ReserveNodeResources ov "n" pod)
  {| generation := 0; nrts := newNrtStore [w_pod_scope_object]; assumedResources := ∅;
     nodesMaybeOverreserved := ∅; nodesWithForeignPods := ∅; nodesWithAttrUpdate := ∅;
     resyncMethod := CacheResyncAll; isPodRelevant := IsPodRelevantShared |} pods.

Lemma w_admission_ok : ov_ok (w_admission_cache [w_running]).
Proof.
  refine (proj1 (calls_keep (w_admission_cache []) _ "n" w_running _ _ _)).
  - intros k rs Hk. cbn in Hk. by rewrite lookup_empty in Hk.
  - split_and!; [|constructor|intros name; apply Z.eq_le_incl; symmetry; apply amount_of_empty].
    apply Forall_singleton. intros name. unfold amount_of. cbn [c_requests model_container].
    rewrite lookup_singleton. by case_decide.
  - right. right. left.
Qed.

(** With 4 CPUs reserved, a pod of 10 is accepted: only the NUMA node 1, with
    16 CPUs, has room for both.  With 8 reserved it is rejected. *)
Lemma Filter_fits_beside_reservations_witness :
  fmap snd (Filter (w_admission_cache [w_running; w_new; model_pod "a" "x" "n" 0 {[ResourceCPU := cores 2]}])
    (w_guaranteed 2 8) w_machine) = Ret (Some (NewStatus Unschedulable "cannot align pod")) ∧
  ∃ id, fits_beside (assumed_amount (default ∅ (assumedResources (w_admission_cache [w_running]) !! "n")))
    (nrt_Zones w_pod_scope_object) id (GetPodEffectiveRequest (w_guaranteed 2 8)).
Proof.
  split; [by vm_compute|].
  assert (Hf : fmap snd (Filter (w_admission_cache [w_running]) (w_guaranteed 2 8) w_machine) = Ret None)
    by (by vm_compute).
  assert (Hq : GetPodQOS (w_guaranteed 2 8) = PodQOSGuaranteed) by (by vm_compute).
  destruct (Filter (w_admission_cache [w_running]) (w_guaranteed 2 8) w_machine) as [[ov' st]|] eqn:Hrun;
    [|discriminate Hf].
  cbn in Hf. injection Hf as ->.
  exact (proj2 (Filter_fits_beside_reservations (w_admission_cache [w_running]) ov' (w_guaranteed 2 8) w_machine _
    w_pod_scope_object w_admission_ok w_guaranteed_nonneg (eq_refl _) Hq (eq_refl _) (eq_refl _) (eq_refl _) Hrun)).
Defined.
