(* ===== verification/NumaRuns.v ===== *)
(** * NUMA nodes under the scheduling cycle

    File NumaAdmission says what one call of the filter promises.  Here the calls
    are put together: the scheduler handles one pod at a time, with the filter
    and, if the pod passes, the Reserve call, while informers, the watcher, the
    resynchronisation and the end of other pods change the cache at any moment,
    also between the filter and Reserve.  Nothing in this file is a
    definition of the code. *)

From S2P Require Import Prelude K8s K8sModel ResourceUtil NodeConfig NrtCache OverReserve NumaFilter NumaAdmission.

Section NumaRuns.
Context `{MapOrder} `{QuantityOps} `{!FrameworkOps} `{NrtAPI} `{PodFingerprint} `{BitMaskOps}.
Context `{!QuantitySpec} `{!FrameworkSpec} `{!BitMaskSpec}.

(** ** Runs *)

(** The pods reserved on each node, by their key: what an observer of the calls
    writes down. *)
Abbreviation ledger := (gmap string (gmap string Pod)).

Definition pods_on (g : ledger) (nodeName : string) : gmap string Pod := default ∅ (g !! nodeName).

Definition track (g : ledger) (o : op) : ledger :=
  match o with
  | OpReserve n pod => <[n := <[pod_key pod := pod]> (pods_on g n)]> g
  | OpUnreserve n pod => <[n := delete (pod_key pod) (pods_on g n)]> g
  | OpFlush updates => foldl (λ g nrt, delete (nrt_Name nrt) g) g updates
  | _ => g
  end.

(** Neither a reservation nor a flush. *)
Definition quiet (o : op) : Prop := match o with OpReserve _ _ | OpFlush _ => False | _ => True end.

(** The resynchronisation is a goroutine of its own: it may replace the object of the node after
    the filter has checked a pod against the old one and before Reserve is called.  [pending] is
    the node and the pod for which the filter has passed and Reserve has not been called, with a
    flag that such a flush clears. *)
Abbreviation pending := (option (string * Pod * bool)).

Definition names (updates : list NodeResourceTopology) : gset string := list_to_set (nrt_Name <$> updates).

Definition flush_pending (p : pending) (updates : list NodeResourceTopology) : pending :=
  (λ x : string * Pod * bool, (x.1, x.2 && bool_decide (x.1.1 ∉ names updates))) <$> p.

(** The cache, the ledger, the pending pod, and the nodes on which a pod was reserved that had been
    checked against an object that was no longer there ([outdated], until the next flush of
    the node). *)
Inductive numa_run (ov0 : OverReserve) : OverReserve → ledger → pending → gset string → Prop :=
| nr_start : assumedResources ov0 = ∅ → numa_run ov0 ov0 ∅ None ∅
| nr_filter (ov : OverReserve) g outdated pod nodeInfo node ov' :
    numa_run ov0 ov g None outdated → pod_nonneg pod → ni_node nodeInfo = Some node →
    Filter ov pod nodeInfo = Ret (ov', None) →
    numa_run ov0 ov' g (Some (n_name node, pod, true)) outdated
| nr_reserve ov g n pod valid outdated :
    numa_run ov0 ov g (Some (n, pod, valid)) outdated →
    numa_run ov0 (apply ov (OpReserve n pod)) (track g (OpReserve n pod)) None
      (if valid : bool then outdated else {[n]} ∪ outdated)
| nr_give_up ov g p outdated : numa_run ov0 ov g (Some p) outdated → numa_run ov0 ov g None outdated
| nr_quiet ov g p outdated o :
    numa_run ov0 ov g p outdated → quiet o → numa_run ov0 (apply ov o) (track g o) p outdated
| nr_flush ov g p outdated updates :
    numa_run ov0 ov g p outdated →
    numa_run ov0 (apply ov (OpFlush updates)) (track g (OpFlush updates)) (flush_pending p updates)
      (outdated ∖ names updates).

(** ** Placements *)

(** The NUMA node that each pod of a node uses; a pod that is not guaranteed is
    not bound to one. *)
Abbreviation placement := (gmap string (Pod * option Z)).

Definition share (id : Z) (r : string) (x : Pod * option Z) : Z :=
  if decide (x.2 = Some id) then amount_of (GetPodEffectiveRequest x.1) r else 0.

(** The NUMA node [id] of the object has the amount [total] of [r], or [r] is a
    resource of the whole host that no NUMA node has. *)
Definition has_room (zones : list Zone) (id : Z) (r : string) (total : Z) : Prop :=
  0 < total →
  (isHostLevelResource r = true ∧ Forall (λ z, z.2 !! r = None) (numa_zones zones)) ∨
  ∃ res q, (id, res) ∈ numa_zones zones ∧ res !! r = Some q ∧ total ≤ amount q.

Definition well_placed (zones : list Zone) (pods : gmap string Pod) (P : placement) : Prop :=
  fst <$> P = pods ∧
  (∀ key pod z, P !! key = Some (pod, z) → GetPodQOS pod = PodQOSGuaranteed → is_Some z) ∧
  ∀ id r, has_room zones id r (sum_map (share id r) P).

(** Nodes on which a guaranteed pod has to fit into one NUMA node. *)
Definition aligned (nrt : NodeResourceTopology) : Prop :=
  let conf := TopologyManagerFromNodeResourceTopology nrt in
  Policy conf = SingleNumaNodeTopologyManagerPolicy ∧ Scope conf = PodTopologyManagerScope.

(** ** The invariant *)

Record accounted (ov : OverReserve) (g : ledger) (outdated : gset string) : Prop := {
  acc_pods n key pod : pods_on g n !! key = Some pod → pod_nonneg pod;
  acc_reserved n : default ∅ (assumedResources ov !! n) = GetPodEffectiveRequest <$> pods_on g n;
  acc_placed n nrt : n ∉ outdated → nrts ov !! n = Some nrt → aligned nrt → ∃ P, well_placed (nrt_Zones nrt) (pods_on g n) P;
}.

Definition reserved_amount (g : ledger) (n r : string) : Z :=
  assumed_amount (GetPodEffectiveRequest <$> pods_on g n) r.

(** The pod that has passed the filter still fits beside the others. *)
Definition pending_fits (ov : OverReserve) (g : ledger) (n : string) (pod : Pod) : Prop :=
  pod_nonneg pod ∧
  (GetPodQOS pod = PodQOSGuaranteed → ∀ nrt, nrts ov !! n = Some nrt → aligned nrt →
   ∃ id, fits_beside (reserved_amount g n) (nrt_Zones nrt) id (GetPodEffectiveRequest pod)).

Lemma has_room_le zones id r total total' : total' ≤ total → has_room zones id r total → has_room zones id r total'.
Proof.
  intros Hle Hroom Hpos. destruct (Hroom ltac:(lia)) as [?|(res & q & ? & ? & ?)]; [by left|].
  right. exists res, q. split_and!; [done..|lia].
Qed.

Section Placements.
Context (zones : list Zone) (pods : gmap string Pod) (P : placement).
Hypothesis pods_nonneg : ∀ key pod, pods !! key = Some pod → pod_nonneg pod.
Hypothesis placed : well_placed zones pods P.

Lemma shares_nonneg id r : map_Forall (λ _ x, 0 ≤ share id r x) P.
Proof.
  destruct placed as (E & _ & _). intros key [pod z] Hk. unfold share. case_decide; [|done].
  apply GetPodEffectiveRequest_nonneg, (pods_nonneg key). by rewrite <- E, lookup_fmap, Hk.
Qed.

Lemma share_le id r x : 0 ≤ amount_of (GetPodEffectiveRequest x.1) r → share id r x ≤ amount_of (GetPodEffectiveRequest x.1) r.
Proof. unfold share. by case_decide. Qed.

(** What a NUMA node holds is at most what is reserved on the node. *)
Lemma placed_le_reserved id r : sum_map (share id r) P ≤ assumed_amount (GetPodEffectiveRequest <$> pods) r.
Proof.
  destruct placed as (E & _ & _). unfold assumed_amount. rewrite <- E, !sum_map_fmap. apply sum_map_le.
  intros key [pod z] Hk. apply share_le, GetPodEffectiveRequest_nonneg, (pods_nonneg key).
  by rewrite <- E, lookup_fmap, Hk.
Qed.

Lemma well_placed_delete key : well_placed zones (delete key pods) (delete key P).
Proof.
  destruct placed as (E & Hz & Hroom). split_and!.
  - by rewrite fmap_delete, E.
  - intros k pod z [_ Hk]%lookup_delete_Some. by eapply Hz.
  - intros id r. eapply has_room_le; [|apply Hroom]. apply sum_map_delete_le, shares_nonneg.
Qed.

Lemma sum_insert_le (x : Pod * option Z) key id r :
  sum_map (share id r) (<[key := x]> P) ≤ sum_map (share id r) P + share id r x.
Proof.
  rewrite <- insert_delete_eq, sum_map_insert by apply lookup_delete_eq.
  pose proof (sum_map_delete_le (share id r) P key (shares_nonneg id r)). lia.
Qed.

(** A pod that is not bound to a NUMA node uses none of its resources. *)
Lemma well_placed_unbound pod :
  GetPodQOS pod ≠ PodQOSGuaranteed →
  well_placed zones (<[pod_key pod := pod]> pods) (<[pod_key pod := (pod, None)]> P).
Proof.
  intros Hq. destruct placed as (E & Hz & Hroom). split_and!.
  - by rewrite fmap_insert, E.
  - intros k p z [[_ [= <- <-]]|[_ Hk]]%lookup_insert_Some; [done|by eapply Hz].
  - intros id r. eapply has_room_le; [|apply Hroom].
    pose proof (sum_insert_le (pod, None) (pod_key pod) id r).
    assert (share id r (pod, None) = 0) by (unfold share; by rewrite decide_False). lia.
Qed.

Lemma well_placed_insert pod id :
  pod_nonneg pod →
  fits_beside (assumed_amount (GetPodEffectiveRequest <$> pods)) zones id (GetPodEffectiveRequest pod) →
  well_placed zones (<[pod_key pod := pod]> pods) (<[pod_key pod := (pod, Some id)]> P).
Proof.
  intros Hnn Hfit. destruct placed as (E & Hz & Hroom). split_and!.
  - by rewrite fmap_insert, E.
  - intros k p z [[_ [= <- <-]]|[_ Hk]]%lookup_insert_Some; [by eexists|by eapply Hz].
  - intros id' r. pose proof (sum_insert_le (pod, Some id) (pod_key pod) id' r) as Hsum.
    pose proof (GetPodEffectiveRequest_nonneg pod Hnn r) as Hreq.
    destruct (decide (0 < share id' r (pod, Some id))) as [Hpos|Hzero].
    2: { eapply has_room_le; [|apply Hroom]. lia. }
    assert (id' = id) as -> by (unfold share in Hpos; case_decide as Hid; [cbn in Hid; congruence|lia]).
    assert (share id r (pod, Some id) = amount_of (GetPodEffectiveRequest pod) r) as Hshare
      by (unfold share; by rewrite decide_True).
    rewrite Hshare in *. unfold amount_of in Hpos. destruct (GetPodEffectiveRequest pod !! r) as [q|] eqn:Hq; [|lia].
    assert (amount_of (GetPodEffectiveRequest pod) r = amount q) as Hamount by (unfold amount_of; by rewrite Hq).
    pose proof (placed_le_reserved id r) as Hle. intros _.
    destruct (Hfit r q Hq Hpos) as [?|(res & q' & Hin & Hq' & Hfits)]; [by left|].
    right. exists res, q'. split_and!; [done..|]. lia.
Qed.
End Placements.

(** *** Operations *)

Lemma track_pods (g : ledger) (o : op) n :
  pods_on (track g o) n =
  match o with
  | OpReserve m pod => if decide (m = n) then <[pod_key pod := pod]> (pods_on g n) else pods_on g n
  | OpUnreserve m pod => if decide (m = n) then delete (pod_key pod) (pods_on g n) else pods_on g n
  | OpFlush updates => if decide (n ∈ (nrt_Name <$> updates : list string)) then ∅ else pods_on g n
  | _ => pods_on g n
  end.
Proof.
  destruct o as [m pod|m pod| | | | |us]; cbn [track]; try done.
  1-2: unfold pods_on at 1; rewrite lookup_insert; case_decide; by subst.
  revert g. induction us as [|u us IH]; intros g; cbn [foldl fmap list_fmap].
  - by rewrite decide_False by apply not_elem_of_nil.
  - rewrite IH. destruct (decide (n ∈ nrt_Name <$> us)) as [Hin|Hout].
    + by rewrite decide_True by (by right).
    + unfold pods_on. rewrite lookup_delete. destruct (decide (nrt_Name u = n)) as [->|Hne].
      * by rewrite decide_True by left.
      * by rewrite decide_False by (intros [?|?]%elem_of_cons; congruence).
Qed.

Lemma apply_reserved (ov : OverReserve) (o : op) n :
  default ∅ (assumedResources (apply ov o) !! n) =
  let rs := default ∅ (assumedResources ov !! n) in
  match o with
  | OpReserve m pod => if decide (m = n) then <[pod_key pod := GetPodEffectiveRequest pod]> rs else rs
  | OpUnreserve m pod => if decide (m = n) then delete (pod_key pod) rs else rs
  | OpFlush updates => if decide (n ∈ (nrt_Name <$> updates : list string)) then ∅ else rs
  | _ => rs
  end.
Proof.
  destruct o as [m pod|m pod|m|m|ev|m|us]; cbn [apply].
  - cbn. rewrite lookup_insert. case_decide; by subst.
  - unfold ov_UnreserveNodeResources. destruct (assumedResources ov !! m) as [rs|] eqn:E.
    + cbn [set_assumed assumedResources]. rewrite lookup_insert. case_decide as Hm; [|done]. subst m. by rewrite E.
    + case_decide; [subst|done]. rewrite E. cbn. by rewrite delete_empty.
  - done.
  - unfold ov_NodeHasForeignPods. by destruct (negb _).
  - by rewrite ProcessEvent_assumed.
  - done.
  - destruct (FlushNodes_fields ov us) as (_ & -> & _). case_decide as Hn.
    + by destruct (flush_lookup_in us ov n Hn) as (_ & -> & _).
    + by destruct (flush_lookup us ov n Hn) as (_ & -> & _).
Qed.

Lemma reserved_step (ov : OverReserve) (g : ledger) (o : op) n :
  (∀ m, default ∅ (assumedResources ov !! m) = GetPodEffectiveRequest <$> pods_on g m) →
  default ∅ (assumedResources (apply ov o) !! n) = GetPodEffectiveRequest <$> pods_on (track g o) n.
Proof.
  intros Hr. rewrite apply_reserved, track_pods, Hr. cbn zeta.
  destruct o; try done; case_decide; by rewrite ?fmap_insert, ?fmap_delete, ?fmap_empty.
Qed.

Lemma accounted_ok (ov : OverReserve) (g : ledger) outdated : accounted ov g outdated → ov_ok ov.
Proof.
  intros Ha n rs Hn key res Hk. pose proof (acc_reserved _ _ _ Ha n) as E. rewrite Hn in E. cbn in E.
  rewrite E, lookup_fmap in Hk. apply fmap_Some in Hk as (pod & Hpod & ->).
  by apply GetPodEffectiveRequest_nonneg, (acc_pods _ _ _ Ha n key).
Qed.

Lemma no_pods_placed zones : well_placed zones ∅ ∅.
Proof. split_and!; [apply fmap_empty|done|]. intros id r. by rewrite sum_map_empty. Qed.

Lemma quiet_accounted (ov : OverReserve) (g : ledger) outdated (o : op) :
  quiet o → accounted ov g outdated → accounted (apply ov o) (track g o) outdated.
Proof.
  intros Hq Ha. assert (not_flush o) as Hnf by (by destruct o).
  destruct (apply_keeps ov o Hnf) as (Hnrts & _). split.
  - intros n key pod. rewrite track_pods. destruct o; try done; try apply (acc_pods _ _ _ Ha).
    case_decide; [intros [_ ?]%lookup_delete_Some|intros ?]; by eapply (acc_pods _ _ _ Ha).
  - intros n. apply reserved_step, (acc_reserved _ _ _ Ha).
  - intros n nrt Hout. rewrite Hnrts, track_pods. intros Hn Hal. destruct (acc_placed _ _ _ Ha n nrt Hout Hn Hal) as [P HP].
    destruct o; try done; try (by exists P). case_decide; [|by exists P]. eexists.
    by apply (well_placed_delete _ _ P (acc_pods _ _ _ Ha n) HP).
Qed.

Lemma fits_beside_le f f' zones id res :
  (∀ r, f' r ≤ f r) → fits_beside f zones id res → fits_beside f' zones id res.
Proof.
  intros Hle Hf r q Hq Hpos. destruct (Hf r q Hq Hpos) as [?|(res' & q' & ? & ? & ?)]; [by left|].
  right. exists res', q'. split_and!; [done..|]. specialize (Hle r). lia.
Qed.

Lemma quiet_pending (ov : OverReserve) (g : ledger) outdated (o : op) n pod :
  quiet o → accounted ov g outdated → pending_fits ov g n pod → pending_fits (apply ov o) (track g o) n pod.
Proof.
  intros Hq Ha [Hnn Hfit]. split; [done|]. intros Hg nrt. assert (not_flush o) as Hnf by (by destruct o).
  destruct (apply_keeps ov o Hnf) as (-> & _). intros Hn Hal. destruct (Hfit Hg nrt Hn Hal) as [id Hid].
  exists id. eapply fits_beside_le; [|exact Hid]. intros r. unfold reserved_amount. rewrite track_pods.
  destruct o; try done. case_decide; [|done]. rewrite fmap_delete. apply sum_map_delete_le.
  intros key res Hk. rewrite lookup_fmap in Hk. apply fmap_Some in Hk as (p & Hp & ->).
  by apply GetPodEffectiveRequest_nonneg, (acc_pods _ _ _ Ha n key).
Qed.

Lemma reserve_accounted (ov : OverReserve) (g : ledger) outdated n pod (valid : bool) :
  accounted ov g outdated → pod_nonneg pod → (valid = true → pending_fits ov g n pod) →
  accounted (apply ov (OpReserve n pod)) (track g (OpReserve n pod)) (if valid then outdated else {[n]} ∪ outdated).
Proof.
  intros Ha Hnn Hfit. split.
  - intros m key p. rewrite track_pods. case_decide; [intros [[_ <-]|[_ ?]]%lookup_insert_Some|intros ?];
      [done|by eapply (acc_pods _ _ _ Ha)..].
  - intros m. apply reserved_step, (acc_reserved _ _ _ Ha).
  - intros m nrt Hout. rewrite track_pods. cbn [apply ov_ReserveNodeResources set_marks set_assumed nrts].
    assert (m ∉ outdated) as Hm' by (destruct valid; set_solver).
    intros Hm Hal. destruct (acc_placed _ _ _ Ha m nrt Hm' Hm Hal) as [P HP]. case_decide as E; [subst m|by exists P].
    destruct valid; [|set_solver]. destruct (Hfit eq_refl) as [_ Hfits].
    destruct (decide (GetPodQOS pod = PodQOSGuaranteed)) as [Hg|Hg].
    + destruct (Hfits Hg nrt Hm Hal) as [id Hid]. eexists.
      by apply (well_placed_insert _ _ P (acc_pods _ _ _ Ha n) HP pod id).
    + eexists. by apply (well_placed_unbound _ _ P (acc_pods _ _ _ Ha n) HP pod).
Qed.

Lemma elem_of_names n updates : n ∈ names updates ↔ n ∈ nrt_Name <$> updates.
Proof. apply elem_of_list_to_set. Qed.

Lemma flush_accounted (ov : OverReserve) (g : ledger) outdated updates :
  accounted ov g outdated →
  accounted (apply ov (OpFlush updates)) (track g (OpFlush updates)) (outdated ∖ names updates).
Proof.
  intros Ha. split.
  - intros n key pod. rewrite track_pods. case_decide; [by rewrite lookup_empty|apply (acc_pods _ _ _ Ha)].
  - intros n. apply reserved_step, (acc_reserved _ _ _ Ha).
  - intros n nrt. rewrite elem_of_difference, elem_of_names, track_pods. cbn [apply].
    destruct (FlushNodes_fields ov updates) as (-> & _).
    case_decide as Hn; [intros _ _ _; eexists; apply no_pods_placed|].
    destruct (flush_lookup updates ov n Hn) as (-> & _). intros Hout. apply (acc_placed _ _ _ Ha). tauto.
Qed.

(** A flush of other nodes does not touch what the pending pod was checked against. *)
Lemma flush_pending_fits (ov : OverReserve) (g : ledger) updates n pod :
  n ∉ names updates → pending_fits ov g n pod → pending_fits (apply ov (OpFlush updates)) (track g (OpFlush updates)) n pod.
Proof.
  rewrite elem_of_names. intros Hn [Hnn Hfit]. split; [done|]. intros Hg nrt. cbn [apply].
  destruct (FlushNodes_fields ov updates) as (-> & _). destruct (flush_lookup updates ov n Hn) as (-> & _).
  unfold reserved_amount. rewrite track_pods, decide_False by done. by apply Hfit.
Qed.

Lemma Filter_accepts (ov : OverReserve) (ov' : OverReserve) pod nodeInfo : Filter ov pod nodeInfo = Ret (ov', None) → ov' = ov.
Proof.
  unfold Filter. destruct (ni_node nodeInfo) as [node|]; [|done].
  destruct (_ && _); [by intros [= <-]|]. destruct (GetCachedNRTCopy ov (n_name node) pod) as [nrt info].
  destruct (negb (Fresh info)); [done|]. destruct nrt as [nrt|]; [|by intros [= <-]].
  destruct (filterHandlerFromTopologyManager _) as [handler|]; [|by intros [= <-]].
  destruct (handler pod (nrt_Zones nrt) nodeInfo) as [[s|]|]; cbn; [done|by intros [= <-]|done].
Qed.

Lemma numa_run_accounted (ov0 : OverReserve) (ov : OverReserve) (g : ledger) p outdated :
  numa_run ov0 ov g p outdated →
  accounted ov g outdated ∧
  ∀ n pod valid, p = Some (n, pod, valid) → pod_nonneg pod ∧ (valid = true → pending_fits ov g n pod).
Proof.
  induction 1 as [Hov|ov g outdated pod nodeInfo node ov' _ [Ha _] Hnn Hn Hf|ov g n pod valid outdated _ [Ha Hp]
    |ov g p outdated _ [Ha _]|ov g p outdated o _ [Ha Hp] Hq|ov g p outdated updates _ [Ha Hp]].
  - split; [|done]. split.
    + intros n key pod. unfold pods_on. by rewrite lookup_empty.
    + intros n. unfold pods_on. rewrite Hov, !lookup_empty. cbn. by rewrite fmap_empty.
    + intros n nrt _ _ _. unfold pods_on. rewrite lookup_empty. eexists. apply no_pods_placed.
  - pose proof (Filter_accepts _ _ _ _ Hf) as ->. split; [done|]. intros n q valid [= <- <- <-].
    split; [done|]. intros _. split; [done|]. intros Hg nrt Hnrt [Hpol Hscope].
    destruct (Filter_beside ov ov pod nodeInfo node nrt (accounted_ok _ _ _ Ha) Hnn Hn Hg Hnrt Hpol Hscope Hf) as [_ [id Hid]].
    exists id. by rewrite (acc_reserved _ _ _ Ha) in Hid.
  - split; [|done]. destruct (Hp n pod valid eq_refl). by apply reserve_accounted.
  - done.
  - split; [by apply quiet_accounted|]. intros n pod valid ->. destruct (Hp n pod valid eq_refl) as [? Hf].
    split; [done|]. intros Hv. eapply quiet_pending; [done|exact Ha|auto].
  - split; [by apply flush_accounted|]. intros n pod valid.
    destruct p as [[[n' pod'] valid']|]; [|done]. intros [= <- <- <-]. destruct (Hp n' pod' valid' eq_refl) as [? Hf].
    split; [done|]. intros [Hv Hn%bool_decide_eq_true]%andb_true_iff. apply flush_pending_fits; auto.
Qed.

(** ** Property *)

(** C3: NUMA nodes are not over-committed.  Start with an empty cache, let the
    scheduler handle any pods one after the other, and let pods end, informers report
    foreign pods, the watcher mark nodes and the resynchronisation replace objects at
    any moment.  Then at every moment,
    on every node whose object asks for single-NUMA-node alignment of whole pods, the amounts
    kept for the node are those of the reserved pods, and these pods
    can be placed such that each guaranteed one is on one NUMA node
    and no NUMA node holds more of any resource than its object offers.  The nodes excepted are
    those in [outdated]: since the last flush of the node, a pod was reserved there whose filter had seen the
    object before a flush ([flush_in_window_overcommits]).  Without such a flush between a filter and
    its Reserve there are none.  No pod requests a negative amount. *)
Theorem numa_nodes_not_overcommitted (ov0 : OverReserve) (ov : OverReserve) (g : ledger) p outdated n nrt :
  numa_run ov0 ov g p outdated → nrts ov !! n = Some nrt → aligned nrt →
  GetPodEffectiveRequest <$> pods_on g n = default ∅ (assumedResources ov !! n) ∧
  (n ∉ outdated → ∃ P, fst <$> P = pods_on g n ∧
    (∀ key pod z, P !! key = Some (pod, z) → GetPodQOS pod = PodQOSGuaranteed → is_Some z) ∧
    ∀ id r, has_room (nrt_Zones nrt) id r (sum_map (share id r) P)).
Proof.
  intros Hrun Hn Hal. destruct (numa_run_accounted _ _ _ _ _ Hrun) as [Ha _].
  split; [symmetry; apply (acc_reserved _ _ _ Ha)|]. intros Hout. by apply (acc_placed _ _ _ Ha).
Qed.
End NumaRuns.

(** ** Witness *)

(** A pod of 2 and 8 CPUs passes the filter on the empty node and is reserved. *)
Definition w_run_pod : Pod := w_guaranteed 2 8.
Definition w_run_start : OverReserve := w_admission_cache [].

Lemma w_filter : Filter w_run_start w_run_pod w_machine = Ret (w_run_start, None).
Proof.
  assert (Hf : fmap snd (Filter w_run_start w_run_pod w_machine) = Ret None) by (by vm_compute).
  destruct (Filter w_run_start w_run_pod w_machine) as [[ov' st]|] eqn:Hrun; [|discriminate Hf].
  cbn in Hf. injection Hf as ->. by rewrite (Filter_accepts _ _ _ _ Hrun).
Qed.

Lemma w_pending : numa_run w_run_start w_run_start ∅ (Some ("n", w_run_pod, true)) ∅.
Proof.
  exact (nr_filter w_run_start w_run_start ∅ ∅ w_run_pod w_machine _ w_run_start (nr_start w_run_start (eq_refl _))
    w_guaranteed_nonneg (eq_refl _) w_filter).
Qed.

(** Between the two calls the resynchronisation replaces the object of another node. *)
Definition w_other_object : NodeResourceTopology := {|
  nrt_Name := "m"; nrt_Annotations := ∅; nrt_TopologyPolicies := []; nrt_Attributes := []; nrt_Zones := [] |}.
Definition w_run_end : OverReserve := apply (apply w_run_start (OpFlush [w_other_object])) (OpReserve "n" w_run_pod).
Definition w_run_ledger : gmap string (gmap string Pod) :=
  track (track ∅ (OpFlush [w_other_object])) (OpReserve "n" w_run_pod).

Lemma w_run : numa_run w_run_start w_run_end w_run_ledger None (∅ ∖ names [w_other_object]).
Proof. refine (nr_reserve _ _ _ "n" w_run_pod true _ _). exact (nr_flush _ _ _ _ _ [w_other_object] w_pending). Qed.

Lemma numa_nodes_not_overcommitted_witness :
  amount_of (GetPodEffectiveRequest w_run_pod) ResourceCPU > 0 ∧
  ∃ P : gmap string (Pod * option Z), fst <$> P = {[pod_key w_run_pod := w_run_pod]} ∧
    ∀ id r, has_room (nrt_Zones w_pod_scope_object) id r (sum_map (share id r) P).
Proof.
  split; [by vm_compute|].
  assert (Hn : nrts w_run_end !! "n" = Some w_pod_scope_object).
  { refine (eq_trans (proj1 (flush_lookup [w_other_object] w_run_start "n" _)) (eq_refl _)).
    by intros [[=]|[]%not_elem_of_nil]%elem_of_cons. }
  assert (Hout : "n" ∉ ∅ ∖ names [w_other_object]) by (intros [[]%not_elem_of_empty _]%elem_of_difference).
  destruct (numa_nodes_not_overcommitted w_run_start w_run_end _ None _ "n" w_pod_scope_object w_run
    Hn (conj (eq_refl _) (eq_refl _))) as [_ Hplaced].
  destruct (Hplaced Hout) as (P & HP & _ & Hroom).
  exists P. split; [|exact Hroom]. rewrite HP. unfold w_run_ledger. rewrite track_pods. by rewrite decide_True.
Defined.

(** What happens to the nodes excepted: the object of the node itself is replaced, by one with 1 CPU
    left on each NUMA node, and the pod of 10 CPUs is reserved all the same. *)
Definition w_full_object : NodeResourceTopology := {|
  nrt_Name := "n"; nrt_Annotations := ∅; nrt_TopologyPolicies := ["SingleNUMANodePodLevel"];
  nrt_Attributes := []; nrt_Zones := [w_numa_zone "node-0" 1; w_numa_zone "node-1" 1] |}.

Lemma flush_in_window_overcommits :
  let ov := apply (apply w_run_start (OpFlush [w_full_object])) (OpReserve "n" w_run_pod) in
  let g := track (track ∅ (OpFlush [w_full_object])) (OpReserve "n" w_run_pod) in
  numa_run w_run_start ov g None ({["n"]} ∪ ∅ ∖ names [w_full_object]) ∧
  nrts ov !! "n" = Some w_full_object ∧ aligned w_full_object ∧
  ¬ ∃ P, well_placed (nrt_Zones w_full_object) (pods_on g "n") P.
Proof.
  cbn zeta. split; [|split; [apply lookup_insert_eq|split; [by split|]]].
  - refine (nr_reserve _ _ _ "n" w_run_pod false _ _). exact (nr_flush _ _ _ _ _ [w_full_object] w_pending).
  - intros (P & E & Hz & Hroom). rewrite track_pods, decide_True in E by done.
    assert (P !! pod_key w_run_pod = Some (w_run_pod, (P !! pod_key w_run_pod) ≫= snd)) as HP.
    { apply (f_equal (lookup (pod_key w_run_pod))) in E. rewrite lookup_fmap, lookup_insert_eq in E.
      destruct (P !! pod_key w_run_pod) as [[q z]|]; [|done]. by injection E as ->. }
    destruct (Hz _ _ _ HP) as [id Hid]; [by vm_compute|]. rewrite Hid in HP.
    assert (cores 10 ≤ sum_map (share id ResourceCPU) P) as Hsum.
    { rewrite <- (insert_delete_id P _ _ HP), sum_map_insert by apply lookup_delete_eq.
      assert (share id ResourceCPU (w_run_pod, Some id) = cores 10) as ->
        by (unfold share; rewrite decide_True by done; by vm_compute).
      assert (delete (pod_key w_run_pod) P = ∅) as ->; [|by rewrite sum_map_empty].
      apply map_eq. intros k. rewrite lookup_empty, lookup_delete. case_decide as Hk; [done|].
      apply (f_equal (lookup k)) in E. rewrite lookup_fmap, lookup_insert_ne in E by done.
      unfold pods_on in E. by destruct (P !! k). }
    destruct (Hroom id ResourceCPU) as [[Hh _]|(res & q & Hin & Hq & Hle)]; [unfold cores in *; lia|by vm_compute in Hh|].
    assert (Forall (λ z, z.2 !! ResourceCPU = Some (cores 1)) (numa_zones (nrt_Zones w_full_object))) as Hall
      by (vm_compute; repeat constructor).
    rewrite Forall_forall in Hall. specialize (Hall _ Hin). cbn in Hall, Hq. rewrite Hall in Hq. injection Hq as <-.
    assert (amount (cores 1) = cores 1) by (by vm_compute). unfold cores in *. lia.
Qed.
