(* ===== verification/Rescheduler.v ===== *)
(** * pkg/rescheduler: the plugin

    [rescheduler.go]: the resource calculator, the reservation manager, the
    extension points Filter, Score, Reserve, Unreserve and PreBind, and the
    configuration.  Percentages and scores are float64, computed with the
    operations of the file Float64.  What the listers return is an argument.
    The rescheduling controller is in the file ReschedController. *)

From Stdlib Require Import Lqa.
From S2P Require Import Prelude Float64 K8s K8sModel.
Open Scope Z_scope.

(** ** Configuration: definitions *)

Record ReschedulerConfig := mkReschedulerConfig {
  CPUThreshold : Q;
  MemoryThreshold : Q;
  ExcludedNamespaces : list string;
  EnableSchedulingOptimization : bool;
  EnablePreventiveRescheduling : bool;
  CPUScoreWeight : Q;
  MemoryScoreWeight : Q;
  LoadBalanceBonus : Q;
  EnableReschedulingController : bool;
  ReschedulingInterval : string;
}.

Definition set_CPUThreshold (c : ReschedulerConfig) (v : Q) : ReschedulerConfig := mkReschedulerConfig
  v (MemoryThreshold c) (ExcludedNamespaces c) (EnableSchedulingOptimization c) (EnablePreventiveRescheduling c)
  (CPUScoreWeight c) (MemoryScoreWeight c) (LoadBalanceBonus c) (EnableReschedulingController c) (ReschedulingInterval c).
Definition set_MemoryThreshold (c : ReschedulerConfig) (v : Q) : ReschedulerConfig := mkReschedulerConfig
  (CPUThreshold c) v (ExcludedNamespaces c) (EnableSchedulingOptimization c) (EnablePreventiveRescheduling c)
  (CPUScoreWeight c) (MemoryScoreWeight c) (LoadBalanceBonus c) (EnableReschedulingController c) (ReschedulingInterval c).
Definition set_ExcludedNamespaces (c : ReschedulerConfig) (v : list string) : ReschedulerConfig := mkReschedulerConfig
  (CPUThreshold c) (MemoryThreshold c) v (EnableSchedulingOptimization c) (EnablePreventiveRescheduling c)
  (CPUScoreWeight c) (MemoryScoreWeight c) (LoadBalanceBonus c) (EnableReschedulingController c) (ReschedulingInterval c).
Definition set_EnableSchedulingOptimization (c : ReschedulerConfig) (v : bool) : ReschedulerConfig := mkReschedulerConfig
  (CPUThreshold c) (MemoryThreshold c) (ExcludedNamespaces c) v (EnablePreventiveRescheduling c)
  (CPUScoreWeight c) (MemoryScoreWeight c) (LoadBalanceBonus c) (EnableReschedulingController c) (ReschedulingInterval c).
Definition set_EnablePreventiveRescheduling (c : ReschedulerConfig) (v : bool) : ReschedulerConfig := mkReschedulerConfig
  (CPUThreshold c) (MemoryThreshold c) (ExcludedNamespaces c) (EnableSchedulingOptimization c) v
  (CPUScoreWeight c) (MemoryScoreWeight c) (LoadBalanceBonus c) (EnableReschedulingController c) (ReschedulingInterval c).
Definition set_CPUScoreWeight (c : ReschedulerConfig) (v : Q) : ReschedulerConfig := mkReschedulerConfig
  (CPUThreshold c) (MemoryThreshold c) (ExcludedNamespaces c) (EnableSchedulingOptimization c) (EnablePreventiveRescheduling c)
  v (MemoryScoreWeight c) (LoadBalanceBonus c) (EnableReschedulingController c) (ReschedulingInterval c).
Definition set_MemoryScoreWeight (c : ReschedulerConfig) (v : Q) : ReschedulerConfig := mkReschedulerConfig
  (CPUThreshold c) (MemoryThreshold c) (ExcludedNamespaces c) (EnableSchedulingOptimization c) (EnablePreventiveRescheduling c)
  (CPUScoreWeight c) v (LoadBalanceBonus c) (EnableReschedulingController c) (ReschedulingInterval c).
Definition set_LoadBalanceBonus (c : ReschedulerConfig) (v : Q) : ReschedulerConfig := mkReschedulerConfig
  (CPUThreshold c) (MemoryThreshold c) (ExcludedNamespaces c) (EnableSchedulingOptimization c) (EnablePreventiveRescheduling c)
  (CPUScoreWeight c) (MemoryScoreWeight c) v (EnableReschedulingController c) (ReschedulingInterval c).
Definition set_EnableReschedulingController (c : ReschedulerConfig) (v : bool) : ReschedulerConfig := mkReschedulerConfig
  (CPUThreshold c) (MemoryThreshold c) (ExcludedNamespaces c) (EnableSchedulingOptimization c) (EnablePreventiveRescheduling c)
  (CPUScoreWeight c) (MemoryScoreWeight c) (LoadBalanceBonus c) v (ReschedulingInterval c).
Definition set_ReschedulingInterval (c : ReschedulerConfig) (v : string) : ReschedulerConfig := mkReschedulerConfig
  (CPUThreshold c) (MemoryThreshold c) (ExcludedNamespaces c) (EnableSchedulingOptimization c) (EnablePreventiveRescheduling c)
  (CPUScoreWeight c) (MemoryScoreWeight c) (LoadBalanceBonus c) (EnableReschedulingController c) v.

Definition DefaultCPUThreshold : Q := f64 80.
Definition DefaultMemoryThreshold : Q := f64 80.
Definition DefaultCPUScoreWeight : Q := f64 (6 # 10).
Definition DefaultMemoryScoreWeight : Q := f64 (4 # 10).
Definition DefaultLoadBalanceBonus : Q := f64 10.

(** The configuration that [New] starts from. *)
Definition default_config : ReschedulerConfig := mkReschedulerConfig
  DefaultCPUThreshold DefaultMemoryThreshold ["kube-system"] true true
  DefaultCPUScoreWeight DefaultMemoryScoreWeight DefaultLoadBalanceBonus true "30s".

(** The arguments, as the JSON or YAML decoder leaves them. *)
Record ReschedulerArgs := {
  args_CPUThreshold : Q;
  args_MemoryThreshold : Q;
  args_ExcludedNamespaces : list string;
  args_EnableSchedulingOptimization : option bool;
  args_EnablePreventiveRescheduling : option bool;
  args_CPUScoreWeight : Q;
  args_MemoryScoreWeight : Q;
  args_LoadBalanceBonus : Q;
  args_EnableReschedulingController : option bool;
  args_ReschedulingInterval : string;
}.

(** The checks that end in an error; the others only log a warning. *)
Definition validateConfig (config : ReschedulerConfig) : option string :=
  if f_le (CPUThreshold config) 0 || f_lt 100 (CPUThreshold config) then Some "cpu threshold not in (0, 100]"
  else if f_le (MemoryThreshold config) 0 || f_lt 100 (MemoryThreshold config)
  then Some "memory threshold not in (0, 100]"
  else if f_lt (CPUScoreWeight config) 0 || f_lt 1 (CPUScoreWeight config) then Some "cpu weight not in [0, 1]"
  else if f_lt (MemoryScoreWeight config) 0 || f_lt 1 (MemoryScoreWeight config)
  then Some "memory weight not in [0, 1]"
  else if existsb (λ ns, bool_decide (ns = "")) (ExcludedNamespaces config) then Some "empty namespace"
  else None.

Definition set_if_some {A} (set : ReschedulerConfig → A → ReschedulerConfig) (config : ReschedulerConfig)
    (v : option A) : ReschedulerConfig :=
  match v with Some v => set config v | None => config end.

(** The configuration is mutated in place: an error returns it as it is then. *)
Definition applyPluginConfig (args : ReschedulerArgs) (config : ReschedulerConfig) :
    ReschedulerConfig * option string :=
  if f_lt 0 (args_CPUThreshold args) && f_lt 100 (args_CPUThreshold args) then (config, Some "cpu threshold above 100")
  else
  let config := if f_lt 0 (args_CPUThreshold args) then set_CPUThreshold config (args_CPUThreshold args) else config in
  if f_lt 0 (args_MemoryThreshold args) && f_lt 100 (args_MemoryThreshold args)
  then (config, Some "memory threshold above 100")
  else
  let config := if f_lt 0 (args_MemoryThreshold args)
                then set_MemoryThreshold config (args_MemoryThreshold args) else config in
  let config := match args_ExcludedNamespaces args with
                | [] => config | namespaces => set_ExcludedNamespaces config namespaces end in
  let config := set_if_some set_EnableSchedulingOptimization config (args_EnableSchedulingOptimization args) in
  let config := set_if_some set_EnablePreventiveRescheduling config (args_EnablePreventiveRescheduling args) in
  if f_lt 0 (args_CPUScoreWeight args) && f_lt 1 (args_CPUScoreWeight args) then (config, Some "cpu weight above 1")
  else
  let config := if f_lt 0 (args_CPUScoreWeight args)
                then set_CPUScoreWeight config (args_CPUScoreWeight args) else config in
  if f_lt 0 (args_MemoryScoreWeight args) && f_lt 1 (args_MemoryScoreWeight args)
  then (config, Some "memory weight above 1")
  else
  let config := if f_lt 0 (args_MemoryScoreWeight args)
                then set_MemoryScoreWeight config (args_MemoryScoreWeight args) else config in
  let config := if f_lt 0 (args_LoadBalanceBonus args)
                then set_LoadBalanceBonus config (args_LoadBalanceBonus args) else config in
  let config := set_if_some set_EnableReschedulingController config (args_EnableReschedulingController args) in
  let config := if bool_decide (args_ReschedulingInterval args ≠ "")
                then set_ReschedulingInterval config (args_ReschedulingInterval args) else config in
  (config, validateConfig config).

(** ** Plugin: definitions *)

Record ReservationInfo := {
  ri_PodKey : string;
  ri_NodeName : string;
  CPUReserved : Z;
  MemoryReserved : Z;
  Timestamp : Z;
}.

Abbreviation reservations := (gmap string ReservationInfo).

Section Rescheduler.
Context `{MapOrder} `{QuantityOps}.

Record ResourceRequests := { CPU : Z; Mem : Z }.
Record NodeCapacity := { cap_CPU : Z; cap_Memory : Z }.
Record ResourceUsagePercent := { pct_CPU : Q; pct_Memory : Q }.

Record NodeResourceUsage := {
  nu_Node : Node;
  CPUUsagePercent : Q;
  MemoryUsagePercent : Q;
  CPURequests : Z;
  MemoryRequests : Z;
  PodCount : Z;
  nu_Score : Q;
}.

(** [Requests.Cpu()] is never nil: an absent entry is the zero quantity. *)
Definition CalculatePodResourceRequests (pod : Pod) : ResourceRequests :=
  foldl (λ r container,
    {| CPU := CPU r +₆₄ milli_of (c_requests container) ResourceCPU;
       Mem := Mem r +₆₄ value_of (c_requests container) ResourceMemory |})
    {| CPU := 0; Mem := 0 |} (p_containers pod).

Definition GetNodeCapacity (node : Node) : NodeCapacity :=
  {| cap_CPU := milli_of (n_capacity node) ResourceCPU; cap_Memory := value_of (n_capacity node) ResourceMemory |}.

Definition percent (a b : Z) : Q := f64_mul (f64_div (f64_of_int a) (f64_of_int b)) (f64 100).

Definition CalculateUsagePercent (requests : ResourceRequests) (capacity : NodeCapacity) : ResourceUsagePercent :=
  {| pct_CPU := if bool_decide (cap_CPU capacity > 0) then percent (CPU requests) (cap_CPU capacity) else 0;
     pct_Memory :=
       if bool_decide (cap_Memory capacity > 0) then percent (Mem requests) (cap_Memory capacity) else 0 |}.

Definition CalculateScore (config : ReschedulerConfig) (usage : ResourceUsagePercent) : Q :=
  let cpuScore := f64_mul (f64_sub 100 (pct_CPU usage)) (CPUScoreWeight config) in
  let memoryScore := f64_mul (f64_sub 100 (pct_Memory usage)) (MemoryScoreWeight config) in
  let totalScore := f64_add cpuScore memoryScore in
  if f_lt (pct_CPU usage) 30 && f_lt (pct_Memory usage) 30
  then f64_add totalScore (LoadBalanceBonus config) else totalScore.

(** The reasons name the resources over their threshold. *)
Definition IsOverloaded (config : ReschedulerConfig) (usage : ResourceUsagePercent) : bool * list string :=
  let reasons := (if f_lt (CPUThreshold config) (pct_CPU usage) then ["cpu"] else []) in
  let reasons := reasons ++ (if f_lt (MemoryThreshold config) (pct_Memory usage) then ["memory"] else []) in
  match reasons with [] => (false, []) | _ => (true, reasons) end.

Definition CalculateUsageFromMetrics (cpuUsage memoryUsage cpuCapacity memoryCapacity : Quantity) :
    ResourceUsagePercent :=
  {| pct_CPU := if negb (q_IsZero cpuCapacity) then percent (q_MilliValue cpuUsage) (q_MilliValue cpuCapacity) else 0;
     pct_Memory := if negb (q_IsZero memoryCapacity)
                   then percent (q_Value memoryUsage) (q_Value memoryCapacity) else 0 |}.

Definition CalculateNodeScoreFromMetrics (config : ReschedulerConfig) (cpuPercent memoryPercent : Q) : Q :=
  CalculateScore config {| pct_CPU := cpuPercent; pct_Memory := memoryPercent |}.

(** *** Reservations *)

Definition rm_Reserve (rm : reservations) (podKey nodeName : string) (cpuReserved memoryReserved now : Z) :
    reservations :=
  <[podKey := {| ri_PodKey := podKey; ri_NodeName := nodeName; CPUReserved := cpuReserved;
                 MemoryReserved := memoryReserved; Timestamp := now |}]> rm.

Definition rm_Unreserve (rm : reservations) (podKey : string) : reservations * option ReservationInfo :=
  match rm !! podKey with
  | Some reservation => (delete podKey rm, Some reservation)
  | None => (rm, None)
  end.

Definition GetReservation (rm : reservations) (podKey : string) : option ReservationInfo := rm !! podKey.

Definition GetNodeReservations (rm : reservations) (nodeName : string) : list ReservationInfo :=
  foldl (λ l '(_, reservation),
    if bool_decide (ri_NodeName reservation = nodeName) then l ++ [reservation] else l) [] (range rm).

Definition GetTotalReservedResources (rm : reservations) (nodeName : string) : Z * Z :=
  foldl (λ '(cpuReserved, memoryReserved) '(_, reservation),
    if bool_decide (ri_NodeName reservation = nodeName)
    then (cpuReserved +₆₄ CPUReserved reservation, memoryReserved +₆₄ MemoryReserved reservation)
    else (cpuReserved, memoryReserved)) (0, 0) (range rm).

Definition CleanupExpiredReservations (rm : reservations) (expirationSeconds now : Z) : reservations :=
  foldl (λ (rm : reservations) '(podKey, reservation),
    if bool_decide (now -₆₄ Timestamp reservation > expirationSeconds) then delete podKey rm else rm) rm (range rm).

(** *** Usage of a node *)

Definition empty_usage (node : Node) : NodeResourceUsage := {|
  nu_Node := node; CPUUsagePercent := 0; MemoryUsagePercent := 0; CPURequests := 0; MemoryRequests := 0;
  PodCount := 0; nu_Score := 0 |}.

Definition count_pod (nodeUsages : gmap string NodeResourceUsage) (pod : Pod) : gmap string NodeResourceUsage :=
  if negb (bool_decide (p_phase pod = PodRunning)) then nodeUsages
  else if bool_decide (p_node_name pod = "") then nodeUsages
  else match nodeUsages !! p_node_name pod with
  | None => nodeUsages
  | Some usage =>
      let podRequests := CalculatePodResourceRequests pod in
      <[p_node_name pod := {|
          nu_Node := nu_Node usage; CPUUsagePercent := CPUUsagePercent usage;
          MemoryUsagePercent := MemoryUsagePercent usage;
          CPURequests := CPURequests usage +₆₄ CPU podRequests;
          MemoryRequests := MemoryRequests usage +₆₄ Mem podRequests;
          PodCount := PodCount usage +₆₄ 1; nu_Score := nu_Score usage |}]> nodeUsages
  end.

Definition fill_usage (config : ReschedulerConfig) (usage : NodeResourceUsage) : NodeResourceUsage :=
  let capacity := GetNodeCapacity (nu_Node usage) in
  let requests := {| CPU := CPURequests usage; Mem := MemoryRequests usage |} in
  let usagePercent := CalculateUsagePercent requests capacity in
  {| nu_Node := nu_Node usage; CPUUsagePercent := pct_CPU usagePercent;
     MemoryUsagePercent := pct_Memory usagePercent; CPURequests := CPURequests usage;
     MemoryRequests := MemoryRequests usage; PodCount := PodCount usage;
     nu_Score := CalculateScore config usagePercent |}.

Definition calculateNodeUsages (config : ReschedulerConfig) (nodes : list Node) (pods : list Pod) :
    gmap string NodeResourceUsage :=
  let nodeUsages := foldl (λ (nodeUsages : gmap string NodeResourceUsage) node,
    if n_unschedulable node then nodeUsages else <[n_name node := empty_usage node]> nodeUsages) ∅ nodes in
  let nodeUsages := foldl count_pod nodeUsages pods in
  foldl (λ (nodeUsages : gmap string NodeResourceUsage) '(name, usage), <[name := fill_usage config usage]> nodeUsages)
    nodeUsages (range nodeUsages).

(** The plugin, and what its listers return: [None] is an error. *)
Record Rescheduler := {
  rs_config : ReschedulerConfig;
  rs_podLister : option (list Pod);
  rs_nodeLister_Get : string → option Node;
  reservationManager : reservations;
}.

Definition set_reservations (r : Rescheduler) (rm : reservations) : Rescheduler := {|
  rs_config := rs_config r; rs_podLister := rs_podLister r; rs_nodeLister_Get := rs_nodeLister_Get r;
  reservationManager := rm |}.

Definition getNodeUsage (r : Rescheduler) (node : Node) : NodeResourceUsage :=
  match rs_podLister r with
  | None => empty_usage node
  | Some pods =>
      let nodeUsages := calculateNodeUsages (rs_config r) [node] pods in
      match nodeUsages !! n_name node with
      | Some usage => usage
      | None => empty_usage node
      end
  end.

Definition getNodeUsageWithReservations (r : Rescheduler) (node : Node) : NodeResourceUsage :=
  let baseUsage := getNodeUsage r node in
  let '(reservedCPU, reservedMemory) := GetTotalReservedResources (reservationManager r) (n_name node) in
  let totalRequests := {| CPU := CPURequests baseUsage +₆₄ reservedCPU;
                          Mem := MemoryRequests baseUsage +₆₄ reservedMemory |} in
  let usage := CalculateUsagePercent totalRequests (GetNodeCapacity node) in
  {| nu_Node := node; CPUUsagePercent := pct_CPU usage; MemoryUsagePercent := pct_Memory usage;
     CPURequests := CPU totalRequests; MemoryRequests := Mem totalRequests; PodCount := PodCount baseUsage;
     nu_Score := CalculateScore (rs_config r) usage |}.

Definition predictNodeUsageAfterPodScheduling (r : Rescheduler) (node : Node) (newPod : Pod)
    (includeReservations : bool) : NodeResourceUsage :=
  let currentUsage := if includeReservations then getNodeUsageWithReservations r node else getNodeUsage r node in
  let podRequests := CalculatePodResourceRequests newPod in
  let predictedRequests := {| CPU := CPURequests currentUsage +₆₄ CPU podRequests;
                              Mem := MemoryRequests currentUsage +₆₄ Mem podRequests |} in
  let usage := CalculateUsagePercent predictedRequests (GetNodeCapacity node) in
  {| nu_Node := node; CPUUsagePercent := pct_CPU usage; MemoryUsagePercent := pct_Memory usage;
     CPURequests := CPU predictedRequests; MemoryRequests := Mem predictedRequests;
     PodCount := PodCount currentUsage +₆₄ 1; nu_Score := CalculateScore (rs_config r) usage |}.

(** *** Extension points *)

Definition maintenance_label : string := "scheduler.alpha.kubernetes.io/maintenance".

Definition Filter (r : Rescheduler) (nodeInfo : NodeInfo) : outcome Status :=
  if negb (EnableSchedulingOptimization (rs_config r)) then Ret None
  else
    node ← deref (ni_node nodeInfo);
    let nodeUsage := getNodeUsage r node in
    let usage := {| pct_CPU := CPUUsagePercent nodeUsage; pct_Memory := MemoryUsagePercent nodeUsage |} in
    let '(isOverloaded, _) := IsOverloaded (rs_config r) usage in
    if isOverloaded : bool then Ret (Some (NewStatus Unschedulable "overloaded"))
    else if bool_decide (n_labels node !! maintenance_label = Some "true")
    then Ret (Some (NewStatus Unschedulable "maintenance"))
    else Ret None.

Definition Score (r : Rescheduler) (nodeInfo : NodeInfo) : outcome (Z * Status) :=
  if negb (EnableSchedulingOptimization (rs_config r)) then Ret (0, None)
  else
    node ← deref (ni_node nodeInfo);
    let nodeUsage := getNodeUsage r node in
    let usage := {| pct_CPU := CPUUsagePercent nodeUsage; pct_Memory := MemoryUsagePercent nodeUsage |} in
    let totalScore := CalculateScore (rs_config r) usage in
    Ret (int_of_float (f_max 0 (f_min 100 totalScore)), None).

Definition rs_pod_key (pod : Pod) : string := p_namespace pod +:+ "/" +:+ p_name pod.

Definition Reserve (r : Rescheduler) (pod : Pod) (nodeName : string) (now : Z) : Rescheduler * Status :=
  if negb (EnableSchedulingOptimization (rs_config r)) then (r, None)
  else match rs_nodeLister_Get r nodeName with
  | None => (r, Some (AsStatus "node not found"))
  | Some node =>
      let podRequests := CalculatePodResourceRequests pod in
      let predictedUsage := predictNodeUsageAfterPodScheduling r node pod true in
      let podKey := rs_pod_key pod in
      let r := set_reservations r
        (rm_Reserve (reservationManager r) podKey nodeName (CPU podRequests) (Mem podRequests) now) in
      if f_lt 95 (CPUUsagePercent predictedUsage) || f_lt 95 (MemoryUsagePercent predictedUsage)
      then (set_reservations r (rm_Unreserve (reservationManager r) podKey).1,
            Some (NewStatus Unschedulable "overloaded after reservation"))
      else (r, None)
  end.

Definition Unreserve (r : Rescheduler) (pod : Pod) : Rescheduler :=
  if negb (EnableSchedulingOptimization (rs_config r)) then r
  else set_reservations r (rm_Unreserve (reservationManager r) (rs_pod_key pod)).1.

(** The overload check of PreBind only logs. *)
Definition PreBind (r : Rescheduler) (nodeName : string) : Status :=
  if negb (EnablePreventiveRescheduling (rs_config r)) then None
  else match rs_nodeLister_Get r nodeName with
  | None => Some (AsStatus "node not found")
  | Some _ => None
  end.
End Rescheduler.

(** ** The usage of a node *)

Section Usage.
Context `{MapOrder} `{QuantityOps}.

(** The pods that count on a node: those running there. *)
Definition counted (node : Node) (pod : Pod) : Prop :=
  p_phase pod = PodRunning ∧ p_node_name pod ≠ "" ∧ p_node_name pod = n_name node.

#[local] Instance counted_dec node pod : Decision (counted node pod).
Proof. unfold counted. apply _. Defined.

Definition load (f : ResourceRequests → Z) (node : Node) (pods : list Pod) : Z :=
  zsum (λ pod, f (CalculatePodResourceRequests pod)) (filter (counted node) pods).

Lemma load_app f node l1 l2 : load f node (l1 ++ l2) = load f node l1 + load f node l2.
Proof. unfold load. by rewrite filter_app, zsum_app. Qed.

Lemma CalculatePodResourceRequests_in64 pod :
  in64 (CPU (CalculatePodResourceRequests pod)) ∧ in64 (Mem (CalculatePodResourceRequests pod)).
Proof.
  unfold CalculatePodResourceRequests. destruct (p_containers pod) as [|c l] using rev_ind; [cbn; wrap_lia|].
  rewrite foldl_app. cbn. split; apply wrap64_in.
Qed.

Definition usage_of (node : Node) (cpu mem count : Z) : NodeResourceUsage := {|
  nu_Node := node; CPUUsagePercent := 0; MemoryUsagePercent := 0; CPURequests := cpu; MemoryRequests := mem;
  PodCount := count; nu_Score := 0 |}.

Lemma count_pod_step node pod cpu mem count :
  count_pod {[n_name node := usage_of node cpu mem count]} pod =
  if decide (counted node pod) then
    {[n_name node := usage_of node (cpu +₆₄ CPU (CalculatePodResourceRequests pod))
                       (mem +₆₄ Mem (CalculatePodResourceRequests pod)) (count +₆₄ 1)]}
  else {[n_name node := usage_of node cpu mem count]}.
Proof.
  unfold count_pod. destruct (decide (counted node pod)) as [(Hr & Hne & Hn)|Hno].
  - rewrite bool_decide_true, bool_decide_false by done. cbn [negb].
    by rewrite Hn, lookup_singleton, decide_True, insert_singleton, decide_True by done.
  - case_bool_decide as Hr; [|done]. cbn. case_bool_decide as Hne; [done|].
    rewrite lookup_singleton_ne; [done|]. intros E. by apply Hno.
Qed.

(** Counting the pods on the only node of the map. *)
Lemma count_pods node pods cpu mem count :
  foldl count_pod {[n_name node := usage_of node (wrap64 cpu) (wrap64 mem) (wrap64 count)]} pods =
  {[n_name node := usage_of node (wrap64 (cpu + load CPU node pods)) (wrap64 (mem + load Mem node pods))
                     (wrap64 (count + Z.of_nat (length (filter (counted node) pods))))]}.
Proof.
  revert cpu mem count. induction pods as [|pod pods IH]; intros cpu mem count.
  { unfold load. cbn. by rewrite !Z.add_0_r. }
  unfold load. rewrite filter_cons. cbn [foldl]. rewrite count_pod_step.
  destruct (decide (counted node pod)); [|apply IH].
  rewrite !wrap64_add_l, IH, <- !Z.add_assoc. cbn [length]. by rewrite Nat2Z.inj_succ, Z.add_1_l.
Qed.

Lemma getNodeUsage_Some r node pods :
  rs_podLister r = Some pods → n_unschedulable node = false →
  getNodeUsage r node =
  fill_usage (rs_config r)
    (usage_of node (wrap64 (load CPU node pods)) (wrap64 (load Mem node pods))
       (wrap64 (Z.of_nat (length (filter (counted node) pods))))).
Proof.
  intros Hl Hu. unfold getNodeUsage, calculateNodeUsages. rewrite Hl. cbn [foldl]. rewrite Hu, insert_empty.
  pose proof (count_pods node pods 0 0 0) as Hc. rewrite !Z.add_0_l in Hc.
  change (usage_of node (wrap64 0) (wrap64 0) (wrap64 0)) with (empty_usage node) in Hc.
  rewrite Hc. pose proof (foldl_range_lookup (λ _ _ u, Some (fill_usage (rs_config r) u))) as Hf.
  rewrite Hf; clear Hf.
  - by rewrite lookup_singleton, decide_True.
  - intros acc k v j. rewrite lookup_insert. by destruct (decide (k = j)), (decide (j = k)); subst.
Qed.

(** No pod is counted on an unschedulable node, nor when the pods cannot be listed. *)
Lemma getNodeUsage_empty r node :
  rs_podLister r = None ∨ n_unschedulable node = true → getNodeUsage r node = empty_usage node.
Proof.
  intros Hl. unfold getNodeUsage. destruct (rs_podLister r) as [pods|] eqn:Hp; [|done].
  destruct Hl as [?|Hu]; [done|]. unfold calculateNodeUsages. cbn [foldl]. rewrite Hu.
  replace (foldl count_pod ∅ pods) with (∅ : gmap string NodeResourceUsage).
  - by rewrite range_empty.
  - clear Hp. induction pods as [|pod pods IH]; [done|]. cbn [foldl].
    by replace (count_pod ∅ pod) with (∅ : gmap string NodeResourceUsage)
      by (unfold count_pod; rewrite lookup_empty; by repeat destruct (bool_decide _)).
Qed.

(** *** Percentages *)

Lemma percent_mono a b c : 0 < c → a ≤ b → (percent a c <= percent b c)%Q.
Proof.
  intros Hc Hab. apply f64_mul_mono; [by vm_compute|].
  apply f64_div_mono; [by apply f64_of_int_pos|by apply f64_of_int_mono].
Qed.

Definition usage_le (u v : ResourceUsagePercent) : Prop :=
  (pct_CPU u <= pct_CPU v)%Q ∧ (pct_Memory u <= pct_Memory v)%Q.

Lemma CalculateUsagePercent_mono q q' c :
  CPU q ≤ CPU q' → Mem q ≤ Mem q' → usage_le (CalculateUsagePercent q c) (CalculateUsagePercent q' c).
Proof.
  intros Hc Hm. split; cbn; case_bool_decide; try done; apply percent_mono; lia.
Qed.

(** The weights and the bonus reward a low load. *)
Definition rewarding (config : ReschedulerConfig) : Prop :=
  (0 <= CPUScoreWeight config)%Q ∧ (0 <= MemoryScoreWeight config)%Q ∧ (0 <= LoadBalanceBonus config)%Q.

Lemma CalculateScore_anti config u v :
  rewarding config → usage_le u v → (CalculateScore config v <= CalculateScore config u)%Q.
Proof.
  intros (Hwc & Hwm & Hb) [Hc Hm]. unfold CalculateScore.
  set (t u := f64_add (f64_mul (f64_sub 100 (pct_CPU u)) (CPUScoreWeight config))
                      (f64_mul (f64_sub 100 (pct_Memory u)) (MemoryScoreWeight config))).
  fold (t u) (t v).
  assert (Ht : (t v <= t u)%Q) by (apply f64_add_mono; apply f64_mul_mono; [done| |done|]; by apply f64_sub_anti).
  destruct (f_lt (pct_CPU v) 30 && f_lt (pct_Memory v) 30) eqn:Ev.
  - apply andb_true_iff in Ev as [Evc Evm]. rewrite f_lt_iff in Evc, Evm.
    rewrite (proj2 (f_lt_iff (pct_CPU u) 30)), (proj2 (f_lt_iff (pct_Memory u) 30)) by lra. cbn [andb].
    apply f64_add_mono; [done|apply Qle_refl].
  - destruct (f_lt (pct_CPU u) 30 && f_lt (pct_Memory u) 30); [|done].
    apply Qle_trans with (t u); [done|]. by apply f64_grows.
Qed.

Lemma IsOverloaded_mono config u v :
  usage_le u v → (IsOverloaded config v).1 = false → (IsOverloaded config u).1 = false.
Proof.
  intros [Hc Hm]. unfold IsOverloaded.
  destruct (f_lt (CPUThreshold config) (pct_CPU v)) eqn:Ec; [by destruct (f_lt _ _)|].
  destruct (f_lt (MemoryThreshold config) (pct_Memory v)) eqn:Em; [done|]. intros _.
  rewrite f_lt_false in Ec, Em.
  by rewrite (proj2 (f_lt_false (CPUThreshold config) (pct_CPU u))),
    (proj2 (f_lt_false (MemoryThreshold config) (pct_Memory u))) by lra.
Qed.

Definition usage_percent (u : NodeResourceUsage) : ResourceUsagePercent :=
  {| pct_CPU := CPUUsagePercent u; pct_Memory := MemoryUsagePercent u |}.

(** More pods in the lister never lower the usage of a node. *)
Lemma getNodeUsage_mono r r' node pods extra :
  rs_podLister r = Some pods → rs_podLister r' = Some (pods ++ extra) →
  (∀ pod, pod ∈ extra → 0 ≤ CPU (CalculatePodResourceRequests pod) ∧ 0 ≤ Mem (CalculatePodResourceRequests pod)) →
  in64 (load CPU node pods) → in64 (load CPU node (pods ++ extra)) →
  in64 (load Mem node pods) → in64 (load Mem node (pods ++ extra)) →
  usage_le (usage_percent (getNodeUsage r node)) (usage_percent (getNodeUsage r' node)).
Proof.
  intros Hr Hr' Hpos Hc Hc' Hm Hm'. destruct (n_unschedulable node) eqn:Hu.
  { rewrite !getNodeUsage_empty by auto. split; apply Qle_refl. }
  rewrite (getNodeUsage_Some r _ pods), (getNodeUsage_Some r' _ (pods ++ extra)) by done.
  unfold fill_usage, usage_of. cbn.
  rewrite (wrap64_id (load CPU node pods)), (wrap64_id (load CPU node (pods ++ extra))),
    (wrap64_id (load Mem node pods)), (wrap64_id (load Mem node (pods ++ extra))) by done.
  rewrite !load_app in *.
  assert (0 ≤ load CPU node extra ∧ 0 ≤ load Mem node extra).
  { split; apply zsum_nonneg; intros pod [_ Hin]%list_elem_of_filter; by apply Hpos. }
  assert (usage_le (CalculateUsagePercent {| CPU := load CPU node pods; Mem := load Mem node pods |} (GetNodeCapacity node))
    (CalculateUsagePercent {| CPU := load CPU node pods + load CPU node extra; Mem := load Mem node pods + load Mem node extra |}
      (GetNodeCapacity node))) as [? ?] by (apply CalculateUsagePercent_mono; cbn; lia).
  by split.
Qed.

(** C31: adding running pods to a node never makes it more attractive: its score,
    always between 0 and 100, does not grow, and if the filter accepts the node
    with them it accepts it without them. *)
Theorem Score_prefers_light_load r r' ni node pods extra :
  ni_node ni = Some node → rs_config r' = rs_config r → rewarding (rs_config r) →
  EnableSchedulingOptimization (rs_config r) = true →
  rs_podLister r = Some pods → rs_podLister r' = Some (pods ++ extra) →
  (∀ pod, pod ∈ extra → 0 ≤ CPU (CalculatePodResourceRequests pod) ∧ 0 ≤ Mem (CalculatePodResourceRequests pod)) →
  in64 (load CPU node pods) → in64 (load CPU node (pods ++ extra)) →
  in64 (load Mem node pods) → in64 (load Mem node (pods ++ extra)) →
  ∃ s s', Score r ni = Ret (s, None) ∧ Score r' ni = Ret (s', None) ∧ 0 ≤ s' ≤ s ∧ s ≤ 100 ∧
          (Filter r' ni = Ret None → Filter r ni = Ret None).
Proof.
  intros Hn Hcfg Hrew Hon Hr Hr' Hpos Hc Hc' Hm Hm'.
  pose proof (getNodeUsage_mono r r' node pods extra Hr Hr' Hpos Hc Hc' Hm Hm') as Hle.
  unfold Score, Filter. rewrite Hcfg, Hon, Hn. cbn [negb deref mbind outcome_bind]. fold (usage_percent (getNodeUsage r node)).
  fold (usage_percent (getNodeUsage r' node)).
  eexists _, _. split; [done|]. split; [done|]. split; [split|split].
  - change 0 with (int_of_float 0). apply int_of_float_mono, f_max_ge.
  - apply int_of_float_mono, f_clamp_mono. by apply CalculateScore_anti.
  - change 100 with (int_of_float 100) at 2. apply int_of_float_mono, f_max_lub; [by vm_compute|]. apply f_min_le.
  - pose proof (IsOverloaded_mono (rs_config r) _ _ Hle) as Ho.
    destruct (IsOverloaded (rs_config r) (usage_percent (getNodeUsage r' node))) as [[] ?]; [done|].
    specialize (Ho eq_refl). by destruct (IsOverloaded _ _) as [? ?]; cbn in Ho; subst.
Qed.
End Usage.

(** ** Reservations *)

Section Reservations.
Context `{MapOrder} `{QuantityOps}.

(** What is reserved on a node: the sum over its reservations. *)
Definition reserved_by (f : ReservationInfo → Z) (nodeName : string) (reservation : ReservationInfo) : Z :=
  if bool_decide (ri_NodeName reservation = nodeName) then f reservation else 0.

Definition reserved (f : ReservationInfo → Z) (rm : reservations) (nodeName : string) : Z :=
  sum_map (reserved_by f nodeName) rm.

Lemma GetTotalReservedResources_spec rm nodeName :
  GetTotalReservedResources rm nodeName =
  (wrap64 (reserved CPUReserved rm nodeName), wrap64 (reserved MemoryReserved rm nodeName)).
Proof.
  unfold GetTotalReservedResources, reserved. rewrite <- !zsum_range.
  enough (∀ c m l, foldl (λ '(cpuReserved, memoryReserved) '(_, reservation),
    if bool_decide (ri_NodeName reservation = nodeName)
    then (cpuReserved +₆₄ CPUReserved reservation, memoryReserved +₆₄ MemoryReserved reservation)
    else (cpuReserved, memoryReserved)) (wrap64 c, wrap64 m) l =
    (wrap64 (c + zsum (reserved_by CPUReserved nodeName ∘ (snd (A := string))) l),
     wrap64 (m + zsum (reserved_by MemoryReserved nodeName ∘ snd) l))) as Hl by (apply (Hl 0 0)).
  intros c m l. revert c m. induction l as [|[k ri] l IH]; intros c m; cbn; [by rewrite !Z.add_0_r|].
  unfold reserved_by at 1 3. case_bool_decide.
  - by rewrite !wrap64_add_l, IH, <- !Z.add_assoc.
  - by rewrite IH.
Qed.

Lemma reserved_delete f rm nodeName k ri :
  rm !! k = Some ri → reserved f rm nodeName = reserved_by f nodeName ri + reserved f (delete k rm) nodeName.
Proof. apply sum_map_delete. Qed.

Lemma reserved_insert f rm nodeName k ri :
  reserved f (<[k := ri]> rm) nodeName = reserved_by f nodeName ri + reserved f (delete k rm) nodeName.
Proof. unfold reserved. by rewrite <- insert_delete_eq, sum_map_insert by apply lookup_delete_eq. Qed.

Lemma rm_Unreserve_delete rm k : (rm_Unreserve rm k).1 = delete k rm.
Proof. unfold rm_Unreserve. destruct (rm !! k) eqn:E; cbn; [done|]. by rewrite delete_id. Qed.

(** What runs on a node and what is reserved there. *)
Definition committed (pods : list Pod) (rm : reservations) (node : Node) : ResourceRequests :=
  {| CPU := load CPU node pods + reserved CPUReserved rm (n_name node);
     Mem := load Mem node pods + reserved MemoryReserved rm (n_name node) |}.

Definition plus (a b : ResourceRequests) : ResourceRequests := {| CPU := CPU a + CPU b; Mem := Mem a + Mem b |}.
Definition wrap_requests (a : ResourceRequests) : ResourceRequests := {| CPU := wrap64 (CPU a); Mem := wrap64 (Mem a) |}.

(** No resource above 95 percent of the capacity of the node. *)
Definition within (node : Node) (requests : ResourceRequests) : bool :=
  let usage := CalculateUsagePercent requests (GetNodeCapacity node) in
  negb (f_lt 95 (pct_CPU usage) || f_lt 95 (pct_Memory usage)).

Lemma within_mono node a b : CPU a ≤ CPU b → Mem a ≤ Mem b → within node b = true → within node a = true.
Proof.
  intros Hc Hm. destruct (CalculateUsagePercent_mono a b (GetNodeCapacity node) Hc Hm) as [Huc Hum].
  unfold within. rewrite !negb_true_iff, !orb_false_iff, !f_lt_false. intros [? ?]. split; lra.
Qed.

(** The pods that the plugin counts on a node: none on an unschedulable one, and
    none when the lister fails. *)
Definition visible (r : Rescheduler) (node : Node) : list Pod :=
  if n_unschedulable node then [] else default [] (rs_podLister r).

Lemma getNodeUsage_visible r node :
  CPURequests (getNodeUsage r node) = wrap64 (load CPU node (visible r node)) ∧
  MemoryRequests (getNodeUsage r node) = wrap64 (load Mem node (visible r node)).
Proof.
  unfold visible. destruct (n_unschedulable node) eqn:Hu; [by rewrite getNodeUsage_empty by (by right)|].
  destruct (rs_podLister r) as [pods|] eqn:Hp; [|by rewrite getNodeUsage_empty by (by left)].
  by rewrite (getNodeUsage_Some r node pods).
Qed.

Lemma predict_requests r node pod :
  usage_percent (predictNodeUsageAfterPodScheduling r node pod true) = CalculateUsagePercent
    (wrap_requests (plus (committed (visible r node) (reservationManager r) node) (CalculatePodResourceRequests pod)))
    (GetNodeCapacity node).
Proof.
  unfold predictNodeUsageAfterPodScheduling, getNodeUsageWithReservations.
  destruct (getNodeUsage_visible r node) as [Hc Hm]. rewrite GetTotalReservedResources_spec. cbn -[CalculateUsagePercent getNodeUsage].
  rewrite Hc, Hm. unfold wrap_requests, plus, committed, usage_percent. cbn -[CalculateUsagePercent].
  autorewrite with go_rw. by rewrite <- !(Z.add_assoc (wrap64 _)), !wrap64_add_l, !Z.add_assoc.
Qed.

(** With scheduling optimisation on, [Reserve] decides on what it sees running on the
    node, what is reserved there and what the pod asks for (sums modulo 2^64).
    The pod is refused exactly when this exceeds 95 percent of the CPU or of the
    memory of the node.  An accepted pod has its request recorded under its key;
    a refused pod has no reservation left; no other reservation changes. *)
Theorem Reserve_spec r pod nodeName now node :
  EnableSchedulingOptimization (rs_config r) = true → rs_nodeLister_Get r nodeName = Some node →
  let q := CalculatePodResourceRequests pod in
  let fits := within node (wrap_requests (plus (committed (visible r node) (reservationManager r) node) q)) in
  (Reserve r pod nodeName now).2 =
    (if fits then None else Some (NewStatus Unschedulable "overloaded after reservation")) ∧
  rs_config (Reserve r pod nodeName now).1 = rs_config r ∧
  ∀ key, GetReservation (reservationManager (Reserve r pod nodeName now).1) key =
    if decide (key = rs_pod_key pod) then
      if fits then Some {| ri_PodKey := key; ri_NodeName := nodeName; CPUReserved := CPU q; MemoryReserved := Mem q;
                           Timestamp := now |} else None
    else GetReservation (reservationManager r) key.
Proof.
  intros Hon Hget q fits. pose proof (predict_requests r node pod) as Hpred.
  unfold Reserve. rewrite Hon, Hget. cbn [negb].
  assert (Hfits : f_lt 95 (CPUUsagePercent (predictNodeUsageAfterPodScheduling r node pod true)) ||
                  f_lt 95 (MemoryUsagePercent (predictNodeUsageAfterPodScheduling r node pod true)) = negb fits).
  { unfold fits, within. rewrite negb_involutive. unfold q. by rewrite <- Hpred. }
  rewrite Hfits. destruct fits; cbn [negb]; (split; [done|split; [done|intros key]]); unfold GetReservation;
    cbn -[rm_Unreserve]; rewrite ?rm_Unreserve_delete; unfold rm_Reserve; destruct (decide (key = rs_pod_key pod)) as [->|Hne].
  - by rewrite lookup_insert_eq.
  - by rewrite lookup_insert_ne by done.
  - by rewrite lookup_delete_eq.
  - by rewrite lookup_delete_ne, lookup_insert_ne by done.
Qed.

(** *** The limit holds as the plugin reserves and releases *)

Definition amounts_nonneg (rm : reservations) : Prop := map_Forall (λ _ ri, 0 ≤ CPUReserved ri ∧ 0 ≤ MemoryReserved ri) rm.

Lemma reserved_delete_le (f : ReservationInfo → Z) rm nodeName k :
  (∀ k ri, rm !! k = Some ri → 0 ≤ f ri) → 0 ≤ reserved f (delete k rm) nodeName ≤ reserved f rm nodeName.
Proof.
  intros Hnn.
  assert (Hf : ∀ k ri, rm !! k = Some ri → 0 ≤ reserved_by f nodeName ri).
  { intros k' ri Hk. unfold reserved_by. case_bool_decide; [by eapply Hnn|done]. }
  split.
  - apply sum_map_nonneg. intros k' ri [_ Hk]%lookup_delete_Some. by eapply Hf.
  - destruct (rm !! k) as [ri|] eqn:Hk; [|by rewrite delete_id].
    rewrite (reserved_delete f rm nodeName k ri Hk). specialize (Hf k ri Hk). lia.
Qed.

(** A lister hands out nodes by their names. *)
Definition lister_ok (nodeLister_Get : string → option Node) : Prop :=
  ∀ nodeName node, nodeLister_Get nodeName = Some node → n_name node = nodeName.

Definition set_listers (r : Rescheduler) (podLister : option (list Pod)) (nodeLister_Get : string → option Node) :
    Rescheduler := {|
  rs_config := rs_config r; rs_podLister := podLister; rs_nodeLister_Get := nodeLister_Get;
  reservationManager := reservationManager r |}.

(** What was seen of a node when a reservation was last accepted there. *)
Record sight := { st_node : Node; st_pods : list Pod }.

Definition nonneg (q : ResourceRequests) : Prop := 0 ≤ CPU q ∧ 0 ≤ Mem q.

(** A call of [Reserve] asks for nothing negative, and its sums are no more than an int64 holds. *)
Definition call_ok (r : Rescheduler) (pod : Pod) (nodeName : string) : Prop :=
  nonneg (CalculatePodResourceRequests pod) ∧
  ∀ node, rs_nodeLister_Get r nodeName = Some node →
    let total := plus (committed (visible r node) (reservationManager r) node) (CalculatePodResourceRequests pod) in
    in64 (CPU total) ∧ in64 (Mem total).

(** What [Reserve] saw when it accepts the pod. *)
Definition look (r : Rescheduler) (pod : Pod) (nodeName : string) (now : Z) (sights : gmap string sight) :
    gmap string sight :=
  match (Reserve r pod nodeName now).2, rs_nodeLister_Get r nodeName with
  | None, Some node => <[nodeName := {| st_node := node; st_pods := visible r node |}]> sights
  | _, _ => sights
  end.

(** The plugin reserves and releases while the listers change, in any order;
    each call is taken as a whole. [same] holds until a lister changes. *)
Inductive run (r0 : Rescheduler) : Rescheduler → gmap string sight → bool → Prop :=
| run_start : run r0 r0 ∅ true
| run_Reserve r sights same pod nodeName now :
    run r0 r sights same → call_ok r pod nodeName →
    run r0 (Reserve r pod nodeName now).1 (look r pod nodeName now sights) same
| run_Unreserve r sights same pod : run r0 r sights same → run r0 (Unreserve r pod) sights same
| run_listers r sights same podLister nodeLister_Get :
    run r0 r sights same → lister_ok nodeLister_Get → run r0 (set_listers r podLister nodeLister_Get) sights false.

(** The invariant: a node with a reservation was seen, and what ran there then
    and what is reserved there now are within the limit. *)
Definition within_limit (rm : reservations) (sights : gmap string sight) : Prop :=
  amounts_nonneg rm ∧
  ∀ key ri, rm !! key = Some ri → ∃ st, sights !! ri_NodeName ri = Some st ∧
    n_name (st_node st) = ri_NodeName ri ∧ within (st_node st) (committed (st_pods st) rm (st_node st)) = true.

Definition up_to_date (r : Rescheduler) (sights : gmap string sight) : Prop :=
  ∀ nodeName st, sights !! nodeName = Some st →
    rs_nodeLister_Get r nodeName = Some (st_node st) ∧ st_pods st = visible r (st_node st).

Lemma delete_within_limit rm sights k : within_limit rm sights → within_limit (delete k rm) sights.
Proof.
  intros [Hnn Hw]. split.
  - intros k' ri [_ Hk]%lookup_delete_Some. by apply (Hnn k').
  - intros key ri [_ Hk]%lookup_delete_Some. destruct (Hw key ri Hk) as (st & Hst & Hn & Hwi).
    exists st. split; [done|]. split; [done|].
    eapply within_mono; [..|exact Hwi]; cbn; apply Z.add_le_mono_l, reserved_delete_le; intros k' ri' Hk'; by apply (Hnn k').
Qed.

Lemma reserved_insert_le (f : ReservationInfo → Z) rm nodeName k ri :
  (∀ k ri, rm !! k = Some ri → 0 ≤ f ri) →
  reserved f (<[k := ri]> rm) nodeName ≤ reserved_by f nodeName ri + reserved f rm nodeName.
Proof. intros Hnn. rewrite reserved_insert. pose proof (reserved_delete_le f rm nodeName k Hnn). lia. Qed.

Lemma reserve_within_limit rm sights key nodeName node pods q now :
  n_name node = nodeName → nonneg q → within node (plus (committed pods rm node) q) = true → within_limit rm sights →
  within_limit (rm_Reserve rm key nodeName (CPU q) (Mem q) now)
    (<[nodeName := {| st_node := node; st_pods := pods |}]> sights).
Proof.
  intros Hname [Hqc Hqm] Hfit [Hnn Hw]. unfold rm_Reserve. split; [by apply map_Forall_insert_2|].
  set (ri' := {| ri_PodKey := _ |}).
  assert (Hle : ∀ f name, (∀ k ri, rm !! k = Some ri → 0 ≤ f ri) →
    reserved f (<[key := ri']> rm) name ≤ reserved_by f name ri' + reserved f rm name) by (intros; by apply reserved_insert_le).
  intros k ri Hk. destruct (decide (ri_NodeName ri = nodeName)) as [->|Hne].
  - exists {| st_node := node; st_pods := pods |}. rewrite lookup_insert_eq. split; [done|]. split; [done|]. cbn.
    pose proof (Hle CPUReserved nodeName ltac:(apply Hnn)) as Hc. pose proof (Hle MemoryReserved nodeName ltac:(apply Hnn)) as Hm.
    unfold reserved_by in Hc, Hm. cbn in Hc, Hm. rewrite bool_decide_true in Hc, Hm by done.
    eapply within_mono; [..|exact Hfit]; cbn; rewrite Hname; lia.
  - apply lookup_insert_Some in Hk as [[_ <-]|[_ Hk]]; [done|]. destruct (Hw k ri Hk) as (st & Hst & Hn & Hwi).
    exists st. rewrite lookup_insert_ne by done. split; [done|]. split; [done|].
    pose proof (Hle CPUReserved (ri_NodeName ri) ltac:(apply Hnn)) as Hc. pose proof (Hle MemoryReserved (ri_NodeName ri) ltac:(apply Hnn)) as Hm.
    unfold reserved_by in Hc, Hm. cbn in Hc, Hm. rewrite bool_decide_false in Hc, Hm by done.
    eapply within_mono; [..|exact Hwi]; cbn; rewrite Hn; lia.
Qed.

Lemma Reserve_within_limit r pod nodeName now sights :
  EnableSchedulingOptimization (rs_config r) = true → lister_ok (rs_nodeLister_Get r) → call_ok r pod nodeName →
  within_limit (reservationManager r) sights →
  within_limit (reservationManager (Reserve r pod nodeName now).1) (look r pod nodeName now sights).
Proof.
  intros Hon Hok [Hq Htot] Hin. unfold look. destruct (rs_nodeLister_Get r nodeName) as [node|] eqn:Hget.
  2: { unfold Reserve. by rewrite Hon, Hget. }
  destruct (Htot node eq_refl) as [Htc Htm]. pose proof (predict_requests r node pod) as Hpred.
  unfold Reserve. rewrite Hon, Hget. cbn [negb].
  destruct (f_lt 95 _ || f_lt 95 _) eqn:Eover; cbn [fst snd set_reservations reservationManager].
  - rewrite rm_Unreserve_delete. unfold rm_Reserve. rewrite delete_insert_eq. by apply delete_within_limit.
  - apply reserve_within_limit; [by apply Hok|done| |done]. unfold within.
    replace (wrap_requests _) with (plus (committed (visible r node) (reservationManager r) node)
      (CalculatePodResourceRequests pod)) in Hpred by (unfold wrap_requests; by rewrite !wrap64_id).
    rewrite <- Hpred. unfold usage_percent. cbn [pct_CPU pct_Memory]. by rewrite Eover.
Qed.

(** The calls change nothing but the reservations. *)
Lemma calls_keep r :
  (∀ pod nodeName now, let r' := (Reserve r pod nodeName now).1 in
     rs_config r' = rs_config r ∧ rs_podLister r' = rs_podLister r ∧ rs_nodeLister_Get r' = rs_nodeLister_Get r) ∧
  ∀ pod, rs_config (Unreserve r pod) = rs_config r ∧ rs_podLister (Unreserve r pod) = rs_podLister r ∧
    rs_nodeLister_Get (Unreserve r pod) = rs_nodeLister_Get r.
Proof. split; intros; [unfold r', Reserve|unfold Unreserve]; repeat case_match; by cbn. Qed.

Lemma up_to_date_same r r' sights :
  rs_podLister r' = rs_podLister r → rs_nodeLister_Get r' = rs_nodeLister_Get r → up_to_date r sights → up_to_date r' sights.
Proof. intros E1 E2 Hu nodeName st Hst. rewrite E2. unfold visible. rewrite E1. by apply Hu. Qed.

Lemma run_within_limit r0 r sights same :
  EnableSchedulingOptimization (rs_config r0) = true → lister_ok (rs_nodeLister_Get r0) → reservationManager r0 = ∅ →
  run r0 r sights same →
  rs_config r = rs_config r0 ∧ lister_ok (rs_nodeLister_Get r) ∧ within_limit (reservationManager r) sights ∧
  (same = true → up_to_date r sights).
Proof.
  intros Hon Hok Hempty. induction 1 as [|r sights same pod nodeName now _ IH Hcall|r sights same pod _ IH|r sights same pl nl _ IH Hnl].
  - rewrite Hempty. split; [done|]. split; [done|]. split; [split; [apply map_Forall_empty|done]|done].
  - destruct IH as (Hconf & Hl & Hw & Hs). destruct (proj1 (calls_keep r) pod nodeName now) as (E1 & E2 & E3).
    split; [congruence|]. split; [by rewrite E3|]. split; [apply Reserve_within_limit; [by rewrite Hconf|done..]|].
    intros Hsame. apply (up_to_date_same r); [done|done|]. unfold look.
    destruct (Reserve r pod nodeName now).2; [by apply Hs|]. destruct (rs_nodeLister_Get r nodeName) as [node|] eqn:Hget; [|by apply Hs].
    intros n st [[<- <-]|[_ Hst]]%lookup_insert_Some; [done|by apply Hs].
  - destruct IH as (Hconf & Hl & Hw & Hs). destruct (proj2 (calls_keep r) pod) as (E1 & E2 & E3).
    split; [congruence|]. split; [by rewrite E3|]. split.
    + unfold Unreserve. destruct (negb _); [done|]. cbn -[rm_Unreserve]. rewrite rm_Unreserve_delete. by apply delete_within_limit.
    + intros Hsame. by apply (up_to_date_same r); [| |apply Hs].
  - destruct IH as (Hconf & Hl & Hw & Hs). done.
Qed.

Lemma committed_mono pods pods' rm node node' :
  n_name node' = n_name node → GetNodeCapacity node' = GetNodeCapacity node →
  load CPU node' pods' ≤ load CPU node pods → load Mem node' pods' ≤ load Mem node pods →
  within node (committed pods rm node) = true → within node' (committed pods' rm node') = true.
Proof.
  intros Hn Hcap Hc Hm Hw. unfold within. rewrite Hcap. apply (within_mono node _ (committed pods rm node)); [..|done]; cbn; rewrite Hn; lia.
Qed.

Lemma load_nonneg f node pods : (∀ pod, pod ∈ pods → 0 ≤ f (CalculatePodResourceRequests pod)) → 0 ≤ load f node pods.
Proof. intros Hp. apply zsum_nonneg. intros pod [_ Hin]%list_elem_of_filter. by apply Hp. Qed.

(** C23: over any sequence of reservations and releases from the start of the plugin, with scheduling
    optimisation on, while pods bind and end and nodes change in any way between the calls: for every
    reservation there is the moment when one was last accepted on its node, and what the plugin saw running
    there at that moment (nothing on a node that was unschedulable then, or if the pods could not be listed)
    and what is reserved there now are together within 95 percent of the CPU and memory the node then had.
    So what is reserved alone is within it, if no pod that was counted requests a negative amount; and what
    the plugin sees now with what is reserved is within it, as long as the capacity is the same
    and no more is seen running there than at that moment, in particular while the listers do not change.
    Requests are not negative and the sums fit an int64.  When a reserved pod binds it is
    seen running and still reserved, and the sum may pass the limit ([bound_pod_counts_twice]). *)
Theorem reservations_within_limit r0 r sights same key ri :
  EnableSchedulingOptimization (rs_config r0) = true → lister_ok (rs_nodeLister_Get r0) → reservationManager r0 = ∅ →
  run r0 r sights same → GetReservation (reservationManager r) key = Some ri →
  ∃ st, sights !! ri_NodeName ri = Some st ∧ n_name (st_node st) = ri_NodeName ri ∧
    within (st_node st) (committed (st_pods st) (reservationManager r) (st_node st)) = true ∧
    ((∀ pod, pod ∈ st_pods st → nonneg (CalculatePodResourceRequests pod)) →
     within (st_node st) (committed [] (reservationManager r) (st_node st)) = true) ∧
    ∀ node, rs_nodeLister_Get r (ri_NodeName ri) = Some node →
      same = true ∨ (GetNodeCapacity node = GetNodeCapacity (st_node st) ∧
        load CPU node (visible r node) ≤ load CPU (st_node st) (st_pods st) ∧
        load Mem node (visible r node) ≤ load Mem (st_node st) (st_pods st)) →
      within node (committed (visible r node) (reservationManager r) node) = true.
Proof.
  intros Hon Hok Hempty Hrun Hk.
  destruct (run_within_limit r0 r sights same Hon Hok Hempty Hrun) as (_ & Hl & [_ Hw] & Hsame).
  destruct (Hw key ri Hk) as (st & Hst & Hn & Hwi). exists st. split; [done|]. split; [done|]. split; [done|]. split.
  - intros Hp. eapply committed_mono; [done|done|..|exact Hwi]; apply load_nonneg; intros pod Hin; by apply Hp.
  - intros node Hnode [Hs|(Hcap & Hc & Hm)].
    + destruct (Hsame Hs _ _ Hst) as [Hget Hvis]. rewrite Hnode in Hget. injection Hget as ->. by rewrite <- Hvis.
    + eapply committed_mono; [|done|exact Hc|exact Hm|exact Hwi]. rewrite Hn. by apply Hl.
Qed.
End Reservations.

(** ** Configuration *)

Section Configuration.

(** The ranges that [validateConfig] checks; the bonus is only warned about. *)
Definition config_ok (c : ReschedulerConfig) : Prop :=
  (0 < CPUThreshold c <= 100)%Q ∧ (0 < MemoryThreshold c <= 100)%Q ∧
  (0 <= CPUScoreWeight c <= 1)%Q ∧ (0 <= MemoryScoreWeight c <= 1)%Q ∧ (0 <= LoadBalanceBonus c)%Q.

Lemma default_config_ok : config_ok default_config.
Proof. by vm_compute. Qed.

(** A positive argument, checked against its bound, overwrites a field. *)
Lemma set_pos_ok (set : ReschedulerConfig → Q → ReschedulerConfig) (hi a : Q) c :
  (∀ c a, config_ok c → (0 < a)%Q → (a <= hi)%Q → config_ok (set c a)) →
  f_lt 0 a && f_lt hi a = false → config_ok c → config_ok (if f_lt 0 a then set c a else c).
Proof.
  intros Hset Hb Hc. destruct (f_lt 0 a) eqn:E; [|done]. rewrite f_lt_iff in E. cbn in Hb. rewrite f_lt_false in Hb. auto.
Qed.

Lemma set_if_some_ok {A} (set : ReschedulerConfig → A → ReschedulerConfig) c v :
  (∀ c v, config_ok c → config_ok (set c v)) → config_ok c → config_ok (set_if_some set c v).
Proof. intros Hs Hc. destruct v; cbn; auto. Qed.

Ltac config_field set hi :=
  match goal with
  | |- context [if ?b then (?c, Some _) else _] =>
      let E := fresh in destruct b eqn:E; [done|];
      match goal with
      | Hc : config_ok c |- context [if f_lt 0 ?a then set c ?a else c] =>
          let Hn := fresh in
          assert (Hn : config_ok (if f_lt 0 a then set c a else c));
          [apply (set_pos_ok set hi); [|exact E|exact Hc];
           let Hk := fresh in unfold config_ok; intros ? ? Hk ? ?; cbn; repeat split; try apply Hk; lra
          |revert Hn; generalize (if f_lt 0 a then set c a else c); clear Hc E; intros ? Hn]
      end
  end.

Lemma applyPluginConfig_keeps args c : config_ok c → config_ok (applyPluginConfig args c).1.
Proof.
  intros Hc. unfold applyPluginConfig.
  config_field set_CPUThreshold 100%Q. config_field set_MemoryThreshold 100%Q.
  match goal with |- context [set_CPUScoreWeight ?c _] => set (c1 := c); assert (Hc1 : config_ok c1) end.
  { do 2 (apply set_if_some_ok; [done|]). by destruct (args_ExcludedNamespaces args). }
  clearbody c1. config_field set_CPUScoreWeight 1%Q. config_field set_MemoryScoreWeight 1%Q.
  cbn [fst].
  match goal with |- context [set_if_some set_EnableReschedulingController ?c _] => set (c2 := c); assert (Hc2 : config_ok c2) end.
  { unfold c2. destruct (f_lt 0 (args_LoadBalanceBonus args)) eqn:E; [|done]. rewrite f_lt_iff in E.
    apply Qlt_le_weak in E. unfold config_ok in *. cbn. tauto. }
  assert (Hc3 : config_ok (set_if_some set_EnableReschedulingController c2 (args_EnableReschedulingController args)))
    by by apply set_if_some_ok.
  by destruct (bool_decide _).
Qed.

Lemma applyPluginConfig_valid args c :
  (applyPluginConfig args c).2 = None → validateConfig (applyPluginConfig args c).1 = None.
Proof.
  unfold applyPluginConfig.
  do 4 match goal with |- context [if ?b then (_, Some _) else _] => destruct b; [done|] end. done.
Qed.

Lemma validateConfig_namespaces c : validateConfig c = None → Forall (λ ns, ns ≠ "") (ExcludedNamespaces c).
Proof.
  unfold validateConfig. do 4 match goal with |- context [if ?b then Some _ else _] => destruct b; [done|] end.
  destruct (existsb _ _) eqn:E; [done|]. intros _. apply Forall_forall. intros ns Hin ->.
  apply not_true_iff_false in E. apply E, existsb_exists. exists "". split; [by apply list_elem_of_In|done].
Qed.

(** Whatever the arguments are, even when they are rejected, the plugin runs
    with thresholds above 0 and at most 100, weights between 0 and 1 and a bonus
    that is not negative. When they are accepted, no excluded namespace is empty. *)
Theorem New_config_ok args :
  config_ok (applyPluginConfig args default_config).1 ∧
  ((applyPluginConfig args default_config).2 = None →
   Forall (λ ns, ns ≠ "") (ExcludedNamespaces (applyPluginConfig args default_config).1)).
Proof.
  split; [apply applyPluginConfig_keeps, default_config_ok|].
  intros Hn. by apply validateConfig_namespaces, applyPluginConfig_valid.
Qed.

(** An error leaves the fields set before it: the plugin does not run with the
    default configuration then. *)
Definition bad_args : ReschedulerArgs := {|
  args_CPUThreshold := 50; args_MemoryThreshold := 200; args_ExcludedNamespaces := [];
  args_EnableSchedulingOptimization := None; args_EnablePreventiveRescheduling := None;
  args_CPUScoreWeight := 0; args_MemoryScoreWeight := 0; args_LoadBalanceBonus := 0;
  args_EnableReschedulingController := None; args_ReschedulingInterval := "" |}.

Lemma rejected_args_apply_in_part :
  (applyPluginConfig bad_args default_config).2 ≠ None ∧
  (CPUThreshold (applyPluginConfig bad_args default_config).1 == 50)%Q ∧ (CPUThreshold default_config == 80)%Q.
Proof. by vm_compute. Qed.
End Configuration.

(** ** Witnesses *)

Definition rw_node : Node := {| n_name := "n1"; n_labels := ∅; n_unschedulable := false;
  n_capacity := {[ResourceCPU := cores 10; ResourceMemory := bytes 1000]};
  n_allocatable := {[ResourceCPU := cores 10; ResourceMemory := bytes 1000]} |}.

Definition rw_req (cpu mem : Z) : gmap string Z := {[ResourceCPU := cores cpu; ResourceMemory := bytes mem]}.
Definition rw_a : Pod := model_pod "ns" "a" "n1" 0 (rw_req 2 100).
Definition rw_b : Pod := model_pod "ns" "b" "n1" 0 (rw_req 3 200).
Definition rw_new : Pod := model_pod "ns" "c" "" 0 (rw_req 4 300).
Definition rw_big : Pod := model_pod "ns" "d" "" 0 (rw_req 5 300).

Definition rw_plugin (pods : list Pod) : Rescheduler := {|
  rs_config := default_config; rs_podLister := Some pods;
  rs_nodeLister_Get name := if decide (name = "n1") then Some rw_node else None;
  reservationManager := ∅ |}.

Definition rw_ni : NodeInfo := {| ni_node := Some rw_node; ni_pods := []; ni_allocatable := zero_resource;
  ni_requested := zero_resource; ni_nonzero_requested := zero_resource |}.

Lemma default_rewarding : rewarding default_config.
Proof. unfold rewarding. repeat split; by vm_compute. Qed.

(** One pod of 2 cores on 10: 20 % of the CPU, 10 % of the memory, and the bonus. *)
Lemma Score_prefers_light_load_witness :
  Score (rw_plugin [rw_a]) rw_ni = Ret (94, None) ∧ Score (rw_plugin ([rw_a] ++ [rw_b])) rw_ni = Ret (58, None) ∧ 
  (Filter (rw_plugin ([rw_a] ++ [rw_b])) rw_ni = Ret None → Filter (rw_plugin [rw_a]) rw_ni = Ret None).
Proof.
  split; [by vm_compute|]. split; [by vm_compute|].
  destruct (Score_prefers_light_load (rw_plugin [rw_a]) (rw_plugin ([rw_a] ++ [rw_b])) rw_ni rw_node [rw_a] [rw_b])
    as (s & s' & _ & _ & _ & _ & Hf); [reflexivity|reflexivity|apply default_rewarding|reflexivity..| | | | | |exact Hf].
  - intros pod ->%list_elem_of_singleton. split; by vm_compute.
  - split; by vm_compute.
  - split; by vm_compute.
  - split; by vm_compute.
  - split; by vm_compute.
Defined.

(** 2 and 3 cores run on the node; 4 more fit, 5 more do not. *)
Lemma Reserve_spec_witness :
  (Reserve (rw_plugin [rw_a; rw_b]) rw_new "n1" 7).2 = None ∧
  (Reserve (rw_plugin [rw_a; rw_b]) rw_big "n1" 7).2 ≠ None.
Proof.
  destruct (Reserve_spec (rw_plugin [rw_a; rw_b]) rw_new "n1" 7 rw_node) as (-> & _); [reflexivity..|].
  destruct (Reserve_spec (rw_plugin [rw_a; rw_b]) rw_big "n1" 7 rw_node) as (-> & _); [reflexivity..|].
  split; by vm_compute.
Defined.

(** 2 and 3 cores run on the node when 4 are reserved; then the pod with 3 cores ends. *)
Lemma reservations_within_limit_witness :
  let r := set_listers (Reserve (rw_plugin [rw_a; rw_b]) rw_new "n1" 7).1 (Some [rw_a])
             (rs_nodeLister_Get (rw_plugin [])) in
  within rw_node (committed [rw_a] (reservationManager r) rw_node) = true.
Proof.
  intros r.
  assert (Hl : lister_ok (rs_nodeLister_Get (rw_plugin []))).
  { intros nodeName node. cbn. destruct (decide (nodeName = "n1")) as [->|]; [by intros [= <-]|done]. }
  assert (Hcall : call_ok (rw_plugin [rw_a; rw_b]) rw_new "n1").
  { split; [split; apply (bool_decide_eq_true_1 _); vm_compute; reflexivity|]. intros node [= <-].
    split; apply (bool_decide_eq_true_1 _); vm_compute; reflexivity. }
  pose proof (run_listers _ _ _ _ (Some [rw_a]) _ (run_Reserve _ _ _ _ rw_new "n1" 7 (run_start (rw_plugin [rw_a; rw_b])) Hcall) Hl) as Hrun.
  destruct (reservations_within_limit (rw_plugin [rw_a; rw_b]) r _ false "ns/c"
    {| ri_PodKey := "ns/c"; ri_NodeName := "n1"; CPUReserved := 4000; MemoryReserved := 300; Timestamp := 7 |}
    eq_refl Hl eq_refl Hrun) as (st & Hst & _ & _ & _ & Hnow); [vm_compute; reflexivity|].
  assert (Hst' : look (rw_plugin [rw_a; rw_b]) rw_new "n1" 7 ∅ !! "n1" =
    Some {| st_node := rw_node; st_pods := [rw_a; rw_b] |}).
  { assert (Hfit : (Reserve (rw_plugin [rw_a; rw_b]) rw_new "n1" 7).2 = None) by (vm_compute; reflexivity).
    unfold look. rewrite Hfit. apply lookup_insert_eq. }
  cbn [ri_NodeName] in Hst. rewrite Hst' in Hst. injection Hst as <-.
  apply (Hnow rw_node eq_refl). right.
  split; [reflexivity|]. split; apply (bool_decide_eq_true_1 _); vm_compute; reflexivity.
Defined.

Lemma New_config_ok_witness :
  (applyPluginConfig bad_args default_config).2 ≠ None ∧ config_ok (applyPluginConfig bad_args default_config).1.
Proof. split; [by vm_compute|]. apply (New_config_ok bad_args). Defined.

(** A reservation is kept when its pod is bound, and the running pod counts
    again: 4 of the 10 cores used by one pod are counted as 8. *)
Definition rw_bound : Pod := model_pod "ns" "c" "n1" 0 (rw_req 4 300).

Lemma bound_pod_counts_twice :
  let r := (Reserve (rw_plugin []) rw_new "n1" 7).1 in
  let r := {| rs_config := rs_config r; rs_podLister := Some [rw_bound];
              rs_nodeLister_Get := rs_nodeLister_Get r; reservationManager := reservationManager r |} in
  CPURequests (getNodeUsageWithReservations r rw_node) = 8000 ∧ CPURequests (getNodeUsage r rw_node) = 4000.
Proof. by vm_compute. Qed.
