(* ===== verification/ReschedController.v ===== *)
(** * pkg/rescheduler: the rescheduling controller

    [controller.go]: every interval the controller compares the real usage of
    the nodes, decides which pods to move and evicts at most ten of them.  What
    the metrics API and the listers answer, call by call, the answers of the
    eviction API and the clock, reading by reading, are arguments; the state that
    survives a cycle is the history of the pods it evicted. *)

From Stdlib Require Import Lqa.
From S2P Require Import Prelude Float64 GoSort K8s K8sModel Rescheduler.
Open Scope Z_scope.

(** ** Definitions *)

Section Controller.
Context `{MapOrder} `{GoSort} `{QuantityOps}.

Definition DefaultImbalanceThreshold : Q := 20.
Definition DefaultPodCountImbalanceThreshold : Z := 20.
Definition MaxReschedulingPods : Z := 10.

Record NodeMetrics := {
  nm_NodeName : string;
  CPUUsage : Quantity;
  MemoryUsage : Quantity;
  CPUCapacity : Quantity;
  MemoryCapacity : Quantity;
  CPUPercent : Q;
  MemoryPercent : Q;
}.

(** The reason is the name of its strategy, which the message only spells out. *)
Record ReschedulingDecision := {
  rd_Pod : Pod;
  SourceNode : string;
  TargetNode : string;
  Strategy : string;
}.

Definition ReasonLoadBalancing : string := "LoadBalancing".
Definition ReasonResourceOptimization : string := "ResourceOptimization".
Definition ReasonNodeMaintenance : string := "NodeMaintenance".
Definition ReasonPodCountBalancing : string := "PodCountBalancing".

(** An item of the answer of the metrics API. *)
Record NodeMetricsItem := { it_Name : string; it_Usage : resource_list }.

(** The calls of [List] in a cycle: for the metrics, to count the pods of the
    nodes, for the candidates of a node under a strategy, for the nodes in
    maintenance. *)
Inductive list_call := ForMetrics | ToCount | ToMove (strategy node : string) | ForMaintenance.

(** What a cycle sees: [None] is an error.  The listers may answer each call
    differently, and [rc_clock call i] is the clock when the [i]-th pod of that
    answer is checked against the history. *)
Record Controller := {
  rc_config : ReschedulerConfig;
  rc_podLister : list_call → option (list Pod);
  rc_nodeLister : list_call → option (list Node);
  rc_metrics : option (list NodeMetricsItem);
  rc_clock : list_call → nat → Z;
  reschedulingHistory : gmap string Z;
}.

Definition quantity_of (rl : resource_list) (name : string) : Quantity := default q_zero (rl !! name).

Definition getNodeMetrics (c : Controller) : string + list NodeMetrics :=
  match rc_metrics c with
  | None => inl "cannot list the metrics"
  | Some items =>
  match rc_nodeLister c ForMetrics with
  | None => inl "cannot list the nodes"
  | Some nodes =>
      let nodeCapacity := foldl (λ (nodeCapacity : gmap string Node) node,
        if negb (n_unschedulable node) then <[n_name node := node]> nodeCapacity else nodeCapacity) ∅ nodes in
      inr (foldl (λ result nodeMetric,
        match nodeCapacity !! it_Name nodeMetric with
        | None => result
        | Some node =>
            let usage := CalculateUsageFromMetrics
              (quantity_of (it_Usage nodeMetric) ResourceCPU) (quantity_of (it_Usage nodeMetric) ResourceMemory)
              (quantity_of (n_capacity node) ResourceCPU) (quantity_of (n_capacity node) ResourceMemory) in
            result ++ [{| nm_NodeName := it_Name nodeMetric;
                          CPUUsage := quantity_of (it_Usage nodeMetric) ResourceCPU;
                          MemoryUsage := quantity_of (it_Usage nodeMetric) ResourceMemory;
                          CPUCapacity := quantity_of (n_capacity node) ResourceCPU;
                          MemoryCapacity := quantity_of (n_capacity node) ResourceMemory;
                          CPUPercent := pct_CPU usage; MemoryPercent := pct_Memory usage |}]
        end) [] items)
  end
  end.

(** *** Which pods may be moved *)

Definition isExcludedNamespace (c : Controller) (namespace : string) : bool :=
  existsb (λ excluded, bool_decide (namespace = excluded)) (ExcludedNamespaces (rc_config c)).

Definition isDaemonSetPod (pod : Pod) : bool :=
  existsb (λ ownerRef, bool_decide (or_kind ownerRef = "DaemonSet")) (p_owner_references pod).

Definition config_source (pod : Pod) : string := default "" (p_annotations pod !! "kubernetes.io/config.source").

Definition isStaticPod (pod : Pod) : bool :=
  bool_decide (config_source pod = "api") || bool_decide (config_source pod = "file").

Definition ten_minutes : Z := 10 * 60 * 10 ^ 9.

Definition isRecentlyRescheduled (c : Controller) (now : Z) (podName : string) : bool :=
  match reschedulingHistory c !! podName with
  | Some lastTime => bool_decide (now - lastTime < ten_minutes)
  | None => false
  end.

Definition IsMigratable (c : Controller) (now : Z) (pod : Pod) (targetNodeName : string) : bool :=
  if negb (bool_decide (p_node_name pod = targetNodeName)) || negb (bool_decide (p_phase pod = PodRunning)) then false
  else if isExcludedNamespace c (p_namespace pod) then false
  else if isDaemonSetPod pod then false
  else if isStaticPod pod then false
  else if isRecentlyRescheduled c now (p_name pod) then false
  else true.

Definition migration_priority (pod : Pod) : Z := default 0 (p_priority pod).

Definition SortByPriority (pods : list Pod) : list Pod :=
  sort_slice (λ p q, bool_decide (migration_priority p < migration_priority q)) pods.

(** [strategy] names the analysis that calls the function. *)
Definition findMigratablePods (c : Controller) (strategy nodeName : string) : list Pod :=
  let call := ToMove strategy nodeName in
  match rc_podLister c call with
  | None => []
  | Some pods =>
      let candidates := foldl (λ candidates (p : nat * Pod),
        if IsMigratable c (rc_clock c call p.1) p.2 nodeName then candidates ++ [p.2] else candidates)
        [] (imap pair pods) in
      SortByPriority candidates
  end.

Definition findBestTargetNode (c : Controller) (metrics : list NodeMetrics) (excludeNode : string) : string :=
  (foldl (λ '(bestNode, bestScore) metric,
    if bool_decide (nm_NodeName metric = excludeNode) then (bestNode, bestScore)
    else
      let score := CalculateNodeScoreFromMetrics (rc_config c) (CPUPercent metric) (MemoryPercent metric) in
      if f_lt bestScore score then (nm_NodeName metric, score) else (bestNode, bestScore))
    ("", (-1)%Q) metrics).1.

(** *** The four analyses *)

Definition go_min (a b : Z) : Z := if bool_decide (a < b) then a else b.

(** The loop [for i := 0; i < n; i++] that reads [pods[i]]. *)
Fixpoint first_decisions (pods : list Pod) (mk : Pod → ReschedulingDecision) (n : nat) :
    outcome (list ReschedulingDecision) :=
  match n with
  | O => Ret []
  | S n => decisions ← first_decisions pods mk n; pod ← index pods (Z.of_nat n); Ret (decisions ++ [mk pod])
  end.

Definition analyzeLoadBalance (c : Controller) (metrics : list NodeMetrics) :
    outcome (list ReschedulingDecision) :=
  if bool_decide (Z.of_nat (length metrics) < 2) then Ret []
  else
    let sortedMetrics := sort_slice (λ a b, f_lt (CPUPercent b) (CPUPercent a)) metrics in
    highest ← index sortedMetrics 0;
    lowest ← index sortedMetrics (Z.of_nat (length sortedMetrics) - 1);
    let imbalance := f64_sub (CPUPercent highest) (CPUPercent lowest) in
    if f_lt imbalance DefaultImbalanceThreshold then Ret []
    else
      let candidatePods := findMigratablePods c ReasonLoadBalancing (nm_NodeName highest) in
      match candidatePods with
      | [] => Ret []
      | _ =>
          let migrateCount := go_min 2 (Z.of_nat (length candidatePods)) in
          first_decisions candidatePods (λ pod,
            {| rd_Pod := pod; SourceNode := nm_NodeName highest; TargetNode := nm_NodeName lowest;
               Strategy := ReasonLoadBalancing |}) (Z.to_nat migrateCount)
      end.

Definition count_running (c : Controller) (pods : list Pod) : gmap string Z :=
  foldl (λ (nodePodCounts : gmap string Z) pod,
    if negb (bool_decide (p_phase pod = PodRunning)) || bool_decide (p_node_name pod = "") then nodePodCounts
    else if isExcludedNamespace c (p_namespace pod) then nodePodCounts
    else <[p_node_name pod := default 0 (nodePodCounts !! p_node_name pod) +₆₄ 1]> nodePodCounts) ∅ pods.

Definition analyzePodCountImbalance (c : Controller) (metrics : list NodeMetrics) :
    outcome (list ReschedulingDecision) :=
  match rc_podLister c ToCount with
  | None => Ret []
  | Some pods =>
      let nodePodCounts := count_running c pods in
      let workerNodeCounts := foldl (λ workerNodeCounts metric,
        match nodePodCounts !! nm_NodeName metric with
        | Some podCount => workerNodeCounts ++ [(nm_NodeName metric, podCount)]
        | None => workerNodeCounts
        end) ([] : list (string * Z)) metrics in
      if bool_decide (Z.of_nat (length workerNodeCounts) < 2) then Ret []
      else
        let workerNodeCounts := sort_slice (λ a b : string * Z, bool_decide (a.2 > b.2)) workerNodeCounts in
        highest ← index workerNodeCounts 0;
        lowest ← index workerNodeCounts (Z.of_nat (length workerNodeCounts) - 1);
        let podImbalance := highest.2 -₆₄ lowest.2 in
        if bool_decide (podImbalance < DefaultPodCountImbalanceThreshold) then Ret []
        else
          let candidatePods := findMigratablePods c ReasonPodCountBalancing highest.1 in
          match candidatePods with
          | [] => Ret []
          | _ =>
              let migrateCount := go_min 3 (Z.of_nat (length candidatePods)) in
              first_decisions candidatePods (λ pod,
                {| rd_Pod := pod; SourceNode := highest.1; TargetNode := lowest.1;
                   Strategy := ReasonPodCountBalancing |}) (Z.to_nat migrateCount)
          end
  end.

(** The loop ends at its first decision. *)
Fixpoint optimize (c : Controller) (metrics rest : list NodeMetrics) : list ReschedulingDecision :=
  match rest with
  | [] => []
  | metric :: rest =>
      let usage := {| pct_CPU := CPUPercent metric; pct_Memory := MemoryPercent metric |} in
      if negb (IsOverloaded (rc_config c) usage).1 then optimize c metrics rest
      else match findMigratablePods c ReasonResourceOptimization (nm_NodeName metric) with
      | [] => optimize c metrics rest
      | pod :: _ =>
          let targetNode := findBestTargetNode c metrics (nm_NodeName metric) in
          if bool_decide (targetNode = "") then optimize c metrics rest
          else [{| rd_Pod := pod; SourceNode := nm_NodeName metric; TargetNode := targetNode;
                   Strategy := ReasonResourceOptimization |}]
      end
  end.

Definition analyzeResourceOptimization (c : Controller) (metrics : list NodeMetrics) :
    list ReschedulingDecision := optimize c metrics metrics.

Definition analyzeNodeMaintenance (c : Controller) (metrics : list NodeMetrics) :
    list ReschedulingDecision :=
  match rc_nodeLister c ForMaintenance with
  | None => []
  | Some nodes =>
      foldl (λ decisions node,
        if negb (bool_decide (n_labels node !! maintenance_label = Some "true")) then decisions
        else
          let candidatePods := findMigratablePods c ReasonNodeMaintenance (n_name node) in
          foldl (λ decisions pod,
            let targetNode := findBestTargetNode c metrics (n_name node) in
            if bool_decide (targetNode = "") then decisions
            else decisions ++ [{| rd_Pod := pod; SourceNode := n_name node; TargetNode := targetNode;
                                  Strategy := ReasonNodeMaintenance |}]) decisions candidatePods)
        [] nodes
  end.

Definition analyzeAndDecide (c : Controller) (metrics : list NodeMetrics) :
    outcome (list ReschedulingDecision) :=
  loadBalanceDecisions ← analyzeLoadBalance c metrics;
  podCountDecisions ← analyzePodCountImbalance c metrics;
  Ret (loadBalanceDecisions ++ podCountDecisions ++
       analyzeResourceOptimization c metrics ++ analyzeNodeMaintenance c metrics).

(** *** One cycle *)

Definition markRescheduled (history : gmap string Z) (podName : string) (now : Z) : gmap string Z :=
  <[podName := now]> history.

(** The loop over the decisions, from the [i]-th: [evict i d] is the answer of the
    eviction API, [clock i] the time when the decision is marked.  The second
    component lists the evictions that were requested, with their answers. *)
Fixpoint execute (evict : nat → ReschedulingDecision → bool) (clock : nat → Z) (i : nat)
    (decisions : list ReschedulingDecision) (history : gmap string Z) :
    gmap string Z * list (ReschedulingDecision * bool) :=
  match decisions with
  | [] => (history, [])
  | decision :: decisions =>
      if bool_decide (MaxReschedulingPods ≤ Z.of_nat i) then (history, [])
      else
        let ok := evict i decision in
        let history := if ok then markRescheduled history (p_name (rd_Pod decision)) (clock i) else history in
        let '(history, evictions) := execute evict clock (S i) decisions history in
        (history, (decision, ok) :: evictions)
  end.

Definition performRescheduling (evict : nat → ReschedulingDecision → bool) (clock : nat → Z) (c : Controller) :
    outcome (gmap string Z * list (ReschedulingDecision * bool) * option string) :=
  match getNodeMetrics c with
  | inl err => Ret (reschedulingHistory c, [], Some err)
  | inr [] => Ret (reschedulingHistory c, [], None)
  | inr nodeMetrics =>
      decisions ← analyzeAndDecide c nodeMetrics;
      match decisions with
      | [] => Ret (reschedulingHistory c, [], None)
      | _ => Ret (execute evict clock 0 decisions (reschedulingHistory c), None)
      end
  end.
End Controller.

(** ** Loops *)

Lemma foldl_snoc_filter {A B} (P : A → bool) (f : A → B) (l : list A) (acc : list B) :
  foldl (λ acc x, if P x then acc ++ [f x] else acc) acc l = acc ++ (f <$> filter (λ x, P x = true) l).
Proof.
  revert acc. induction l as [|x l IH]; intros acc; [by rewrite app_nil_r|]. cbn [foldl]. rewrite filter_cons.
  destruct (P x) eqn:E; [|rewrite decide_False by congruence; apply IH].
  rewrite decide_True by done. by rewrite IH, <- app_assoc.
Qed.

Lemma foldl_snoc_match {A B C} (g : A → option B) (h : A → B → C) (l : list A) (acc : list C) :
  foldl (λ acc x, match g x with None => acc | Some y => acc ++ [h x y] end) acc l =
  acc ++ omap (λ x, h x <$> g x) l.
Proof.
  revert acc. induction l as [|x l IH]; intros acc; [by rewrite app_nil_r|]. cbn.
  destruct (g x); cbn; [by rewrite IH, <- app_assoc|apply IH].
Qed.

Lemma foldl_invariant {A B} (P : A → Prop) (f : A → B → A) l a :
  P a → (∀ a x, x ∈ l → P a → P (f a x)) → P (foldl f a l).
Proof.
  revert a. induction l as [|x l IH]; intros a Ha Hf; [done|]. apply IH; [apply Hf; [by left|done]|].
  intros a' x' Hx. apply Hf. by right.
Qed.

Lemma index_head {A} (l : list A) x : head l = Some x → index l 0 = Ret x.
Proof. destruct l; [done|]. by intros [= ->]. Qed.

Lemma index_last {A} (l : list A) x : last l = Some x → index l (Z.of_nat (length l) - 1) = Ret x.
Proof.
  intros Hl. destruct l as [|a l']; [done|]. unfold index. cbn [length]. rewrite decide_True by lia.
  replace (Z.to_nat _) with (pred (length (a :: l'))) by (cbn; lia). rewrite <- last_lookup. by rewrite Hl.
Qed.

Lemma two_elements {A} (l : list A) :
  (2 ≤ length l)%nat → ∃ x y, head l = Some x ∧ last l = Some y.
Proof.
  intros Hl. destruct l as [|x l]; cbn in Hl; [lia|]. exists x.
  destruct (last (x :: l)) as [y|] eqn:E; [by exists y|]. by apply last_None in E.
Qed.

Lemma f_greater_strict_weak {A} (key : A → Q) : StrictWeak (λ a b, f_lt (key b) (key a)).
Proof. split; intros *; rewrite ?f_lt_iff, ?f_lt_false; lra. Qed.

(** ** Which pods may be moved *)

Section Candidates.
Context `{MapOrder} `{GoSort} `{QuantityOps}.

Definition migratable (c : Controller) (now : Z) (pod : Pod) (nodeName : string) : Prop :=
  p_node_name pod = nodeName ∧ p_phase pod = PodRunning ∧
  p_namespace pod ∉ ExcludedNamespaces (rc_config c) ∧
  (∀ owner, owner ∈ p_owner_references pod → or_kind owner ≠ "DaemonSet") ∧
  config_source pod ≠ "api" ∧ config_source pod ≠ "file" ∧
  (∀ lastTime, reschedulingHistory c !! p_name pod = Some lastTime → ten_minutes ≤ now - lastTime).

Lemma existsb_false {A} (P : A → bool) l : existsb P l = false ↔ ∀ x, x ∈ l → P x = false.
Proof.
  rewrite <- not_true_iff_false, existsb_exists. split.
  - intros Hno x Hx. apply not_true_iff_false. intros HP. apply Hno. exists x. by rewrite <- list_elem_of_In.
  - intros Hall (x & Hx & HP). apply list_elem_of_In, Hall in Hx. congruence.
Qed.

Lemma IsMigratable_spec c now pod nodeName : IsMigratable c now pod nodeName = true ↔ migratable c now pod nodeName.
Proof.
  assert (Hns : isExcludedNamespace c (p_namespace pod) = false ↔ p_namespace pod ∉ ExcludedNamespaces (rc_config c)).
  { unfold isExcludedNamespace. rewrite existsb_false. split.
    - intros Hall Hin. apply Hall in Hin. by rewrite bool_decide_eq_false in Hin.
    - intros Hno x Hx. apply bool_decide_eq_false. by intros <-. }
  assert (Hds : isDaemonSetPod pod = false ↔ ∀ owner, owner ∈ p_owner_references pod → or_kind owner ≠ "DaemonSet").
  { unfold isDaemonSetPod. rewrite existsb_false. split; intros Hall x Hx; apply Hall in Hx;
      by rewrite bool_decide_eq_false in *. }
  assert (Hst : isStaticPod pod = false ↔ config_source pod ≠ "api" ∧ config_source pod ≠ "file").
  { unfold isStaticPod. by rewrite orb_false_iff, !bool_decide_eq_false. }
  assert (Hre : isRecentlyRescheduled c now (p_name pod) = false ↔
    ∀ lastTime, reschedulingHistory c !! p_name pod = Some lastTime → ten_minutes ≤ now - lastTime).
  { unfold isRecentlyRescheduled. destruct (reschedulingHistory c !! p_name pod) as [t|]; [|naive_solver].
    rewrite bool_decide_eq_false. split; [intros ? ? [= <-]; lia|]. intros Hall. specialize (Hall t eq_refl). lia. }
  assert (Hm : IsMigratable c now pod nodeName = true ↔
    p_node_name pod = nodeName ∧ p_phase pod = PodRunning ∧ isExcludedNamespace c (p_namespace pod) = false ∧
    isDaemonSetPod pod = false ∧ isStaticPod pod = false ∧ isRecentlyRescheduled c now (p_name pod) = false).
  { unfold IsMigratable. do 2 (case_bool_decide; cbn [negb orb]; [|naive_solver]).
    destruct (isExcludedNamespace _ _), (isDaemonSetPod _), (isStaticPod _), (isRecentlyRescheduled _ _ _); naive_solver. }
  unfold migratable. tauto.
Qed.

(** The [i]-th pod of the answer to a call may be moved, when it is checked. *)
Definition may_move (c : Controller) (strategy nodeName : string) (i : nat) (pod : Pod) : Prop :=
  migratable c (rc_clock c (ToMove strategy nodeName) i) pod nodeName.

Definition candidates_of (c : Controller) (strategy nodeName : string) (pods : list Pod) : list Pod :=
  (filter (λ p, IsMigratable c (rc_clock c (ToMove strategy nodeName) p.1) p.2 nodeName = true) (imap pair pods)).*2.

Lemma findMigratablePods_sorts c strategy nodeName pods :
  rc_podLister c (ToMove strategy nodeName) = Some pods →
  findMigratablePods c strategy nodeName = SortByPriority (candidates_of c strategy nodeName pods).
Proof.
  intros Hl. unfold findMigratablePods. rewrite Hl. cbn zeta. f_equal.
  apply (foldl_snoc_filter (λ p : nat * Pod, IsMigratable c (rc_clock c (ToMove strategy nodeName) p.1) p.2 nodeName) snd _ []).
Qed.

Lemma elem_of_candidates c strategy nodeName pods pod :
  pod ∈ candidates_of c strategy nodeName pods ↔ ∃ i, pods !! i = Some pod ∧ may_move c strategy nodeName i pod.
Proof.
  unfold candidates_of. rewrite list_elem_of_fmap. split.
  - intros ([i p] & -> & [Hm Hin]%list_elem_of_filter). apply IsMigratable_spec in Hm. apply elem_of_lookup_imap in Hin as (j & q & [= -> ->] & Hj).
    by exists j.
  - intros (i & Hi & Hm). exists (i, pod). split; [done|]. apply list_elem_of_filter. split; [by apply IsMigratable_spec|].
    by apply (elem_of_lookup_imap_2 pair).
Qed.

Lemma elem_of_findMigratablePods c strategy nodeName pod :
  pod ∈ findMigratablePods c strategy nodeName ↔
  ∃ pods i, rc_podLister c (ToMove strategy nodeName) = Some pods ∧ pods !! i = Some pod ∧
    may_move c strategy nodeName i pod.
Proof.
  destruct (rc_podLister c (ToMove strategy nodeName)) as [pods|] eqn:Hl.
  - rewrite (findMigratablePods_sorts _ _ _ pods Hl). unfold SortByPriority. rewrite sort_slice_elem, elem_of_candidates.
    naive_solver.
  - unfold findMigratablePods. rewrite Hl. set_solver.
Qed.

(** The pods of a node that may be moved are those of the lister that run
    there, outside the excluded namespaces, that are neither daemon pods nor
    static, and were not moved in the last ten minutes when they are checked; none
    is left out, and no pod comes before a pod of lower priority. *)
Theorem findMigratablePods_spec c strategy nodeName pods :
  rc_podLister c (ToMove strategy nodeName) = Some pods →
  findMigratablePods c strategy nodeName ≡ₚ candidates_of c strategy nodeName pods ∧
  (∀ pod, pod ∈ findMigratablePods c strategy nodeName ↔ ∃ i, pods !! i = Some pod ∧ may_move c strategy nodeName i pod) ∧
  ∀ i j p q, findMigratablePods c strategy nodeName !! i = Some p → findMigratablePods c strategy nodeName !! j = Some q →
    (i < j)%nat → migration_priority p ≤ migration_priority q.
Proof.
  intros Hl. rewrite (findMigratablePods_sorts _ _ _ pods Hl). unfold SortByPriority.
  split; [by rewrite sort_slice_perm|]. split; [intros; by rewrite sort_slice_elem, elem_of_candidates|].
  intros i j p q Hi Hj Hij.
  pose proof (sort_slice_lookup _ _ i j p q (less_key_strict_weak migration_priority) Hi Hj Hij) as Hs.
  rewrite bool_decide_eq_false in Hs. lia.
Qed.

(** *** The best target *)

Definition node_score (c : Controller) (m : NodeMetrics) : Q :=
  CalculateNodeScoreFromMetrics (rc_config c) (CPUPercent m) (MemoryPercent m).

(** The loop keeps the first node of the highest score, above the start. *)
Definition best_so_far (c : Controller) (exclude : string) (seen : list NodeMetrics) (best : string * Q) : Prop :=
  (best = ("", (-1)%Q) ∨
   ∃ m, m ∈ seen ∧ nm_NodeName m ≠ exclude ∧ best = (nm_NodeName m, node_score c m) ∧ (-1 < node_score c m)%Q) ∧
  ∀ m, m ∈ seen → nm_NodeName m ≠ exclude → (node_score c m <= best.2)%Q.

Lemma best_so_far_step c exclude seen best m :
  best_so_far c exclude seen best →
  best_so_far c exclude (seen ++ [m])
    (let '(bestNode, bestScore) := best in
     if bool_decide (nm_NodeName m = exclude) then (bestNode, bestScore)
     else if f_lt bestScore (node_score c m) then (nm_NodeName m, node_score c m) else (bestNode, bestScore)).
Proof.
  destruct best as [b sc]. intros [Hb Hmax]. cbn in Hmax.
  assert (Hkeep : (b, sc) = ("", (-1)%Q) ∨ ∃ m', m' ∈ seen ++ [m] ∧ nm_NodeName m' ≠ exclude ∧
    (b, sc) = (nm_NodeName m', node_score c m') ∧ (-1 < node_score c m')%Q).
  { destruct Hb as [?|(m' & ? & ?)]; [by left|]. right. exists m'. rewrite elem_of_app. tauto. }
  case_bool_decide as Hex.
  - split; [done|]. intros m' [? | ->%list_elem_of_singleton]%elem_of_app ?; [by apply Hmax|done].
  - destruct (f_lt sc (node_score c m)) eqn:E; [rewrite f_lt_iff in E|rewrite f_lt_false in E].
    + split; cbn.
      * right. exists m. rewrite elem_of_app, list_elem_of_singleton. split; [by right|]. split; [done|]. split; [done|].
        destruct Hb as [[= -> ->]|(m2 & _ & _ & E2 & ?)]; [lra|]. injection E2 as -> ->. lra.
      * intros m' [? | ->%list_elem_of_singleton]%elem_of_app ?; [|apply Qle_refl].
        apply Qlt_le_weak. eapply Qle_lt_trans; [by apply Hmax|done].
    + split; [done|]. intros m' [? | ->%list_elem_of_singleton]%elem_of_app ?; [by apply Hmax|done].
Qed.

Lemma findBestTargetNode_best c metrics exclude :
  ∃ score, best_so_far c exclude metrics (findBestTargetNode c metrics exclude, score).
Proof.
  unfold findBestTargetNode.
  enough (∀ rest seen best, best_so_far c exclude seen best → best_so_far c exclude (seen ++ rest)
    (foldl (λ '(bestNode, bestScore) metric,
      if bool_decide (nm_NodeName metric = exclude) then (bestNode, bestScore)
      else let score := CalculateNodeScoreFromMetrics (rc_config c) (CPUPercent metric) (MemoryPercent metric) in
        if f_lt bestScore score then (nm_NodeName metric, score) else (bestNode, bestScore)) best rest)) as Hl.
  { specialize (Hl metrics [] ("", (-1)%Q)). cbn [app] in Hl.
    destruct (foldl _ ("", (-1)%Q) metrics) as [b sc]. exists sc. apply Hl. split; [by left|set_solver]. }
  induction rest as [|m rest IH]; intros seen best Hb; cbn [foldl]; [by rewrite app_nil_r|].
  replace (seen ++ m :: rest) with ((seen ++ [m]) ++ rest) by (by rewrite <- app_assoc).
  apply IH. pose proof (best_so_far_step c exclude seen best m Hb). by destruct best.
Qed.

(** The chosen target is another node, of the highest score among the other
    nodes (and above -1); if none is chosen, every other node scores at most -1. *)
Theorem findBestTargetNode_spec c metrics exclude :
  Forall (λ m, nm_NodeName m ≠ "") metrics →
  (findBestTargetNode c metrics exclude ≠ "" ∧
   ∃ m, m ∈ metrics ∧ nm_NodeName m = findBestTargetNode c metrics exclude ∧ nm_NodeName m ≠ exclude ∧
        (-1 < node_score c m)%Q ∧
        ∀ m', m' ∈ metrics → nm_NodeName m' ≠ exclude → (node_score c m' <= node_score c m)%Q) ∨
  (findBestTargetNode c metrics exclude = "" ∧
   ∀ m', m' ∈ metrics → nm_NodeName m' ≠ exclude → (node_score c m' <= -1)%Q).
Proof.
  intros Hne. rewrite Forall_forall in Hne.
  destruct (findBestTargetNode_best c metrics exclude) as (sc & Hcases & Hmax).
  destruct Hcases as [[= Hb ->]|(m & Hm & Hex & Hb & Hlt)]; [by right|].
  injection Hb as Hb ->. left. rewrite Hb. split; [by apply Hne|]. by exists m.
Qed.
End Candidates.

(** ** The analyses *)

Section Analyses.
Context `{MapOrder} `{GoSort} `{QuantityOps}.

(** What makes a decision right: its pod may be moved away from its source, and
    its target is another node with metrics. *)
Definition good (c : Controller) (metrics : list NodeMetrics) (d : ReschedulingDecision) : Prop :=
  rd_Pod d ∈ findMigratablePods c (Strategy d) (SourceNode d) ∧ TargetNode d ≠ SourceNode d ∧
  ∃ m, m ∈ metrics ∧ nm_NodeName m = TargetNode d.

Lemma first_decisions_take pods mk n :
  (n ≤ length pods)%nat → first_decisions pods mk n = Ret (map mk (take n pods)).
Proof.
  induction n as [|n IH]; intros Hn; cbn [first_decisions]; [done|].
  rewrite IH by lia. cbn [mbind outcome_bind].
  destruct (lookup_lt_is_Some_2 pods n ltac:(lia)) as [pod Hpod].
  unfold index. rewrite decide_True, Nat2Z.id, Hpod by lia. cbn [deref mbind outcome_bind].
  by rewrite (take_S_r _ _ pod), map_app by done.
Qed.

(** The first pods of the candidates, as many as there are up to [k]. *)
Lemma first_decisions_min pods mk k :
  0 ≤ k → first_decisions pods mk (Z.to_nat (go_min k (Z.of_nat (length pods)))) = Ret (map mk (take (Z.to_nat k) pods)).
Proof.
  intros Hk. unfold go_min. case_bool_decide.
  - apply first_decisions_take. lia.
  - rewrite first_decisions_take, Nat2Z.id by lia. by rewrite !take_ge by lia.
Qed.

(** The pods chosen for a pair of nodes. *)
Lemma take_good c metrics source target strategy mk n d :
  source ≠ target → (∃ m, m ∈ metrics ∧ nm_NodeName m = target) →
  (∀ pod, rd_Pod (mk pod) = pod ∧ SourceNode (mk pod) = source ∧ TargetNode (mk pod) = target ∧ Strategy (mk pod) = strategy) →
  d ∈ map mk (take n (findMigratablePods c strategy source)) → good c metrics d.
Proof.
  intros Hne Hm Hmk (pod & -> & Hpod)%list_elem_of_fmap. apply elem_of_take in Hpod as (i & Hi & _).
  apply list_elem_of_lookup_2 in Hi. destruct (Hmk pod) as (E1 & E2 & E3 & E4). unfold good. by rewrite E1, E2, E3, E4.
Qed.

Lemma NoDup_names metrics m m' :
  NoDup (nm_NodeName <$> metrics) → m ∈ metrics → m' ∈ metrics → nm_NodeName m = nm_NodeName m' → m = m'.
Proof.
  intros Hnd [i Hi]%list_elem_of_lookup [j Hj]%list_elem_of_lookup E.
  assert (i = j) as ->; [|congruence]. eapply NoDup_lookup; [done| |]; rewrite list_lookup_fmap; [by rewrite Hi|].
  cbn. by rewrite Hj, E.
Qed.

Definition balancing_move (hi lo : NodeMetrics) (pod : Pod) : ReschedulingDecision :=
  {| rd_Pod := pod; SourceNode := nm_NodeName hi; TargetNode := nm_NodeName lo; Strategy := ReasonLoadBalancing |}.

Lemma analyzeLoadBalance_moves c metrics :
  2 ≤ Z.of_nat (length metrics) →
  ∃ hi lo, hi ∈ metrics ∧ lo ∈ metrics ∧ (∀ m, m ∈ metrics → (CPUPercent lo <= CPUPercent m <= CPUPercent hi)%Q) ∧
    analyzeLoadBalance c metrics =
    Ret (if f_lt (f64_sub (CPUPercent hi) (CPUPercent lo)) 20 then []
         else map (balancing_move hi lo) (take 2 (findMigratablePods c ReasonLoadBalancing (nm_NodeName hi)))).
Proof.
  intros Hn. unfold analyzeLoadBalance. rewrite bool_decide_false by lia.
  set (less := λ a b, f_lt (CPUPercent b) (CPUPercent a)). set (sorted := sort_slice less metrics).
  assert (Hperm : sorted ≡ₚ metrics) by apply sort_slice_perm.
  assert (Hlen : length sorted = length metrics) by (by rewrite Hperm).
  destruct (two_elements sorted ltac:(lia)) as (hi & lo & Hhi & Hlo). exists hi, lo.
  rewrite (index_head _ _ Hhi), (index_last _ _ Hlo). cbn [mbind outcome_bind].
  split; [rewrite <- Hperm; destruct sorted; [done|injection Hhi as ->; by left]|].
  split; [rewrite <- Hperm; by apply last_Some_elem_of|]. split.
  { intros m Hm. split; apply f_lt_false.
    - apply (sort_slice_last less metrics lo m (f_greater_strict_weak CPUPercent) Hlo Hm).
    - apply (sort_slice_head less metrics hi m (f_greater_strict_weak CPUPercent) Hhi Hm). }
  unfold DefaultImbalanceThreshold. destruct (f_lt _ 20); [done|].
  destruct (findMigratablePods c ReasonLoadBalancing (nm_NodeName hi)) as [|pod pods] eqn:Ep; [done|].
  by apply (first_decisions_min (pod :: pods) (balancing_move hi lo) 2).
Qed.

Lemma analyzeLoadBalance_good c metrics :
  NoDup (nm_NodeName <$> metrics) →
  ∃ ds, analyzeLoadBalance c metrics = Ret ds ∧ ∀ d, d ∈ ds → good c metrics d.
Proof.
  intros Hnd. destruct (decide (Z.of_nat (length metrics) < 2)) as [Hlt|Hge].
  { exists []. unfold analyzeLoadBalance. rewrite bool_decide_true by done. set_solver. }
  destruct (analyzeLoadBalance_moves c metrics ltac:(lia)) as (hi & lo & Hhi & Hlo & Hspread & ->).
  eexists. split; [done|]. destruct (f_lt _ _) eqn:Ei; [set_solver|]. rewrite f_lt_false in Ei. intros d.
  apply (take_good _ _ (nm_NodeName hi) (nm_NodeName lo) ReasonLoadBalancing); [|by exists lo|done]. intros E. assert (hi = lo) as -> by (by apply (NoDup_names metrics)).
  assert (Hz : (f64_sub (CPUPercent lo) (CPUPercent lo) == 0)%Q) by (apply f64_zero; ring).
  rewrite Hz in Ei. by vm_compute in Ei.
Qed.

(** The load balancer never panics. With fewer than two nodes it proposes
    nothing. Else it compares a node of the largest CPU usage with one of the
    smallest: below a difference of 20 points it proposes nothing, from 20 points
    on it moves the first two pods that may be moved from the one to the other. *)
Theorem analyzeLoadBalance_spec c metrics :
  (length metrics < 2)%nat ∧ analyzeLoadBalance c metrics = Ret [] ∨
  ∃ hi lo, hi ∈ metrics ∧ lo ∈ metrics ∧ (∀ m, m ∈ metrics → (CPUPercent lo <= CPUPercent m <= CPUPercent hi)%Q) ∧
    analyzeLoadBalance c metrics =
    Ret (if f_lt (f64_sub (CPUPercent hi) (CPUPercent lo)) 20 then []
         else map (balancing_move hi lo) (take 2 (findMigratablePods c ReasonLoadBalancing (nm_NodeName hi)))).
Proof.
  destruct (decide (Z.of_nat (length metrics) < 2)) as [Hlt|Hge].
  - left. split; [lia|]. unfold analyzeLoadBalance. by rewrite bool_decide_true by done.
  - right. apply analyzeLoadBalance_moves. lia.
Qed.

Lemma analyzePodCountImbalance_good c metrics :
  ∃ ds, analyzePodCountImbalance c metrics = Ret ds ∧ ∀ d, d ∈ ds → good c metrics d.
Proof.
  unfold analyzePodCountImbalance. destruct (rc_podLister c ToCount) as [pods|] eqn:Hl; [|by exists []; set_solver].
  set (counts := count_running c pods). set (workers := foldl _ _ metrics).
  assert (Hw : ∀ w, w ∈ workers → counts !! w.1 = Some w.2 ∧ ∃ m, m ∈ metrics ∧ nm_NodeName m = w.1).
  { unfold workers. apply (foldl_invariant (λ ws, ∀ w, w ∈ ws → counts !! w.1 = Some w.2 ∧ ∃ m, m ∈ metrics ∧ nm_NodeName m = w.1));
      [set_solver|].
    intros ws m Hm Hws. destruct (counts !! nm_NodeName m) as [n|] eqn:En; [|done].
    intros w [? | ->%list_elem_of_singleton]%elem_of_app; [by apply Hws|]. cbn. split; [done|]. by exists m. }
  clearbody workers. case_bool_decide; [by exists []; set_solver|].
  set (sorted := sort_slice _ workers).
  assert (Hperm : sorted ≡ₚ workers) by apply sort_slice_perm.
  assert (length sorted = length workers) by (by rewrite Hperm).
  destruct (two_elements sorted ltac:(lia)) as (hi & lo & Hhi & Hlo).
  rewrite (index_head _ _ Hhi), (index_last _ _ Hlo). cbn [mbind outcome_bind].
  assert (Hhi' : hi ∈ workers) by (rewrite <- Hperm; destruct sorted; [done|injection Hhi as ->; by left]).
  assert (Hlo' : lo ∈ workers) by (rewrite <- Hperm; by apply last_Some_elem_of).
  destruct (Hw hi Hhi') as [Hchi _], (Hw lo Hlo') as [Hclo Hmlo].
  case_bool_decide as Hi; [by exists []; set_solver|].
  set (mk := λ pod, {| rd_Pod := pod; SourceNode := hi.1; TargetNode := lo.1; Strategy := ReasonPodCountBalancing |}).
  assert (Hne : hi.1 ≠ lo.1).
  { intros E. rewrite E, Hclo in Hchi. injection Hchi as Hchi. rewrite Hchi, Z.sub_diag in Hi. by apply Hi. }
  destruct (findMigratablePods c ReasonPodCountBalancing hi.1) as [|pod ps] eqn:Ep; [by exists []; set_solver|].
  rewrite <- Ep, first_decisions_min by done. eexists. split; [done|]. intros d.
  by apply (take_good _ _ hi.1 lo.1 ReasonPodCountBalancing).
Qed.

Lemma target_good c metrics pod source strategy :
  pod ∈ findMigratablePods c strategy source → findBestTargetNode c metrics source ≠ "" →
  good c metrics {| rd_Pod := pod; SourceNode := source; TargetNode := findBestTargetNode c metrics source;
                        Strategy := strategy |}.
Proof.
  intros Hpod Hne. destruct (findBestTargetNode_best c metrics source) as (sc & [Hb|(m & Hm & Hex & Hb & _)] & _).
  - by injection Hb as ? _.
  - injection Hb as Hb _. split; [done|]. cbn. rewrite Hb. split; [done|]. by exists m.
Qed.

Lemma analyzeResourceOptimization_good c metrics :
  ∀ d, d ∈ analyzeResourceOptimization c metrics → good c metrics d.
Proof.
  unfold analyzeResourceOptimization. generalize metrics at 2 as rest.
  induction rest as [|m rest IH]; cbn [optimize]; [set_solver|].
  destruct (negb _); [done|]. destruct (findMigratablePods c ReasonResourceOptimization (nm_NodeName m)) as [|pod ps] eqn:Ep; [done|].
  case_bool_decide; [done|]. intros d ->%list_elem_of_singleton.
  apply target_good; [rewrite Ep; by left|done].
Qed.

Lemma analyzeNodeMaintenance_good c metrics d :
  d ∈ analyzeNodeMaintenance c metrics → good c metrics d.
Proof.
  revert d. unfold analyzeNodeMaintenance. destruct (rc_nodeLister c ForMaintenance) as [nodes|]; [|set_solver].
  apply (foldl_invariant (λ ds, ∀ d, d ∈ ds → good c metrics d)); [set_solver|].
  intros ds node _ Hds. destruct (negb _); [done|].
  apply (foldl_invariant (λ ds, ∀ d, d ∈ ds → good c metrics d)); [done|].
  clear ds Hds. intros ds pod Hpod Hds. case_bool_decide; [done|].
  intros d [? | ->%list_elem_of_singleton]%elem_of_app; [by apply Hds|]. by apply target_good.
Qed.
End Analyses.

(** ** One cycle *)

Section Cycle.
Context `{MapOrder} `{GoSort} `{QuantityOps}.

(** The metrics API lists a node once. *)
Definition metrics_distinct (c : Controller) : Prop :=
  ∀ items, rc_metrics c = Some items → NoDup (it_Name <$> items).

Lemma schedulable_nodes (nodes : list Node) name node :
  foldl (λ (nodeCapacity : gmap string Node) node,
    if negb (n_unschedulable node) then <[n_name node := node]> nodeCapacity else nodeCapacity) ∅ nodes !! name = Some node →
  node ∈ nodes ∧ n_name node = name ∧ n_unschedulable node = false.
Proof.
  revert name node.
  apply (foldl_invariant (λ m : gmap string Node, ∀ name node, m !! name = Some node →
    node ∈ nodes ∧ n_name node = name ∧ n_unschedulable node = false)); [by intros ? ? ?|].
  intros m node Hin Hm. destruct (n_unschedulable node) eqn:Hu; cbn; [done|].
  intros name node' [[<- <-]|[_ Hl]]%lookup_insert_Some; [done|by apply Hm].
Qed.

Lemma getNodeMetrics_ok c metrics :
  metrics_distinct c → getNodeMetrics c = inr metrics →
  NoDup (nm_NodeName <$> metrics) ∧
  ∃ nodes, rc_nodeLister c ForMetrics = Some nodes ∧
    ∀ m, m ∈ metrics → ∃ node, node ∈ nodes ∧ n_name node = nm_NodeName m ∧ n_unschedulable node = false.
Proof.
  intros Hd. unfold getNodeMetrics. destruct (rc_metrics c) as [items|] eqn:Ei; [|done].
  destruct (rc_nodeLister c ForMetrics) as [nodes|]; [|done]. specialize (Hd items Ei).
  set (capacity := foldl _ ∅ nodes). cbn zeta.
  rewrite (foldl_snoc_match (λ nm, capacity !! it_Name nm)). cbn [app]. intros [= <-].
  set (F := λ x : NodeMetricsItem, _). split.
  - eapply sublist_NoDup; [exact Hd|]. clear Hd Ei. induction items as [|it items IH]; cbn; [done|].
    unfold F at 1. destruct (capacity !! it_Name it); cbn; by constructor.
  - exists nodes. split; [done|]. intros m (it & Hit & (node & Hnode & ->)%fmap_Some)%list_elem_of_omap.
    apply schedulable_nodes in Hnode as (? & ? & ?). by exists node.
Qed.

Lemma execute_spec evict clock i ds h h' evs :
  execute evict clock i ds h = (h', evs) →
  Z.of_nat (length evs) ≤ Z.max 0 (MaxReschedulingPods - Z.of_nat i) ∧
  (∀ d ok, (d, ok) ∈ evs → d ∈ ds) ∧
  (∀ k d, evs !! k = Some (d, true) → ∃ j, (k ≤ j)%nat ∧ h' !! p_name (rd_Pod d) = Some (clock (i + j)%nat)) ∧
  ∀ name, (∀ d, (d, true) ∈ evs → p_name (rd_Pod d) ≠ name) → h' !! name = h !! name.
Proof.
  revert i h h' evs. induction ds as [|d ds IH]; intros i h h' evs; cbn [execute].
  { intros [= <- <-]. set_solver by lia. }
  case_bool_decide as Hmax; [intros [= <- <-]; set_solver by lia|].
  set (h1 := if evict i d then _ else h). destruct (execute evict clock (S i) ds h1) as [h2 evs'] eqn:E.
  intros [= <- <-]. destruct (IH _ _ _ _ E) as (Hlen & Hsub & Hmark & Hkeep). clear IH E.
  split; [cbn [length]; lia|]. split; [|split].
  - intros d' ok [[= -> ->]|Hin]%elem_of_cons; [by left|right; by eapply Hsub].
  - assert (Hlater : ∀ k d, evs' !! k = Some (d, true) →
      ∃ j, (S k ≤ j)%nat ∧ h2 !! p_name (rd_Pod d) = Some (clock (i + j)%nat)).
    { intros k d2 Hk. destruct (Hmark k d2 Hk) as (j & Hj & ->). exists (S j). by replace (i + S j)%nat with (S i + j)%nat by lia; split; [lia|]. }
    intros [|k] d' Hk; [injection Hk as -> Hok|destruct (Hlater k d' Hk) as (j & ? & ?); by exists j].
    destruct (decide (Exists (λ e, e.2 = true ∧ p_name (rd_Pod e.1) = p_name (rd_Pod d')) evs')) as [Hex|Hno].
    + apply Exists_exists in Hex as ([d2 ok2] & [k2 Hk2]%list_elem_of_lookup & Ht & Hn). cbn in Ht, Hn. subst ok2.
      rewrite <- Hn. destruct (Hlater k2 d2 Hk2) as (j & ? & ?). exists j. split; [lia|done].
    + exists 0%nat. split; [lia|]. rewrite Nat.add_0_r, Hkeep; [unfold h1; rewrite Hok; by apply lookup_insert_eq|].
      intros d2 Hin Hn. apply Hno, Exists_exists. by exists (d2, true).
  - intros name Hno. rewrite Hkeep; [|intros d2 Hin; apply Hno; by right].
    unfold h1. destruct (evict i d) eqn:Ev; [|done]. apply lookup_insert_ne. apply Hno. left.
Qed.

(** What a requested eviction satisfies: [t] is the time of the check that let it pass. *)
Definition allowed_at (c : Controller) (d : ReschedulingDecision) (t : Z) : Prop :=
  ∃ pods i, rc_podLister c (ToMove (Strategy d) (SourceNode d)) = Some pods ∧ pods !! i = Some (rd_Pod d) ∧
    t = rc_clock c (ToMove (Strategy d) (SourceNode d)) i ∧ migratable c t (rd_Pod d) (SourceNode d).

Definition justified (c : Controller) (d : ReschedulingDecision) : Prop :=
  (∃ t, allowed_at c d t) ∧
  ∃ nodes node, rc_nodeLister c ForMetrics = Some nodes ∧ node ∈ nodes ∧ n_name node = TargetNode d ∧
    n_unschedulable node = false ∧ TargetNode d ≠ SourceNode d.

Lemma good_justified c metrics d :
  metrics_distinct c → getNodeMetrics c = inr metrics → good c metrics d → justified c d.
Proof.
  intros Hd Hms (Hpod & Hne & m & Hm & Ht). destruct (getNodeMetrics_ok c metrics Hd Hms) as (_ & nodes & Hn & Hall).
  apply elem_of_findMigratablePods in Hpod as (pods & i & Hl & Hin & Hmig). destruct (Hall m Hm) as (node & ? & ? & ?).
  split; [by eexists _, pods, i|]. exists nodes, node. by rewrite <- Ht at 1.
Qed.

Definition history_of (h h' : gmap string Z) (clock : nat → Z) (evs : list (ReschedulingDecision * bool)) : Prop :=
  (∀ k d, evs !! k = Some (d, true) → ∃ j, (k ≤ j)%nat ∧ h' !! p_name (rd_Pod d) = Some (clock j)) ∧
  ∀ name, (∀ d, (d, true) ∈ evs → p_name (rd_Pod d) ≠ name) → h' !! name = h !! name.

Lemma analyzeAndDecide_good c metrics :
  NoDup (nm_NodeName <$> metrics) →
  ∃ ds, analyzeAndDecide c metrics = Ret ds ∧ ∀ d, d ∈ ds → good c metrics d.
Proof.
  intros Hnd. unfold analyzeAndDecide.
  destruct (analyzeLoadBalance_good c metrics Hnd) as (ds1 & -> & H1').
  destruct (analyzePodCountImbalance_good c metrics) as (ds2 & -> & H2').
  eexists. split; [done|]. intros d. rewrite !elem_of_app. intros [?|[?|[?|?]]]; [by apply H1'|by apply H2'| |].
  - by apply analyzeResourceOptimization_good.
  - by apply analyzeNodeMaintenance_good.
Qed.

Lemma performRescheduling_cycle evict clock c :
  metrics_distinct c →
  ∃ h evs err, performRescheduling evict clock c = Ret (h, evs, err) ∧ Z.of_nat (length evs) ≤ MaxReschedulingPods ∧
    (∀ d ok, (d, ok) ∈ evs → justified c d) ∧ history_of (reschedulingHistory c) h clock evs.
Proof.
  intros Hd. unfold performRescheduling.
  assert (Hnil : history_of (reschedulingHistory c) (reschedulingHistory c) clock []) by (split; [set_solver|done]).
  destruct (getNodeMetrics c) as [err|metrics] eqn:Hms; [by exists (reschedulingHistory c), [], (Some err); set_solver by done|].
  destruct metrics as [|m ms]; [by exists (reschedulingHistory c), [], None; set_solver by done|].
  destruct (analyzeAndDecide_good c (m :: ms)) as (ds & -> & Hgood); [by apply (getNodeMetrics_ok c)|].
  cbn [mbind outcome_bind]. destruct ds as [|d ds]; [by exists (reschedulingHistory c), [], None; set_solver by done|].
  destruct (execute evict clock 0 (d :: ds) (reschedulingHistory c)) as [h evs] eqn:He.
  destruct (execute_spec _ _ _ _ _ _ _ He) as (Hlen & Hsub & Hmark & Hkeep).
  exists h, evs, None. split; [done|]. split; [unfold MaxReschedulingPods in *; lia|]. split; [|done].
  intros d' ok Hin. eapply good_justified; [done|done|]. apply Hgood. by eapply Hsub.
Qed.

(** A cycle of the controller never panics and requests at most ten evictions.
    Each is for a pod of the lister that runs on the source node and may be moved
    when it is checked, with another, schedulable node of the lister as its target;
    afterwards the history holds, for every pod evicted, the time of that mark or of a
    later one, and is otherwise as before. *)
Theorem performRescheduling_safe evict clock c :
  metrics_distinct c →
  ∃ h evs err, performRescheduling evict clock c = Ret (h, evs, err) ∧ Z.of_nat (length evs) ≤ 10 ∧
    (∀ d ok, (d, ok) ∈ evs → justified c d) ∧ history_of (reschedulingHistory c) h clock evs.
Proof. apply performRescheduling_cycle. Qed.

End Cycle.

(** ** Witnesses *)

Definition cw_node (name : string) : Node := {| n_name := name; n_labels := ∅; n_unschedulable := false;
  n_capacity := {[ResourceCPU := cores 10; ResourceMemory := bytes 1000]};
  n_allocatable := {[ResourceCPU := cores 10; ResourceMemory := bytes 1000]} |}.

Definition cw_item (name : string) (cpu mem : Z) : NodeMetricsItem :=
  {| it_Name := name; it_Usage := {[ResourceCPU := cores cpu; ResourceMemory := bytes mem]} |}.

Definition cw_pods : list Pod :=
  [model_pod "ns" "a" "n1" 5 ∅; model_pod "ns" "b" "n1" 1 ∅; model_pod "kube-system" "s" "n1" 0 ∅].

(** n1 uses 9 cores of 10, n2 uses one. *)
Definition cw_controller : Controller := {|
  rc_config := default_config; rc_podLister := λ _, Some cw_pods; rc_nodeLister := λ _, Some [cw_node "n1"; cw_node "n2"];
  rc_metrics := Some [cw_item "n1" 9 100; cw_item "n2" 1 100]; rc_clock := λ _ _, 1000; reschedulingHistory := ∅ |}.

Definition cw_evict (i : nat) (d : ReschedulingDecision) : bool := true.
Definition cw_clock (i : nat) : Z := 1000.

Lemma cw_distinct : metrics_distinct cw_controller.
Proof. intros items [= <-]; by apply (bool_decide_eq_true_1 _). Qed.

Definition evicted_names (r : outcome (gmap string Z * list (ReschedulingDecision * bool) * option string)) :
    outcome (list string) := (λ '(_, evs, _), map (λ e : ReschedulingDecision * bool, p_name (rd_Pod e.1)) evs) <$> r.

(** The load balancer moves the two pods outside kube-system, and the pod of the
    lower priority is moved once more because its node is overloaded. *)
Lemma one_pod_moved_twice : evicted_names (performRescheduling cw_evict cw_clock cw_controller) = Ret ["b"; "a"; "b"].
Proof. by vm_compute. Qed.

Lemma performRescheduling_safe_witness :
  evicted_names (performRescheduling cw_evict cw_clock cw_controller) = Ret ["b"; "a"; "b"] ∧
  ∃ h evs err, performRescheduling cw_evict cw_clock cw_controller = Ret (h, evs, err) ∧ Z.of_nat (length evs) ≤ 10.
Proof.
  split; [by vm_compute|].
  destruct (performRescheduling_safe cw_evict cw_clock cw_controller) as (h & evs & err & Hp & Hl & _);
    [apply cw_distinct|]. exists h, evs, err. exact (conj Hp Hl).
Defined.

Lemma findMigratablePods_spec_witness :
  map p_name (findMigratablePods cw_controller ReasonLoadBalancing "n1") = ["b"; "a"] ∧
  ∀ pod, pod ∈ findMigratablePods cw_controller ReasonLoadBalancing "n1" ↔
    ∃ i, cw_pods !! i = Some pod ∧ may_move cw_controller ReasonLoadBalancing "n1" i pod.
Proof. split; [by vm_compute|]. apply (findMigratablePods_spec cw_controller ReasonLoadBalancing "n1" cw_pods eq_refl). Defined.

Definition cw_metric (name : string) (cpu mem : Q) : NodeMetrics := {| nm_NodeName := name;
  CPUUsage := 0; MemoryUsage := 0; CPUCapacity := 0; MemoryCapacity := 0; CPUPercent := cpu; MemoryPercent := mem |}.
Definition cw_metrics : list NodeMetrics := [cw_metric "n1" 10 10; cw_metric "n2" 50 50; cw_metric "n3" 40 40].

Lemma findBestTargetNode_spec_witness :
  findBestTargetNode cw_controller cw_metrics "n1" = "n3" ∧
  ∃ m, m ∈ cw_metrics ∧ nm_NodeName m = findBestTargetNode cw_controller cw_metrics "n1".
Proof.
  split; [by vm_compute|].
  destruct (findBestTargetNode_spec cw_controller cw_metrics "n1") as [(_ & m & Hm & E & _)|[E _]];
    [|exists m; split; assumption|exfalso; vm_compute in E; discriminate].
  apply Forall_forall. unfold cw_metrics. intros m. rewrite !elem_of_cons, elem_of_nil. by intros [->|[->|[->|[]]]].
Defined.
