(* ===== verification/ReschedRuns.v ===== *)
(** * pkg/rescheduler: from the arguments to the running controller

    [rescheduler.go]: how the arguments are decoded and become a plugin ([New]).
    [controller.go]: the controller that [New] starts, its life from [Run] to
    [Stop], and what a run of it does over many cycles.  The decoders of JSON and
    YAML, the listers, the metrics API, the eviction API and the clock are
    arguments. *)

From Stdlib Require Import Lqa.
From S2P Require Import Prelude Float64 GoSort K8s K8sModel Rescheduler ReschedController.
Open Scope Z_scope.

(** ** Decoding *)

(** The packages json and yaml: [Unmarshal] fills in a value it is given and may
    leave it partly filled when it fails; the string of an error is its text. *)
Class ConfigDecoders := {
  RawObject : Type;
  json_Marshal : RawObject → string + string;
  json_Unmarshal : string → ReschedulerArgs → ReschedulerArgs * option string;
  yaml_Unmarshal : string → ReschedulerArgs → ReschedulerArgs * option string;
  yaml_ToJSON : string → string + string;
}.

(** The configuration object: a [*runtime.Unknown], which may be nil, or another object. *)
Inductive ConfigObject `{ConfigDecoders} :=
| ObjUnknown (raw : option string)
| ObjOther (v : RawObject).

Definition zero_args : ReschedulerArgs := {|
  args_CPUThreshold := 0; args_MemoryThreshold := 0; args_ExcludedNamespaces := [];
  args_EnableSchedulingOptimization := None; args_EnablePreventiveRescheduling := None;
  args_CPUScoreWeight := 0; args_MemoryScoreWeight := 0; args_LoadBalanceBonus := 0;
  args_EnableReschedulingController := None; args_ReschedulingInterval := "" |}.

Section Setup.
Context `{ConfigDecoders}.

(** All attempts decode into the same value. *)
Definition parseConfigData (rawData : string) (pluginArgs : ReschedulerArgs) : ReschedulerArgs * option string :=
  match json_Unmarshal rawData pluginArgs with
  | (pluginArgs, None) => (pluginArgs, None)
  | (pluginArgs, Some _) =>
      match yaml_Unmarshal rawData pluginArgs with
      | (pluginArgs, None) => (pluginArgs, None)
      | (pluginArgs, Some _) =>
          match yaml_ToJSON rawData with
          | inl err => (pluginArgs, Some err)
          | inr jsonData =>
              match json_Unmarshal jsonData pluginArgs with
              | (pluginArgs, None) => (pluginArgs, None)
              | (pluginArgs, Some _) => (pluginArgs, Some "neither JSON nor YAML")
              end
          end
      end
  end.

Definition parsePluginConfig (obj : option ConfigObject) (config : ReschedulerConfig) :
    ReschedulerConfig * option string :=
  match obj with
  | None => (config, None)
  | Some (ObjUnknown None) | Some (ObjUnknown (Some "")) => (config, None)
  | Some (ObjUnknown (Some raw)) =>
      match parseConfigData raw zero_args with
      | (_, Some err) => (config, Some err)
      | (pluginArgs, None) => applyPluginConfig pluginArgs config
      end
  | Some (ObjOther v) =>
      match json_Marshal v with
      | inl err => (config, Some err)
      | inr jsonData =>
          match json_Unmarshal jsonData zero_args with
          | (_, Some err) => (config, Some err)
          | (pluginArgs, None) => applyPluginConfig pluginArgs config
          end
      end
  end.

(** ** The controller and the plugin *)

Definition DefaultReschedulingInterval : Z := 30 * 10 ^ 9.

(** [stopCh] says whether the channel is closed. *)
Record ReschedulingController := {
  ctl_config : ReschedulerConfig;
  interval : Z;
  stopCh : bool;
  ctl_history : gmap string Z;
}.

Definition NewReschedulingController (config : ReschedulerConfig) : ReschedulingController := {|
  ctl_config := config; interval := DefaultReschedulingInterval; stopCh := false; ctl_history := ∅ |}.

(** Closing a closed channel panics. *)
Definition ctl_Stop (c : ReschedulingController) : outcome ReschedulingController :=
  if stopCh c then Panic
  else Ret {| ctl_config := ctl_config c; interval := interval c; stopCh := true; ctl_history := ctl_history c |}.

Record Plugin `{QuantityOps} := { pl_rescheduler : Rescheduler; pl_controller : option ReschedulingController }.

(** [metricsClient] says whether the client of the metrics API can be made. *)
Definition New `{QuantityOps} (obj : option ConfigObject) (podLister : option (list Pod))
    (nodeLister_Get : string → option Node) (metricsClient : bool) : Plugin :=
  let config := match obj with
                | None => default_config
                | Some _ => (parsePluginConfig obj default_config).1
                end in
  {| pl_rescheduler := {| rs_config := config; rs_podLister := podLister; rs_nodeLister_Get := nodeLister_Get;
                          reservationManager := ∅ |};
     pl_controller := if EnableReschedulingController config && metricsClient
                      then Some (NewReschedulingController config) else None |}.

Definition Stop `{QuantityOps} (r : Plugin) : outcome Plugin :=
  match pl_controller r with
  | None => Ret r
  | Some c => c ← ctl_Stop c; Ret {| pl_rescheduler := pl_rescheduler r; pl_controller := Some c |}
  end.

(** *** Properties *)

(** A configuration is what accepted arguments make of the default one, or the
    part of them that was applied before one was rejected, or the default one. *)
Lemma parsePluginConfig_args obj config :
  parsePluginConfig obj config = (config, (parsePluginConfig obj config).2) ∨
  ∃ args, parsePluginConfig obj config = applyPluginConfig args config.
Proof.
  unfold parsePluginConfig. destruct obj as [[[[|ch raw]|]|v]|]; try by left.
  - destruct (parseConfigData _ zero_args) as [args [err|]]; [by left|right; by exists args].
  - destruct (json_Marshal v) as [err|data]; [by left|].
    destruct (json_Unmarshal data zero_args) as [args [err|]]; [by left|right; by exists args].
Qed.

(** Whatever the object is and whatever the decoders make of it, [New] returns a plugin
    without reservations whose configuration is in range; when there is nothing to decode
    it is the default one, and when decoding and checking succeed no excluded namespace is empty.
    There is a controller exactly when it is enabled and its client could be made; it has the
    plugin's configuration, an empty history and the interval of 30 seconds. *)
Theorem New_plugin_spec `{QuantityOps} obj podLister nodeLister_Get metricsClient :
  let p := New obj podLister nodeLister_Get metricsClient in
  let config := rs_config (pl_rescheduler p) in
  config_ok config ∧ reservationManager (pl_rescheduler p) = ∅ ∧
  (obj = None ∨ obj = Some (ObjUnknown None) ∨ obj = Some (ObjUnknown (Some "")) → config = default_config) ∧
  ((parsePluginConfig obj default_config).2 = None → Forall (λ ns, ns ≠ "") (ExcludedNamespaces config)) ∧
  (is_Some (pl_controller p) ↔ EnableReschedulingController config = true ∧ metricsClient = true) ∧
  ∀ c, pl_controller p = Some c →
    ctl_config c = config ∧ ctl_history c = ∅ ∧ stopCh c = false ∧ interval c = 30 * 10 ^ 9.
Proof.
  cbn zeta. cbn [New pl_rescheduler pl_controller rs_config reservationManager].
  set (config := match obj with None => _ | Some _ => _ end).
  assert (config = (parsePluginConfig obj default_config).1) as Hconfig by (by destruct obj).
  clearbody config. subst config. split_and!.
  - destruct (parsePluginConfig_args obj default_config) as [->|[args ->]]; [apply default_config_ok|].
    apply applyPluginConfig_keeps, default_config_ok.
  - done.
  - by intros [->|[->| ->]].
  - destruct (parsePluginConfig_args obj default_config) as [->|[args ->]]; intros Herr.
    + by repeat constructor.
    + by apply validateConfig_namespaces, applyPluginConfig_valid.
  - destruct (EnableReschedulingController _), metricsClient; cbn; split; try naive_solver; by intros [? [=]].
  - intros c. destruct (_ && _); [|done]. by intros [= <-].
Qed.
End Setup.

(** ** Evicting a pod *)

Record Eviction := { ev_Namespace : string; ev_Name : string; ev_GracePeriodSeconds : Z }.

Inductive EvictionAnswer := Evicted | TooManyRequests | EvictionFailed.

Section Runs.
Context `{MapOrder} `{GoSort} `{QuantityOps}.

Definition executeMigration (Evict : Eviction → EvictionAnswer) (decision : ReschedulingDecision) : option string :=
  let eviction := {| ev_Namespace := p_namespace (rd_Pod decision); ev_Name := p_name (rd_Pod decision);
                     ev_GracePeriodSeconds := 30 |} in
  match Evict eviction with
  | Evicted => None
  | TooManyRequests => Some "throttled, retry later"
  | EvictionFailed => Some "eviction failed"
  end.

(** ** Run *)

(** What the listers and the APIs answer during one cycle, call by call:
    [v_check call i] is the clock when the [i]-th pod of the lister's answer is
    checked against the history, [v_Evict i] the eviction API at the [i]-th
    decision and [v_mark i] the clock when that decision is marked. *)
Record View := {
  v_podLister : list_call → option (list Pod);
  v_nodeLister : list_call → option (list Node);
  v_metrics : option (list NodeMetricsItem);
  v_check : list_call → nat → Z;
  v_Evict : nat → Eviction → EvictionAnswer;
  v_mark : nat → Z;
}.

Definition seen (c : ReschedulingController) (v : View) : Controller := {|
  rc_config := ctl_config c; rc_podLister := v_podLister v; rc_nodeLister := v_nodeLister v;
  rc_metrics := v_metrics v; rc_clock := v_check v; reschedulingHistory := ctl_history c |}.

Definition set_history (c : ReschedulingController) (h : gmap string Z) : ReschedulingController := {|
  ctl_config := ctl_config c; interval := interval c; stopCh := stopCh c; ctl_history := h |}.

(** The function that [Run] calls every interval; an error is only logged. *)
Definition run_cycle (c : ReschedulingController) (v : View) :
    outcome (ReschedulingController * list (ReschedulingDecision * bool)) :=
  '(h, evictions, _) ← performRescheduling (λ i d, bool_decide (executeMigration (v_Evict v i) d = None))
                         (v_mark v) (seen c v);
  Ret (set_history c h, evictions).

(** A finished cycle: what it saw, its evictions with their answers, and the
    clock when each was marked. *)
Record entry := {
  e_now : Z;
  e_finish : Z;
  e_seen : Controller;
  e_mark : nat → Z;
  e_evictions : list (ReschedulingDecision * bool);
}.

(** [wait.Until]: a cycle begins only while the channel is open, and the
    interval is waited between the end of a cycle and the next one. The log has the
    newest cycle first. *)
Definition waited (c : ReschedulingController) (log : list entry) (now : Z) : Prop :=
  match log with [] => True | e :: _ => e_finish e + interval c ≤ now end.

(** The clock during a cycle: every check and every mark is read between its
    beginning and its end, and the marks in their order. *)
Definition clock_ok (v : View) (now finish : Z) : Prop :=
  now ≤ finish ∧ (∀ call i, now ≤ v_check v call i ≤ finish) ∧ (∀ i, now ≤ v_mark v i ≤ finish) ∧
  ∀ i j, (i ≤ j)%nat → v_mark v i ≤ v_mark v j.

Definition log_entry (c : ReschedulingController) (v : View) (now finish : Z)
    (evictions : list (ReschedulingDecision * bool)) : entry := {|
  e_now := now; e_finish := finish; e_seen := seen c v; e_mark := v_mark v; e_evictions := evictions |}.

Inductive Run (c0 : ReschedulingController) : ReschedulingController → list entry → Prop :=
| Run_start : Run c0 c0 []
| Run_cycle c log v now finish c' evictions :
    Run c0 c log → stopCh c = false → metrics_distinct (seen c v) → waited c log now →
    clock_ok v now finish → run_cycle c v = Ret (c', evictions) →
    Run c0 c' (log_entry c v now finish evictions :: log)
| Run_Stop c log c' : Run c0 c log → ctl_Stop c = Ret c' → Run c0 c' log.

(** *** Invariant *)

Definition later (e e' : entry) : Prop := e_finish e' + DefaultReschedulingInterval ≤ e_now e.

(** Every evicted pod is in the history, with the time of its last mark or later. *)
Definition remembered (h : gmap string Z) (log : list entry) : Prop :=
  ∀ e k d, e ∈ log → e_evictions e !! k = Some (d, true) → ∃ t, h !! p_name (rd_Pod d) = Some t ∧ e_mark e k ≤ t.

Definition safe (config : ReschedulerConfig) (e : entry) : Prop :=
  rc_config (e_seen e) = config ∧ e_now e ≤ e_finish e ∧ (∀ k, e_now e ≤ e_mark e k ≤ e_finish e) ∧
  Z.of_nat (length (e_evictions e)) ≤ MaxReschedulingPods ∧
  ∀ d ok, (d, ok) ∈ e_evictions e → justified (e_seen e) d.

(** Between the mark of an eviction and any check that lets a pod of that name
    pass in a later cycle there are ten minutes. *)
Definition rests (log : list entry) : Prop :=
  ∀ i j k e e' d d' ok t, log !! i = Some e → log !! j = Some e' → (i < j)%nat →
    (d, ok) ∈ e_evictions e → allowed_at (e_seen e) d t → e_evictions e' !! k = Some (d', true) →
    p_name (rd_Pod d) = p_name (rd_Pod d') → ten_minutes ≤ t - e_mark e' k.

Record run_ok (config : ReschedulerConfig) (c : ReschedulingController) (log : list entry) : Prop := {
  ok_config : ctl_config c = config;
  ok_interval : interval c = DefaultReschedulingInterval;
  ok_remembered : remembered (ctl_history c) log;
  ok_safe : Forall (safe config) log;
  ok_sorted : StronglySorted later log;
  ok_rest : rests log;
}.

(** A cycle never panics, and what it does. *)
Lemma run_cycle_spec c v :
  metrics_distinct (seen c v) →
  ∃ h evs, run_cycle c v = Ret (set_history c h, evs) ∧ Z.of_nat (length evs) ≤ MaxReschedulingPods ∧
    (∀ d ok, (d, ok) ∈ evs → justified (seen c v) d) ∧ history_of (ctl_history c) h (v_mark v) evs.
Proof.
  intros Hd. unfold run_cycle.
  destruct (performRescheduling_cycle (λ i d, bool_decide (executeMigration (v_Evict v i) d = None)) (v_mark v)
    (seen c v) Hd) as (h & evs & err & -> & Hlen & Hj & Hh). by exists h, evs.
Qed.

Lemma later_all config c log now :
  run_ok config c log → waited c log now → ∀ e, e ∈ log → e_finish e + DefaultReschedulingInterval ≤ now.
Proof.
  intros Hok Hw e He. destruct log as [|e0 log]; [by apply elem_of_nil in He|].
  cbn in Hw. rewrite (ok_interval _ _ _ Hok) in Hw. pose proof (ok_sorted _ _ _ Hok) as Hs.
  apply elem_of_cons in He as [->|He]; [done|]. apply StronglySorted_inv in Hs as [_ Hs].
  rewrite Forall_forall in Hs. specialize (Hs e He). unfold later, DefaultReschedulingInterval in *.
  pose proof (ok_safe _ _ _ Hok) as Hsafe. apply Forall_cons in Hsafe as [(_ & ? & _) _]. lia.
Qed.

Lemma remembered_step config c log v now h finish evs :
  run_ok config c log → waited c log now → clock_ok v now finish → history_of (ctl_history c) h (v_mark v) evs →
  remembered h (log_entry c v now finish evs :: log).
Proof.
  intros Hok Hw (_ & _ & Hclock & Hmono) [Hmark Hkeep] e k d [->|He]%elem_of_cons Hd; cbn in *.
  { destruct (Hmark k d Hd) as (j & Hj & Hh). exists (v_mark v j). split; [done|]. by apply Hmono. }
  destruct (ok_remembered _ _ _ Hok e k d He Hd) as (t & Ht & Hle).
  destruct (decide (Exists (λ x, x.2 = true ∧ p_name (rd_Pod x.1) = p_name (rd_Pod d)) evs)) as [Hex|Hno].
  - apply Exists_exists in Hex as ([d2 ok2] & [k2 Hk2]%list_elem_of_lookup & Hok2 & Hn). cbn in Hok2, Hn. subst ok2.
    destruct (Hmark k2 d2 Hk2) as (j & _ & Hj). exists (v_mark v j). split; [by rewrite <- Hn|].
    pose proof (later_all _ _ _ _ Hok Hw e He). pose proof (Hclock j). unfold DefaultReschedulingInterval in *.
    pose proof (ok_safe _ _ _ Hok) as Hsafe. rewrite Forall_forall in Hsafe.
    destruct (Hsafe e He) as (_ & _ & Hm & _). specialize (Hm k). lia.
  - exists t. split; [|done]. rewrite Hkeep; [done|]. intros d2 Hin Hn. apply Hno, Exists_exists. by exists (d2, true).
Qed.

(** A check reads the history that the earlier cycles left. *)
Lemma rests_step config c log v now finish evs :
  run_ok config c log → rests (log_entry c v now finish evs :: log).
Proof.
  intros Hok [|i] [|j] k e e' d d' ok t Hi He' Hij Hin Ht Hin' Hn; [lia| |lia|].
  - injection Hi as <-. apply (list_elem_of_lookup_2 log j) in He'.
    destruct (ok_remembered _ _ _ Hok e' k d' He' Hin') as (t' & Ht' & Hle).
    destruct Ht as (pods & i & _ & _ & _ & Hmig). destruct Hmig as (_ & _ & _ & _ & _ & _ & Hrest).
    specialize (Hrest t'). cbn in Hrest. rewrite Hn in Hrest. specialize (Hrest Ht'). lia.
  - eapply (ok_rest _ _ _ Hok i j); eauto with lia.
Qed.

Lemma cycle_ok config c log v now finish c' evs :
  run_ok config c log → metrics_distinct (seen c v) → waited c log now → clock_ok v now finish →
  run_cycle c v = Ret (c', evs) → run_ok config c' (log_entry c v now finish evs :: log).
Proof.
  intros Hok Hd Hw Hclock Hrun.
  destruct (run_cycle_spec c v Hd) as (h & evs' & E & Hlen & Hj & Hh). rewrite E in Hrun. injection Hrun as <- <-.
  split.
  - apply (ok_config _ _ _ Hok).
  - apply (ok_interval _ _ _ Hok).
  - by eapply remembered_step.
  - constructor; [|apply (ok_safe _ _ _ Hok)]. destruct Hclock as (? & _ & ? & _). split_and!; [apply (ok_config _ _ _ Hok)|done..].
  - constructor; [apply (ok_sorted _ _ _ Hok)|]. apply Forall_forall. intros e He.
    by apply (later_all _ _ _ _ Hok Hw).
  - by eapply rests_step.
Qed.

Lemma Run_ok config c log : Run (NewReschedulingController config) c log → run_ok config c log.
Proof.
  induction 1 as [|c log v now finish c' evs _ IH _ Hd Hw Hclock Hrun|c log c' _ IH Hstop].
  - split; try done; [by intros e k d He%elem_of_nil|constructor].
  - by eapply cycle_ok.
  - unfold ctl_Stop in Hstop. destruct (stopCh c); [done|]. injection Hstop as <-. destruct IH. by split.
Qed.

(** *** The rate of evictions *)

Definition started_in (t T : Z) (e : entry) : Prop := t ≤ e_now e < t + T.
#[local] Instance started_in_dec t T e : Decision (started_in t T e).
Proof. unfold started_in. apply _. Defined.

Definition requested (log : list entry) : Z := Z.of_nat (sum_list_with (λ e, length (e_evictions e)) log).

Lemma requested_le config log :
  Forall (safe config) log → requested log ≤ MaxReschedulingPods * Z.of_nat (length log).
Proof.
  unfold requested. induction 1 as [|e log (_ & _ & _ & Hlen & _) _ IH]; cbn [sum_list_with length]; lia.
Qed.

Lemma later_count config (log : list entry) t b :
  StronglySorted later log → Forall (safe config) log → Forall (λ e, t ≤ e_now e) log →
  Forall (λ e, e_now e ≤ b) log → t - DefaultReschedulingInterval ≤ b →
  Z.of_nat (length log) * DefaultReschedulingInterval ≤ b - t + DefaultReschedulingInterval.
Proof.
  intros Hs. revert b. induction Hs as [|e log _ IH Hlater]; intros b Hsafe Ht Hb Hle; cbn [length]; [lia|].
  apply Forall_cons in Hsafe as [(_ & Hse & _) Hsafe], Ht as [Hte Ht], Hb as [Hbe _].
  assert (Hb' : Forall (λ e', e_now e' ≤ e_now e - DefaultReschedulingInterval) log).
  { rewrite Forall_forall in *. intros e' He'. specialize (Hlater e' He'). destruct (Hsafe e' He') as (_ & ? & _).
    unfold later in Hlater. lia. }
  specialize (IH _ Hsafe Ht Hb' ltac:(lia)). unfold DefaultReschedulingInterval in *. lia.
Qed.

End Runs.

(** ** Witnesses *)

(** A decoder that knows two texts; the second one is cut off after its first field. *)
Definition w_decode (data : string) (args : ReschedulerArgs) : ReschedulerArgs * option string :=
  if bool_decide (data = "{cpuThreshold: 50, enableReschedulingController: false}") then
    ({| args_CPUThreshold := 50; args_MemoryThreshold := args_MemoryThreshold args;
        args_ExcludedNamespaces := args_ExcludedNamespaces args;
        args_EnableSchedulingOptimization := args_EnableSchedulingOptimization args;
        args_EnablePreventiveRescheduling := args_EnablePreventiveRescheduling args;
        args_CPUScoreWeight := args_CPUScoreWeight args; args_MemoryScoreWeight := args_MemoryScoreWeight args;
        args_LoadBalanceBonus := args_LoadBalanceBonus args; args_EnableReschedulingController := Some false;
        args_ReschedulingInterval := args_ReschedulingInterval args |}, None)
  else (args, Some "syntax error").

#[local] Instance w_decoders : ConfigDecoders := {|
  RawObject := unit; json_Marshal _ := inl "unsupported type"; json_Unmarshal _ args := (args, Some "syntax error");
  yaml_Unmarshal := w_decode; yaml_ToJSON _ := inl "syntax error" |}.

Definition w_New (raw : string) : Plugin := New (Some (ObjUnknown (Some raw))) (Some []) (λ _, None) true.

(** The YAML text is read by the second attempt; an unreadable one leaves the
    default configuration, with a controller. *)
Lemma New_plugin_spec_witness :
  (CPUThreshold (rs_config (pl_rescheduler (w_New "{cpuThreshold: 50, enableReschedulingController: false}"))) == 50)%Q ∧
  pl_controller (w_New "{cpuThreshold: 50, enableReschedulingController: false}") = None ∧
  is_Some (pl_controller (w_New "{")) ∧ config_ok (rs_config (pl_rescheduler (w_New "{"))).
Proof.
  destruct (New_plugin_spec (Some (ObjUnknown (Some "{"))) (Some []) (λ _, None) true) as (Hok & _ & _ & _ & [_ Hc] & _).
  split; [reflexivity|]. split; [reflexivity|]. split; [|exact Hok]. by apply Hc.
Defined.

(** The checks are made from the time [t] on, the marks [d] later. *)
Definition w_view (t d : Z) : View := {|
  v_podLister := λ _, Some cw_pods; v_nodeLister := λ _, Some [cw_node "n1"; cw_node "n2"];
  v_metrics := Some [cw_item "n1" 9 100; cw_item "n2" 1 100]; v_check := λ _ i, t + Z.of_nat (Nat.min i 9);
  v_Evict := λ i ev, if bool_decide (ev_Name ev = "a") then TooManyRequests else Evicted; v_mark := λ _, t + d |}.

Definition w_ctl : ReschedulingController := NewReschedulingController default_config.

Lemma w_distinct c t d : metrics_distinct (seen c (w_view t d)).
Proof. intros items [= <-]. by apply (bool_decide_eq_true_1 _). Qed.

Lemma w_clock_ok t d : 10 ≤ d → clock_ok (w_view t d) t (t + d).
Proof. intros Hd. split; [lia|]. split; [intros call i; cbn; lia|]. split; [intros i; cbn; lia|done]. Qed.

Definition w_names (r : outcome (ReschedulingController * list (ReschedulingDecision * bool))) : outcome (list (string * bool)) :=
  (λ '(_, evs), map (λ e : ReschedulingDecision * bool, (p_name (rd_Pod e.1), e.2)) evs) <$> r.

