(* ===== verification/LeastNuma.v ===== *)
(** * pkg/noderesourcetopology: as few NUMA nodes as possible

    [least_numa.go]: how many NUMA nodes a request needs, which of the smallest
    combinations are the closest to each other, and the score of a node made of
    the two.  Distances are float32.  The enumeration of the combinations is a
    function of gonum, a parameter. *)

From Stdlib Require Import Lqa.
From S2P Require Import Prelude Float64 K8s K8sModel ResourceUtil NodeConfig NrtCache NumaFilter.
Open Scope Z_scope.

(** gonum.org/v1/gonum/stat/combin: "Combinations generates all of the
    combinations of k elements from a set of size n". *)
Class Combin : Type := { Combinations : Z → Z → list (list Z) }.

Definition combination (n k : Z) (c : list Z) : Prop :=
  Z.of_nat (length c) = k ∧ StronglySorted Z.lt c ∧ Forall (λ i, 0 ≤ i < n) c.

Class CombinSpec `{Combin} : Prop := {
  Combinations_spec n k c : 0 ≤ k ≤ n → c ∈ Combinations n k ↔ combination n k c;
}.

(** ** Definitions *)

Section LeastNuma.
Context `{MapOrder} `{QuantityOps} `{!FrameworkOps} `{NrtAPI} `{BitMaskOps} `{Combin}.

Definition f32 : Q → Q := rnd 24.
Definition f32_of_int (z : Z) : Q := f32 (inject_Z z).
Definition f32_div (x y : Q) : Q := f32 (x / y)%Q.

Definition maxDistanceValue : Z := 255.

Definition onlyNonNUMAResources (numaNodes : list NUMANode) (resources : resource_list) : bool :=
  negb (existsb (λ '(resourceName, _),
    existsb (λ node, bool_decide (is_Some (Resources node !! resourceName))) numaNodes) (range resources)).

Definition normalizeScore (numaNodesCount : Z) (isMinAvgDistance : bool) : Z :=
  let numaNodeScore := Z.quot MaxNodeScore highestNUMAID in
  let score := MaxNodeScore -₆₄ numaNodesCount *₆₄ numaNodeScore in
  if isMinAvgDistance then score +₆₄ Z.quot numaNodeScore 2 else score.

Definition cost_between (node1 node2 : NUMANode) : Z := default maxDistanceValue (Costs node1 !! NUMAID node2).

Definition nodesAvgDistance (numaNodes : list NUMANode) (nodes : list Z) : outcome Q :=
  match nodes with
  | [] => Ret (f32_of_int maxDistanceValue)
  | _ =>
      accu ← fold_outcome (λ accu i1,
        node1 ← index numaNodes i1;
        fold_outcome (λ accu i2, node2 ← index numaNodes i2; Ret (accu +₆₄ cost_between node1 node2)) accu nodes)
        0 nodes;
      Ret (f32_div (f32_of_int accu) (f32_of_int (Z.of_nat (length nodes) *₆₄ Z.of_nat (length nodes))))
  end.

Definition minAvgDistanceInCombinations (numaNodes : list NUMANode) (numaNodesCombination : list (list Z)) : outcome Q :=
  fold_outcome (λ minDistance combination,
    avgDistance ← nodesAvgDistance numaNodes combination;
    Ret (if f_lt avgDistance minDistance then avgDistance else minDistance))
    (f32_of_int maxDistanceValue) numaNodesCombination.

Definition combine_node (resources : resource_list) (node : NUMANode) : resource_list :=
  foldl (λ (resources : resource_list) '(resource, quantity),
    match resources !! resource with
    | Some value => <[resource := q_Add value quantity]> resources
    | None => <[resource := quantity]> resources
    end) resources (range (Resources node)).

Definition combineResources (numaNodes : list NUMANode) (combination : list Z) : outcome resource_list :=
  fold_outcome (λ resources nodeIndex, node ← index numaNodes nodeIndex; Ret (combine_node resources node))
    ∅ combination.

(** A resource that the combination does not have is the zero quantity. *)
Definition checkResourcesFit (qos : PodQOSClass) (resources combinationResources : resource_list) : bool :=
  forallb (λ '(resource, quantity),
    if q_IsZero quantity then true
    else isResourceSetSuitable qos resource quantity (default q_zero (combinationResources !! resource)))
    (range resources).

Definition node_exposes (resources : resource_list) (node : NUMANode) : bool :=
  forallb (λ '(resourceName, _), bool_decide (is_Some (Resources node !! resourceName))) (range resources).

Fixpoint isValidCombineResources (numaNodes : list NUMANode) (resources : resource_list) (combination : list Z) :
    outcome bool :=
  match combination with
  | [] => Ret true
  | nodeIndex :: combination =>
      node ← index numaNodes nodeIndex;
      if node_exposes resources node then isValidCombineResources numaNodes resources combination else Ret false
  end.

(** The loop of [findSuitableCombination]. *)
Fixpoint suitable_loop (qos : PodQOSClass) (numaNodes : list NUMANode) (resources : resource_list)
    (minAvgDistance : Q) (minDistanceCombination : option (list Z)) (minDistance : Q) (combinations : list (list Z)) :
    outcome (option (list Z) * bool) :=
  match combinations with
  | [] => Ret (minDistanceCombination, false)
  | combination :: combinations =>
      valid ← isValidCombineResources numaNodes resources combination;
      if negb valid then
        suitable_loop qos numaNodes resources minAvgDistance minDistanceCombination minDistance combinations
      else
        combinationResources ← combineResources numaNodes combination;
        if checkResourcesFit qos resources combinationResources then
          distance ← nodesAvgDistance numaNodes combination;
          if f_eq distance minAvgDistance then Ret (Some combination, true)
          else if f_lt distance minDistance then
            suitable_loop qos numaNodes resources minAvgDistance (Some combination) distance combinations
          else suitable_loop qos numaNodes resources minAvgDistance minDistanceCombination minDistance combinations
        else suitable_loop qos numaNodes resources minAvgDistance minDistanceCombination minDistance combinations
  end.

Definition findSuitableCombination (qos : PodQOSClass) (numaNodes : list NUMANode) (resources : resource_list)
    (numaNodesCombination : list (list Z)) : outcome (option (list Z) * bool) :=
  minAvgDistance ← minAvgDistanceInCombinations numaNodes numaNodesCombination;
  suitable_loop qos numaNodes resources minAvgDistance None (f32_of_int 256) numaNodesCombination.

(** The loop [for bitmaskLen := 1; bitmaskLen <= len(numaNodes); bitmaskLen++];
    [n] iterations are left. *)
Fixpoint required_loop (qos : PodQOSClass) (numaNodes : list NUMANode) (resources : resource_list)
    (n : nat) (bitmaskLen : Z) : outcome (option BitMask * bool) :=
  match n with
  | O => Ret (None, false)
  | S n =>
      let numaNodesCombination := Combinations (Z.of_nat (length numaNodes)) bitmaskLen in
      found ← findSuitableCombination qos numaNodes resources numaNodesCombination;
      let '(suitableCombination, isMinDistance) := found in
      match suitableCombination with
      | Some suitableCombination =>
          bm ← fold_outcome (λ bm nodeIdx, node ← index numaNodes nodeIdx; Ret (bm_Add bm (NUMAID node)))
            NewEmptyBitMask suitableCombination;
          Ret (Some bm, isMinDistance)
      | None => required_loop qos numaNodes resources n (bitmaskLen + 1)
      end
  end.

Definition numaNodesRequired (qos : PodQOSClass) (numaNodes : list NUMANode) (resources : resource_list) :
    outcome (option BitMask * bool) := required_loop qos numaNodes resources (length numaNodes) 1.

(** One resource of [subtractFromNUMAs], taken from the nodes one after the other. *)
Definition take_step (resName : string) (acc : Quantity * list NUMANode) (node : Z) :
    outcome (Quantity * list NUMANode) :=
  let '(quantity, numaNodes) := acc in
  if q_IsZero quantity then Ret acc
  else
    numa ← index numaNodes node;
    match Resources numa !! resName with
    | None => Ret acc
    | Some available =>
        let '(quantity, available) :=
          match q_Cmp quantity available with
          | Eq | Gt => (q_Sub quantity available, q_zero)
          | Lt => (q_zero, q_Sub available quantity)
          end in
        numaNodes ← set_index numaNodes node (WithResources numa (<[resName := available]> (Resources numa)));
        Ret (quantity, numaNodes)
    end.

Definition subtractFromNUMAs (resources : resource_list) (numaNodes : list NUMANode) (nodes : list Z) :
    outcome (list NUMANode) :=
  fold_outcome (λ numaNodes '(resName, quantity), snd <$> fold_outcome (take_step resName) (quantity, numaNodes) nodes)
    numaNodes (range resources).

(** The loop over the containers: [None] is the early return of the minimal score. *)
Fixpoint container_loop (qos : PodQOSClass) (nodes : list NUMANode) (maxNUMANodesCount : Z)
    (allContainersMinAvgDistance : bool) (containers : list Container) : outcome (option (Z * bool)) :=
  match containers with
  | [] => Ret (Some (maxNUMANodesCount, allContainersMinAvgDistance))
  | container :: containers =>
      if onlyNonNUMAResources nodes (c_requests container)
      then container_loop qos nodes maxNUMANodesCount allContainersMinAvgDistance containers
      else
        required ← numaNodesRequired qos nodes (c_requests container);
        let '(numaNodes, isMinAvgDistance) := required in
        match numaNodes with
        | None => Ret None
        | Some numaNodes =>
            let allContainersMinAvgDistance := if negb isMinAvgDistance then false else allContainersMinAvgDistance in
            let maxNUMANodesCount := if bool_decide (bm_Count numaNodes > maxNUMANodesCount) then bm_Count numaNodes
                                     else maxNUMANodesCount in
            nodes ← subtractFromNUMAs (c_requests container) nodes (bm_GetBits numaNodes);
            container_loop qos nodes maxNUMANodesCount allContainersMinAvgDistance containers
        end
  end.

Definition leastNUMAContainerScopeScore (pod : Pod) (zones : list Zone) : outcome (Z * Status) :=
  nodes ← createNUMANodeList zones;
  let qos := GetPodQOS pod in
  counted ← container_loop qos nodes 0 true (p_init_containers pod ++ p_containers pod);
  match counted with
  | None => Ret (MinNodeScore, None)
  | Some (maxNUMANodesCount, allContainersMinAvgDistance) =>
      if bool_decide (maxNUMANodesCount = 0) then Ret (MaxNodeScore, None)
      else Ret (normalizeScore maxNUMANodesCount allContainersMinAvgDistance, None)
  end.

Definition leastNUMAPodScopeScore (pod : Pod) (zones : list Zone) : outcome (Z * Status) :=
  nodes ← createNUMANodeList zones;
  let qos := GetPodQOS pod in
  let resources := GetPodEffectiveRequest pod in
  if onlyNonNUMAResources nodes resources then Ret (MaxNodeScore, None)
  else
    required ← numaNodesRequired qos nodes resources;
    let '(numaNodes, isMinAvgDistance) := required in
    match numaNodes with
    | None => Ret (MinNodeScore, None)
    | Some numaNodes => Ret (normalizeScore (bm_Count numaNodes) isMinAvgDistance, None)
    end.
End LeastNuma.

(** ** Combinations of NUMA nodes *)

Section Picking.
Context `{QuantityOps}.
Implicit Types nodes ns : list NUMANode.

(** The nodes at the indices of a combination. *)
Definition pick {A} (l : list A) (c : list Z) : list A := omap (λ i, l !! Z.to_nat i) c.

Definition in_range {A} (l : list A) (c : list Z) : Prop := Forall (λ i, 0 ≤ i < Z.of_nat (length l)) c.

Lemma index_in_range {A} (l : list A) i :
  0 ≤ i < Z.of_nat (length l) → ∃ x, l !! Z.to_nat i = Some x ∧ index l i = Ret x.
Proof.
  intros Hi. destruct (lookup_lt_is_Some_2 l (Z.to_nat i) ltac:(lia)) as [x Hx]. exists x.
  split; [done|]. unfold index. by rewrite decide_True, Hx by lia.
Qed.

(** A loop over the indices that reads each node is a loop over the nodes. *)
Lemma fold_pick {A B} (l : list A) (f : B → A → outcome B) c acc :
  in_range l c → fold_outcome (λ acc i, x ← index l i; f acc x) acc c = fold_outcome f acc (pick l c).
Proof.
  intros Hc. revert acc. induction Hc as [|i c Hi _ IH]; intros acc; [done|].
  destruct (index_in_range l i Hi) as (x & Hx & Hix). cbn. rewrite Hix, Hx. cbn.
  destruct (f acc x); [apply IH|done].
Qed.

Lemma fold_outcome_ext {A B} (f g : A → B → outcome A) acc l :
  (∀ a b, f a b = g a b) → fold_outcome f acc l = fold_outcome g acc l.
Proof. intros Hfg. revert acc. induction l as [|x l IH]; intros acc; [done|]. cbn. rewrite Hfg. destruct (g acc x); [apply IH|done]. Qed.

Lemma length_pick {A} (l : list A) c : in_range l c → length (pick l c) = length c.
Proof.
  induction 1 as [|i c Hi _ IH]; [done|]. destruct (index_in_range l i Hi) as (x & Hx & _).
  unfold pick in *. cbn. rewrite Hx. cbn. by rewrite IH.
Qed.

Lemma pick_succ {A} (x : A) (l : list A) c : Forall (λ i, 0 ≤ i) c → pick (x :: l) (map Z.succ c) = pick l c.
Proof.
  unfold pick. induction 1 as [|i c Hi _ IH]; [done|]. cbn. rewrite Z2Nat.inj_succ by done. cbn.
  destruct (l !! Z.to_nat i); by rewrite IH.
Qed.

(** The combinations of k indices are the sublists of k elements. *)
Lemma sublist_combination {A} (l ns : list A) :
  ns `sublist_of` l → ∃ c, combination (Z.of_nat (length l)) (Z.of_nat (length ns)) c ∧ pick l c = ns.
Proof.
  induction 1 as [|x ns l _ (c & (Hlen & Hs & Hr) & Hp)|x ns l _ (c & (Hlen & Hs & Hr) & Hp)].
  - exists []. split; [|done]. split; [done|]. split; constructor.
  - exists (0 :: map Z.succ c). split; [split; [|split]|].
    + cbn [length]. rewrite length_map. lia.
    + constructor.
      * clear -Hs. induction Hs as [|i c _ IH Hi]; cbn; constructor; [done|].
        apply Forall_map. eapply Forall_impl; [exact Hi|]. cbn. intros; lia.
      * apply Forall_map. eapply Forall_impl; [exact Hr|]. cbn. intros; lia.
    + constructor; [cbn; lia|]. apply Forall_map. eapply Forall_impl; [exact Hr|]. cbn. intros; lia.
    + unfold pick in *. cbn. rewrite <- Hp. f_equal. apply (pick_succ x l).
      eapply Forall_impl; [exact Hr|]. cbn. intros; lia.
  - exists (map Z.succ c). split; [split; [|split]|].
    + by rewrite length_map.
    + clear -Hs. induction Hs as [|i c _ IH Hi]; cbn; constructor; [done|].
      apply Forall_map. eapply Forall_impl; [exact Hi|]. cbn. intros; lia.
    + apply Forall_map. eapply Forall_impl; [exact Hr|]. cbn. intros; lia.
    + rewrite pick_succ; [done|]. eapply Forall_impl; [exact Hr|]. cbn. intros; lia.
Qed.

Lemma drop_cons {A} (l : list A) n x : l !! n = Some x → drop n l = x :: drop (S n) l.
Proof.
  intros Hx. rewrite <- (take_drop_middle l n x Hx) at 1. apply drop_app_length'.
  rewrite length_take. apply lookup_lt_Some in Hx. lia.
Qed.

Lemma combination_sublist {A} (l : list A) k c :
  combination (Z.of_nat (length l)) k c → pick l c `sublist_of` l.
Proof.
  intros (_ & Hs & Hr).
  enough (∀ n, Forall (λ i, Z.of_nat n ≤ i) c → pick l c `sublist_of` drop n l) as Hn.
  { apply (Hn 0%nat). eapply Forall_impl; [exact Hr|]. cbn. intros; lia. }
  induction Hs as [|i c _ IH Hi]; intros n Hn; [apply sublist_nil_l|].
  apply Forall_cons in Hr as [Hri Hr]. apply Forall_cons in Hn as [Hni _]. specialize (IH Hr (S (Z.to_nat i))).
  destruct (index_in_range l i Hri) as (x & Hx & _). unfold pick in *. cbn. rewrite Hx.
  assert (Hd : drop (Z.to_nat i) l `sublist_of` drop n l).
  { replace (Z.to_nat i) with (n + (Z.to_nat i - n))%nat by lia. rewrite <- drop_drop. apply sublist_drop. }
  etrans; [|exact Hd]. rewrite (drop_cons l _ x Hx). apply sublist_skip, IH.
  eapply Forall_impl; [exact Hi|]. cbn. intros; lia.
Qed.
End Picking.

(** ** What a combination offers *)

Section Offers.
Context `{MapOrder} `{QuantityOps} `{!FrameworkOps} `{!QuantitySpec} `{NrtAPI} `{BitMaskOps} `{!BitMaskSpec}.
Implicit Types nodes ns : list NUMANode.

(** The average distance of a set of NUMA nodes, in float32. *)
Definition distance ns : Q :=
  f32_div (f32_of_int (wrap64 (zsum (λ n1, zsum (cost_between n1) ns) ns)))
          (f32_of_int (Z.of_nat (length ns) *₆₄ Z.of_nat (length ns))).

(** The amount of a resource that a node, and a set of nodes, offers. *)
Definition offer (resource : string) (node : NUMANode) : Z := from_option amount 0 (Resources node !! resource).

(** A request fits a set of nodes: each exposes every resource of the request,
    and together they offer as much as it asks for (CPU, memory and huge pages
    only bind a guaranteed pod). *)
Definition fit_on (qos : PodQOSClass) (resources : resource_list) ns : Prop :=
  map_Forall (λ resource quantity,
    Forall (λ n, is_Some (Resources n !! resource)) ns ∧
    (amount quantity = 0 ∨ qos ≠ PodQOSGuaranteed ∧ isNUMAAffineResource resource = true ∨
     amount quantity ≤ zsum (offer resource) ns)) resources.

Lemma foldl_wrap {A} (f : A → Z) a l : foldl (λ a x, a +₆₄ f x) (wrap64 a) l = wrap64 (a + zsum f l).
Proof.
  revert a. induction l as [|x l IH]; intros a; cbn; [by rewrite Z.add_0_r|].
  by rewrite wrap64_add_l, IH, <- Z.add_assoc.
Qed.

Lemma nodesAvgDistance_pick nodes c :
  in_range nodes c → c ≠ [] → nodesAvgDistance nodes c = Ret (distance (pick nodes c)).
Proof.
  intros Hr Hc. unfold nodesAvgDistance. destruct c as [|i c]; [done|]. set (c' := i :: c) in *.
  assert (Hin : ∀ n1 a, fold_outcome (λ accu i2, node2 ← index nodes i2; Ret (accu +₆₄ cost_between n1 node2)) a c' =
    Ret (foldl (λ a n2, a +₆₄ cost_between n1 n2) a (pick nodes c'))).
  { intros n1 a. rewrite (fold_pick nodes (λ accu n2, Ret (accu +₆₄ cost_between n1 n2))) by done. apply fold_outcome_ret. }
  rewrite (fold_outcome_ext _ (λ accu i1, node1 ← index nodes i1;
    Ret (foldl (λ a n2, a +₆₄ cost_between node1 n2) accu (pick nodes c')))).
  2:{ intros a i1. destruct (index nodes i1); cbn; [apply Hin|done]. }
  rewrite (fold_pick nodes (λ accu n1, Ret (foldl (λ a n2, a +₆₄ cost_between n1 n2) accu (pick nodes c')))) by done.
  rewrite fold_outcome_ret. cbn [mbind outcome_bind]. unfold distance. rewrite length_pick by done.
  do 3 f_equal. change 0 with (wrap64 0) at 1.
  enough (∀ ns2 l a, foldl (λ a n1, foldl (λ a n2, a +₆₄ cost_between n1 n2) a ns2) (wrap64 a) l =
    wrap64 (a + zsum (λ n1, zsum (cost_between n1) ns2) l)) as -> by done.
  intros ns2 l. induction l as [|n1 l IH]; intros a; cbn; [by rewrite Z.add_0_r|].
  by rewrite foldl_wrap, IH, <- Z.add_assoc.
Qed.

Lemma isValidCombineResources_pick nodes resources c :
  in_range nodes c → isValidCombineResources nodes resources c = Ret (forallb (node_exposes resources) (pick nodes c)).
Proof.
  induction 1 as [|i c Hi _ IH]; [done|]. destruct (index_in_range nodes i Hi) as (n & Hn & Hin).
  unfold pick in *. cbn. rewrite Hin, Hn. cbn. destruct (node_exposes resources n); [apply IH|done].
Qed.

Lemma combineResources_pick nodes c :
  in_range nodes c → combineResources nodes c = Ret (foldl combine_node ∅ (pick nodes c)).
Proof.
  intros Hr. unfold combineResources.
  rewrite (fold_pick nodes (λ resources node, Ret (combine_node resources node))) by done. apply fold_outcome_ret.
Qed.

Lemma combine_node_lookup (resources : resource_list) node r :
  combine_node resources node !! r =
  match Resources node !! r with
  | Some q => Some (match resources !! r with Some v => q_Add v q | None => q end)
  | None => resources !! r
  end.
Proof.
  unfold combine_node.
  rewrite (foldl_range_lookup (λ _ old q, Some (match old with Some v => q_Add v q | None => q end))); [done|].
  intros acc k q j. destruct (decide (j = k)) as [->|Hne].
  - destruct (acc !! k); by rewrite lookup_insert_eq.
  - destruct (acc !! k); by rewrite lookup_insert_ne.
Qed.

Lemma combined_amount ns r (resources : resource_list) :
  from_option amount 0 (foldl combine_node resources ns !! r) =
  from_option amount 0 (resources !! r) + zsum (offer r) ns.
Proof.
  revert resources. induction ns as [|n ns IH]; intros resources; cbn; [lia|].
  rewrite IH, combine_node_lookup. unfold offer at 2. fold (zsum (offer r) ns).
  destruct (Resources n !! r), (resources !! r); cbn; rewrite ?amount_Add; lia.
Qed.

Lemma checkResourcesFit_spec qos resources ns :
  forallb (node_exposes resources) ns && checkResourcesFit qos resources (foldl combine_node ∅ ns) = true ↔
  fit_on qos resources ns.
Proof.
  unfold fit_on, checkResourcesFit, node_exposes. rewrite andb_true_iff, !forallb_forall. split.
  - intros [Hex Hfit] r q Hr. split.
    + apply Forall_forall. intros n Hn. apply list_elem_of_In, Hex in Hn. rewrite forallb_forall in Hn.
      specialize (Hn (r, q)). rewrite bool_decide_eq_true in Hn. apply Hn, list_elem_of_In. by apply elem_of_range.
    + specialize (Hfit (r, q)). cbn in Hfit. rewrite q_IsZero_spec in Hfit.
      assert (Hin : In (r, q) (range resources)) by (apply list_elem_of_In; by apply elem_of_range).
      specialize (Hfit Hin). case_bool_decide; [by left|]. right. apply suitable_spec in Hfit as [?|Hle]; [by left|].
      right. replace (amount (default q_zero _)) with (from_option amount 0 (foldl combine_node ∅ ns !! r)) in Hle.
      * by rewrite combined_amount in Hle.
      * destruct (foldl combine_node ∅ ns !! r); cbn; by rewrite ?amount_zero.
  - intros Hfit. split.
    + intros n Hn. apply forallb_forall. intros [r q] Hr. apply bool_decide_eq_true.
      apply list_elem_of_In, elem_of_range in Hr. apply Hfit in Hr as [Hall _]. rewrite Forall_forall in Hall.
      apply Hall. by apply list_elem_of_In.
    + intros [r q] Hr. apply list_elem_of_In, elem_of_range in Hr. apply Hfit in Hr as [_ Hr].
      rewrite q_IsZero_spec. case_bool_decide; [done|]. apply suitable_spec. destruct Hr as [?|[?|Hle]]; [done|by left|].
      right. replace (amount (default q_zero _)) with (from_option amount 0 (foldl combine_node ∅ ns !! r)).
      * by rewrite combined_amount.
      * destruct (foldl combine_node ∅ ns !! r); cbn; by rewrite ?amount_zero.
Qed.
End Offers.

(** ** The smallest combination *)

Section Smallest.
Context `{MapOrder} `{QuantityOps} `{!FrameworkOps} `{!QuantitySpec} `{NrtAPI} `{BitMaskOps} `{!BitMaskSpec}.
Context `{Combin} `{!CombinSpec}.
Context (qos : PodQOSClass) (resources : resource_list) (nodes : list NUMANode).
Implicit Types ns : list NUMANode.

Definition usable (cs : list (list Z)) : Prop := Forall (λ c, in_range nodes c ∧ c ≠ []) cs.

Lemma minAvgDistance_spec cs :
  usable cs →
  ∃ m, minAvgDistanceInCombinations nodes cs = Ret m ∧ (m <= f32_of_int maxDistanceValue)%Q ∧
    (∀ c, c ∈ cs → (m <= distance (pick nodes c))%Q) ∧
    (m = f32_of_int maxDistanceValue ∨ ∃ c, c ∈ cs ∧ m = distance (pick nodes c)).
Proof.
  unfold minAvgDistanceInCombinations. generalize (f32_of_int maxDistanceValue) as a. intros a Hcs. revert a.
  induction Hcs as [|c cs [Hr Hc] _ IH]; intros a; cbn [fold_outcome].
  { exists a. split; [done|]. split; [apply Qle_refl|]. split; [set_solver|by left]. }
  rewrite nodesAvgDistance_pick by done. cbn [mbind outcome_bind].
  set (d := distance (pick nodes c)). set (a' := if f_lt d a then d else a).
  destruct (IH a') as (m & -> & Hma & Hall & Hm). exists m. split; [done|].
  assert (Ha' : (a' <= a)%Q ∧ (a' <= d)%Q).
  { unfold a'. destruct (f_lt d a) eqn:E; [apply f_lt_iff in E|apply f_lt_false in E]; split; lra. }
  split; [lra|]. split.
  - intros c' [->|Hin]%elem_of_cons; [fold d; lra|by apply Hall].
  - destruct Hm as [->|(c' & Hin & ->)]; [|right; exists c'; split; [by right|done]].
    unfold a'. destruct (f_lt d a); [right; exists c; split; [left|done]|by left].
Qed.

Definition fits_comb (c : list Z) : Prop := fit_on qos resources (pick nodes c).

Lemma suitable_loop_spec m best minD cs :
  usable cs →
  ∃ res flag, suitable_loop qos nodes resources m best minD cs = Ret (res, flag) ∧
    if flag : bool then ∃ c, c ∈ cs ∧ res = Some c ∧ fits_comb c ∧ (distance (pick nodes c) == m)%Q
    else (∀ c, c ∈ cs → fits_comb c → ¬ (distance (pick nodes c) == m)%Q) ∧
         ((res = best ∧ ∀ c, c ∈ cs → fits_comb c → (minD <= distance (pick nodes c))%Q) ∨
          ∃ c, c ∈ cs ∧ res = Some c ∧ fits_comb c ∧ (distance (pick nodes c) < minD)%Q ∧
               ∀ c', c' ∈ cs → fits_comb c' → (distance (pick nodes c) <= distance (pick nodes c'))%Q).
Proof.
  intros Hcs. revert best minD. induction Hcs as [|c cs [Hr Hc] _ IH]; intros best minD; cbn [suitable_loop].
  { exists best, false. split; [done|]. split; [set_solver|]. left. split; [done|set_solver]. }
  rewrite isValidCombineResources_pick by done. cbn [mbind outcome_bind].
  pose proof (checkResourcesFit_spec qos resources (pick nodes c)) as Hfit. fold (fits_comb c) in Hfit.
  (* a combination that does not fit is skipped *)
  assert (Hskip : ¬ fits_comb c → ∃ res flag, suitable_loop qos nodes resources m best minD cs = Ret (res, flag) ∧
    if flag : bool then ∃ c', c' ∈ c :: cs ∧ res = Some c' ∧ fits_comb c' ∧ (distance (pick nodes c') == m)%Q
    else (∀ c', c' ∈ c :: cs → fits_comb c' → ¬ (distance (pick nodes c') == m)%Q) ∧
         ((res = best ∧ ∀ c', c' ∈ c :: cs → fits_comb c' → (minD <= distance (pick nodes c'))%Q) ∨
          ∃ c', c' ∈ c :: cs ∧ res = Some c' ∧ fits_comb c' ∧ (distance (pick nodes c') < minD)%Q ∧
               ∀ c2, c2 ∈ c :: cs → fits_comb c2 → (distance (pick nodes c') <= distance (pick nodes c2))%Q)).
  { intros Hno. destruct (IH best minD) as (res & flag & -> & Hres). exists res, flag. split; [done|].
    destruct flag; set_solver. }
  destruct (forallb (node_exposes resources) (pick nodes c)); cbn [negb andb] in *.
  2:{ apply Hskip. intros Hf. by apply Hfit in Hf. }
  rewrite combineResources_pick by done. cbn [mbind outcome_bind].
  destruct (checkResourcesFit _ _ _).
  2:{ apply Hskip. intros Hf. by apply Hfit in Hf. }
  apply proj1 in Hfit. specialize (Hfit eq_refl). clear Hskip.
  rewrite nodesAvgDistance_pick by done. cbn [mbind outcome_bind]. unfold f_eq.
  destruct (Qeq_bool (distance (pick nodes c)) m) eqn:Em.
  { apply Qeq_bool_iff in Em. exists (Some c), true. split; [done|]. exists c. split; [left|done]. }
  apply Qeq_bool_neq in Em.
  destruct (f_lt (distance (pick nodes c)) minD) eqn:El; [apply f_lt_iff in El|apply f_lt_false in El].
  - destruct (IH (Some c) (distance (pick nodes c))) as (res & flag & -> & Hres). exists res, flag. split; [done|].
    destruct flag; [set_solver|]. destruct Hres as [Hne Hres]. split; [set_solver|]. right.
    destruct Hres as [[-> Hmin]|(c' & Hin & -> & Hf & Hlt & Hmin)].
    + exists c. split; [left|]. split; [done|]. split; [done|]. split; [done|].
      intros c' [->|Hin]%elem_of_cons Hf; [apply Qle_refl|by apply Hmin].
    + exists c'. split; [by right|]. split; [done|]. split; [done|]. split; [lra|].
      intros c2 [->|Hin2]%elem_of_cons Hf2; [lra|by apply Hmin].
  - destruct (IH best minD) as (res & flag & -> & Hres). exists res, flag. split; [done|].
    destruct flag; [set_solver|]. destruct Hres as [Hne Hres]. split; [set_solver|].
    destruct Hres as [[-> Hmin]|(c' & Hin & -> & Hf & Hlt & Hmin)].
    + left. split; [done|]. intros c' [->|Hin]%elem_of_cons Hf; [done|by apply Hmin].
    + right. exists c'. split; [by right|]. split; [done|]. split; [done|]. split; [done|].
      intros c2 [->|Hin2]%elem_of_cons Hf2; [lra|by apply Hmin].
Qed.

(** The costs are distances of the ACPI tables. *)
Definition costs_ok : Prop := Forall (λ n, map_Forall (λ _ cost, 0 ≤ cost ≤ maxDistanceValue) (Costs n)) nodes.

Lemma zsum_bounds {A} (f : A → Z) l k : (∀ x, x ∈ l → 0 ≤ f x ≤ k) → 0 ≤ zsum f l ≤ k * Z.of_nat (length l).
Proof.
  induction l as [|x l IH]; intros Hf; cbn [zsum foldr length]; [lia|].
  specialize (IH ltac:(intros; apply Hf; by right)). specialize (Hf x ltac:(left)). unfold zsum in *. lia.
Qed.

Lemma f32_exact z : Z.abs z < 2 ^ 24 → (f32_of_int z == inject_Z z)%Q.
Proof. apply rnd_int. lia. Qed.

Lemma distance_le ns :
  costs_ok → (length nodes ≤ 64)%nat → ns `sublist_of` nodes → ns ≠ [] → (distance ns <= f32_of_int maxDistanceValue)%Q.
Proof.
  intros Hcosts Hlen Hsub Hne. pose proof (sublist_length _ _ Hsub) as Hl.
  assert (0 < length ns)%nat by (destruct ns; [done|cbn; lia]).
  assert (Hb : ∀ n1 n2, n1 ∈ ns → 0 ≤ cost_between n1 n2 ≤ 255).
  { intros n1 n2 Hin. unfold costs_ok in Hcosts. rewrite Forall_forall in Hcosts.
    specialize (Hcosts n1 (elem_of_sublist _ _ _ Hin Hsub)). unfold cost_between.
    destruct (Costs n1 !! NUMAID n2) as [cost|] eqn:E; cbn; [by apply Hcosts in E|unfold maxDistanceValue; lia]. }
  assert (HS := zsum_bounds (λ n1, zsum (cost_between n1) ns) ns (255 * Z.of_nat (length ns))
    ltac:(intros n1 Hn1; apply zsum_bounds; intros n2 _; by apply Hb)).
  unfold distance. rewrite !wrap64_id by (unfold in64; nia).
  set (S' := zsum _ ns) in *. set (L := Z.of_nat (length ns)) in *.
  assert (HL : (f32_of_int (L * L) == inject_Z (L * L))%Q) by (apply f32_exact; nia).
  assert (HM : (f32_of_int (255 * L * L) == inject_Z (255 * L * L))%Q) by (apply f32_exact; nia).
  assert (Hpos : (0 < inject_Z (L * L))%Q) by (change 0%Q with (inject_Z 0); rewrite <- Zlt_Qlt; nia).
  unfold f32_of_int at 3. unfold f32_div, f32. apply rnd_mono; [lia|].
  rewrite HL. apply Qle_shift_div_r; [done|]. rewrite <- inject_Z_mult.
  replace (maxDistanceValue * (L * L)) with (255 * L * L) by (unfold maxDistanceValue; ring).
  rewrite <- HM. apply rnd_mono; [lia|]. rewrite <- Zle_Qle. lia.
Qed.

(** The sets of [k] nodes, and what is best among them. *)
Definition among (k : nat) ns : Prop := ns `sublist_of` nodes ∧ length ns = k.

Lemma usable_combinations k :
  (0 < k ≤ length nodes)%nat → usable (Combinations (Z.of_nat (length nodes)) (Z.of_nat k)).
Proof.
  intros Hk. apply Forall_forall. intros c Hc. apply Combinations_spec in Hc as (Hl & _ & Hr); [|lia].
  split; [done|]. intros ->. cbn in Hl. lia.
Qed.

Lemma among_combinations k ns :
  (k ≤ length nodes)%nat → among k ns →
  ∃ c, c ∈ Combinations (Z.of_nat (length nodes)) (Z.of_nat k) ∧ pick nodes c = ns.
Proof.
  intros Hk [Hsub <-]. destruct (sublist_combination nodes ns Hsub) as (c & Hc & Hp). exists c.
  split; [|done]. by apply Combinations_spec; [lia|].
Qed.

Lemma combinations_among k c :
  (k ≤ length nodes)%nat → c ∈ Combinations (Z.of_nat (length nodes)) (Z.of_nat k) → among k (pick nodes c).
Proof.
  intros Hk Hc. apply Combinations_spec in Hc; [|lia]. split; [by apply (combination_sublist _ (Z.of_nat k))|].
  destruct Hc as (Hl & _ & Hr). rewrite length_pick by done. lia.
Qed.

Definition best_of_size (k : nat) ns (flag : bool) : Prop :=
  among k ns ∧ fit_on qos resources ns ∧
  (∀ ns', among k ns' → fit_on qos resources ns' → (distance ns <= distance ns')%Q) ∧
  (flag = true ↔ ∀ ns', among k ns' → (distance ns <= distance ns')%Q).

Lemma findSuitableCombination_spec k :
  costs_ok → (length nodes ≤ 64)%nat → (0 < k ≤ length nodes)%nat →
  ∃ res flag, findSuitableCombination qos nodes resources
      (Combinations (Z.of_nat (length nodes)) (Z.of_nat k)) = Ret (res, flag) ∧
    match res with
    | Some c => in_range nodes c ∧ best_of_size k (pick nodes c) flag
    | None => ∀ ns, among k ns → ¬ fit_on qos resources ns
    end.
Proof.
  intros Hcosts Hlen Hk. unfold findSuitableCombination. set (cs := Combinations _ _).
  assert (Hcs : usable cs) by by apply usable_combinations.
  assert (Hdist : ∀ ns, among k ns → (distance ns <= f32_of_int maxDistanceValue)%Q).
  { intros ns [Hsub Hl]. apply distance_le; [done..|]. intros ->. cbn in Hl. lia. }
  destruct (minAvgDistance_spec cs Hcs) as (m & -> & _ & Hmin & Hm). cbn [mbind outcome_bind].
  assert (Hle : ∀ ns, among k ns → (m <= distance ns)%Q).
  { intros ns Hns. destruct (among_combinations k ns ltac:(lia) Hns) as (c & Hc & <-). by apply Hmin. }
  assert (Hflag : ∀ ns, among k ns → (distance ns == m)%Q ↔ ∀ ns', among k ns' → (distance ns <= distance ns')%Q).
  { intros ns Hns. split.
    - intros E ns' Hns'. rewrite E. by apply Hle.
    - intros Hall. apply Qle_antisym; [|by apply Hle]. destruct Hm as [->|(c & Hc & ->)]; [by apply Hdist|].
      apply Hall. by apply combinations_among; [lia|]. }
  destruct (suitable_loop_spec m None (f32_of_int 256) cs Hcs) as (res & flag & -> & Hres).
  exists res, flag. split; [done|].
  assert (Hin : ∀ c, c ∈ cs → among k (pick nodes c)) by (intros; by apply combinations_among; [lia|]).
  assert (Hrange : ∀ c, c ∈ cs → in_range nodes c) by (intros c Hc; unfold usable in Hcs; rewrite Forall_forall in Hcs; by apply Hcs).
  assert (Hall : ∀ ns, among k ns → ∃ c, c ∈ cs ∧ pick nodes c = ns) by (intros; apply among_combinations; [lia|done]).
  destruct flag.
  - destruct Hres as (c & Hc & -> & Hfit & E). split; [by apply Hrange|]. split; [by apply Hin|]. split; [done|].
    split; [|by rewrite <- Hflag by by apply Hin]. intros ns' Hns' _. rewrite E. by apply Hle.
  - destruct Hres as [Hne [[-> Hnone]|(c & Hc & -> & Hfit & _ & Hbest)]].
    + intros ns Hns Hf. destruct (Hall ns Hns) as (c & Hc & <-). specialize (Hnone c Hc Hf).
      specialize (Hdist _ (Hin c Hc)). assert (f32_of_int maxDistanceValue < f32_of_int 256)%Q by by vm_compute. lra.
    + split; [by apply Hrange|]. split; [by apply Hin|]. split; [done|]. split.
      * intros ns' Hns' Hf. destruct (Hall ns' Hns') as (c' & Hc' & <-). by apply Hbest.
      * rewrite <- Hflag by by apply Hin. split; [done|]. intros E. by destruct (Hne c Hc Hfit).
Qed.

(** The mask of a set of nodes. *)
Definition mask_of ns : BitMask := foldl (λ bm n, bm_Add bm (NUMAID n)) NewEmptyBitMask ns.

(** Some fitting set of this size is as close together as any set of the size, fitting or not. *)
Definition closest_fits (k : nat) : Prop :=
  ∃ ns, among k ns ∧ fit_on qos resources ns ∧ ∀ ns', among k ns' → (distance ns <= distance ns')%Q.

(** The flag does not depend on which of the closest fitting sets was chosen. *)
Lemma best_of_size_flag k ns flag : best_of_size k ns flag → flag = true ↔ closest_fits k.
Proof.
  intros (Hns & Hfit & Hbest & Hflag). rewrite Hflag. split; [by exists ns|].
  intros (ns2 & Hns2 & Hfit2 & Hmin) ns' Hns'. apply Qle_trans with (distance ns2); [by apply Hbest|by apply Hmin].
Qed.

Lemma required_loop_spec n k :
  costs_ok → (length nodes ≤ 64)%nat → (n + k = length nodes)%nat →
  (∀ ns j, (0 < j ≤ k)%nat → among j ns → ¬ fit_on qos resources ns) →
  ∃ res flag, required_loop qos nodes resources n (Z.of_nat k + 1) = Ret (res, flag) ∧
    match res with
    | Some bm => ∃ ns j, (0 < j)%nat ∧ bm = mask_of ns ∧ best_of_size j ns flag ∧
                   ∀ ns' i, (0 < i < j)%nat → among i ns' → ¬ fit_on qos resources ns'
    | None => ∀ ns j, (0 < j ≤ length nodes)%nat → among j ns → ¬ fit_on qos resources ns
    end.
Proof.
  intros Hcosts Hlen. revert k. induction n as [|n IH]; intros k Hk Hno; cbn [required_loop].
  { exists None, false. split; [done|]. intros ns j Hj. apply Hno. lia. }
  replace (Z.of_nat k + 1) with (Z.of_nat (S k)) by lia.
  destruct (findSuitableCombination_spec (S k) Hcosts Hlen ltac:(lia)) as (res & flag & -> & Hres).
  cbn [mbind outcome_bind]. destruct res as [c|].
  - destruct Hres as [Hr Hbest]. rewrite (fold_pick nodes (λ bm node, Ret (bm_Add bm (NUMAID node)))), fold_outcome_ret by done.
    cbn [mbind outcome_bind]. eexists _, flag. split; [done|]. exists (pick nodes c), (S k).
    split; [lia|]. split; [done|]. split; [done|]. intros ns' i Hi. apply Hno. lia.
  - replace (Z.of_nat (S k) + 1) with (Z.of_nat (S k) + 1) by done. apply IH; [lia|].
    intros ns j Hj. destruct (decide (j = S k)) as [->|]; [by apply Hres|]. apply Hno. lia.
Qed.

Lemma mask_of_spec ns id : bm_IsSet (mask_of ns) id ↔ 0 ≤ id < 64 ∧ ∃ n, n ∈ ns ∧ NUMAID n = id.
Proof.
  unfold mask_of.
  enough (∀ bm, bm_IsSet (foldl (λ bm n, bm_Add bm (NUMAID n)) bm ns) id ↔
    bm_IsSet bm id ∨ 0 ≤ id < 64 ∧ ∃ n, n ∈ ns ∧ NUMAID n = id) as ->.
  { pose proof (bm_empty_spec id). tauto. }
  induction ns as [|n ns IH]; intros bm; cbn; [set_solver|]. rewrite IH, bm_Add_spec. split.
  - intros [[?|[-> ?]]|(? & m & Hm & ?)]; [by left|right; split; [done|exists n; split; [left|done]]|].
    right. split; [done|]. exists m. split; [by right|done].
  - intros [?|(? & m & [->|Hm]%elem_of_cons & <-)]; [by left; left|left; right; done|].
    right. split; [done|]. by exists m.
Qed.

Lemma numaNodesRequired_best :
  costs_ok → (length nodes ≤ 64)%nat →
  ∃ res flag, numaNodesRequired qos nodes resources = Ret (res, flag) ∧
    match res with
    | Some bm => ∃ ns j, (0 < j)%nat ∧ bm = mask_of ns ∧ best_of_size j ns flag ∧
                   ∀ ns' i, (0 < i < j)%nat → among i ns' → ¬ fit_on qos resources ns'
    | None => ∀ ns j, (0 < j ≤ length nodes)%nat → among j ns → ¬ fit_on qos resources ns
    end.
Proof. intros Hcosts Hlen. apply (required_loop_spec (length nodes) 0); [done|done|lia|]. intros; lia. Qed.

Lemma among_nonempty ns : ns `sublist_of` nodes → ns ≠ [] → among (length ns) ns ∧ (0 < length ns ≤ length nodes)%nat.
Proof.
  intros Hsub Hne. split; [done|]. pose proof (sublist_length _ _ Hsub). split; [|done]. destruct ns; [done|cbn; lia].
Qed.

(** C10: with at most 64 NUMA nodes and distances as the ACPI tables have them, the
    search never panics. If it returns a mask, the mask is a set of NUMA nodes
    that fits the request; no smaller set fits it, and no set of the same size
    that fits it is closer together. The flag tells whether no set of that size,
    fitting or not, is closer. If it returns nil, no set of NUMA nodes fits. *)
Theorem numaNodesRequired_minimal :
  costs_ok → (length nodes ≤ 64)%nat → ids_ok nodes →
  ∃ res flag, numaNodesRequired qos nodes resources = Ret (res, flag) ∧
    match res with
    | Some bm => ∃ ns, ns `sublist_of` nodes ∧ ns ≠ [] ∧ fit_on qos resources ns ∧
        (∀ id, bm_IsSet bm id ↔ ∃ n, n ∈ ns ∧ NUMAID n = id) ∧
        (∀ ns', ns' `sublist_of` nodes → ns' ≠ [] → fit_on qos resources ns' →
          (length ns < length ns')%nat ∨ length ns = length ns' ∧ (distance ns <= distance ns')%Q) ∧
        (flag = true ↔ ∀ ns', ns' `sublist_of` nodes → length ns' = length ns → (distance ns <= distance ns')%Q)
    | None => ∀ ns, ns `sublist_of` nodes → ns ≠ [] → ¬ fit_on qos resources ns
    end.
Proof.
  intros Hcosts Hlen Hids. destruct (numaNodesRequired_best Hcosts Hlen) as (res & flag & -> & Hres).
  exists res, flag. split; [done|]. destruct res as [bm|].
  - destruct Hres as (ns & j & Hj & -> & ([Hsub Hl] & Hfit & Hbest & Hflag) & Hsmall). exists ns.
    split; [done|]. split; [by intros ->; cbn in Hl; lia|]. split; [done|]. split; [|split].
    + intros id. rewrite mask_of_spec. split; [by intros [_ ?]|]. intros (n & Hn & <-). split; [|by exists n].
      unfold ids_ok in Hids. rewrite Forall_forall in Hids. apply Hids. by eapply elem_of_sublist.
    + intros ns' Hsub' Hne' Hfit'. destruct (among_nonempty ns' Hsub' Hne') as [Ham Hpos].
      destruct (decide (length ns' < j)%nat) as [Hlt|Hge]; [by destruct (Hsmall ns' (length ns') ltac:(lia) Ham)|].
      destruct (decide (length ns' = j)) as [E|]; [right|left; lia]. split; [lia|]. apply Hbest; [by split|done].
    + rewrite Hflag. subst j. split; intros Hall ns'; [intros ? ?; by apply Hall|intros [? ?]; by apply Hall].
  - intros ns Hsub Hne. destruct (among_nonempty ns Hsub Hne). by apply (Hres ns (length ns)).
Qed.
End Smallest.

(** ** The score *)

Section Scoring.
Context `{MapOrder} `{QuantityOps} `{!FrameworkOps} `{!QuantitySpec} `{NrtAPI} `{BitMaskOps} `{!BitMaskSpec}.
Context `{Combin} `{!CombinSpec}.

Lemma sorted_lt_NoDup (l : list Z) : StronglySorted Z.lt l → NoDup l.
Proof.
  induction 1 as [|x l _ IH Hx]; constructor; [|done]. intros Hin. rewrite Forall_forall in Hx.
  specialize (Hx x Hin). lia.
Qed.

Lemma mask_count ns : NoDup (NUMAID <$> ns) → ids_ok ns → bm_Count (mask_of ns) = Z.of_nat (length ns).
Proof.
  intros Hnd Hids. rewrite bm_Count_spec. f_equal. rewrite <- (length_fmap NUMAID). apply Permutation_length.
  apply NoDup_Permutation; [apply sorted_lt_NoDup, bm_GetBits_sorted|done|].
  intros id. rewrite bm_GetBits_spec, mask_of_spec, list_elem_of_fmap. split.
  - intros (_ & n & Hn & <-). by exists n.
  - intros (n & -> & Hn). unfold ids_ok in Hids. rewrite Forall_forall in Hids. split; [by apply Hids|by exists n].
Qed.

Lemma normalizeScore_spec k opt :
  0 ≤ k ≤ 64 → normalizeScore k opt = 100 - 12 * k + (if opt then 6 else 0).
Proof.
  intros Hk. unfold normalizeScore. change (Z.quot MaxNodeScore highestNUMAID) with 12. change (Z.quot 12 2) with 6.
  unfold MaxNodeScore. destruct opt; wrap_lia.
Qed.

(** A request that no NUMA node has to do with. *)
Definition non_numa (nodes : list NUMANode) (resources : resource_list) : Prop :=
  ∀ r, is_Some (resources !! r) → Forall (λ n, Resources n !! r = None) nodes.

Lemma onlyNonNUMAResources_spec nodes resources : onlyNonNUMAResources nodes resources = true ↔ non_numa nodes resources.
Proof.
  unfold onlyNonNUMAResources, non_numa. rewrite negb_true_iff, <- not_true_iff_false, existsb_range. split.
  - intros Hno r [q Hr]. apply Forall_forall. intros n Hn. apply eq_None_not_Some. intros Hs. apply Hno.
    exists r, q. split; [done|]. apply existsb_exists. exists n. by rewrite <- list_elem_of_In, bool_decide_eq_true.
  - intros Hall (r & q & Hr & He). apply existsb_exists in He as (n & Hn & Hs). rewrite bool_decide_eq_true in Hs.
    specialize (Hall r ltac:(by exists q)). rewrite Forall_forall in Hall. apply list_elem_of_In, Hall in Hn.
    rewrite Hn in Hs. by destruct Hs.
Qed.

(** C24: on a node of at most 64 NUMA nodes with distinct ids from 0 to 63 and distances as the ACPI
    tables have them, the pod-scope score is 100 for a pod that needs nothing of the NUMA nodes, 0 if no set
    of NUMA nodes fits the pod; else, if k NUMA nodes are the fewest that fit it, it is 100 - 12 k + 6 if
    some k NUMA nodes that fit it are as close together as any k NUMA nodes are, and 100 - 12 k if
    closer ones exist that do not fit it: a node where fewer are needed wins. *)
Theorem leastNUMAPodScopeScore_spec pod zones nodes :
  createNUMANodeList zones = Ret nodes → costs_ok nodes → (length nodes ≤ 64)%nat → ids_ok nodes →
  NoDup (NUMAID <$> nodes) →
  let resources := GetPodEffectiveRequest pod in
  let fitting k := ∃ ns, ns `sublist_of` nodes ∧ length ns = k ∧ fit_on (GetPodQOS pod) resources ns in
  let closest k := ∃ ns, (ns `sublist_of` nodes ∧ length ns = k) ∧ fit_on (GetPodQOS pod) resources ns ∧
    ∀ ns', ns' `sublist_of` nodes ∧ length ns' = k → (distance ns <= distance ns')%Q in
  ∃ score, leastNUMAPodScopeScore pod zones = Ret (score, None) ∧
    (non_numa nodes resources ∧ score = 100 ∨
     ¬ non_numa nodes resources ∧ (∀ k, (0 < k)%nat → ¬ fitting k) ∧ score = 0 ∨
     ¬ non_numa nodes resources ∧ ∃ k, (0 < k)%nat ∧ fitting k ∧ (∀ i, (0 < i < k)%nat → ¬ fitting i) ∧
       (closest k ∧ score = 100 - 12 * Z.of_nat k + 6 ∨ ¬ closest k ∧ score = 100 - 12 * Z.of_nat k)).
Proof.
  intros Hzones Hcosts Hlen Hids Hnd resources fitting closest. unfold leastNUMAPodScopeScore. rewrite Hzones.
  cbn [mbind outcome_bind]. fold resources.
  destruct (onlyNonNUMAResources nodes resources) eqn:Eon.
  { eexists. split; [done|]. left. split; [by apply onlyNonNUMAResources_spec|done]. }
  assert (Hnon : ¬ non_numa nodes resources) by (rewrite <- onlyNonNUMAResources_spec; congruence).
  destruct (numaNodesRequired_best (GetPodQOS pod) resources nodes Hcosts Hlen) as (res & flag & -> & Hres).
  cbn [mbind outcome_bind]. destruct res as [bm|].
  - destruct Hres as (ns & j & Hj & -> & Hbest & Hsmall). eexists. split; [done|]. right. right.
    pose proof (best_of_size_flag _ _ _ _ _ _ Hbest) as Hflag. destruct Hbest as ([Hsub Hl] & Hfit & _).
    split; [done|]. exists j. split; [done|]. split; [by exists ns|]. split.
    + intros i Hi (ns' & Hsub' & Hl' & Hf'). by apply (Hsmall ns' i).
    + change (closest j) with (closest_fits (GetPodQOS pod) resources nodes j). rewrite <- Hflag.
      rewrite mask_count, Hl; [|clear Hflag..].
      { rewrite normalizeScore_spec by (pose proof (sublist_length _ _ Hsub); lia). destruct flag; [by left|right; by rewrite Z.add_0_r]. }
      * eapply sublist_NoDup; [exact Hnd|]. exact (fmap_sublist NUMAID _ _ Hsub).
      * unfold ids_ok in *. rewrite Forall_forall in *. intros n Hn. apply Hids. by eapply elem_of_sublist.
  - eexists. split; [done|]. right. left. split; [done|]. split; [|done]. intros k Hk (ns & Hsub & Hl & Hf).
    apply (Hres ns k); [pose proof (sublist_length _ _ Hsub); lia|done|done].
Qed.
End Scoring.

(** ** Witnesses *)

(** The combinations of k elements of s, ..., s + n - 1, in lexicographic order. *)
Fixpoint model_combinations (n : nat) (s : Z) (k : nat) : list (list Z) :=
  match k, n with
  | O, _ => [[]]
  | S _, O => []
  | S k', S n => map (cons s) (model_combinations n (s + 1) k') ++ model_combinations n (s + 1) k
  end.

#[export] Instance model_combin : Combin := {| Combinations n k := model_combinations (Z.to_nat n) 0 (Z.to_nat k) |}.

Lemma elem_of_model_combinations n s k c :
  c ∈ model_combinations n s k ↔
  length c = k ∧ StronglySorted Z.lt c ∧ Forall (λ i, s ≤ i < s + Z.of_nat n) c.
Proof.
  revert s k c. induction n as [|n IH]; intros s [|k] c; cbn.
  - rewrite list_elem_of_singleton. split; [by intros ->; repeat constructor|]. intros (? & _). by destruct c.
  - split; [by intros ?%elem_of_nil|]. intros (Hl & _ & Hf). destruct c as [|i c]; [done|].
    apply Forall_cons in Hf as [? _]. lia.
  - rewrite list_elem_of_singleton. split; [by intros ->; repeat constructor|]. intros (? & _). by destruct c.
  - rewrite elem_of_app, list_elem_of_fmap, IH. split.
    + intros [(c' & -> & (Hl & Hs & Hf)%IH)|(Hl & Hs & Hf)].
      * cbn. rewrite Hl. split; [done|]. split.
        -- constructor; [done|]. eapply Forall_impl; [exact Hf|]. cbn. intros; lia.
        -- constructor; [lia|]. eapply Forall_impl; [exact Hf|]. cbn. intros; lia.
      * split; [done|]. split; [done|]. eapply Forall_impl; [exact Hf|]. cbn. intros; lia.
    + intros (Hl & Hs & Hf). destruct c as [|i c]; [done|]. inversion Hs as [|? ? Hs' Hi]; subst.
      apply Forall_cons in Hf as [Hi0 Hf]. destruct (decide (i = s)) as [->|Hne].
      * left. exists c. split; [done|]. apply IH. cbn in Hl. split; [lia|]. split; [done|].
        rewrite Forall_forall in *. intros j Hj. specialize (Hi j Hj). specialize (Hf j Hj). cbn in *. lia.
      * right. split; [done|]. split; [done|]. constructor; [lia|].
        rewrite Forall_forall in *. intros j Hj. specialize (Hi j Hj). specialize (Hf j Hj). cbn in *. lia.
Qed.

#[export] Instance model_combin_spec : CombinSpec.
Proof.
  split. intros n k c Hk. cbn. rewrite elem_of_model_combinations. unfold combination.
  rewrite Z2Nat.id by lia. rewrite Z.add_0_l. split; intros (Hl & ? & ?); (split; [lia|done]).
Qed.

Definition w_near (id cpus : Z) (costs : gmap Z Z) : NUMANode :=
  {| NUMAID := id; Resources := {[ResourceCPU := cores cpus]}; Costs := costs |}.

(** Node 1 is closer to node 2 than node 0 is. *)
Definition w_far_nodes : list NUMANode :=
  [w_near 0 2 {[0 := 10; 1 := 20; 2 := 40]}; w_near 1 2 {[0 := 20; 1 := 10; 2 := 20]};
   w_near 2 8 {[0 := 40; 1 := 20; 2 := 10]}].

Lemma w_far_ok : costs_ok w_far_nodes ∧ ids_ok w_far_nodes.
Proof.
  split; apply (bool_decide_eq_true_1 _); vm_compute; reflexivity.
Qed.

Definition required_bits (r : outcome (option BitMask * bool)) : outcome (option (list Z) * bool) :=
  match r with Ret (bm, flag) => Ret (option_map bm_GetBits bm, flag) | Panic => Panic end.

(** Nine cores need two nodes: 1 and 2. *)
Lemma numaNodesRequired_minimal_witness :
  required_bits (numaNodesRequired PodQOSGuaranteed w_far_nodes {[ResourceCPU := cores 9]}) = Ret (Some [1; 2], true) ∧
  ∃ res flag, numaNodesRequired PodQOSGuaranteed w_far_nodes {[ResourceCPU := cores 9]} = Ret (res, flag).
Proof.
  split; [vm_compute; reflexivity|].
  destruct (numaNodesRequired_minimal PodQOSGuaranteed {[ResourceCPU := cores 9]} w_far_nodes) as (res & flag & E & _);
    [apply w_far_ok|cbn; lia|apply w_far_ok|]. exists res, flag. exact E.
Defined.

(** The pod asks for 10 cores of two NUMA nodes with 2 and 8: 100 - 24 + 6. *)
Lemma leastNUMAPodScopeScore_spec_witness :
  leastNUMAPodScopeScore (w_guaranteed 2 8) (nrt_Zones w_numa_object) = Ret (82, None) ∧
  ∃ score, leastNUMAPodScopeScore (w_guaranteed 2 8) (nrt_Zones w_numa_object) = Ret (score, None).
Proof.
  split; [vm_compute; reflexivity|].
  destruct (leastNUMAPodScopeScore_spec (w_guaranteed 2 8) (nrt_Zones w_numa_object) [w_numa 0 2; w_numa 1 8])
    as (score & E & _); [reflexivity| |cbn; lia| | |exists score; exact E];
    apply (bool_decide_eq_true_1 _); vm_compute; reflexivity.
Defined.

(** The ids of the nodes are taken for their positions in the list: a node whose
    ids are not 0, 1, ... makes the scoring of a container panic. *)
Lemma subtractFromNUMAs_takes_ids_for_positions :
  container_loop PodQOSGuaranteed [w_numa 0 2; w_numa 2 8] 0 true
    [model_container {[ResourceCPU := cores 8]} {[ResourceCPU := cores 8]}] = Panic.
Proof. vm_compute. reflexivity. Qed.

(** A request for a resource that the NUMA nodes do not expose, beside one that
    they do, needs no NUMA node for it, but no set of nodes is found to fit. *)
Lemma unexposed_resource_scores_zero :
  numaNodesRequired PodQOSGuaranteed w_far_nodes {[ResourceCPU := cores 1; ResourceEphemeralStorage := bytes 1]} =
    Ret (None, false).
Proof. vm_compute. reflexivity. Qed.
