(* ===== verification/NumaScore.v ===== *)
(** * pkg/noderesourcetopology: the score

    [score.go] and the strategies of [least_allocated.go], [most_allocated.go]
    and [balanced_allocation.go]: a NUMA node scores by the share of its
    resources that a request takes, a node by the NUMA node with the lowest score
    that is not zero.  The strategy LeastNUMANodes is in the file LeastNuma. *)

From S2P Require Import Prelude Float64 K8s K8sModel ResourceUtil NodeConfig NrtCache NumaFilter LeastNuma.
Open Scope Z_scope.

(** gonum.org/v1/gonum/stat: the sample variance and the mean of float64 values;
    [None] is not-a-number, whose conversion to an integer the language leaves
    to the implementation. *)
Class GonumStat : Type := {
  stat_Variance : list Q → option Q;
  stat_Mean : list Q → option Q;
  int_of_nan : Z;
}.

(** ** Definitions *)

Section NumaScore.
Context `{MapOrder} `{QuantityOps} `{!FrameworkOps} `{NrtAPI} `{BitMaskOps} `{Combin} `{GonumStat}.

Definition int_of_result (x : option Q) : Z := match x with Some x => int_of_float x | None => int_of_nan end.

Definition defaultWeight : Z := 1.

Definition weight (rw : gmap string Z) (r : string) : Z :=
  match rw !! r with
  | None => defaultWeight
  | Some w => if bool_decide (w < 1) then defaultWeight else w
  end.

Abbreviation scoreStrategyFn := (resource_list → resource_list → gmap string Z → outcome Z).

(** [rl[name]]: an absent entry is the zero quantity. *)
Definition quantity_in (rl : resource_list) (name : string) : Quantity := default q_zero (rl !! name).

Definition is_zero_int64 (q : Quantity) : bool := bool_decide (q_Cmp q (NewQuantity 0 DecimalSI) = Eq).

Definition leastAllocatedScore (requested numaCapacity : Quantity) : outcome Z :=
  if is_zero_int64 numaCapacity then Ret 0
  else if bool_decide (q_Cmp requested numaCapacity = Gt) then Ret 0
  else
    let numaValue := q_Value numaCapacity in
    let requestedValue := q_Value requested in
    go_div ((numaValue -₆₄ requestedValue) *₆₄ MaxNodeScore) (q_Value numaCapacity).

Definition mostAllocatedScore (requested numaCapacity : Quantity) : outcome Z :=
  if is_zero_int64 numaCapacity then Ret 0
  else if bool_decide (q_Cmp requested numaCapacity = Gt) then Ret 0
  else go_div (q_Value requested *₆₄ MaxNodeScore) (q_Value numaCapacity).

(** The loop that both strategies share, with the score of a resource. *)
Definition weighted_step (score : Quantity → Quantity → outcome Z) (allocatable : resource_list)
    (resourceToWeightMap : gmap string Z) (acc : Z * Z) (entry : string * Quantity) : outcome (Z * Z) :=
  let '(numaNodeScore, weightSum) := acc in
  let '(resourceName, quantity) := entry in
  resourceScore ← score quantity (quantity_in allocatable resourceName);
  let w := weight resourceToWeightMap resourceName in
  Ret (numaNodeScore +₆₄ resourceScore *₆₄ w, weightSum +₆₄ w).

Definition weighted_mean (score : Quantity → Quantity → outcome Z) (requested allocatable : resource_list)
    (resourceToWeightMap : gmap string Z) : outcome Z :=
  sums ← fold_outcome (weighted_step score allocatable resourceToWeightMap) (0, 0) (range requested);
  let '(numaNodeScore, weightSum) := sums in
  go_div numaNodeScore weightSum.

Definition leastAllocatedScoreStrategy : scoreStrategyFn := weighted_mean leastAllocatedScore.
Definition mostAllocatedScoreStrategy : scoreStrategyFn := weighted_mean mostAllocatedScore.

Definition fractionOfCapacity (requested capacity : Quantity) : Q :=
  if bool_decide (q_Value capacity = 0) then 1%Q
  else f64_div (f64_of_int (q_Value requested)) (f64_of_int (q_Value capacity)).

Definition balancedAllocationScoreStrategy : scoreStrategyFn := λ requested allocatable _,
  match fold_result (λ resourceFractions '(resourceName, quantity),
    let resourceFraction := fractionOfCapacity quantity (quantity_in allocatable resourceName) in
    if f_lt 1 resourceFraction then Err tt else Ok (resourceFractions ++ [resourceFraction]))
    [] (range requested) with
  | Crash => Panic
  | Err _ => Ret 0
  | Ok resourceFractions =>
      let variance := stat_Variance resourceFractions in
      Ret (int_of_result ((λ v, f64_mul (f64_sub 1 v) (f64_of_int MaxNodeScore)) <$> variance))
  end.

Definition numa_step_score (requested : resource_list) (score : scoreStrategyFn) (resourceToWeightMap : gmap string Z)
    (acc : Z * list Z) (numa : NUMANode) : outcome (Z * list Z) :=
  let '(minScore, numaScores) := acc in
  numaScore ← score requested (Resources numa) resourceToWeightMap;
  let minScore := if bool_decide (minScore = 0) || bool_decide (numaScore ≠ 0) && bool_decide (numaScore < minScore)
                  then numaScore else minScore in
  numaScores ← set_index numaScores (NUMAID numa) numaScore;
  Ret (minScore, numaScores).

Definition scoreForEachNUMANode (requested : resource_list) (numaList : list NUMANode) (score : scoreStrategyFn)
    (resourceToWeightMap : gmap string Z) : outcome Z :=
  acc ← fold_outcome (numa_step_score requested score resourceToWeightMap) (0, replicate (length numaList) 0) numaList;
  Ret acc.1.

Definition MostAllocated : string := "MostAllocated".
Definition BalancedAllocation : string := "BalancedAllocation".
Definition LeastAllocated : string := "LeastAllocated".
Definition LeastNUMANodes : string := "LeastNUMANodes".

(** [inl] is the error, [inr None] the nil function of LeastNUMANodes. *)
Definition getScoringStrategyFunction (strategy : string) : string + option scoreStrategyFn :=
  if bool_decide (strategy = MostAllocated) then inr (Some mostAllocatedScoreStrategy)
  else if bool_decide (strategy = LeastAllocated) then inr (Some leastAllocatedScoreStrategy)
  else if bool_decide (strategy = BalancedAllocation) then inr (Some balancedAllocationScoreStrategy)
  else if bool_decide (strategy = LeastNUMANodes) then inr None
  else inl "illegal scoring strategy found".

Definition podScopeScore (pod : Pod) (zones : list Zone) (scorerFn : scoreStrategyFn)
    (resourceToWeightMap : gmap string Z) : outcome (Z * Status) :=
  let resources := GetPodEffectiveRequest pod in
  allocatablePerNUMA ← createNUMANodeList zones;
  finalScore ← scoreForEachNUMANode resources allocatablePerNUMA scorerFn resourceToWeightMap;
  Ret (finalScore, None).

Definition containerScopeScore (pod : Pod) (zones : list Zone) (scorerFn : scoreStrategyFn)
    (resourceToWeightMap : gmap string Z) : outcome (Z * Status) :=
  let containers := p_init_containers pod ++ p_containers pod in
  allocatablePerNUMA ← createNUMANodeList zones;
  contScore ← fold_outcome (λ contScore container,
    score ← scoreForEachNUMANode (c_requests container) allocatablePerNUMA scorerFn resourceToWeightMap;
    Ret (contScore ++ [f64_of_int score])) [] containers;
  Ret (int_of_result (stat_Mean contScore), None).

(** The plugin, for scoring: the function is the one of its strategy. *)
Record TopologyMatch := {
  resourceToWeightMap : gmap string Z;
  scoreStrategyFunc : option scoreStrategyFn;
  scoreStrategyType : string;
}.

(** Calling a nil function is a panic. *)
Definition scorer (tm : TopologyMatch) : scoreStrategyFn := λ requested allocatable rw,
  f ← deref (scoreStrategyFunc tm); f requested allocatable rw.

Abbreviation scoringFn := (Pod → list Zone → outcome (Z * Status)).

Definition scoringHandlerFromTopologyManagerConfig (tm : TopologyMatch) (conf : TopologyManager) : option scoringFn :=
  if bool_decide (scoreStrategyType tm = LeastNUMANodes) then
    if bool_decide (Scope conf = PodTopologyManagerScope) then Some leastNUMAPodScopeScore
    else if bool_decide (Scope conf = ContainerTopologyManagerScope) then Some leastNUMAContainerScopeScore
    else None
  else if negb (bool_decide (Policy conf = SingleNumaNodeTopologyManagerPolicy)) then None
  else if bool_decide (Scope conf = PodTopologyManagerScope) then
    Some (λ pod zones, podScopeScore pod zones (scorer tm) (resourceToWeightMap tm))
  else if bool_decide (Scope conf = ContainerTopologyManagerScope) then
    Some (λ pod zones, containerScopeScore pod zones (scorer tm) (resourceToWeightMap tm))
  else None.

Definition tm_Score {C} `{!NrtCache C} (tm : TopologyMatch) (nrtCache : C) (pod : Pod) (nodeInfo : NodeInfo) :
    outcome (Z * Status) :=
  node ← deref (ni_node nodeInfo);
  let nodeName := n_name node in
  if negb (bool_decide (GetPodQOS pod = PodQOSGuaranteed)) then Ret (MaxNodeScore, None)
  else
    let '(nodeTopology, info) := GetCachedNRTCopy nrtCache nodeName pod in
    if negb (Fresh info) then Ret (0, None)
    else match nodeTopology with
    | None => Ret (0, None)
    | Some nodeTopology =>
        match scoringHandlerFromTopologyManagerConfig tm (TopologyManagerFromNodeResourceTopology nodeTopology) with
        | None => Ret (0, None)
        | Some handler => handler pod (nrt_Zones nodeTopology)
        end
    end.
End NumaScore.

(** ** The score of a NUMA node *)

Section Strategies.
Context `{MapOrder} `{QuantityOps} `{!QuantitySpec} `{!FrameworkOps} `{NrtAPI} `{BitMaskOps} `{GonumStat}.

(** Quantities that are not negative and whose value times 100 fits an int64. *)
Definition moderate (q : Quantity) : Prop := 0 ≤ amount q ≤ 10 ^ 25.

Lemma moderate_value q : moderate q → q_Value q = div_away (amount q) (10 ^ 9) ∧ 0 ≤ q_Value q ≤ 10 ^ 16.
Proof.
  intros Hq. unfold moderate in Hq.
  assert (Hd : 0 ≤ div_away (amount q) (10 ^ 9) ≤ 10 ^ 16).
  { unfold div_away. rewrite decide_True by lia. split; [apply Z.div_pos; lia|].
    apply Z.lt_succ_r. apply Z.div_lt_upper_bound; lia. }
  rewrite q_Value_spec by (unfold in64; lia). done.
Qed.

Lemma value_mono q r : moderate q → moderate r → amount q ≤ amount r → q_Value q ≤ q_Value r.
Proof.
  intros Hq Hr Hle. rewrite (proj1 (moderate_value q Hq)), (proj1 (moderate_value r Hr)).
  unfold moderate, div_away in *. rewrite !decide_True by lia. apply Z.div_le_mono; lia.
Qed.

Lemma value_pos q : moderate q → 0 < amount q → 0 < q_Value q.
Proof.
  intros Hq Hpos. rewrite (proj1 (moderate_value q Hq)). unfold moderate, div_away in *. rewrite decide_True by lia.
  apply Z.div_str_pos. lia.
Qed.

(** A score of one resource: a percentage, for any moderate quantities. *)
Definition percentage (score : Quantity → Quantity → outcome Z) : Prop :=
  ∀ q cap, moderate q → moderate cap → ∃ s, score q cap = Ret s ∧ 0 ≤ s ≤ MaxNodeScore.

Lemma fit_values q cap :
  moderate q → moderate cap → is_zero_int64 cap = false → bool_decide (q_Cmp q cap = Gt) = false →
  0 ≤ q_Value q ≤ q_Value cap ∧ 0 < q_Value cap ≤ 10 ^ 16.
Proof.
  intros Hq Hc Hz Hgt. unfold is_zero_int64 in Hz. rewrite bool_decide_eq_false, q_Cmp_spec, amount_NewQuantity in Hz.
  rewrite bool_decide_eq_false, q_Cmp_spec in Hgt. rewrite Z.compare_gt_iff in Hgt. rewrite Z.compare_eq_iff in Hz.
  pose proof (moderate_value q Hq) as [_ ?]. pose proof (moderate_value cap Hc) as [_ ?].
  pose proof (value_mono q cap Hq Hc ltac:(lia)). unfold moderate in Hc.
  pose proof (value_pos cap Hc ltac:(lia)). lia.
Qed.

Lemma go_div_percent a b : 0 < b → 0 ≤ a ≤ 100 * b → b ≤ 10 ^ 16 → ∃ s, go_div a b = Ret s ∧ 0 ≤ s ≤ 100.
Proof.
  intros Hb Ha Hb'. unfold go_div. rewrite decide_False by lia. eexists. split; [done|].
  rewrite Z.quot_div_nonneg by lia.
  assert (0 ≤ a / b ≤ 100); [|rewrite wrap64_id by (unfold in64; lia); done].
  split; [apply Z.div_pos; lia|]. apply Z.div_le_upper_bound; lia.
Qed.

Lemma leastAllocatedScore_percentage : percentage leastAllocatedScore.
Proof.
  intros q cap Hq Hc. unfold leastAllocatedScore.
  destruct (is_zero_int64 cap) eqn:Ez; [by exists 0|].
  destruct (bool_decide (q_Cmp q cap = Gt)) eqn:Eg; [by exists 0|].
  pose proof (fit_values q cap Hq Hc Ez Eg). unfold MaxNodeScore.
  rewrite (wrap64_id (q_Value cap - q_Value q)), wrap64_id by (unfold in64; lia).
  apply go_div_percent; lia.
Qed.

Lemma mostAllocatedScore_percentage : percentage mostAllocatedScore.
Proof.
  intros q cap Hq Hc. unfold mostAllocatedScore.
  destruct (is_zero_int64 cap) eqn:Ez; [by exists 0|].
  destruct (bool_decide (q_Cmp q cap = Gt)) eqn:Eg; [by exists 0|].
  pose proof (fit_values q cap Hq Hc Ez Eg). unfold MaxNodeScore.
  rewrite wrap64_id by (unfold in64; lia). apply go_div_percent; lia.
Qed.

Lemma weight_pos rw r : 1 ≤ weight rw r.
Proof. unfold weight, defaultWeight. destruct (rw !! r); [|done]. case_bool_decide; lia. Qed.

Definition total_weight (rw : gmap string Z) (requested : resource_list) : Z :=
  zsum (λ e, weight rw e.1) (range requested).

Definition moderate_list (rl : resource_list) : Prop := map_Forall (λ _ q, moderate q) rl.

Lemma moderate_in rl r : moderate_list rl → moderate (quantity_in rl r).
Proof.
  intros Hrl. unfold quantity_in. destruct (rl !! r) as [q|] eqn:E; cbn; [by apply (Hrl r)|].
  unfold moderate. rewrite amount_zero. lia.
Qed.

(** The weighted mean of percentages is a percentage. *)
Lemma weighted_mean_percentage score requested allocatable rw :
  percentage score → requested ≠ ∅ → moderate_list requested → moderate_list allocatable →
  total_weight rw requested ≤ 2 ^ 53 →
  ∃ s, weighted_mean score requested allocatable rw = Ret s ∧ 0 ≤ s ≤ MaxNodeScore.
Proof.
  intros Hscore Hne Hreq Hall Hw. unfold weighted_mean.
  assert (Hloop : ∀ l S0 W0, (∀ e, e ∈ l → moderate e.2) → 0 ≤ W0 → 0 ≤ S0 ≤ 100 * W0 →
    W0 + zsum (λ e, weight rw e.1) l ≤ 2 ^ 53 → ∃ S1, fold_outcome (weighted_step score allocatable rw) (S0, W0) l =
    Ret (S1, W0 + zsum (λ e, weight rw e.1) l) ∧ 0 ≤ S1 ≤ 100 * (W0 + zsum (λ e, weight rw e.1) l)).
  { induction l as [|[r q] l IH]; intros S0 W0 Hl HW HS HT; cbn [fold_outcome].
    { exists S0. cbn. rewrite Z.add_0_r. done. }
    cbn [weighted_step]. destruct (Hscore q (quantity_in allocatable r)) as (s & -> & Hs); [apply (Hl (r, q)); left|by apply moderate_in|].
    cbn [mbind outcome_bind]. pose proof (weight_pos rw r). cbn in HT.
    assert (0 ≤ zsum (λ e : string * Quantity, weight rw e.1) l).
    { apply zsum_nonneg. intros e _. pose proof (weight_pos rw e.1). lia. }
    fold (zsum (λ e : string * Quantity, weight rw e.1) l) in HT. unfold MaxNodeScore in Hs.
    assert (0 ≤ s * weight rw r ≤ 100 * weight rw r) by nia.
    rewrite (wrap64_id (s * weight rw r)), !wrap64_id by (unfold in64; rewrite ?wrap64_id by (unfold in64; lia); lia).
    destruct (IH (S0 + s * weight rw r) (W0 + weight rw r)) as (S1 & HS1 & Hb); [intros; apply Hl; by right|lia..|].
    exists S1. rewrite HS1. cbn. fold (zsum (λ e : string * Quantity, weight rw e.1) l).
    split; [do 2 f_equal; lia|lia]. }
  destruct (Hloop (range requested) 0 0) as (S1 & -> & Hb); [|lia|lia|unfold total_weight in Hw; lia|].
  { intros [r q] Hin. apply elem_of_range in Hin. by apply (Hreq r). }
  cbn [mbind outcome_bind]. rewrite Z.add_0_l in *. fold (total_weight rw requested) in *.
  assert (1 ≤ total_weight rw requested).
  { unfold total_weight. destruct (range requested) as [|e l] eqn:E.
    - destruct Hne. apply map_to_list_empty_iff. apply Permutation_nil_r. by rewrite <- range_perm, E.
    - cbn. pose proof (weight_pos rw e.1). assert (0 ≤ zsum (λ e, weight rw e.1) l); [|unfold zsum in *; lia].
      apply zsum_nonneg. intros e' _. pose proof (weight_pos rw e'.1). lia. }
  apply go_div_percent; lia.
Qed.
End Strategies.

(** ** The score of a node *)

Section NodeScore.
Context `{MapOrder} `{QuantityOps} `{!QuantitySpec} `{!FrameworkOps} `{NrtAPI} `{BitMaskOps} `{GonumStat}.

(** The lowest score that is not zero: zero if there is none. *)
Definition lowest (scores : list Z) (m : Z) : Prop :=
  (m = 0 ∧ ∀ s, s ∈ scores → s = 0) ∨ (m ≠ 0 ∧ m ∈ scores ∧ ∀ s, s ∈ scores → s = 0 ∨ m ≤ s).

Lemma lowest_step seen m s :
  lowest seen m →
  lowest (seen ++ [s])
    (if bool_decide (m = 0) || bool_decide (s ≠ 0) && bool_decide (s < m) then s else m).
Proof.
  unfold lowest. intros Hm. setoid_rewrite elem_of_app. setoid_rewrite list_elem_of_singleton.
  destruct Hm as [[-> Hz]|(Hm & Hin & Hle)].
  - rewrite bool_decide_true by done. cbn [orb]. destruct (decide (s = 0)) as [->|Hs]; [left|right].
    + split; [done|]. intros s' [?| ->]; auto.
    + split; [done|]. split; [by right|]. intros s' [?| ->]; [left; auto|right; lia].
  - rewrite bool_decide_false by done. cbn [orb]. right.
    destruct (bool_decide (s ≠ 0)) eqn:Es; cbn [andb]; [rewrite bool_decide_eq_true in Es|rewrite bool_decide_eq_false in Es].
    + case_bool_decide.
      * split; [done|]. split; [by right|]. intros s' [Hs'| ->]; [|right; lia]. destruct (Hle s' Hs'); [by left|right; lia].
      * split; [done|]. split; [by left|]. intros s' [Hs'| ->]; [by apply Hle|right; lia].
    + split; [done|]. split; [by left|]. intros s' [Hs'| ->]; [by apply Hle|left]. by apply dec_stable.
Qed.

Lemma scoreForEachNUMANode_lowest requested numaList (score : resource_list → resource_list → gmap string Z → outcome Z) rw
    (numa_score : NUMANode → Z) :
  (∀ n, n ∈ numaList → score requested (Resources n) rw = Ret (numa_score n)) →
  Forall (λ n, 0 ≤ NUMAID n < Z.of_nat (length numaList)) numaList →
  ∃ m, scoreForEachNUMANode requested numaList score rw = Ret m ∧ lowest (numa_score <$> numaList) m.
Proof.
  intros Hscore Hids. unfold scoreForEachNUMANode.
  enough (∀ rest seen m arr, lowest seen m → length arr = length numaList → rest ⊆ numaList →
    ∃ m' arr', fold_outcome (numa_step_score requested score rw) (m, arr) rest = Ret (m', arr') ∧ lowest (seen ++ (numa_score <$> rest)) m') as Hl.
  { destruct (Hl numaList [] 0 (replicate (length numaList) 0)) as (m' & arr' & -> & Hm');
      [left; split; [done|set_solver]|apply length_replicate|done|]. by exists m'. }
  induction rest as [|n rest IH]; intros seen m arr Hm Hlen Hsub; cbn [fold_outcome].
  { exists m, arr. by rewrite app_nil_r. }
  assert (Hn : n ∈ numaList) by (apply Hsub; left). cbn [numa_step_score]. rewrite (Hscore n Hn). cbn [mbind outcome_bind].
  rewrite Forall_forall in Hids. pose proof (Hids n Hn) as Hid. unfold set_index. rewrite decide_True by (rewrite Hlen; done).
  cbn [mbind outcome_bind]. destruct (IH (seen ++ [numa_score n]) _ (<[Z.to_nat (NUMAID n):=numa_score n]> arr)
    (lowest_step seen m (numa_score n) Hm)) as (m' & arr' & E & Hm'); [by rewrite length_insert|set_solver|].
  exists m', arr'. split; [exact E|]. by rewrite <- app_assoc in Hm'.
Qed.

(** With the strategies LeastAllocated and MostAllocated a NUMA node scores
    between 0 and 100 for a pod, and the node scores the lowest of these that is
    not zero (zero if there is none): no panic, for a request that is not empty
    and NUMA nodes numbered 0, 1, ... *)
Theorem podScopeScore_lowest pod zones nodes (strategy : Quantity → Quantity → outcome Z) rw :
  strategy = leastAllocatedScore ∨ strategy = mostAllocatedScore →
  createNUMANodeList zones = Ret nodes → Forall (λ n, 0 ≤ NUMAID n < Z.of_nat (length nodes)) nodes →
  let resources := GetPodEffectiveRequest pod in
  resources ≠ ∅ → moderate_list resources → Forall (λ n, moderate_list (Resources n)) nodes →
  total_weight rw resources ≤ 2 ^ 53 →
  ∃ (numa_score : NUMANode → Z) m,
    (∀ n, n ∈ nodes → weighted_mean strategy resources (Resources n) rw = Ret (numa_score n) ∧
                      0 ≤ numa_score n ≤ MaxNodeScore) ∧
    podScopeScore pod zones (weighted_mean strategy) rw = Ret (m, None) ∧
    lowest (numa_score <$> nodes) m ∧ 0 ≤ m ≤ MaxNodeScore.
Proof.
  intros Hstrat Hzones Hids resources Hne Hreq Hall Hw.
  assert (Hpct : percentage strategy)
    by (destruct Hstrat as [-> | ->]; [apply leastAllocatedScore_percentage|apply mostAllocatedScore_percentage]).
  assert (Hn : ∀ n, n ∈ nodes → ∃ s, weighted_mean strategy resources (Resources n) rw = Ret s ∧ 0 ≤ s ≤ MaxNodeScore).
  { intros n Hn. apply weighted_mean_percentage; [done..| |done]. rewrite Forall_forall in Hall. by apply Hall. }
  set (numa_score n := match weighted_mean strategy resources (Resources n) rw with Ret s => s | Panic => 0 end).
  assert (Hs : ∀ n, n ∈ nodes → weighted_mean strategy resources (Resources n) rw = Ret (numa_score n) ∧
                      0 ≤ numa_score n ≤ MaxNodeScore).
  { intros n Hin. destruct (Hn n Hin) as (s & E & Hs). unfold numa_score. by rewrite E. }
  destruct (scoreForEachNUMANode_lowest resources nodes (weighted_mean strategy) rw numa_score) as (m & Hm & Hlow);
    [intros n Hin; by apply Hs|done|].
  exists numa_score, m. split; [done|]. split.
  { unfold podScopeScore. rewrite Hzones. cbn [mbind outcome_bind]. fold resources. by rewrite Hm. }
  split; [done|]. destruct Hlow as [[-> _]|(_ & Hin & _)]; [by unfold MaxNodeScore|].
  apply list_elem_of_fmap in Hin as (n & -> & Hin). by apply Hs.
Qed.
End NodeScore.

(** ** Witness *)

Definition ws_zones : list Zone := [w_numa_zone "node-0" 20; w_numa_zone "node-1" 40].

(** Ten cores of 20 leave half of the node, of 40 three quarters. *)
Lemma podScopeScore_lowest_witness :
  podScopeScore (w_guaranteed 2 8) ws_zones leastAllocatedScoreStrategy ∅ = Ret (50, None) ∧
  ∃ m, podScopeScore (w_guaranteed 2 8) ws_zones leastAllocatedScoreStrategy ∅ = Ret (m, None) ∧ 0 ≤ m ≤ MaxNodeScore.
Proof.
  split; [vm_compute; reflexivity|].
  destruct (podScopeScore_lowest (w_guaranteed 2 8) ws_zones [w_numa 0 20; w_numa 1 40] leastAllocatedScore ∅)
    as (numa_score & m & _ & Hm & _ & Hb);
    [by left|reflexivity|apply (bool_decide_eq_true_1 _); vm_compute; reflexivity
    |apply (bool_decide_eq_false_1 _); vm_compute; reflexivity|..|exists m; split; [exact Hm|exact Hb]].
  - apply (bool_decide_eq_true_1 _); vm_compute; reflexivity.
  - apply (bool_decide_eq_true_1 _); vm_compute; reflexivity.
  - vm_compute. discriminate.
Defined.

(** An empty request divides by the weight zero. *)
Lemma empty_request_panics : leastAllocatedScoreStrategy ∅ ∅ ∅ = Panic.
Proof. vm_compute. reflexivity. Qed.
