(* ===== verification/SySched.v ===== *)
(** * The system-call aware score plugin (pkg/sysched/sysched.go)

    The plugin remembers which running pods are on each node and the union of
    the system calls their seccomp profiles allow; the informer callbacks keep
    both up to date.  The score of a node is the number of extraneous system
    calls: the calls some pod of the node may make and another one may not,
    summed over the pods, the new pod included.

    The profiles are read from the API server through [client], whose answers
    may change between two events.  The actions that count as allowing are
    constants of a package the plugin imports. *)

From S2P Require Import Prelude Float64 Strconv K8s K8sModel.
From Stdlib Require Import QArith Ascii.
From stdpp Require Import gmap.

Open Scope Z_scope.

(** One category of spec.syscalls of a SeccompProfile object. *)
Record Syscall := { Action : string; Names : list string }.

(** github.com/containers/common/pkg/seccomp *)
Class SeccompActions : Type := { ActAllow : string; ActLog : string }.

(** client.Get: by namespace and name; [None] is an error. *)
Abbreviation profile_client := (string → string → option (list Syscall)).

Record SySched `{QuantityOps} := mkSySched {
  client : profile_client;
  HostToPods : gmap string (list Pod);
  HostSyscalls : gmap string (gset string);
  ExSAvg : Q;
  ExSAvgCount : Z;
  DefaultProfileNamespace : string;
  DefaultProfileName : string;
}.

(** The tracked pods of a node, and of all nodes; see the specification below. *)
Abbreviation tracked := (gmap string (@Pod _ * gset string)).
Abbreviation tracker := (gmap string tracked).

Definition SPO_ANNOTATION : string := "seccomp.security.alpha.kubernetes.io".

(** [s[i] = s[len(s)-1]; return s[:len(s)-1]] *)
Definition remove {A} (s : list A) (i : nat) : list A :=
  match last s with
  | None => []
  | Some x => take (length s - 1) (<[i := x]> s)
  end.

(** The namespace and the file name without extension; [parts] has an element
    at both indices, the default is never read. *)
Definition parseNameNS (profilePath : string) : string * string :=
  if bool_decide (profilePath = "") then ("", "") else
  let parts := Split profilePath "/"%char in
  if bool_decide (length parts < 2)%nat then ("", "") else
  let ns := nth (length parts - 2) parts "" in
  let file := nth (length parts - 1) parts "" in
  (ns, TrimSuffix file (Ext file)).

Definition set_hosts `{QuantityOps} (sc : SySched) (pods : gmap string (list Pod)) (calls : gmap string (gset string)) :
  SySched :=
  mkSySched _ (client sc) pods calls (ExSAvg sc) (ExSAvgCount sc) (DefaultProfileNamespace sc) (DefaultProfileName sc).

Section Plugin.
Context `{QuantityOps} `{SeccompActions}.

(** ** Reading profiles *)

Definition allow_step (syscalls : gset string) (element : Syscall) : gset string :=
  if bool_decide (Action element = ActAllow) || bool_decide (Action element = ActLog)
  then syscalls ∪ list_to_set (Names element) else syscalls.

(** The set, and whether reading failed. *)
Definition readSPOProfileCR (sc : SySched) (name namespace : string) : gset string * bool :=
  if bool_decide (name = "") || bool_decide (namespace = "") then (∅, false) else
  match client sc namespace name with
  | None => (∅, true)
  | Some syscallCategories => (foldl allow_step ∅ syscallCategories, false)
  end.

(** The profile of a security context, merged into [r]. *)
Definition merge_context (sc : SySched) (r : gset string) (ctx : option SeccompProfile) : gset string :=
  match ctx with
  | None => r
  | Some profile =>
      if bool_decide (sp_type profile = "Localhost") then
        match sp_localhost profile with
        | None => r
        | Some profilePath =>
            let '(ns, name) := parseNameNS profilePath in
            if negb (bool_decide (ns = "")) && negb (bool_decide (name = ""))
            then r ∪ (readSPOProfileCR sc name ns).1 else r
        end
      else r
  end.

(** The loop over the annotations: it goes on after a key of another kind and
    after a profile that cannot be read, and stops after the first one that can. *)
Fixpoint annotation_loop (sc : SySched) (r : gset string) (annotations : list (string * string)) : gset string :=
  match annotations with
  | [] => r
  | (k, v) :: annotations =>
      if Contains k SPO_ANNOTATION then
        let '(ns, name) := parseNameNS v in
        if negb (bool_decide (ns = "")) && negb (bool_decide (name = "")) then
          let '(syscalls, err) := readSPOProfileCR sc name ns in
          if err : bool then annotation_loop sc r annotations else r ∪ syscalls
        else r
      else annotation_loop sc r annotations
  end.

Definition getSyscalls (O : MapOrder) (sc : SySched) (pod : Pod) : gset string :=
  let r := merge_context sc ∅ (p_seccomp pod) in
  let r := foldl (merge_context sc) r (c_seccomp <$> p_containers pod) in
  let r := annotation_loop sc r (range (p_annotations pod)) in
  if decide (r = ∅) then r ∪ (readSPOProfileCR sc (DefaultProfileName sc) (DefaultProfileNamespace sc)).1 else r.

(** ** The cache *)

Definition getHostSyscalls (sc : SySched) (nodeName : string) : Z * option (gset string) :=
  match HostSyscalls sc !! nodeName with
  | None => (0, None)
  | Some h => (Z.of_nat (size h), Some h)
  end.

(** Union on a missing entry is union on the nil set. *)
Definition updateHostSyscalls (O : MapOrder) (sc : SySched) (pod : Pod) : SySched :=
  set_hosts sc (HostToPods sc)
    (<[p_node_name pod := default ∅ (HostSyscalls sc !! p_node_name pod) ∪ getSyscalls O sc pod]> (HostSyscalls sc)).

Definition addPod (O : MapOrder) (sc : SySched) (pod : Pod) : SySched :=
  let nodeName := p_node_name pod in
  match HostToPods sc !! nodeName with
  | None =>
      updateHostSyscalls O
        (set_hosts sc (<[nodeName := [pod]]> (HostToPods sc)) (<[nodeName := ∅]> (HostSyscalls sc))) pod
  | Some pods =>
      if existsb (λ p, bool_decide (p_name p = p_name pod)) pods then sc
      else updateHostSyscalls O (set_hosts sc (<[nodeName := pods ++ [pod]]> (HostToPods sc)) (HostSyscalls sc)) pod
  end.

Definition recompute_step (O : MapOrder) (sc : SySched) (syscalls : gset string) (p : Pod) : gset string :=
  syscalls ∪ getSyscalls O sc p.

Definition recomputeHostSyscalls (O : MapOrder) (sc : SySched) (pods : list Pod) : gset string :=
  foldl (recompute_step O sc) ∅ pods.

Definition removePod (O : MapOrder) (sc : SySched) (pod : Pod) : SySched :=
  let nodeName := p_node_name pod in
  match HostToPods sc !! nodeName with
  | None => sc
  | Some pods =>
      match list_find (λ p, p_name p = p_name pod) pods with
      | None => sc
      | Some (i, _) =>
          let rest := remove pods i in
          set_hosts sc (<[nodeName := rest]> (HostToPods sc))
            (<[nodeName := recomputeHostSyscalls O sc rest]> (HostSyscalls sc))
      end
  end.

Definition podAdded (O : MapOrder) (sc : SySched) (pod : Pod) : SySched :=
  if bool_decide (p_phase pod = PodRunning) then addPod O sc pod else sc.

(** The callback reads the old object of the update. *)
Definition podUpdated (O : MapOrder) (sc : SySched) (old new : Pod) : SySched :=
  if bool_decide (p_phase old = PodPending) && negb (bool_decide (p_host_ip old = "")) then addPod O sc old else sc.

(** Of a pod; the type assertion on the tombstone of a missed deletion panics. *)
Definition podDeleted (O : MapOrder) (sc : SySched) (pod : Pod) : SySched := removePod O sc pod.

(** ** The score *)

Definition calcScore (syscalls : gset string) : Z :=
  let totCrit := 0 in
  let W := 1 in
  let score := Z.of_nat (size syscalls) -₆₄ totCrit in
  score +₆₄ (W *₆₄ totCrit).

Definition diff_step (O : MapOrder) (sc : SySched) (newHostSyscalls : gset string) (totalDiffs : Z) (p : Pod) : Z :=
  totalDiffs +₆₄ calcScore (newHostSyscalls ∖ getSyscalls O sc p).

Definition record_score (sc : SySched) (totalDiffs : Z) : SySched :=
  mkSySched _ (client sc) (HostToPods sc) (HostSyscalls sc)
    (f64_add (ExSAvg sc) (f64_div (f64_sub (f64_of_int totalDiffs) (ExSAvg sc)) (f64_of_int (ExSAvgCount sc))))
    (ExSAvgCount sc +₆₄ 1) (DefaultProfileNamespace sc) (DefaultProfileName sc).

(** The status is always nil. *)
Definition Score (O : MapOrder) (sc : SySched) (pod : Pod) (nodeInfo : NodeInfo) : SySched * Z :=
  match ni_node nodeInfo with
  | None => (sc, 0)
  | Some node =>
      let podSyscalls := getSyscalls O sc pod in
      if decide (podSyscalls = ∅) then (sc, MaxInt64) else
      match (getHostSyscalls sc (n_name node)).2 with
      | None => (sc, 0)
      | Some hostSyscalls =>
          let totalDiffs := calcScore (hostSyscalls ∖ podSyscalls) in
          let newHostSyscalls := hostSyscalls ∪ podSyscalls in
          let totalDiffs :=
            foldl (diff_step O sc newHostSyscalls) totalDiffs (default [] (HostToPods sc !! n_name node)) in
          (record_score sc totalDiffs, totalDiffs)
      end
  end.

(** [New]: the arguments must be of the plugin's type and the client must be
    made; the callbacks are registered for all pods. *)
Definition New (args : option (string * string)) (c : option profile_client) : option SySched :=
  '(ns, name) ← args;
  c ← c;
  Some (mkSySched _ c ∅ ∅ 0 1 ns name).

(** ** Runs

    The callbacks and the calls of Score, each one taken as a whole, and the
    changes of the profiles between them.  Every event may see the annotations in
    another order. *)

Inductive event :=
| Added (pod : Pod)
| Updated (old new : Pod)
| Deleted (pod : Pod)
| Scored (pod : Pod) (nodeInfo : NodeInfo)
| ProfilesChanged (c : profile_client).

Definition set_client (sc : SySched) (c : profile_client) : SySched :=
  mkSySched _ c (HostToPods sc) (HostSyscalls sc) (ExSAvg sc) (ExSAvgCount sc) (DefaultProfileNamespace sc)
    (DefaultProfileName sc).

Definition handle (O : MapOrder) (sc : SySched) (e : event) : SySched :=
  match e with
  | Added pod => podAdded O sc pod
  | Updated old new => podUpdated O sc old new
  | Deleted pod => podDeleted O sc pod
  | Scored pod ni => (Score O sc pod ni).1
  | ProfilesChanged c => set_client sc c
  end.

Definition play (sc : SySched) (events : list (MapOrder * event)) : SySched :=
  foldl (λ sc e, handle e.1 sc e.2) sc events.

(** *** The specification

    A tracker knows the pods of each node by their names, each with the system
    calls that were read for it last.  A pod is tracked once it is reported
    running, or was pending with a host address before an update; the first pod
    of a name stays.  When a pod goes, the others of its node are read again. *)

Definition track (calls : Pod → gset string) (t : tracker) (pod : Pod) : tracker :=
  let m := default ∅ (t !! p_node_name pod) in
  match m !! p_name pod with
  | Some _ => t
  | None => <[p_node_name pod := <[p_name pod := (pod, calls pod)]> m]> t
  end.

Definition untrack (calls : Pod → gset string) (t : tracker) (pod : Pod) : tracker :=
  match t !! p_node_name pod with
  | None => t
  | Some m =>
      match m !! p_name pod with
      | None => t
      | Some _ => <[p_node_name pod := (λ v, (v.1, calls v.1)) <$> delete (p_name pod) m]> t
      end
  end.

Definition follow (calls : Pod → gset string) (t : tracker) (e : event) : tracker :=
  match e with
  | Added pod => if bool_decide (p_phase pod = PodRunning) then track calls t pod else t
  | Updated old _ =>
      if bool_decide (p_phase old = PodPending) && negb (bool_decide (p_host_ip old = "")) then track calls t old else t
  | Deleted pod => untrack calls t pod
  | _ => t
  end.

(** The profiles of a plugin that answers with [c]. *)
Definition calls_of (O : MapOrder) (c : profile_client) (ns name : string) : Pod → gset string :=
  getSyscalls O (mkSySched _ c ∅ ∅ 0 1 ns name).

Definition spec_step (ns name : string) (st : profile_client * tracker) (e : MapOrder * event) :
    profile_client * tracker :=
  (match e.2 with ProfilesChanged c => c | _ => st.1 end, follow (calls_of e.1 st.1 ns name) st.2 e.2).

Definition spec (c : profile_client) (ns name : string) (events : list (MapOrder * event)) :
    profile_client * tracker := foldl (spec_step ns name) (c, ∅) events.

Definition pods_of (m : tracked) : list Pod := (map_to_list m).*2.*1.
Definition seen (m : tracked) : gset string := ⋃ (map_to_list m).*2.*2.

(** The extraneous system calls of the tracked pods and a new one: what some pod
    of the node was seen to allow, or the new pod allows, and one of them does not. *)
Definition extraneous (calls : Pod → gset string) (m : tracked) (pod : Pod) : Z :=
  zsum (λ p, Z.of_nat (size ((seen m ∪ calls pod) ∖ calls p))) (pod :: pods_of m).

(** A pod has at most one seccomp annotation. *)
Definition one_annotation (pod : Pod) : Prop :=
  ∀ k1 k2, k1 ∈ dom (p_annotations pod) → k2 ∈ dom (p_annotations pod) →
    Contains k1 SPO_ANNOTATION = true → Contains k2 SPO_ANNOTATION = true → k1 = k2.

(** Nothing makes a reading stale: the profiles stay as they are and are read
    alike in every order of the annotations. *)
Definition steady (e : event) : Prop :=
  match e with
  | Added pod => one_annotation pod
  | Updated old _ => one_annotation old
  | ProfilesChanged _ => False
  | _ => True
  end.

(** What the profiles allow to the pods of a list. *)
Definition exposed (O : MapOrder) (sc : SySched) (pods : list Pod) : gset string :=
  ⋃ (getSyscalls O sc <$> pods).

(** The extraneous system calls of pods that share a node. *)
Definition exposure (O : MapOrder) (sc : SySched) (pods : list Pod) : Z :=
  zsum (λ p, Z.of_nat (size (exposed O sc pods ∖ getSyscalls O sc p))) pods.

End Plugin.

(** ** Lemmas *)

Lemma remove_perm {A} (s : list A) i x : s !! i = Some x → s ≡ₚ x :: remove s i.
Proof.
  intros Hi. unfold remove. destruct s as [|y s _] using rev_ind; [done|].
  rewrite last_snoc, length_app. replace (length s + length [y] - 1)%nat with (length s) by (simpl; lia).
  apply lookup_app_Some in Hi as [Hi|[Hlen Hi]].
  - pose proof (lookup_lt_Some _ _ _ Hi).
    rewrite insert_app_l, take_app_length' by (rewrite ?length_insert; done).
    rewrite insert_take_drop by done. rewrite <- (take_drop_middle s i x Hi) at 1.
    rewrite <- app_assoc. simpl. rewrite <- (Permutation_middle (take i s) (drop (S i) s ++ [y]) x).
    constructor. f_equiv. by rewrite Permutation_app_comm.
  - destruct (i - length s)%nat eqn:E; [|done]. injection Hi as <-.
    rewrite (insert_app_r_alt s [y]), take_app_length by lia. by rewrite Permutation_app_comm.
Qed.

Section Facts.
Context `{QuantityOps} `{SeccompActions}.
Implicit Types (sc : SySched) (pod p : Pod) (O : MapOrder).

Lemma annotation_loop_none sc r l :
  (∀ k v, (k, v) ∈ l → Contains k SPO_ANNOTATION = false) → annotation_loop sc r l = r.
Proof.
  induction l as [|[k v] l IH]; intros Hl; simpl; [done|].
  rewrite (Hl k v) by (by left). apply IH. intros k' v' Hin. apply (Hl k' v'). by right.
Qed.

(** With one seccomp annotation the loop reads it, wherever it stands. *)
Lemma annotation_loop_single sc r l k v :
  NoDup l.*1 → (k, v) ∈ l → Contains k SPO_ANNOTATION = true →
  (∀ k' v', (k', v') ∈ l → Contains k' SPO_ANNOTATION = true → k' = k) →
  annotation_loop sc r l = annotation_loop sc r [(k, v)].
Proof.
  induction l as [|[k' v'] l IH]; intros Hnd Hin Hk Huniq; [by inversion Hin|].
  simpl in Hnd. apply NoDup_cons in Hnd as [Hk' Hnd].
  apply elem_of_cons in Hin as [[= <- <-]|Hin].
  - assert (∀ r, annotation_loop sc r l = r) as Hrest.
    { intros r'. apply annotation_loop_none. intros k2 v2 Hin2.
      destruct (Contains k2 SPO_ANNOTATION) eqn:E; [|done]. exfalso. apply Hk'.
      rewrite <- (Huniq k2 v2) by (done || by right). apply list_elem_of_fmap. by exists (k2, v2). }
    simpl. rewrite Hk. destruct (parseNameNS v) as [ns name]. destruct (_ && _); [|done].
    destruct (readSPOProfileCR sc name ns) as [syscalls []]; [apply Hrest|done].
  - assert (k' ≠ k). { intros ->. apply Hk'. apply list_elem_of_fmap. by exists (k, v). }
    simpl. destruct (Contains k' SPO_ANNOTATION) eqn:E.
    + exfalso. by apply H1, (Huniq k' v'); [left|].
    + rewrite IH; [done..|]. intros k2 v2 Hin2. apply (Huniq k2 v2). by right.
Qed.

Lemma getSyscalls_order O1 O2 sc pod : one_annotation pod → getSyscalls O1 sc pod = getSyscalls O2 sc pod.
Proof.
  intros Hone. unfold getSyscalls. set (r := foldl _ _ _).
  enough (annotation_loop sc r (range (MapOrder := O1) (p_annotations pod)) =
          annotation_loop sc r (range (MapOrder := O2) (p_annotations pod))) as -> by done.
  destruct (existsb (λ kv, Contains kv.1 SPO_ANNOTATION) (map_to_list (p_annotations pod))) eqn:E.
  - apply existsb_exists in E as ([k v] & Hin & Hk). apply list_elem_of_In, elem_of_map_to_list in Hin.
    assert (∀ (O : MapOrder), annotation_loop sc r (range (p_annotations pod)) = annotation_loop sc r [(k, v)]) as Hany.
    { intros O. apply annotation_loop_single; [apply range_NoDup|by apply elem_of_range|done|].
      intros k' v' Hin' Hk'. apply elem_of_range in Hin'.
      apply Hone; [apply elem_of_dom; by eexists..|done|done]. }
    by rewrite !Hany.
  - assert (∀ (O : MapOrder), annotation_loop sc r (range (p_annotations pod)) = r) as Hany.
    { intros O. apply annotation_loop_none. intros k v Hin. apply elem_of_range, elem_of_map_to_list in Hin.
      destruct (Contains k SPO_ANNOTATION) eqn:Hk; [|done]. exfalso.
      assert (existsb (λ kv : string * string, Contains kv.1 SPO_ANNOTATION) (map_to_list (p_annotations pod)) = true);
        [|congruence].
      apply existsb_exists. exists (k, v). by rewrite <- list_elem_of_In. }
    by rewrite !Hany.
Qed.

(** Two states that agree on the client and the default profile. *)
Definition same_profiles sc sc' : Prop :=
  client sc' = client sc ∧ DefaultProfileNamespace sc' = DefaultProfileNamespace sc ∧
  DefaultProfileName sc' = DefaultProfileName sc.

Lemma readSPOProfileCR_config sc sc' name ns :
  same_profiles sc sc' → readSPOProfileCR sc' name ns = readSPOProfileCR sc name ns.
Proof. intros (E & _). unfold readSPOProfileCR. by rewrite E. Qed.

Lemma merge_context_config sc sc' r ctx : same_profiles sc sc' → merge_context sc' r ctx = merge_context sc r ctx.
Proof.
  intros E. destruct ctx as [[ty [path|]]|]; [|done..]. unfold merge_context. simpl.
  destruct (parseNameNS path) as [ns name]. by rewrite (readSPOProfileCR_config sc sc').
Qed.

Lemma merge_contexts_config sc sc' r l :
  same_profiles sc sc' → foldl (merge_context sc') r l = foldl (merge_context sc) r l.
Proof.
  intros E. revert r. induction l as [|ctx l IH]; intros r; simpl; [done|].
  by rewrite (merge_context_config sc sc'), IH.
Qed.

Lemma annotation_loop_config sc sc' r l :
  same_profiles sc sc' → annotation_loop sc' r l = annotation_loop sc r l.
Proof.
  intros E. induction l as [|[k v] l IH]; simpl; [done|].
  destruct (parseNameNS v) as [ns name]. by rewrite (readSPOProfileCR_config sc sc'), IH.
Qed.

Lemma getSyscalls_config O sc sc' pod : same_profiles sc sc' → getSyscalls O sc' pod = getSyscalls O sc pod.
Proof.
  intros E. pose proof E as (_ & Ens & Ename). unfold getSyscalls.
  rewrite (merge_context_config sc sc'), (annotation_loop_config sc sc') by done.
  rewrite (merge_contexts_config sc sc') by done.
  by rewrite Ens, Ename, (readSPOProfileCR_config sc sc').
Qed.

Lemma set_hosts_profiles sc pods calls : same_profiles sc (set_hosts sc pods calls).
Proof. done. Qed.

(** *** The union of the profiles of a list *)

Lemma exposed_cons O sc p l : exposed O sc (p :: l) = getSyscalls O sc p ∪ exposed O sc l.
Proof. done. Qed.

Lemma exposed_perm O sc l l' : l ≡ₚ l' → exposed O sc l = exposed O sc l'.
Proof. intros E. unfold exposed. apply leibniz_equiv. by rewrite E. Qed.

Lemma exposed_snoc O sc l p : exposed O sc (l ++ [p]) = exposed O sc l ∪ getSyscalls O sc p.
Proof.
  rewrite (exposed_perm O sc _ (p :: l)) by (by rewrite Permutation_app_comm).
  rewrite exposed_cons. apply (comm_L _).
Qed.

Lemma exposed_config O sc sc' l : same_profiles sc sc' → exposed O sc' l = exposed O sc l.
Proof.
  intros E. induction l as [|p l IH]; [done|]. by rewrite !exposed_cons, IH, (getSyscalls_config O sc sc').
Qed.

Lemma exposed_same O1 O2 sc sc' l :
  same_profiles sc sc' → Forall one_annotation l → exposed O1 sc' l = exposed O2 sc l.
Proof.
  intros E. induction 1 as [|p l Hp _ IH]; [done|].
  by rewrite !exposed_cons, IH, (getSyscalls_config O1 sc sc'), (getSyscalls_order O1 O2).
Qed.

Lemma recomputeHostSyscalls_exposed O sc pods : recomputeHostSyscalls O sc pods = exposed O sc pods.
Proof.
  unfold recomputeHostSyscalls. enough (∀ s, foldl (recompute_step O sc) s pods = s ∪ exposed O sc pods) as E.
  { rewrite E. apply (left_id_L ∅ (∪)). }
  induction pods as [|p pods IH]; intros s; simpl; [symmetry; apply (right_id_L ∅ (∪))|].
  rewrite IH, exposed_cons. unfold recompute_step. by rewrite (assoc_L (∪)).
Qed.

Lemma calcScore_size s : calcScore s = wrap64 (Z.of_nat (size s)).
Proof. unfold calcScore. rewrite wrap64_add_l. f_equal. cbn. rewrite Z.sub_0_r, Z.add_0_r. done. Qed.

Lemma calcScore_in64 s : in64 (calcScore s).
Proof. rewrite calcScore_size. apply wrap64_in. Qed.

Lemma foldl_diff_in64 O sc U pods t :
  in64 t → foldl (diff_step O sc U) t pods = wrap64 (foldl (diff_step O sc U) t pods).
Proof.
  intros Ht. symmetry. apply wrap64_id. revert t Ht.
  induction pods as [|p pods IH]; intros t Ht; simpl; [done|]. apply IH, wrap64_in.
Qed.

Lemma diff_steps O sc U pods t :
  wrap64 (foldl (diff_step O sc U) t pods) =
  wrap64 (t + zsum (λ p, Z.of_nat (size (U ∖ getSyscalls O sc p))) pods).
Proof.
  revert t. induction pods as [|p pods IH]; intros t; simpl; [f_equal; lia|].
  rewrite IH. unfold diff_step. rewrite calcScore_size, wrap64_add_l.
  rewrite (Z.add_comm t), <- Z.add_assoc, wrap64_add_l. f_equal. unfold zsum. lia.
Qed.

(** ** The refinement *)

Lemma elem_of_pods m p : p ∈ pods_of m ↔ ∃ name s, m !! name = Some (p, s).
Proof.
  unfold pods_of. rewrite list_elem_of_fmap. split.
  - intros ([p' s] & -> & ([name v] & Hv & Hin)%list_elem_of_fmap). cbn in Hv. subst v. exists name, s. cbn. by apply elem_of_map_to_list.
  - intros (name & s & Hm%elem_of_map_to_list). exists (p, s). split; [done|]. apply list_elem_of_fmap. by exists (name, (p, s)).
Qed.

Lemma elem_of_seen m x : x ∈ seen m ↔ ∃ name p s, m !! name = Some (p, s) ∧ x ∈ s.
Proof.
  unfold seen. rewrite elem_of_union_list. split.
  - intros (s & ([p s'] & -> & ([name v] & Hv & Hin)%list_elem_of_fmap)%list_elem_of_fmap & Hx). cbn in Hv. subst v.
    exists name, p, s'. split; [by apply elem_of_map_to_list|done].
  - intros (name & p & s & Hm%elem_of_map_to_list & Hx). exists s. split; [|done].
    apply list_elem_of_fmap. exists (p, s). split; [done|]. apply list_elem_of_fmap. by exists (name, (p, s)).
Qed.

Lemma tracked_pods_insert m name p s : m !! name = None → pods_of (<[name := (p, s)]> m) ≡ₚ p :: pods_of m.
Proof. intros Hm. unfold pods_of. by rewrite map_to_list_insert. Qed.

Lemma seen_insert m name p s : m !! name = None → seen (<[name := (p, s)]> m) = seen m ∪ s.
Proof.
  intros Hm. unfold seen. apply leibniz_equiv. rewrite map_to_list_insert by done. cbn. by rewrite (comm (∪)).
Qed.

Lemma pods_of_refresh (f : Pod → gset string) m : pods_of ((λ v, (v.1, f v.1)) <$> m) = pods_of m.
Proof.
  unfold pods_of. rewrite map_to_list_fmap, <- !list_fmap_compose. apply list_fmap_ext. by intros ? [? []].
Qed.

Lemma seen_refresh O sc m : seen ((λ v, (v.1, getSyscalls O sc v.1)) <$> m) = exposed O sc (pods_of m).
Proof.
  unfold seen, exposed, pods_of. rewrite map_to_list_fmap, <- !list_fmap_compose. f_equal.
Qed.

(** The tracker files every pod under its node and name. *)
Definition filed (n : string) (m : tracked) : Prop :=
  map_Forall (λ name v, p_name v.1 = name ∧ p_node_name v.1 = n) m.

Definition node_matches (n : string) (pods : option (list Pod)) (calls : option (gset string)) (m : option tracked) :
    Prop :=
  match m with
  | None => pods = None ∧ calls = None
  | Some m => (∃ ps, pods = Some ps ∧ ps ≡ₚ pods_of m) ∧ calls = Some (seen m) ∧ filed n m
  end.

Definition matches sc (t : tracker) : Prop :=
  ∀ n, node_matches n (HostToPods sc !! n) (HostSyscalls sc !! n) (t !! n).

Lemma matches_set sc t n ps calls m :
  matches sc t → ps ≡ₚ pods_of m → calls = seen m → filed n m →
  matches (set_hosts sc (<[n := ps]> (HostToPods sc)) (<[n := calls]> (HostSyscalls sc))) (<[n := m]> t).
Proof.
  intros Hm Hps -> Hf n'. destruct (decide (n' = n)) as [->|]; simpl.
  - rewrite !lookup_insert_eq. split; [by exists ps|done].
  - rewrite !lookup_insert_ne by done. apply Hm.
Qed.

Lemma named_in_pods n m ps name :
  filed n m → ps ≡ₚ pods_of m → existsb (λ p, bool_decide (p_name p = name)) ps = bool_decide (is_Some (m !! name)).
Proof.
  intros Hf Hps. apply eq_true_iff_eq. rewrite existsb_exists, bool_decide_eq_true. split.
  - intros (p & Hin%list_elem_of_In & Hn%bool_decide_eq_true). rewrite Hps, elem_of_pods in Hin.
    destruct Hin as (name' & s & Hm). destruct (Hf _ _ Hm) as [<- _]. cbn in Hn, Hm. rewrite <- Hn. by eexists.
  - intros [[p s] Hm]. exists p. rewrite <- list_elem_of_In, Hps, elem_of_pods, bool_decide_eq_true.
    split; [by eexists _, _|]. by apply (Hf _ _ Hm).
Qed.

Lemma filed_insert n m pod s :
  filed n m → p_node_name pod = n → filed n (<[p_name pod := (pod, s)]> m).
Proof. intros Hf Hn. by apply map_Forall_insert_2. Qed.

Lemma addPod_matches O sc t pod :
  matches sc t → matches (addPod O sc pod) (track (getSyscalls O sc) t pod).
Proof.
  intros Hm. pose proof (Hm (p_node_name pod)) as Hn. unfold addPod, track.
  destruct (t !! p_node_name pod) as [m|] eqn:Et; simpl in Hn |- *.
  - destruct Hn as ((ps & -> & Hps) & Hcalls & Hf). rewrite (named_in_pods _ m) by done.
    destruct (m !! p_name pod) as [v|] eqn:Ev; [done|]. rewrite bool_decide_false by (by intros []).
    unfold updateHostSyscalls. simpl. rewrite Hcalls. simpl.
    apply (matches_set sc); [done| | |by apply filed_insert].
    + by rewrite tracked_pods_insert, Hps, Permutation_app_comm by done.
    + rewrite seen_insert by done. f_equal. by apply getSyscalls_config.
  - destruct Hn as [-> Hcalls]. rewrite lookup_empty. unfold updateHostSyscalls. simpl.
    rewrite lookup_insert_eq, insert_insert_eq. simpl.
    apply (matches_set sc); [done| | |apply filed_insert; [apply map_Forall_empty|done]].
    + by rewrite tracked_pods_insert by done.
    + rewrite seen_insert by done. f_equal. by apply getSyscalls_config.
Qed.

Lemma removePod_matches O sc t pod :
  matches sc t → matches (removePod O sc pod) (untrack (getSyscalls O sc) t pod).
Proof.
  intros Hm. pose proof (Hm (p_node_name pod)) as Hn. unfold removePod, untrack.
  destruct (t !! p_node_name pod) as [m|] eqn:Et; simpl in Hn |- *; [|by destruct Hn as [-> _]].
  destruct Hn as ((ps & -> & Hps) & Hcalls & Hf).
  destruct (list_find _ ps) as [[i p]|] eqn:Hfind.
  - apply list_find_Some in Hfind as (Hi & Hname & _).
    assert (Hp : p ∈ pods_of m) by (rewrite <- Hps; by eapply list_elem_of_lookup_2).
    apply elem_of_pods in Hp as (name & s & Hp). destruct (Hf _ _ Hp) as [Hname' _]. cbn in Hname'.
    rewrite <- Hname, Hname', Hp. apply remove_perm in Hi.
    assert (Hrest : remove ps i ≡ₚ pods_of (delete name m)).
    { apply (Permutation_cons_inv (a := p)). rewrite <- Hi, Hps.
      rewrite <- (insert_delete_id m name (p, s)) at 1 by done. by rewrite tracked_pods_insert by apply lookup_delete_eq. }
    apply (matches_set sc); [done|by rewrite pods_of_refresh| |].
    + rewrite recomputeHostSyscalls_exposed, seen_refresh. by apply exposed_perm.
    + intros name' v Hv. apply lookup_fmap_Some in Hv as (v' & <- & Hv'). apply lookup_delete_Some in Hv' as [_ Hv'].
      apply (Hf _ _ Hv').
  - apply list_find_None in Hfind. destruct (m !! p_name pod) as [[p s]|] eqn:Ev; [|done]. exfalso.
    rewrite Forall_forall in Hfind. apply (Hfind p); [rewrite Hps, elem_of_pods; by eexists _, _|].
    by apply (Hf _ _ Ev).
Qed.

Lemma Score_keeps O sc pod ni :
  HostToPods (Score O sc pod ni).1 = HostToPods sc ∧ HostSyscalls (Score O sc pod ni).1 = HostSyscalls sc ∧
  same_profiles sc (Score O sc pod ni).1.
Proof.
  unfold Score. destruct (ni_node ni) as [node|]; [|done].
  case_decide; [done|]. by destruct (getHostSyscalls sc (n_name node)).2.
Qed.

Lemma addPod_profiles O sc pod : same_profiles sc (addPod O sc pod).
Proof. unfold addPod. destruct (HostToPods sc !! _) as [pods|]; [|done]. by destruct (existsb _ _). Qed.

Lemma removePod_profiles O sc pod : same_profiles sc (removePod O sc pod).
Proof.
  unfold removePod. destruct (HostToPods sc !! _) as [pods|]; [|done]. by destruct (list_find _ _) as [[]|].
Qed.

(** The plugin and the specification, side by side. *)
Definition simulates (ns name : string) sc (st : profile_client * tracker) : Prop :=
  matches sc st.2 ∧ client sc = st.1 ∧ DefaultProfileNamespace sc = ns ∧ DefaultProfileName sc = name.

Lemma simulates_calls O ns name sc st :
  simulates ns name sc st → ∀ pod, calls_of O st.1 ns name pod = getSyscalls O sc pod.
Proof. intros (_ & Hc & Hns & Hn) pod. by apply getSyscalls_config. Qed.

Lemma follow_ext f g t e : (∀ pod, f pod = g pod) → follow f t e = follow g t e.
Proof.
  intros E. assert (Htrack : ∀ pod, track f t pod = track g t pod) by (intros pod; unfold track; by rewrite E).
  destruct e as [pod|old new|pod|pod ni|c]; simpl; rewrite ?Htrack; try done.
  unfold untrack. destruct (t !! p_node_name pod) as [m|]; [|done]. destruct (m !! p_name pod); [|done].
  f_equal. apply map_fmap_ext. intros n v _. by rewrite E.
Qed.

Lemma extraneous_ext f g m pod : (∀ pod, f pod = g pod) → extraneous f m pod = extraneous g m pod.
Proof. intros E. apply zsum_ext. intros p _. by rewrite !E. Qed.

Lemma simulates_profiles ns name sc st sc' t :
  simulates ns name sc st → same_profiles sc sc' → matches sc' t → simulates ns name sc' (st.1, t).
Proof. intros (_ & Hc & Hns & Hn) (E1 & E2 & E3) Hm. split; [done|]. cbn. by rewrite E1, E2, E3. Qed.

Lemma handle_simulates ns name sc st O e :
  simulates ns name sc st → simulates ns name (handle O sc e) (spec_step ns name st (O, e)).
Proof.
  intros Hs. pose proof (simulates_calls O _ _ _ _ Hs) as Hcalls. pose proof Hs as (Hm & _).
  unfold spec_step. cbn [fst snd]. rewrite (follow_ext _ _ _ _ Hcalls).
  destruct e as [pod|old new|pod|pod ni|c]; simpl.
  - apply (simulates_profiles _ _ sc); [done|..]; unfold podAdded; case_bool_decide; try done;
      [apply addPod_profiles|by apply addPod_matches].
  - apply (simulates_profiles _ _ sc); [done|..]; unfold podUpdated; destruct (_ && _); try done;
      [apply addPod_profiles|by apply addPod_matches].
  - apply (simulates_profiles _ _ sc); [done|apply removePod_profiles|by apply removePod_matches].
  - destruct (Score_keeps O sc pod ni) as (E1 & E2 & E3).
    apply (simulates_profiles _ _ sc); [done|done|]. intros n. rewrite E1, E2. apply Hm.
  - destruct Hs as (_ & _ & Hns & Hn). by split.
Qed.

Lemma play_simulates c ns name sc events :
  New (Some (ns, name)) (Some c) = Some sc → simulates ns name (play sc events) (spec c ns name events).
Proof.
  intros [= <-]. unfold play, spec. set (sc0 := mkSySched _ c _ _ _ _ _ _).
  assert (H0' : simulates ns name sc0 (c, ∅)) by (by split).
  revert H0'. generalize sc0, (c, ∅ : tracker). clear. induction events as [|[O e] events IH]; intros sc st Hs; [done|].
  by apply IH, handle_simulates.
Qed.

(** *** Readings that are up to date *)

Definition read_now (calls : Pod → gset string) (m : tracked) : Prop := map_Forall (λ _ v, v.2 = calls v.1) m.

Lemma seen_current O sc m : read_now (getSyscalls O sc) m → seen m = exposed O sc (pods_of m).
Proof.
  intros Hc. rewrite <- seen_refresh. f_equal. apply map_eq. intros name. rewrite lookup_fmap.
  destruct (m !! name) as [[p s]|] eqn:E; [|done]. simpl. pose proof (Hc _ _ E) as Hv. cbn in Hv. by rewrite <- Hv.
Qed.

(** Every tracked pod is read alike in every order, and was last read so. *)
Definition settled (calls : MapOrder → Pod → gset string) (t : tracker) : Prop :=
  map_Forall (λ _ m, map_Forall (λ _ v, one_annotation v.1 ∧ ∀ O, v.2 = calls O v.1) m) t.

Lemma settled_follow c ns name O t e :
  settled (λ O, calls_of O c ns name) t → steady e →
  settled (λ O, calls_of O c ns name) (follow (calls_of O c ns name) t e).
Proof.
  intros Ht He.
  assert (Htrack : ∀ pod, one_annotation pod → settled (λ O, calls_of O c ns name) (track (calls_of O c ns name) t pod)).
  { intros pod Hpod. unfold track. destruct (default ∅ (t !! p_node_name pod) !! p_name pod) eqn:Em; [done|].
    apply map_Forall_insert_2; [|done]. apply map_Forall_insert_2.
    - split; [done|]. intros O'. by apply getSyscalls_order.
    - destruct (t !! p_node_name pod) as [m|] eqn:E; simpl; [apply (Ht _ _ E)|apply map_Forall_empty]. }
  destruct e as [pod|old new|pod|pod ni|c']; simpl in *; try done.
  - case_bool_decide; [by apply Htrack|done].
  - destruct (_ && _); [by apply Htrack|done].
  - unfold untrack. destruct (t !! p_node_name pod) as [m|] eqn:E; [|done].
    destruct (m !! p_name pod); [|done]. apply map_Forall_insert_2; [|done].
    intros n v Hv. apply lookup_fmap_Some in Hv as (v' & <- & [_ Hv']%lookup_delete_Some).
    destruct (Ht _ _ E _ _ Hv') as [Hone _]. split; [done|]. intros O'. by apply getSyscalls_order.
Qed.

Lemma spec_settled c ns name events :
  Forall (λ e, steady e.2) events →
  (spec c ns name events).1 = c ∧ settled (λ O, calls_of O c ns name) (spec c ns name events).2.
Proof.
  unfold spec. assert (H0' : settled (λ O, calls_of O c ns name) (∅ : tracker)) by apply map_Forall_empty.
  revert H0'. generalize (∅ : tracker). induction events as [|[O e] events IH]; intros t Ht He; [done|].
  apply Forall_cons in He as [He Hes]. cbn [foldl].
  assert (spec_step ns name (c, t) (O, e) = (c, follow (calls_of O c ns name) t e)) as -> by (by destruct e).
  apply IH; [|done]. by apply settled_follow.
Qed.

End Facts.

(** ** Properties *)

Section Properties.
Context `{QuantityOps} `{SeccompActions}.

(** C20: after any sequence of callbacks and scores, each one taken as a whole,
    with the profiles changing between them in any way, the score of a node is computed from its tracked
    pods: those the callbacks reported running, or pending with a host address in
    the old object of an update, and not yet deleted, a name standing for one pod
    of the node.  It is the sum over these pods and the new one of the system
    calls that some tracked pod allowed when it was last read (when it was added,
    or when another pod of its node was deleted) or the new pod allows, and this
    one does not allow now.  It is 0 on a node without entry and the largest int64 for
    a pod without profile.  As long as no profile changes, and no pod has two seccomp
    annotations, the sets read last are those of now, and the score is the exposure
    of the tracked pods with the new pod among them.  What the callbacks
    do not track of the pods of the node is not counted
    ([namesake_not_counted], [update_reads_the_old_pod]). *)
Theorem Score_is_exposure c ns name sc0 events O pod ni node :
  New (Some (ns, name)) (Some c) = Some sc0 → ni_node ni = Some node →
  let sc := play sc0 events in
  let '(c', t) := spec c ns name events in
  let calls := calls_of O c' ns name in
  (Score O sc pod ni).2 =
    (if decide (calls pod = ∅) then MaxInt64 else
     match t !! n_name node with
     | None => 0
     | Some m => wrap64 (extraneous calls m pod)
     end) ∧
  (Forall (λ e, steady e.2) events → ∀ m, t !! n_name node = Some m →
     extraneous calls m pod = exposure O sc (pod :: pods_of m)).
Proof.
  intros Hnew Hnode sc. pose proof (play_simulates c ns name sc0 events Hnew) as Hs. fold sc in Hs.
  pose proof (λ O, simulates_calls O _ _ _ _ Hs) as Hcalls. pose proof (spec_settled c ns name events) as Hset.
  destruct (spec c ns name events) as [c' t]. destruct Hs as [Hm _]. cbn [fst snd] in *.
  specialize (Hm (n_name node)). split.
  - rewrite Hcalls. unfold Score. rewrite Hnode. case_decide; [done|]. unfold getHostSyscalls.
    destruct (t !! n_name node) as [m|]; simpl in Hm; [|by destruct Hm as [_ ->]].
    destruct Hm as ((ps & -> & Hps) & -> & _). simpl.
    rewrite foldl_diff_in64, diff_steps by apply calcScore_in64. rewrite calcScore_size, wrap64_add_l.
    rewrite (extraneous_ext _ _ _ _ (Hcalls O)). unfold extraneous. cbn [zsum foldr]. rewrite Hps. f_equal. f_equal. do 2 f_equal. set_solver.
  - intros Hst m Em. rewrite Em in Hm. destruct (Hset Hst) as [-> Ht].
    rewrite (extraneous_ext _ _ _ _ (Hcalls O)). unfold extraneous, exposure.
    rewrite exposed_cons. rewrite (seen_current O sc m), (comm_L (∪)); [done|].
    intros n v Hv. rewrite <- Hcalls. by apply (Ht _ _ Em _ _ Hv).
Qed.

(** A profile path made of a directory, a namespace and a file name with
    an extension is taken apart again, whatever the directory is, and the same
    path without a directory too. *)
Theorem parseNameNS_roundtrip dir ns file ext :
  ¬ mentions "/" ns → ¬ mentions "/" file → ¬ mentions "/" ext → ¬ mentions "." ext →
  ns ≠ "" →
  parseNameNS (dir +:+ "/" +:+ ns +:+ "/" +:+ file +:+ "." +:+ ext) = (ns, file) ∧
  parseNameNS (ns +:+ "/" +:+ file +:+ "." +:+ ext) = (ns, file).
Proof.
  intros Hns Hfile Hext Hdot Hne.
  assert (Split (ns +:+ String "/" (file +:+ String "." ext)) "/"%char = [ns; file +:+ String "." ext]) as Hsplit.
  { rewrite Split_app, !Split_single; [done| |done].
    rewrite mentions_app. simpl. intros [?|[?|?]]; done. }
  assert (TrimSuffix (file +:+ String "." ext) (Ext (file +:+ String "." ext)) = file) as Htrim.
  { by rewrite Ext_app, TrimSuffix_app. }
  split; unfold parseNameNS.
  - change (dir +:+ "/" +:+ ns +:+ "/" +:+ file +:+ "." +:+ ext)
      with (dir +:+ String "/" (ns +:+ String "/" (file +:+ String "." ext))).
    rewrite bool_decide_false by (by destruct dir). rewrite Split_app, Hsplit.
    rewrite bool_decide_false by (rewrite length_app; simpl; lia). rewrite length_app. simpl.
    rewrite !app_nth2 by lia.
    replace (length (Split dir "/") + 2 - 2 - length (Split dir "/"))%nat with 0%nat by lia.
    replace (length (Split dir "/") + 2 - 1 - length (Split dir "/"))%nat with 1%nat by lia.
    simpl. by rewrite Htrim.
  - change (ns +:+ "/" +:+ file +:+ "." +:+ ext) with (ns +:+ String "/" (file +:+ String "." ext)).
    rewrite bool_decide_false by (by destruct ns). rewrite Hsplit. simpl. by rewrite Htrim.
Qed.
End Properties.

(** ** A run *)

#[export] Instance model_actions : SeccompActions := {| ActAllow := "SCMP_ACT_ALLOW"; ActLog := "SCMP_ACT_LOG" |}.

Definition model_client : profile_client := λ ns name,
  if bool_decide (ns = "default") then
    if bool_decide (name = "web") then
      Some [{| Action := "SCMP_ACT_ALLOW"; Names := ["read"; "write"] |};
            {| Action := "SCMP_ACT_KILL"; Names := ["reboot"] |}]
    else if bool_decide (name = "db") then
      Some [{| Action := "SCMP_ACT_LOG"; Names := ["read"; "fsync"; "mmap"] |}]
    else None
  else None.

Definition model_seccomp_pod (ns name node : string) (annotations : gmap string string) (profile : option string) : Pod := {|
  p_namespace := ns; p_name := name; p_uid := ns +:+ name; p_labels := ∅; p_annotations := annotations;
  p_owner_references := []; p_deletion_timestamp := None; p_containers := []; p_init_containers := [];
  p_overhead := None; p_node_name := node; p_scheduler_name := ""; p_priority := None;
  p_priority_class_name := ""; p_preemption_policy := None;
  p_seccomp := Some {| sp_type := "Localhost"; sp_localhost := profile |}; p_phase := PodRunning;
  p_host_ip := ""; p_nominated_node_name := ""; p_scheduled_condition := None |}.

Definition model_node_info_of (name : string) : NodeInfo := {|
  ni_node := Some {| n_name := name; n_labels := ∅; n_unschedulable := false; n_capacity := ∅; n_allocatable := ∅ |};
  ni_pods := []; ni_allocatable := zero_resource; ni_requested := zero_resource;
  ni_nonzero_requested := zero_resource |}.

Definition db_pod := model_seccomp_pod "default" "db-0" "n1" ∅ (Some "localhost/operator/default/db.json").
Definition web_pod := model_seccomp_pod "default" "web-0" "" ∅ (Some "operator/default/web.json").

Definition model_start : SySched := mkSySched _ model_client ∅ ∅ 0 1 "" "".
Definition model_node : Node :=
  {| n_name := "n1"; n_labels := ∅; n_unschedulable := false; n_capacity := ∅; n_allocatable := ∅ |}.

(** The profile of the database is reduced to one call. *)
Definition stricter_client : profile_client := λ ns name,
  if bool_decide (name = "db") then Some [{| Action := "SCMP_ACT_LOG"; Names := ["read"] |}] else model_client ns name.

Lemma model_run_steady : Forall (λ e : MapOrder * event, steady e.2) [(trie_order, Added db_pod)].
Proof. constructor; [|done]. intros k1 k2 Hk. set_solver. Qed.

(** Before the profile changes the two pods differ in write, and in fsync and
    mmap; after it the calls read earlier still count, also against the pod
    that may not make them any more. *)
Lemma Score_is_exposure_witness :
  (Score trie_order (play model_start [(trie_order, Added db_pod)]) web_pod (model_node_info_of "n1")).2 = 3 ∧
  (Score trie_order (play model_start [(trie_order, Added db_pod); (trie_order, ProfilesChanged stricter_client)])
     web_pod (model_node_info_of "n1")).2 = 5 ∧
  ∃ m, (spec model_client "" "" [(trie_order, Added db_pod)]).2 !! "n1" = Some m ∧
    extraneous (calls_of trie_order model_client "" "") m web_pod =
    exposure trie_order (play model_start [(trie_order, Added db_pod)]) (web_pod :: pods_of m).
Proof.
  pose proof (λ events, Score_is_exposure model_client "" "" model_start events trie_order web_pod
    (model_node_info_of "n1") model_node eq_refl eq_refl) as Hs.
  split; [rewrite (proj1 (Hs [(trie_order, Added db_pod)]))
         |split; [rewrite (proj1 (Hs [(trie_order, Added db_pod); (trie_order, ProfilesChanged stricter_client)]))|]];
    [vm_compute; reflexivity..|].
  eexists. split; [reflexivity|]. apply (proj2 (Hs [(trie_order, Added db_pod)])); [apply model_run_steady|reflexivity].
Defined.

Lemma parseNameNS_roundtrip_witness :
  parseNameNS "localhost/operator/default/web.v2.json" = ("default", "web.v2").
Proof.
  refine (proj1 (parseNameNS_roundtrip "localhost/operator" "default" "web.v2" "json" _ _ _ _ _));
    vm_compute; intuition discriminate.
Defined.

(** ** Divergences *)

(** Of two seccomp annotations only one is read, so the set depends on the
    order in which the annotations are seen; the comment says all are merged. *)
#[local] Program Instance reversed_order : MapOrder := {| range := λ V m, rev (map_to_list m) |}.
Next Obligation. intros V m. by rewrite <- Permutation_rev. Qed.

Definition annotated_pod := model_seccomp_pod "default" "p" "n1"
  {[ SPO_ANNOTATION +:+ "/a" := "operator/default/db.json"; SPO_ANNOTATION +:+ "/b" := "operator/default/web.json" ]} None.

Lemma second_annotation_ignored :
  getSyscalls trie_order model_start annotated_pod ≠ getSyscalls reversed_order model_start annotated_pod.
Proof. intros E. apply (f_equal size) in E. vm_compute in E. discriminate. Qed.

(** A pod is known by its name alone: one of the same name in another
    namespace is not counted, and removes the first one when it is deleted. *)
Lemma namesake_not_counted O sc (pod p : Pod) pods :
  HostToPods sc !! p_node_name pod = Some pods → p ∈ pods → p_name p = p_name pod →
  addPod O sc pod = sc.
Proof.
  intros E Hp Hname. unfold addPod. rewrite E.
  assert (existsb (λ p, bool_decide (p_name p = p_name pod)) pods = true) as ->; [|done].
  apply existsb_exists. exists p. rewrite <- list_elem_of_In. by rewrite bool_decide_eq_true.
Qed.

(** The update that reports the assignment is not acted upon: what the new
    object says is not read. *)
Lemma update_reads_the_old_pod O sc (old new : Pod) : p_host_ip old = "" → podUpdated O sc old new = sc.
Proof. intros E. unfold podUpdated. rewrite E. by rewrite andb_false_r. Qed.
