(* ===== verification/PodGroupController.v ===== *)
(** * The pod group controller (pkg/controllers/podgroup_controller.go)

    [Reconcile] reads a pod group and the pods that carry its label, computes
    the next status of the group and patches it.  The API server is a record
    of answers for one call; the requests of the call are its result.  A run
    applies the status patches of successive calls to one group. *)

From S2P Require Import Prelude GoSort Strconv K8s K8sModel ResourceUtil.

(** ** The pod group object *)

Definition PodGroupPending : string := "Pending".
Definition PodGroupRunning : string := "Running".
Definition PodGroupScheduling : string := "Scheduling".
Definition PodGroupFinished : string := "Finished".
Definition PodGroupFailed : string := "Failed".

Record PodGroupStatus := mkStatus {
  Phase : string;
  OccupiedBy : string;
  Running : Z;
  Succeeded : Z;
  Failed : Z;
  ScheduleStartTime : Z;
}.

Record PodGroup := mkPodGroup {
  pg_namespace : string;
  pg_name : string;
  pg_creation : Z;
  MinMember : Z;
  pg_status : PodGroupStatus;
}.

#[export] Instance PodGroupStatus_eq_dec : EqDecision PodGroupStatus.
Proof. solve_decision. Defined.
#[export] Instance PodGroup_eq_dec : EqDecision PodGroup.
Proof. solve_decision. Defined.

Definition set_Phase (st : PodGroupStatus) (phase : string) : PodGroupStatus :=
  mkStatus phase (OccupiedBy st) (Running st) (Succeeded st) (Failed st) (ScheduleStartTime st).
Definition set_OccupiedBy (st : PodGroupStatus) (by_ : string) : PodGroupStatus :=
  mkStatus (Phase st) by_ (Running st) (Succeeded st) (Failed st) (ScheduleStartTime st).
Definition set_stats (st : PodGroupStatus) (stats : Z * Z * Z) : PodGroupStatus :=
  mkStatus (Phase st) (OccupiedBy st) stats.1.1 stats.1.2 stats.2 (ScheduleStartTime st).
Definition set_status (pg : PodGroup) (st : PodGroupStatus) : PodGroup :=
  mkPodGroup (pg_namespace pg) (pg_name pg) (pg_creation pg) (MinMember pg) st.

(** time.Time.Sub saturates; times and durations are in nanoseconds. *)
Definition time_Sub (t u : Z) : Z := Z.max MinInt64 (Z.min MaxInt64 (t - u)).
Definition hours_48 : Z := 48 * 3600 * second.

(** A pod is in one phase. *)
Ltac phase_cases :=
  repeat case_bool_decide;
  repeat match goal with
  | E1 : p_phase ?p = _, E2 : p_phase ?p = _ |- _ => rewrite E1 in E2; discriminate E2
  end.

Section Controller.
Context `{QuantityOps} `{GoSort}.

(** ** The API server *)

Inductive get_answer := Found (pg : PodGroup) | NotFound | GetFailed.

Record Api := {
  api_get : string → string → get_answer;
  api_pods : option (list Pod);
  status_patch_fails : bool;
  patch_fails : bool;
}.

(** r.List with the selector label = name: the pods of every namespace. *)
Definition list_pods (api : Api) (name : string) : option (list Pod) :=
  filter (λ p, p_labels p !! PodGroupLabel = Some name) <$> api_pods api.

Inductive request :=
| Timeout_event (pg : PodGroup)
| Status_patch (old new : PodGroup)
| Object_patch (old new : PodGroup).

(** ** The functions of the controller *)

Definition count_pod (stats : Z * Z * Z) (pod : Pod) : Z * Z * Z :=
  let '(running, succeeded, failed) := stats in
  if bool_decide (p_phase pod = PodRunning) then (wrap32 (running + 1), succeeded, failed)
  else if bool_decide (p_phase pod = PodSucceeded) then (running, wrap32 (succeeded + 1), failed)
  else if bool_decide (p_phase pod = PodFailed) then (running, succeeded, wrap32 (failed + 1))
  else stats.

Definition getCurrentPodStats (pods : list Pod) : Z * Z * Z :=
  if bool_decide (length pods = 0%nat) then (0, 0, 0) else foldl count_pod (0, 0, 0) pods.

Definition fillOccupiedObj (st : PodGroupStatus) (pod : Pod) : PodGroupStatus :=
  if bool_decide (length (p_owner_references pod) = 0%nat) then st else
  let refs := map (λ ownerRef, p_namespace pod +:+ "/" +:+ or_name ownerRef) (p_owner_references pod) in
  if bool_decide (length refs = 0%nat) then st
  else set_OccupiedBy st (Join (sort_slice str_lt refs) ",").

(** The default branch of the switch. *)
Definition status_from_pods (minMember : Z) (st : PodGroupStatus) (pods : list Pod) : PodGroupStatus :=
  let st := set_stats st (getCurrentPodStats pods) in
  if bool_decide (Z.of_nat (length pods) < minMember) then set_Phase st PodGroupPending else
  let st := if bool_decide (wrap32 (Succeeded st + Running st) < minMember)
            then set_Phase st PodGroupScheduling else st in
  let st := if bool_decide (wrap32 (Succeeded st + Running st) >= minMember)
            then set_Phase st PodGroupRunning else st in
  let st := if negb (bool_decide (Failed st = 0)) &&
               bool_decide (wrap32 (wrap32 (Failed st + Running st) + Succeeded st) >= minMember)
            then set_Phase st PodGroupFailed else st in
  if bool_decide (Succeeded st >= minMember) then set_Phase st PodGroupFinished else st.

(** The switch on the phase. *)
Definition next_status (pg : PodGroup) (pods : list Pod) : outcome PodGroupStatus :=
  let st := pg_status pg in
  if bool_decide (Phase st = "") then Ret (set_Phase st PodGroupPending)
  else if bool_decide (Phase st = PodGroupPending) then
    if bool_decide (Z.of_nat (length pods) >= MinMember pg) then
      pod ← index pods 0;
      Ret (fillOccupiedObj (set_Phase st PodGroupScheduling) pod)
    else Ret st
  else Ret (status_from_pods (MinMember pg) st pods).

(** The requests, and whether an error is returned. *)
Definition patchPodGroup (api : Api) (old new : PodGroup) : list request * bool :=
  if status_patch_fails api then ([Status_patch old new], true)
  else ([Status_patch old new; Object_patch old new], patch_fails api).

Definition terminal (phase : string) : bool :=
  bool_decide (phase = PodGroupFinished) || bool_decide (phase = PodGroupFailed).

Definition timed_out (pg : PodGroup) : bool :=
  let st := pg_status pg in
  (bool_decide (Phase st = PodGroupScheduling) || bool_decide (Phase st = PodGroupPending)) &&
  bool_decide (Running st = 0) &&
  bool_decide (time_Sub (ScheduleStartTime st) (pg_creation pg) > hours_48).

Definition Reconcile (api : Api) (namespace name : string) : outcome (list request * bool) :=
  match api_get api namespace name with
  | NotFound => Ret ([], false)
  | GetFailed => Ret ([], true)
  | Found pg =>
      if terminal (Phase (pg_status pg)) then Ret ([], false) else
      if timed_out pg then Ret ([Timeout_event pg], false) else
      match list_pods api (pg_name pg) with
      | None => Ret ([], true)
      | Some pods =>
          st ← next_status pg pods;
          Ret (patchPodGroup api pg (set_status pg st))
      end
  end.

(** The requests a pod event is mapped to: a namespace and a name. *)
Definition podToPodGroup (pod : Pod) : list (string * string) :=
  let pgName := GetPodGroupLabel pod in
  if bool_decide (pgName = "") then [] else [(p_namespace pod, pgName)].

(** ** Runs

    The API server applies the status patch to the group that was read, unless
    the call fails; the object patch changes nothing, because only the status
    differs. *)

Definition after (api : Api) (pg : PodGroup) (answer : outcome (list request * bool)) : PodGroup :=
  match answer with
  | Ret (Status_patch _ new :: _, _) => if status_patch_fails api then pg else new
  | _ => pg
  end.

(** The server knows the one group and lists [pods]; its calls may fail.  Every read gives the group as it is,
    that is, the cache the client reads from has caught up with the previous patch. *)
Definition serve (pg : PodGroup) (pods : option (list Pod)) (fails1 fails2 : bool) : Api := {|
  api_get := λ namespace name,
    if bool_decide (namespace = pg_namespace pg ∧ name = pg_name pg) then Found pg else NotFound;
  api_pods := pods; status_patch_fails := fails1; patch_fails := fails2 |}.

Definition reconcile_group (pg : PodGroup) (pods : option (list Pod)) (fails1 fails2 : bool) : PodGroup :=
  let api := serve pg pods fails1 fails2 in
  after api pg (Reconcile api (pg_namespace pg) (pg_name pg)).

Definition set_start (pg : PodGroup) (t : Z) : PodGroup :=
  let st := pg_status pg in
  set_status pg (mkStatus (Phase st) (OccupiedBy st) (Running st) (Succeeded st) (Failed st) t).

(** The stats are int32: a cluster has fewer pods. *)
Definition countable (pods : list Pod) : Prop := Z.of_nat (length pods) < 2 ^ 31.

(** A history: the controller runs against whatever pods there are at the
    time, calls to the server fail, and another client moves the schedule
    start time. *)
Inductive history (pg0 : PodGroup) : PodGroup → Prop :=
| history_start : history pg0 pg0
| history_reconcile pg pods fails1 fails2 :
    history pg0 pg → from_option countable True pods →
    history pg0 (reconcile_group pg pods fails1 fails2)
| history_schedule pg t : history pg0 pg → history pg0 (set_start pg t).

(** [n] calls while the pods do not change and no call fails. *)
Fixpoint settle (n : nat) (pods : list Pod) (pg : PodGroup) : PodGroup :=
  match n with
  | O => pg
  | S n => settle n pods (reconcile_group pg (Some pods) false false)
  end.

(** The number of members in a phase. *)
Definition members (name : string) (pods : list Pod) : list Pod :=
  filter (λ p, p_labels p !! PodGroupLabel = Some name) pods.
Definition in_phase (phase : string) (pods : list Pod) : Z :=
  Z.of_nat (length (filter (λ p, p_phase p = phase) pods)).

(** What the phase of a group whose pods have been counted should be. *)
Definition phase_of (minMember running succeeded failed pods : Z) : string :=
  if bool_decide (pods < minMember) then PodGroupPending
  else if bool_decide (minMember ≤ succeeded) then PodGroupFinished
  else if bool_decide (0 < failed ∧ minMember ≤ failed + running + succeeded) then PodGroupFailed
  else if bool_decide (minMember ≤ succeeded + running) then PodGroupRunning
  else PodGroupScheduling.

Definition expected (pg : PodGroup) (pods : list Pod) : string :=
  let ps := members (pg_name pg) pods in
  phase_of (MinMember pg) (in_phase PodRunning ps) (in_phase PodSucceeded ps) (in_phase PodFailed ps)
    (Z.of_nat (length ps)).

(** ** Lemmas *)

Lemma in_phase_cons phase p pods :
  in_phase phase (p :: pods) = (if bool_decide (p_phase p = phase) then 1 else 0) + in_phase phase pods.
Proof.
  unfold in_phase. rewrite filter_cons. case_decide; case_bool_decide; simpl; try done; lia.
Qed.

Lemma in_phase_nonneg phase pods : 0 ≤ in_phase phase pods.
Proof. unfold in_phase. lia. Qed.

Lemma in_phases_length pods :
  in_phase PodRunning pods + in_phase PodSucceeded pods + in_phase PodFailed pods ≤ Z.of_nat (length pods).
Proof.
  induction pods as [|p pods IH]; [done|]. rewrite !in_phase_cons, length_cons.
  phase_cases; lia.
Qed.

Lemma count_members r s f pods :
  0 ≤ r → 0 ≤ s → 0 ≤ f → r + s + f + Z.of_nat (length pods) < 2 ^ 31 →
  foldl count_pod (r, s, f) pods =
  (r + in_phase PodRunning pods, s + in_phase PodSucceeded pods, f + in_phase PodFailed pods).
Proof.
  revert r s f. induction pods as [|p pods IH]; intros r s f Hr Hs Hf Hlen; cbn [foldl].
  { unfold in_phase. simpl. f_equal; [f_equal|]; lia. }
  rewrite length_cons in Hlen.
  assert (count_pod (r, s, f) p =
    (r + (if bool_decide (p_phase p = PodRunning) then 1 else 0),
     s + (if bool_decide (p_phase p = PodSucceeded) then 1 else 0),
     f + (if bool_decide (p_phase p = PodFailed) then 1 else 0))) as ->.
  { unfold count_pod. phase_cases;
      rewrite ?wrap32_id by (unfold in32; lia); by rewrite ?Z.add_0_r. }
  rewrite !in_phase_cons, IH by (phase_cases; lia).
  by rewrite !Z.add_assoc.
Qed.

Lemma getCurrentPodStats_count pods :
  countable pods →
  getCurrentPodStats pods = (in_phase PodRunning pods, in_phase PodSucceeded pods, in_phase PodFailed pods).
Proof.
  intros Hc. unfold getCurrentPodStats. case_bool_decide as Hl; [by destruct pods|].
  unfold countable in Hc. by rewrite count_members by lia.
Qed.

Lemma set_Phase_if (b : bool) st phase :
  (if b then set_Phase st phase else st) = set_Phase st (if b then phase else Phase st).
Proof. by destruct b, st. Qed.

Lemma set_Phase_twice st phase phase' : set_Phase (set_Phase st phase) phase' = set_Phase st phase'.
Proof. done. Qed.

Lemma status_from_pods_eq minMember st pods :
  countable pods →
  status_from_pods minMember st pods =
  mkStatus (phase_of minMember (in_phase PodRunning pods) (in_phase PodSucceeded pods) (in_phase PodFailed pods)
              (Z.of_nat (length pods)))
    (OccupiedBy st) (in_phase PodRunning pods) (in_phase PodSucceeded pods) (in_phase PodFailed pods)
    (ScheduleStartTime st).
Proof.
  intros Hc. unfold status_from_pods, phase_of. rewrite getCurrentPodStats_count by done.
  pose proof (in_phases_length pods). pose proof (in_phase_nonneg PodRunning pods).
  pose proof (in_phase_nonneg PodSucceeded pods). pose proof (in_phase_nonneg PodFailed pods).
  unfold countable in Hc. set (r := in_phase PodRunning pods) in *.
  set (s := in_phase PodSucceeded pods) in *. set (f := in_phase PodFailed pods) in *. clearbody r s f.
  assert (wrap32 (s + r) = s + r) as E1 by (apply wrap32_id; unfold in32; lia).
  assert (wrap32 (f + r) = f + r) as E2 by (apply wrap32_id; unfold in32; lia).
  assert (wrap32 (f + r + s) = f + r + s) as E3 by (apply wrap32_id; unfold in32; lia).
  rewrite !set_Phase_if, !set_Phase_twice. cbn. rewrite E1, E2, E3. clear E1 E2 E3.
  case_bool_decide; [done|]. unfold set_Phase, set_stats. cbn. f_equal.
  repeat case_bool_decide; cbn; done || lia.
Qed.

Lemma members_countable name pods : countable pods → countable (members name pods).
Proof.
  unfold countable, members. intros Hc. pose proof (length_filter (λ p, p_labels p !! PodGroupLabel = Some name) pods). lia.
Qed.

(** *** The phases that a call moves between *)

Definition counted (phase : string) : Prop :=
  phase ≠ "" ∧ phase ≠ PodGroupPending ∧ terminal phase = false.

Lemma phase_of_cases m r s f n :
  (n < m ∧ phase_of m r s f n = PodGroupPending) ∨
  (m ≤ n ∧ m ≤ s ∧ phase_of m r s f n = PodGroupFinished) ∨
  (m ≤ n ∧ s < m ∧ 0 < f ∧ m ≤ f + r + s ∧ phase_of m r s f n = PodGroupFailed) ∨
  (m ≤ n ∧ s < m ∧ m ≤ s + r ∧ phase_of m r s f n = PodGroupRunning) ∨
  (m ≤ n ∧ s < m ∧ s + r < m ∧ phase_of m r s f n = PodGroupScheduling).
Proof. unfold phase_of. repeat case_bool_decide; lia || (repeat right; intuition lia) || intuition lia. Qed.

Lemma reconcile_terminal pg pods b1 b2 :
  terminal (Phase (pg_status pg)) = true → reconcile_group pg pods b1 b2 = pg.
Proof.
  intros E. unfold reconcile_group, Reconcile, serve. simpl. rewrite bool_decide_true by done. by rewrite E.
Qed.

Lemma reconcile_timed_out pg pods b1 b2 : timed_out pg = true → reconcile_group pg pods b1 b2 = pg.
Proof.
  intros E. unfold reconcile_group, Reconcile, serve. simpl. rewrite bool_decide_true by done. rewrite E.
  by destruct (terminal _).
Qed.

(** One call on a group that is neither terminal nor timed out. *)
Lemma reconcile_eq pg pods b1 b2 :
  terminal (Phase (pg_status pg)) = false → timed_out pg = false →
  reconcile_group pg (Some pods) b1 b2 =
  match next_status pg (members (pg_name pg) pods) with
  | Ret st => if b1 then pg else set_status pg st
  | Panic => pg
  end.
Proof.
  intros E1 E2. unfold reconcile_group, Reconcile, serve. simpl. rewrite bool_decide_true by done. rewrite E1, E2.
  unfold list_pods. simpl. fold (members (pg_name pg) pods).
  destruct (next_status pg (members (pg_name pg) pods)) as [st|]; [|done]. unfold patchPodGroup. simpl.
  by destruct b1.
Qed.

Lemma fillOccupiedObj_phase st pod : Phase (fillOccupiedObj st pod) = Phase st.
Proof. unfold fillOccupiedObj. case_bool_decide; [done|]. by case_bool_decide. Qed.

Lemma next_status_cases pg pods st :
  countable pods → next_status pg pods = Ret st →
  (Phase (pg_status pg) = "" ∧ Phase st = PodGroupPending) ∨
  (Phase (pg_status pg) = PodGroupPending ∧ Z.of_nat (length pods) < MinMember pg ∧ st = pg_status pg) ∨
  (Phase (pg_status pg) = PodGroupPending ∧ MinMember pg ≤ Z.of_nat (length pods) ∧ Phase st = PodGroupScheduling) ∨
  (Phase (pg_status pg) ≠ "" ∧ Phase (pg_status pg) ≠ PodGroupPending ∧
   st = status_from_pods (MinMember pg) (pg_status pg) pods).
Proof.
  intros Hc. unfold next_status. case_bool_decide; [intros [= <-]; auto|].
  case_bool_decide; [case_bool_decide|].
  - destruct (index pods 0) as [pod|]; [|done]. intros [= <-]. right. right. left.
    split; [done|]. split; [lia|]. by rewrite fillOccupiedObj_phase.
  - intros [= <-]. right. left. split; [done|]. split; [lia|done].
  - intros [= <-]. auto 6.
Qed.

(** The phase agrees with the counts beside it. *)
Definition phase_consistent (pg : PodGroup) : Prop :=
  let st := pg_status pg in
  Phase st ∈ [""; PodGroupPending; PodGroupScheduling; PodGroupRunning; PodGroupFinished; PodGroupFailed] ∧
  (Phase st = PodGroupRunning → Succeeded st < MinMember pg ≤ Succeeded st + Running st) ∧
  (Phase st = PodGroupFinished → MinMember pg ≤ Succeeded st) ∧
  (Phase st = PodGroupFailed → 0 < Failed st ∧ Succeeded st < MinMember pg ≤ Failed st + Running st + Succeeded st).

Lemma phase_consistent_other pg :
  Phase (pg_status pg) ∈ [""; PodGroupPending; PodGroupScheduling] → phase_consistent pg.
Proof.
  intros E. split.
  { revert E. rewrite !elem_of_cons. tauto. }
  split; [|split]; intros E2; rewrite E2 in E; exfalso; revert E; set_solver.
Qed.

Lemma status_from_pods_consistent pg pods :
  countable pods → phase_consistent (set_status pg (status_from_pods (MinMember pg) (pg_status pg) pods)).
Proof.
  intros Hc. rewrite status_from_pods_eq by done.
  destruct (phase_of_cases (MinMember pg) (in_phase PodRunning pods) (in_phase PodSucceeded pods)
    (in_phase PodFailed pods) (Z.of_nat (length pods))) as [Hp|[Hp|[Hp|[Hp|Hp]]]];
    destruct_and! Hp; unfold phase_consistent; cbn;
    match goal with E : phase_of _ _ _ _ _ = _ |- _ => rewrite E end;
    (split; [rewrite !elem_of_cons; tauto|]); split_and!; intros ?; try discriminate; lia.
Qed.

Lemma reconcile_consistent pg pods b1 b2 :
  from_option countable True pods → phase_consistent pg → phase_consistent (reconcile_group pg pods b1 b2).
Proof.
  intros Hc Hpg. destruct (terminal (Phase (pg_status pg))) eqn:E1; [by rewrite reconcile_terminal|].
  destruct (timed_out pg) eqn:E2; [by rewrite reconcile_timed_out|].
  destruct pods as [pods|].
  - rewrite reconcile_eq by done. destruct (next_status _ _) as [st|] eqn:E; [|done]. destruct b1; [done|].
    simpl in Hc. apply (members_countable (pg_name pg)) in Hc.
    apply next_status_cases in E as [[_ E]|[(Ep & _ & ->)|[(_ & _ & E)|(_ & _ & ->)]]]; [| | | |done].
    + apply phase_consistent_other. simpl. rewrite E. set_solver.
    + apply phase_consistent_other. simpl. rewrite Ep. set_solver.
    + apply phase_consistent_other. simpl. rewrite E. set_solver.
    + by apply status_from_pods_consistent.
  - unfold reconcile_group, Reconcile, serve. simpl. rewrite bool_decide_true by done. by rewrite E1, E2.
Qed.

(** *** Convergence *)

(** The two days have not passed. *)
Definition in_time (pg : PodGroup) : Prop :=
  time_Sub (ScheduleStartTime (pg_status pg)) (pg_creation pg) ≤ hours_48.

Lemma in_time_not_timed_out pg : in_time pg → timed_out pg = false.
Proof.
  unfold in_time, timed_out. intros. rewrite (bool_decide_false (_ > hours_48)) by lia. apply andb_false_r.
Qed.

(** What one call leaves alone. *)
Definition same_group (pg pg' : PodGroup) : Prop :=
  pg_name pg' = pg_name pg ∧ MinMember pg' = MinMember pg ∧ pg_creation pg' = pg_creation pg ∧
  ScheduleStartTime (pg_status pg') = ScheduleStartTime (pg_status pg).

Lemma fillOccupiedObj_start st pod : ScheduleStartTime (fillOccupiedObj st pod) = ScheduleStartTime st.
Proof. unfold fillOccupiedObj. case_bool_decide; [done|]. by case_bool_decide. Qed.

Lemma next_status_start pg pods st :
  next_status pg pods = Ret st → ScheduleStartTime st = ScheduleStartTime (pg_status pg).
Proof.
  unfold next_status. case_bool_decide; [by intros [= <-]|]. case_bool_decide; [case_bool_decide|].
  - destruct (index pods 0) as [pod|]; [|done]. intros [= <-]. by rewrite fillOccupiedObj_start.
  - by intros [= <-].
  - intros [= <-]. unfold status_from_pods. repeat (case_match; cbn); done.
Qed.

Lemma reconcile_same_group pg pods b1 b2 : in_time pg → same_group pg (reconcile_group pg (Some pods) b1 b2).
Proof.
  intros Ht%in_time_not_timed_out. destruct (terminal (Phase (pg_status pg))) eqn:E1.
  { by rewrite reconcile_terminal. }
  rewrite reconcile_eq by done. destruct (next_status _ _) as [st|] eqn:E; [|done]. destruct b1; [done|].
  apply next_status_start in E. by repeat split.
Qed.

Lemma same_group_expected pg pg' pods : same_group pg pg' → expected pg' pods = expected pg pods.
Proof. intros (En & Em & _). unfold expected. by rewrite En, Em. Qed.

Lemma same_group_in_time pg pg' : same_group pg pg' → in_time pg → in_time pg'.
Proof. intros (_ & _ & Ec & Es). unfold in_time. by rewrite Ec, Es. Qed.

(** A call on a counted phase, on a group that waits for pods, on a new one. *)
Lemma reconcile_counted pg pods :
  countable pods → in_time pg → counted (Phase (pg_status pg)) →
  Phase (pg_status (reconcile_group pg (Some pods) false false)) = expected pg pods.
Proof.
  intros Hc Ht%in_time_not_timed_out (H1 & H2 & H3). rewrite reconcile_eq by done.
  unfold next_status. rewrite !bool_decide_false by done. cbn [pg_status set_status].
  by rewrite status_from_pods_eq by by apply members_countable.
Qed.

Lemma reconcile_pending pg pods :
  1 ≤ MinMember pg → in_time pg → Phase (pg_status pg) = PodGroupPending →
  let pg' := reconcile_group pg (Some pods) false false in
  if decide (Z.of_nat (length (members (pg_name pg) pods)) < MinMember pg) then pg' = pg
  else Phase (pg_status pg') = PodGroupScheduling.
Proof.
  intros Hm Ht%in_time_not_timed_out E. cbn zeta. rewrite reconcile_eq by (done || by rewrite E).
  unfold next_status. rewrite E. cbn.
  generalize (members (pg_name pg) pods). intros ps. case_decide as Hlen.
  - rewrite (bool_decide_false (_ >= _)) by lia. by destruct pg.
  - rewrite (bool_decide_true (_ >= _)) by lia. destruct ps as [|p ps]; [simpl in Hlen; lia|].
    transitivity (Phase (fillOccupiedObj (set_Phase (pg_status pg) PodGroupScheduling) p)); [done|].
    by rewrite fillOccupiedObj_phase.
Qed.

Lemma reconcile_new pg pods :
  in_time pg → Phase (pg_status pg) = "" →
  Phase (pg_status (reconcile_group pg (Some pods) false false)) = PodGroupPending.
Proof.
  intros Ht%in_time_not_timed_out E. rewrite reconcile_eq by (done || by rewrite E).
  unfold next_status. by rewrite E.
Qed.

(** Once the phase is the expected one it stays. *)
Lemma expected_stays pg pods :
  countable pods → 1 ≤ MinMember pg → in_time pg → Phase (pg_status pg) = expected pg pods →
  Phase (pg_status (reconcile_group pg (Some pods) false false)) = expected pg pods.
Proof.
  intros Hc Hm Ht E. destruct (terminal (Phase (pg_status pg))) eqn:E1; [by rewrite reconcile_terminal|].
  destruct (decide (Phase (pg_status pg) = PodGroupPending)) as [Ep|Ep].
  - pose proof (reconcile_pending pg pods Hm Ht Ep) as Hp. cbn zeta in Hp. case_decide as Hlen; [by rewrite Hp|].
    exfalso. rewrite Ep in E. unfold expected in E. revert E.
    match goal with |- _ = phase_of ?m ?r ?s ?f ?n → _ =>
      destruct (phase_of_cases m r s f n) as [Hx|[Hx|[Hx|[Hx|Hx]]]] end;
      destruct_and! Hx; [lia|..]; match goal with E : phase_of _ _ _ _ _ = _ |- _ => rewrite E end; discriminate.
  - apply reconcile_counted; [done..|]. split; [|done]. intros E0. rewrite E0 in E. unfold expected in E. revert E.
    match goal with |- _ = phase_of ?m ?r ?s ?f ?n → _ =>
      destruct (phase_of_cases m r s f n) as [Hx|[Hx|[Hx|[Hx|Hx]]]] end;
      destruct_and! Hx; match goal with E : phase_of _ _ _ _ _ = _ |- _ => rewrite E end; discriminate.
Qed.

Lemma expected_settles n pg pods :
  countable pods → 1 ≤ MinMember pg → in_time pg → Phase (pg_status pg) = expected pg pods →
  Phase (pg_status (settle n pods pg)) = expected pg pods.
Proof.
  intros Hc. revert pg. induction n as [|n IH]; intros pg Hm Ht E; cbn [settle]; [done|].
  pose proof (reconcile_same_group pg pods false false Ht) as Hs.
  rewrite <- (same_group_expected pg _ pods Hs). apply IH.
  - by destruct Hs as (_ & -> & _).
  - by apply (same_group_in_time pg).
  - rewrite (same_group_expected pg _ pods Hs). by apply expected_stays.
Qed.

(** A counted phase settles with one more call, a waiting group with two. *)
Lemma counted_settles n pg pods :
  countable pods → 1 ≤ MinMember pg → in_time pg → counted (Phase (pg_status pg)) →
  Phase (pg_status (settle (1 + n) pods pg)) = expected pg pods.
Proof.
  intros Hc Hm Ht Hp. cbn [settle Nat.add]. pose proof (reconcile_same_group pg pods false false Ht) as Hs.
  rewrite <- (same_group_expected pg _ pods Hs). apply expected_settles; [done|..].
  - by destruct Hs as (_ & -> & _).
  - by apply (same_group_in_time pg).
  - rewrite (same_group_expected pg _ pods Hs). by apply reconcile_counted.
Qed.

Lemma pending_settles n pg pods :
  countable pods → 1 ≤ MinMember pg → in_time pg → Phase (pg_status pg) = PodGroupPending →
  Phase (pg_status (settle (2 + n) pods pg)) = expected pg pods.
Proof.
  intros Hc Hm Ht Hp. pose proof (reconcile_pending pg pods Hm Ht Hp) as Hstep. cbn zeta in Hstep.
  pose proof (reconcile_same_group pg pods false false Ht) as Hs. case_decide as Hlen.
  - apply expected_settles; [done..|]. rewrite Hp. unfold expected, phase_of. by rewrite bool_decide_true.
  - change (2 + n)%nat with (S (1 + n)). cbn [settle]. rewrite <- (same_group_expected pg _ pods Hs).
    apply counted_settles; [done| | |].
    + by destruct Hs as (_ & -> & _).
    + by apply (same_group_in_time pg).
    + rewrite Hstep. by repeat split.
Qed.

(** ** Properties *)

(** On a group that is counted (neither new, waiting nor terminal) and not
    timed out, Reconcile patches the status once and the object once; the new
    status holds the exact numbers of running, succeeded and failed members
    and the phase those numbers determine, and keeps everything else. *)
Theorem Reconcile_counts api namespace name pg all :
  api_get api namespace name = Found pg → api_pods api = Some all →
  countable all → counted (Phase (pg_status pg)) → timed_out pg = false →
  status_patch_fails api = false →
  let pods := members (pg_name pg) all in
  Reconcile api namespace name =
  let new := set_status pg (mkStatus (expected pg all) (OccupiedBy (pg_status pg))
    (in_phase PodRunning pods) (in_phase PodSucceeded pods) (in_phase PodFailed pods)
    (ScheduleStartTime (pg_status pg))) in
  Ret ([Status_patch pg new; Object_patch pg new], patch_fails api).
Proof.
  intros Hget Hpods Hc (H1 & H2 & H3) Ht Hfail. cbn zeta. unfold Reconcile. rewrite Hget, H3, Ht.
  unfold list_pods. rewrite Hpods. cbn. unfold next_status. rewrite !bool_decide_false by done. cbn.
  fold (members (pg_name pg) all). rewrite status_from_pods_eq by by apply members_countable.
  unfold patchPodGroup. by rewrite Hfail.
Qed.

(** C18: whatever the pods do and whichever calls fail, the phase of a group
    that started new agrees with the counts stored beside it, and once it is
    Finished or Failed no call changes the group any more. *)
Theorem phase_invariant pg0 pg :
  Phase (pg_status pg0) = "" → history pg0 pg →
  phase_consistent pg ∧
  (terminal (Phase (pg_status pg)) = true → ∀ pods b1 b2, reconcile_group pg pods b1 b2 = pg).
Proof.
  intros E0 Hh. split; [|intros; by apply reconcile_terminal].
  induction Hh as [|pg pods b1 b2 _ IH Hc|pg t _ IH].
  - apply phase_consistent_other. rewrite E0. set_solver.
  - by apply reconcile_consistent.
  - exact IH.
Qed.

(** C16: what repeated calls of Reconcile do while the pods stay as they are and no call to the
    server fails.  A group that is Finished or Failed, or that has waited for more than 48 hours without a running
    pod, is left as it is.  Any other group with MinMember at least 1 and its schedule start within 48 hours of its
    creation is, after three calls and ever after, in the phase [expected]: with p
    pods (fewer than 2^31) that carry its label, in any namespace, of which r run, s have succeeded and f
    have failed, it is Pending if p < MinMember, else Finished if MinMember <= s, else Failed if 0 < f and
    MinMember <= f + r + s, else Running if MinMember <= s + r, else Scheduling.  (The comments on the phases in
    types.go say otherwise of Running and Failed: [running_counts_succeeded], [failed_pod_not_reported].) *)
Theorem phase_converges n pods pg :
  (terminal (Phase (pg_status pg)) = true ∨ timed_out pg = true → settle n pods pg = pg) ∧
  (countable pods → 1 ≤ MinMember pg → in_time pg → terminal (Phase (pg_status pg)) = false →
   Phase (pg_status (settle (3 + n) pods pg)) = expected pg pods).
Proof.
  split.
  { intros Hstay. assert (reconcile_group pg (Some pods) false false = pg) as E
      by (destruct Hstay; [by apply reconcile_terminal|by apply reconcile_timed_out]).
    induction n as [|n IH]; [done|]. cbn [settle]. by rewrite E. }
  intros Hc Hm Ht E. destruct (decide (Phase (pg_status pg) = "")) as [E0|E0].
  - pose proof (reconcile_new pg pods Ht E0) as Hstep.
    pose proof (reconcile_same_group pg pods false false Ht) as Hs.
    change (3 + n)%nat with (S (2 + n)). cbn [settle]. rewrite <- (same_group_expected pg _ pods Hs).
    apply pending_settles; [done| | |done].
    + by destruct Hs as (_ & -> & _).
    + by apply (same_group_in_time pg).
  - destruct (decide (Phase (pg_status pg) = PodGroupPending)) as [Ep|Ep].
    + change (3 + n)%nat with (2 + (1 + n))%nat. by apply pending_settles.
    + change (3 + n)%nat with (1 + (2 + n))%nat. by apply counted_settles.
Qed.
End Controller.

(** ** Witnesses *)

Definition w_member (ns name phase : string) : Pod := {|
  p_namespace := ns; p_name := name; p_uid := name; p_labels := {[ PodGroupLabel := "g" ]}; p_annotations := ∅;
  p_owner_references := [{| or_kind := "Job"; or_name := "j" |}]; p_deletion_timestamp := None;
  p_containers := []; p_init_containers := []; p_overhead := None; p_node_name := ""; p_scheduler_name := "";
  p_priority := None; p_priority_class_name := ""; p_preemption_policy := None; p_seccomp := None;
  p_phase := phase; p_host_ip := ""; p_nominated_node_name := ""; p_scheduled_condition := None |}.

Definition w_group (phase : string) (minMember : Z) : PodGroup :=
  mkPodGroup "a" "g" 0 minMember (mkStatus phase "" 0 0 0 0).

Definition w_members : list Pod := [w_member "a" "p1" PodSucceeded; w_member "a" "p2" PodSucceeded].

Lemma w_counted : counted PodGroupScheduling.
Proof. by repeat split. Qed.

Lemma Reconcile_counts_witness :
  let pg := w_group PodGroupScheduling 2 in
  let new := set_status pg (mkStatus PodGroupFinished "" 0 2 0 0) in
  Reconcile (serve pg (Some w_members) false false) "a" "g" = Ret ([Status_patch pg new; Object_patch pg new], false).
Proof.
  exact (Reconcile_counts (serve (w_group PodGroupScheduling 2) (Some w_members) false false) "a" "g"
    (w_group PodGroupScheduling 2) w_members eq_refl eq_refl eq_refl
    w_counted eq_refl eq_refl).
Defined.

Lemma phase_invariant_witness :
  let pg0 := w_group "" 2 in
  phase_consistent (reconcile_group pg0 (Some w_members) false false).
Proof.
  refine (proj1 (phase_invariant (w_group "" 2) (reconcile_group (w_group "" 2) (Some w_members) false false) eq_refl _)).
  apply history_reconcile; [apply history_start|]. exact eq_refl.
Defined.

Lemma phase_converges_witness :
  Phase (pg_status (settle 3 w_members (w_group "" 2))) = PodGroupFinished.
Proof.
  refine (proj2 (phase_converges 0 w_members (w_group "" 2)) eq_refl _ _ eq_refl); [discriminate|].
  apply (bool_decide_unpack _). vm_compute. exact I.
Defined.

(** ** Divergences *)

(** A waiting group without MinMember and without pods: the first pod of the
    empty list is read. *)
Lemma no_member_panics :
  Reconcile (serve (w_group PodGroupPending 0) (Some []) false false) "a" "g" = Panic.
Proof. reflexivity. Qed.

(** The pods are listed in all namespaces: those of another group of the same
    name are counted as members. *)
Lemma foreign_members_counted :
  Phase (pg_status (settle 3 [w_member "b" "p1" PodSucceeded; w_member "c" "p2" PodSucceeded] (w_group "" 2))) =
  PodGroupFinished.
Proof. reflexivity. Qed.

(** The comment of PodGroupRunning asks for MinMember running pods: one running and one succeeded pod do. *)
Lemma running_counts_succeeded :
  Phase (pg_status (settle 3 [w_member "a" "p1" PodRunning; w_member "a" "p2" PodSucceeded] (w_group "" 2))) =
  PodGroupRunning.
Proof. reflexivity. Qed.

(** The comment of PodGroupFailed asks for one failed pod: here one of two has failed, and the group is
    Scheduling. *)
Lemma failed_pod_not_reported :
  Phase (pg_status (settle 3 [w_member "a" "p1" PodFailed; w_member "a" "p2" PodPending] (w_group "" 2))) =
  PodGroupScheduling.
Proof. reflexivity. Qed.
