(* ===== verification/QuotaController.v ===== *)
(** * The elastic quota controller (pkg/controllers/elasticquota_controller.go)

    [Reconcile] sums the requests of the running pods of a namespace and
    writes the result to the status of the namespace's elastic quota when it
    differs.  The functions on resource lists of k8s.io/apiserver/pkg/quota/v1
    and apiequality.Semantic.DeepEqual are operations of [QuotaListOps]. *)

From S2P Require Import Prelude K8s K8sModel ResourceUtil.

(** ** Third-party functions on resource lists *)

Class QuotaListOps `{QuantityOps} : Type := {
  quota_Add : resource_list → resource_list → resource_list;
  quota_Max : resource_list → resource_list → resource_list;
  quota_ResourceNames : resource_list → list string;
  Semantic_DeepEqual : resource_list → resource_list → bool;
}.

Class QuotaListSpec `{QuantitySpec} `{!QuotaListOps} : Prop := {
  (* the union of the keys; where both have one, the sum or the larger *)
  quota_Add_dom a b : dom (quota_Add a b) = dom a ∪ dom b;
  quota_Add_amount a b n : amount_of (quota_Add a b) n = amount_of a n + amount_of b n;
  quota_Max_dom a b : dom (quota_Max a b) = dom a ∪ dom b;
  quota_Max_amount a b n :
    0 ≤ amount_of a n → 0 ≤ amount_of b n →
    amount_of (quota_Max a b) n = Z.max (amount_of a n) (amount_of b n);
  quota_ResourceNames_spec a n : n ∈ quota_ResourceNames a ↔ n ∈ dom a;
  (* quantities are compared by amount *)
  Semantic_DeepEqual_spec a b :
    Semantic_DeepEqual a b = true ↔ dom a = dom b ∧ ∀ n, amount_of a n = amount_of b n;
}.

Record ElasticQuotaObject `{QuantityOps} := mkQuotaObject {
  qo_namespace : string;
  qo_name : string;
  qo_Min : resource_list;
  qo_Max : resource_list;
  qo_Used : resource_list;
}.

Definition set_Used `{QuantityOps} (eq : ElasticQuotaObject) (used : resource_list) : ElasticQuotaObject :=
  mkQuotaObject _ (qo_namespace eq) (qo_name eq) (qo_Min eq) (qo_Max eq) used.

Section Controller.
Context `{QuantityOps} `{!QuotaListOps}.

(** The answers of the API server to one call of Reconcile. *)
Inductive quota_list := Items (l : list ElasticQuotaObject) | ListNotFound | ListFailed.

Record Api := {
  api_quotas : string → quota_list;
  api_pods : string → option (list Pod);
  patch_fails : bool;
}.

Inductive request :=
| Status_patch (old new : ElasticQuotaObject)
| Synced_event (eq : ElasticQuotaObject).

(** ** The functions of the controller *)

Definition zero_entry (res : resource_list) (name : string) : resource_list :=
  <[name := NewQuantity 0 DecimalSI]> res.

Definition newZeroUsed (eq : ElasticQuotaObject) : resource_list :=
  let minResources := quota_ResourceNames (qo_Min eq) in
  let maxResources := quota_ResourceNames (qo_Max eq) in
  foldl zero_entry (foldl zero_entry ∅ minResources) maxResources.

Definition add_requests (result : resource_list) (c : Container) : resource_list := quota_Add result (c_requests c).
Definition max_requests (initRes : resource_list) (c : Container) : resource_list := quota_Max initRes (c_requests c).

(** [quota.Add(result, pod.Spec.Overhead)] returns a new list, which the
    source drops. *)
Definition computePodResourceRequest (pod : Pod) : resource_list :=
  let result := foldl add_requests ∅ (p_containers pod) in
  let initRes := foldl max_requests ∅ (p_init_containers pod) in
  quota_Max result initRes.

Definition add_running (used : resource_list) (p : Pod) : resource_list :=
  if bool_decide (p_phase p = PodRunning) then quota_Add used (computePodResourceRequest p) else used.

Definition computeElasticQuotaUsed (api : Api) (namespace : string) (eq : ElasticQuotaObject) : option resource_list :=
  podList ← api_pods api namespace;
  Some (foldl add_running (newZeroUsed eq) podList).

(** The requests, and whether an error is returned. *)
Definition Reconcile (api : Api) (namespace : string) : list request * bool :=
  match api_quotas api namespace with
  | ListNotFound => ([], false)
  | ListFailed => ([], true)
  | Items [] => ([], false)
  | Items (eq :: _) =>
      match computeElasticQuotaUsed api namespace eq with
      | None => ([], true)
      | Some used =>
          if Semantic_DeepEqual used (qo_Used eq) then ([], false) else
          let newEQ := set_Used eq used in
          if patch_fails api then ([Status_patch eq newEQ], true)
          else ([Status_patch eq newEQ; Synced_event eq], false)
      end
  end.

(** ** What is written *)

(** The request of one pod, without its overhead. *)
Definition pod_request `{!QuantitySpec} (p : Pod) (name : string) : Z :=
  Z.max (sum_of (p_containers p) name) (max_of (p_init_containers p) name).

Definition running (pods : list Pod) : list Pod := filter (λ p, p_phase p = PodRunning) pods.

Definition requested_names (pods : list Pod) : gset string :=
  ⋃ (map (λ c, dom (c_requests c)) (p ← pods; p_containers p ++ p_init_containers p)).

(** The usage that the status of a quota should report. *)
Definition used_is `{!QuantitySpec} (eq : ElasticQuotaObject) (pods : list Pod) (used : resource_list) : Prop :=
  dom used = dom (qo_Min eq) ∪ dom (qo_Max eq) ∪ requested_names (running pods) ∧
  ∀ name, amount_of used name = zsum (λ p, pod_request p name) (running pods).

(** Requests are not negative: the API server validates them. *)
Definition requests_nonneg `{!QuantitySpec} (p : Pod) : Prop :=
  Forall (λ c, nonneg (c_requests c)) (p_containers p) ∧ Forall (λ c, nonneg (c_requests c)) (p_init_containers p).

Context `{!QuantitySpec} `{!QuotaListSpec}.

Lemma zero_entries_dom res names n :
  n ∈ dom (foldl zero_entry res names) ↔ n ∈ dom res ∨ n ∈ names.
Proof.
  revert res. induction names as [|m names IH]; intros res; simpl; [set_solver|].
  rewrite IH. unfold zero_entry. set_solver.
Qed.

Lemma zero_entries_amount res names n :
  amount_of res n = 0 → amount_of (foldl zero_entry res names) n = 0.
Proof.
  revert res. induction names as [|m names IH]; intros res Hr; simpl; [done|].
  apply IH. unfold zero_entry, amount_of. rewrite lookup_insert. case_decide; [|done].
  by rewrite amount_NewQuantity.
Qed.

Lemma newZeroUsed_dom eq : dom (newZeroUsed eq) = dom (qo_Min eq) ∪ dom (qo_Max eq).
Proof.
  apply set_eq. intros n. unfold newZeroUsed. rewrite !zero_entries_dom, !quota_ResourceNames_spec.
  rewrite dom_empty_L. set_solver.
Qed.

Lemma newZeroUsed_amount eq n : amount_of (newZeroUsed eq) n = 0.
Proof. apply zero_entries_amount, zero_entries_amount, amount_of_empty. Qed.

Lemma add_requests_amount cs res n :
  amount_of (foldl add_requests res cs) n = amount_of res n + sum_of cs n.
Proof.
  revert res. induction cs as [|c cs IH]; intros res; simpl; [lia|].
  rewrite IH. unfold add_requests. rewrite quota_Add_amount. lia.
Qed.

Lemma max_requests_amount cs res n :
  0 ≤ amount_of res n → Forall (λ c, nonneg (c_requests c)) cs →
  amount_of (foldl max_requests res cs) n = Z.max (amount_of res n) (max_of cs n).
Proof.
  intros Hres Hcs. revert res Hres. induction Hcs as [|c cs Hc _ IH]; intros res Hres; simpl; [lia|].
  specialize (Hc n). rewrite IH; unfold max_requests; rewrite quota_Max_amount by done; lia.
Qed.

Lemma computePodResourceRequest_amount p n :
  requests_nonneg p → amount_of (computePodResourceRequest p) n = pod_request p n.
Proof.
  intros [Hc Hi]. unfold computePodResourceRequest, pod_request.
  pose proof (sum_of_nonneg _ n Hc). pose proof (max_of_nonneg (p_init_containers p) n).
  rewrite quota_Max_amount; rewrite ?add_requests_amount, ?max_requests_amount; rewrite ?amount_of_empty;
    try done; lia.
Qed.

Lemma fold_requests_dom (f : resource_list → Container → resource_list) cs res :
  (∀ r c, dom (D := gset string) (f r c) = dom r ∪ dom (c_requests c)) →
  dom (D := gset string) (foldl f res cs) = dom res ∪ ⋃ (map (λ c, dom (c_requests c)) cs).
Proof.
  intros Hf. revert res. induction cs as [|c cs IH]; intros res; simpl; [by rewrite (right_id_L ∅ (∪))|].
  rewrite IH, Hf. symmetry. apply (assoc_L (∪)).
Qed.

Lemma computePodResourceRequest_dom p : dom (computePodResourceRequest p) = requested_names [p].
Proof.
  unfold computePodResourceRequest, requested_names. simpl. rewrite quota_Max_dom.
  rewrite (fold_requests_dom add_requests), (fold_requests_dom max_requests)
    by (intros; (apply quota_Add_dom || apply quota_Max_dom)).
  rewrite app_nil_r, map_app, union_list_app_L, dom_empty_L. by rewrite !(left_id_L ∅ (∪)).
Qed.

Lemma requested_names_cons p pods : requested_names (p :: pods) = requested_names [p] ∪ requested_names pods.
Proof. unfold requested_names. simpl. by rewrite app_nil_r, map_app, union_list_app_L. Qed.

Lemma running_cons p pods :
  running (p :: pods) = if decide (p_phase p = PodRunning) then p :: running pods else running pods.
Proof. unfold running. by rewrite filter_cons. Qed.

Lemma add_running_used pods used :
  Forall requests_nonneg pods →
  dom (foldl add_running used pods) = dom used ∪ requested_names (running pods) ∧
  ∀ n, amount_of (foldl add_running used pods) n = amount_of used n + zsum (λ p, pod_request p n) (running pods).
Proof.
  intros Hp. revert used. induction Hp as [|p pods Hp _ IH]; intros used; simpl.
  { split; [|intros; simpl; lia]. symmetry. apply (right_id_L ∅ (∪)). }
  destruct (IH (add_running used p)) as [-> Ha]. setoid_rewrite Ha. clear Ha. rewrite running_cons.
  unfold add_running. destruct (decide (p_phase p = PodRunning)) as [Hr|Hr].
  - rewrite bool_decide_true by done.
    rewrite quota_Add_dom, computePodResourceRequest_dom, (requested_names_cons p (running pods)).
    split; [by rewrite (assoc_L (∪))|].
    intros n. rewrite quota_Add_amount, computePodResourceRequest_amount by done. cbn. unfold zsum. lia.
  - rewrite bool_decide_false by done. by split.
Qed.

Lemma computeElasticQuotaUsed_spec api ns eq pods :
  api_pods api ns = Some pods → Forall requests_nonneg pods →
  ∃ used, computeElasticQuotaUsed api ns eq = Some used ∧ used_is eq pods used.
Proof.
  intros E Hp. unfold computeElasticQuotaUsed. rewrite E. simpl. eexists. split; [done|].
  destruct (add_running_used pods (newZeroUsed eq) Hp) as [Hd Ha]. split.
  - by rewrite Hd, newZeroUsed_dom.
  - intros n. rewrite Ha, newZeroUsed_amount. lia.
Qed.

Lemma used_is_unique eq pods u1 u2 :
  used_is eq pods u1 → used_is eq pods u2 → Semantic_DeepEqual u1 u2 = true.
Proof.
  intros [D1 A1] [D2 A2]. apply Semantic_DeepEqual_spec. split; [congruence|].
  intros n. by rewrite A1, A2.
Qed.

(** ** Properties *)

(** C30: Reconcile leaves the first quota of the namespace with the usage of its running pods: the sum over
    them, for each resource, of the requests of their containers or the largest request of an init container,
    whichever is more, without their overhead, although the comment on [computePodResourceRequest] says that
    it is added ([overhead_discarded]); the resources are those of the bounds and of the requests.  It sends
    nothing when the status reports that usage already, and else patches it in, after which a further
    call sends nothing.  Without a quota nothing is sent; a quota that cannot be listed or
    whose pods cannot be is an error and left alone, and so is the failure of the patch. Requests are not
    negative. *)
Theorem quota_Reconcile_spec api ns :
  match api_quotas api ns, api_pods api ns with
  | ListNotFound, _ | Items [], _ => Reconcile api ns = ([], false)
  | ListFailed, _ | Items (_ :: _), None => Reconcile api ns = ([], true)
  | Items (eq :: rest), Some pods =>
      Forall requests_nonneg pods →
      (used_is eq pods (qo_Used eq) ∧ Reconcile api ns = ([], false)) ∨
      (¬ used_is eq pods (qo_Used eq) ∧ ∃ used, used_is eq pods used ∧
       let new := set_Used eq used in
       Reconcile api ns = (if patch_fails api then ([Status_patch eq new], true)
                           else ([Status_patch eq new; Synced_event eq], false)) ∧
       ∀ api', api_quotas api' ns = Items (new :: rest) → api_pods api' ns = Some pods → Reconcile api' ns = ([], false))
  end.
Proof.
  destruct (api_quotas api ns) as [[|eq rest]| |] eqn:Hq; try (unfold Reconcile; by rewrite Hq).
  destruct (api_pods api ns) as [pods|] eqn:Hpods; [|unfold Reconcile, computeElasticQuotaUsed; by rewrite Hq, Hpods].
  intros Hnn. destruct (computeElasticQuotaUsed_spec api ns eq pods Hpods Hnn) as (used & Hused & His).
  unfold Reconcile at 1 2. rewrite Hq, Hused.
  destruct (Semantic_DeepEqual used (qo_Used eq)) eqn:E.
  - left. split; [|done]. apply Semantic_DeepEqual_spec in E as [Ed Ea]. destruct His as [D A].
    split; [by rewrite <- Ed|]. intros n. by rewrite <- Ea.
  - right. split; [intros Hu; by rewrite (used_is_unique _ _ _ _ His Hu) in E|].
    exists used. split; [done|]. cbn zeta. split; [by destruct (patch_fails api)|].
    intros api' Hq' Hpods'. unfold Reconcile. rewrite Hq'.
    destruct (computeElasticQuotaUsed_spec api' ns (set_Used eq used) pods Hpods' Hnn) as (u & -> & Hu).
    change (qo_Used (set_Used eq used)) with used. by rewrite (used_is_unique (set_Used eq used) pods u used Hu His).
Qed.

(** The overhead of a pod does not count towards the usage, although the
    comment on [computePodResourceRequest] says that it is added. *)
Definition with_overhead (p : Pod) (o : option resource_list) : Pod := {|
  p_namespace := p_namespace p; p_name := p_name p; p_uid := p_uid p; p_labels := p_labels p;
  p_annotations := p_annotations p; p_owner_references := p_owner_references p;
  p_deletion_timestamp := p_deletion_timestamp p; p_containers := p_containers p;
  p_init_containers := p_init_containers p; p_overhead := o; p_node_name := p_node_name p;
  p_scheduler_name := p_scheduler_name p; p_priority := p_priority p;
  p_priority_class_name := p_priority_class_name p; p_preemption_policy := p_preemption_policy p;
  p_seccomp := p_seccomp p; p_phase := p_phase p; p_host_ip := p_host_ip p;
  p_nominated_node_name := p_nominated_node_name p; p_scheduled_condition := p_scheduled_condition p |}.

Lemma overhead_discarded p o : computePodResourceRequest (with_overhead p o) = computePodResourceRequest p.
Proof. done. Qed.
End Controller.

(** ** Witnesses *)

Definition model_add (a b : gmap string Z) : gmap string Z := union_with (λ x y, Some (x + y)) a b.
Definition model_max (a b : gmap string Z) : gmap string Z := union_with (λ x y, Some (Z.max x y)) a b.

#[export] Instance model_quota_lists : QuotaListOps := {|
  quota_Add := model_add;
  quota_Max := model_max;
  quota_ResourceNames a := (map_to_list a).*1;
  Semantic_DeepEqual a b := bool_decide ((a : gmap string Z) = b);
|}.

Lemma union_with_dom (f : Z → Z → Z) (a b : gmap string Z) :
  dom (union_with (λ x y, Some (f x y)) a b) = dom a ∪ dom b.
Proof.
  apply set_eq. intros n. rewrite elem_of_union, !elem_of_dom, lookup_union_with.
  destruct (a !! n) as [x|], (b !! n) as [y|]; simpl; rewrite ?is_Some_alt; simpl; naive_solver.
Qed.

Lemma same_amounts (a b : gmap string Z) :
  (∀ n, is_Some (a !! n) ↔ is_Some (b !! n)) →
  (∀ n, match a !! n with Some q => q | None => 0 end = match b !! n with Some q => q | None => 0 end) → a = b.
Proof.
  intros Hd Ha. apply map_eq. intros n. specialize (Hd n). specialize (Ha n).
  destruct (a !! n) as [x|], (b !! n) as [y|].
  - by rewrite Ha.
  - destruct Hd as [Hd _]. by destruct Hd.
  - destruct Hd as [_ Hd]. by destruct Hd.
  - done.
Qed.

#[export] Instance model_quota_lists_spec : QuotaListSpec.
Proof.
  split; intros a b; simpl.
  - apply union_with_dom.
  - intros n. unfold amount_of, model_add. rewrite lookup_union_with.
    destruct (a !! n), (b !! n); simpl; lia.
  - apply union_with_dom.
  - intros n. unfold amount_of, model_max. rewrite lookup_union_with.
    destruct (a !! n), (b !! n); simpl; lia.
  - rewrite list_elem_of_fmap, elem_of_dom. split.
    + intros ([k v] & -> & Hin%elem_of_map_to_list). by exists v.
    + intros [v Hv%elem_of_map_to_list]. by exists (b, v).
  - rewrite bool_decide_eq_true. split; [by intros ->|]. intros [Hd Ha].
    apply same_amounts; [|exact Ha]. intros n. apply (f_equal (λ s, n ∈ s)) in Hd. cbv beta in Hd.
    rewrite <- !elem_of_dom. exact (eq_ind _ (λ P, _ ↔ P) (iff_refl _) _ Hd).
Qed.

Definition w_quota : ElasticQuotaObject :=
  mkQuotaObject _ "a" "q" {[ResourceCPU := cores 4]} {[ResourceMemory := bytes 9]} ∅.
Definition w_pods : list Pod :=
  [model_pod "a" "p" "n" 0 {[ResourceCPU := cores 2]}; model_pod "a" "p2" "n" 0 {[ResourceCPU := cores 1]}].
Definition w_api : Api :=
  {| api_quotas := λ _, Items [w_quota]; api_pods := λ _, Some w_pods; patch_fails := false |}.

Lemma quota_Reconcile_spec_witness :
  ∃ used, used_is w_quota w_pods used ∧
    Reconcile w_api "a" = ([Status_patch w_quota (set_Used w_quota used); Synced_event w_quota], false).
Proof.
  assert (Forall requests_nonneg w_pods) as Hnn.
  { assert (∀ k (v : Z), 0 ≤ v → nonneg ({[k := v]} : gmap string Z)) as Hsingle.
    { intros k v Hv name. unfold amount_of. rewrite lookup_singleton. by case_decide. }
    assert (∀ name v, 0 ≤ v → requests_nonneg (model_pod "a" name "n" 0 {[ResourceCPU := v]})) as Hp.
    { intros name v Hv. split; [|apply Forall_nil_2]. apply Forall_cons_2; [|apply Forall_nil_2]. by apply Hsingle. }
    apply Forall_cons_2; [|apply Forall_cons_2; [|apply Forall_nil_2]]; by apply Hp. }
  destruct (quota_Reconcile_spec w_api "a" Hnn) as [[_ E]|(_ & used & Hu & Hhead & _)].
  - exfalso. apply (f_equal (λ r, length r.1)) in E. vm_compute in E. discriminate E.
  - exists used. exact (conj Hu Hhead).
Defined.
