(* ===== verification/QuotaAgreement.v ===== *)
(** * What the quota controller reports and what the plugin counts

    Two programs keep the usage of an elastic quota: the scheduler plugin
    (capacityscheduling, file QuotaLedger), which counts every pod that is bound and alive or
    reserved in rounded numbers, and the controller (file QuotaController), which writes
    the sum over the running pods to the status.  This file relates the two.
    Nothing in it is a definition of the code. *)

From S2P Require Import Prelude GoSort K8s K8sModel ResourceUtil ElasticQuota CapacityScheduling QuotaAdmission QuotaController QuotaLedger.

(** ** Requests as the plugin rounds them *)

(** The resource a dimension of framework.Resource is read from, and its unit:
    thousandths of a core, or one. *)
Definition res_name `{FrameworkOps} (d : dim) : option string :=
  match d with
  | DCPU => Some ResourceCPU
  | DMemory => Some ResourceMemory
  | DEphemeral => Some ResourceEphemeralStorage
  | DPods => None
  | DScalar n => if IsScalarResourceName n then Some n else None
  end.

Definition unit_of (d : dim) : Z := match d with DCPU => 10 ^ 6 | _ => 10 ^ 9 end.

Lemma unit_of_pos d : 0 < unit_of d.
Proof. by destruct d. Qed.

(** An amount in the unit of the dimension, rounded up. *)
Definition units (d : dim) (z : Z) : Z := div_away z (unit_of d).

(** What [Add] and [SetMaxResource] read from a resource list. *)
Definition count `{QuantityOps} (d : dim) (name : string) (rl : resource_list) : option Z :=
  (λ q, match d with DCPU => q_MilliValue q | _ => q_Value q end) <$> rl !! name.

Lemma units_nonneg d z : 0 ≤ z → 0 ≤ units d z.
Proof.
  intros Hz. unfold units, div_away. rewrite decide_True by done. pose proof (unit_of_pos d).
  apply Z.div_pos; lia.
Qed.

Lemma units_zero d : units d 0 = 0.
Proof. by destruct d. Qed.

Lemma le_units d z : 0 ≤ z → z ≤ unit_of d * units d z.
Proof.
  intros Hz. unfold units, div_away. rewrite decide_True by done. pose proof (unit_of_pos d).
  pose proof (Z.div_mod (z + unit_of d - 1) (unit_of d)). pose proof (Z.mod_pos_bound (z + unit_of d - 1) (unit_of d)).
  lia.
Qed.

Lemma units_le d z n : 0 ≤ z → z ≤ unit_of d * n → units d z ≤ n.
Proof.
  intros Hz Hn. unfold units, div_away. rewrite decide_True by done. pose proof (unit_of_pos d).
  apply Z.lt_succ_r, Z.div_lt_upper_bound; lia.
Qed.

Section Rounded.
Context `{QuantityOps} `{!FrameworkOps} `{!QuantitySpec} `{!FrameworkSpec}.

Lemma count_exact d name rl :
  res_name d = Some name →
  0 ≤ amount_of rl name → units d (amount_of rl name) < 2 ^ 63 → default 0 (count d name rl) = units d (amount_of rl name).
Proof.
  intros _. unfold count, amount_of. destruct (rl !! name) as [q|]; cbn; [|by destruct d].
  intros Hq Hlt. pose proof (units_nonneg d _ Hq) as Hnn. unfold units in *.
  destruct d; cbn in *; first [apply q_MilliValue_spec|apply q_Value_spec]; unfold in64; lia.
Qed.

Lemma get_Add d name r rl :
  res_name d = Some name → in64 (get d r) → get d (res_Add r rl) = get d r +₆₄ default 0 (count d name rl).
Proof.
  intros Hname Hr. unfold count. assert (get d r +₆₄ 0 = get d r) as E0 by (rewrite Z.add_0_r; by apply wrap64_id).
  destruct d as [| | | |n]; cbn [get res_name] in *; simplify_eq;
    rewrite ?res_Add_cpu, ?res_Add_memory, ?res_Add_ephemeral; unfold milli_of, value_of;
    try by destruct (rl !! _).
  destruct (IsScalarResourceName n) eqn:En; simplify_eq. unfold scalar in *. rewrite res_Add_scalar, En.
  by destruct (rl !! name).
Qed.

Lemma get_SetMax d name r rl :
  res_name d = Some name →
  get d (res_SetMaxResource r rl) = match count d name rl with Some z => Z.max (get d r) z | None => get d r end.
Proof.
  intros Hname. unfold count. destruct d as [| | | |n]; cbn [get res_name] in *; simplify_eq;
    rewrite ?res_SetMax_cpu, ?res_SetMax_memory, ?res_SetMax_ephemeral; try by destruct (rl !! _).
  destruct (IsScalarResourceName n) eqn:En; simplify_eq. unfold scalar at 1. rewrite res_SetMax_scalar, En.
  by destruct (rl !! name).
Qed.
(** What a pod asks for when the requests of its containers are rounded one by one. *)
Definition rounded (d : dim) (name : string) (p : Pod) : Z :=
  let ask c := units d (amount_of (c_requests c) name) in
  Z.max (zsum ask (p_containers p)) (foldr (λ c z, Z.max (ask c) z) 0 (p_init_containers p)) +
  units d (amount_of (default ∅ (p_overhead p)) name).

Lemma asks_nonneg d name cs :
  Forall (λ c, nonneg (c_requests c)) cs → 0 ≤ zsum (λ c, units d (amount_of (c_requests c) name)) cs.
Proof.
  intros Hcs. apply zsum_nonneg. intros c Hc. rewrite Forall_forall in Hcs. by apply units_nonneg, Hcs.
Qed.

Lemma add_containers_get d name cs r :
  res_name d = Some name → Forall (λ c, nonneg (c_requests c)) cs → 0 ≤ get d r →
  get d r + zsum (λ c, units d (amount_of (c_requests c) name)) cs < 2 ^ 63 →
  get d (foldl (λ result container, res_Add result (c_requests container)) r cs) =
  get d r + zsum (λ c, units d (amount_of (c_requests c) name)) cs.
Proof.
  intros Hname Hcs. revert r. induction Hcs as [|c cs Hc Hcs IH]; intros r Hr Hlt; cbn in *; [lia|].
  pose proof (asks_nonneg d name cs Hcs) as Hrest. unfold zsum in Hrest.
  pose proof (units_nonneg d _ (Hc name)) as Hu.
  assert (get d (res_Add r (c_requests c)) = get d r + units d (amount_of (c_requests c) name)) as Ea.
  { rewrite (get_Add d name), count_exact; try done; [|lia|unfold in64; lia]. apply wrap64_id. unfold in64. lia. }
  rewrite IH; rewrite ?Ea; unfold zsum in *; lia.
Qed.

Lemma max_containers_get d name cs r :
  res_name d = Some name → Forall (λ c, nonneg (c_requests c)) cs → 0 ≤ get d r →
  foldr (λ c z, Z.max (units d (amount_of (c_requests c) name)) z) 0 cs < 2 ^ 63 →
  get d (foldl (λ result container, res_SetMaxResource result (c_requests container)) r cs) =
  Z.max (get d r) (foldr (λ c z, Z.max (units d (amount_of (c_requests c) name)) z) 0 cs).
Proof.
  intros Hname Hcs. revert r. induction Hcs as [|c cs Hc Hcs IH]; intros r Hr Hlt; cbn in *; [lia|].
  assert (get d (res_SetMaxResource r (c_requests c)) = Z.max (get d r) (units d (amount_of (c_requests c) name))) as Ea.
  { pose proof (count_exact d name (c_requests c) Hname (Hc name) ltac:(lia)) as Ec.
    rewrite (get_SetMax d name) by done. destruct (count d name (c_requests c)); cbn in Ec; lia. }
  rewrite IH; rewrite ?Ea; lia.
Qed.

(** The plugin counts the rounded requests, as long as they fit in an int64. *)
Lemma plugin_request d name p :
  res_name d = Some name → pod_nonneg p → rounded d name p < 2 ^ 63 →
  get d (ElasticQuota.computePodResourceRequest p) = rounded d name p.
Proof.
  intros Hname (Hc & Hi & Ho) Hlt. unfold rounded in *. cbn zeta in *.
  pose proof (asks_nonneg d name _ Hc) as Hsum.
  assert (get d zero_resource = 0) as E0 by (destruct d; reflexivity).
  assert (0 ≤ units d (amount_of (default ∅ (p_overhead p)) name)) as Hov.
  { destruct (p_overhead p) as [o|]; cbn; [by apply units_nonneg, Ho|by apply units_nonneg; rewrite amount_of_empty]. }
  unfold ElasticQuota.computePodResourceRequest.
  pose proof (add_containers_get d name (p_containers p) zero_resource Hname Hc) as Ea.
  rewrite E0 in Ea. specialize (Ea ltac:(lia) ltac:(lia)).
  match type of Ea with get d ?x = _ =>
    pose proof (max_containers_get d name (p_init_containers p) x Hname Hi ltac:(lia) ltac:(lia)) as Em end.
  rewrite Ea in Em. destruct (p_overhead p) as [o|]; cbn in *; [|rewrite Em, amount_of_empty, units_zero; lia].
  rewrite (get_Add d name), count_exact; rewrite ?Em; try done; [|lia|unfold in64; lia].
  rewrite Z.add_0_l in *. apply wrap64_id. unfold in64. lia.
Qed.
(** Rounding only adds: what the controller sums for a pod is at most what the plugin counts. *)
Lemma pod_request_rounded d name p :
  pod_nonneg p → 0 ≤ pod_request p name ≤ unit_of d * rounded d name p.
Proof.
  intros (Hc & Hi & Ho). unfold pod_request, rounded. cbn zeta. pose proof (unit_of_pos d).
  pose proof (units_nonneg d _ (Ho name)). pose proof (sum_of_nonneg _ name Hc). pose proof (max_of_nonneg (p_init_containers p) name).
  assert (sum_of (p_containers p) name ≤ unit_of d * zsum (λ c, units d (amount_of (c_requests c) name)) (p_containers p)).
  { clear -Hc. unfold sum_of, zsum. induction Hc as [|c cs Hc _ IH]; cbn; [lia|]. pose proof (le_units d _ (Hc name)). rewrite Z.mul_add_distr_l. lia. }
  assert (max_of (p_init_containers p) name ≤
    unit_of d * foldr (λ c z, Z.max (units d (amount_of (c_requests c) name)) z) 0 (p_init_containers p)).
  { clear -Hi. unfold max_of. induction Hi as [|c cs Hc _ IH]; cbn; [lia|]. pose proof (le_units d _ (Hc name)).
    pose proof (unit_of_pos d). rewrite <- Z.mul_max_distr_nonneg_l by lia. lia. }
  split; [lia|]. rewrite Z.mul_add_distr_l, <- Z.mul_max_distr_nonneg_l by lia. nia.
Qed.
End Rounded.

(** ** The two ledgers *)

Section Agreement.
Context `{MapOrder} `{QuantityOps} `{!FrameworkOps} `{InformerOps} `{!QuotaListOps}.
Context `{!QuantitySpec} `{!FrameworkSpec} `{!InformerSpec} `{!QuotaListSpec}.
Context (request : string → Resource) (ns_of : string → string).

Abbreviation Infos := (gmap string ElasticQuotaInfo).

(** The pods of a namespace, as the API server has reported them last. *)
Definition in_namespace (L : Ledger) (ns : string) : list (string * Pod) :=
  filter (λ kp : string * Pod, p_namespace kp.2 = ns) (map_to_list (store L)).

(** The usage in the status of the quota [eq] once Reconcile has written it, if it does. *)
Definition reported (api : Api) (ns : string) (eq : ElasticQuotaObject) : resource_list :=
  match (Reconcile api ns).1 with Status_patch _ new :: _ => qo_Used new | _ => qo_Used eq end.

Lemma ledger_identifies (c : Infos) L :
  ledger_run request ns_of c L → map_Forall (identifies request ns_of) (store L).
Proof.
  induction 1 as [|c L n listed c' L' _ IH Hr _ _|c L eq c' _ IH _|c L o n c' _ IH _ _|c L eq c' _ IH _
    |c L k pod _ IH _ _|c L k pod _ IH _ _]; try exact IH.
  - apply map_Forall_empty.
  - destruct n as [obj|oldObj newObj|obj]; cbn in Hr.
    + destruct Hr as (k & pod & _ & Hk & _ & ->). destruct (assignedPod pod); by apply map_Forall_insert_2.
    + destruct Hr as (k & o & n & _ & _ & _ & Hk & _ & _ & ->).
      destruct (assignedPod o), (assignedPod n); by apply map_Forall_insert_2.
    + destruct Hr as (k & o & pod & _ & _ & _ & _ & ->). by apply map_Forall_delete.
Qed.

Lemma in_namespace_keys L ns : NoDup (in_namespace L ns).*1.
Proof.
  apply (sublist_NoDup _ (map_to_list (store L)).*1); [apply NoDup_fst_map_to_list|].
  apply fmap_sublist, sublist_filter.
Qed.

Lemma zsum_keys (f : string → Z) keys : NoDup keys → zsum f keys = sum_set f (list_to_set keys).
Proof. intros Hn. unfold sum_set. by rewrite elements_list_to_set. Qed.

(** The plugin has missed no running pod of the namespace (see [missed] in file QuotaLedger). *)
Definition none_missed (L : Ledger) (ns : string) : Prop :=
  ∀ k p, store L !! k = Some p → p_namespace p = ns → p_phase p = PodRunning → k ∉ missed L.

(** What the plugin counts for the running pods is part of what it counts. *)
Lemma running_below_holding (c : Infos) L ns d :
  (∀ key, no_debt (request key)) → ledger_run request ns_of c L →
  Forall (λ p, p_phase p = PodRunning → assignedPod p = true) (in_namespace L ns).*2 → none_missed L ns →
  zsum (λ p, get d (ElasticQuota.computePodResourceRequest p)) (QuotaController.running (in_namespace L ns).*2) ≤
  sum_set (get d ∘ request) (holding ns_of L ns).
Proof.
  intros Hreq HL Hrun Hmiss. pose proof (ledger_identifies _ _ HL) as Hid.
  set (l := filter (λ kp : string * Pod, p_phase kp.2 = PodRunning) (in_namespace L ns)).
  assert (QuotaController.running (in_namespace L ns).*2 = l.*2) as ->.
  { unfold l, QuotaController.running. generalize (in_namespace L ns). intros l'.
    induction l' as [|x l' IH]; [done|]. rewrite fmap_cons, !filter_cons, IH. by case_decide. }
  assert (Forall (λ kp, identifies request ns_of kp.1 kp.2 ∧ kp.1 ∈ holding ns_of L ns) l) as Hl.
  { apply Forall_forall. intros [k p] [Hph Hin]%list_elem_of_filter. cbn in *.
    rewrite Forall_forall in Hrun. pose proof (Hrun p) as Ha. specialize (Ha ltac:(apply list_elem_of_fmap; by exists (k, p)) Hph).
    apply list_elem_of_filter in Hin as [Hns Hin%elem_of_map_to_list]. cbn in Hns.
    pose proof (Hid _ _ Hin) as Hkp. split; [exact Hkp|]. destruct Hkp as (_ & Hk & _).
    apply elem_of_holding. split; [by rewrite <- Hk|]. split; [|by apply (Hmiss k p)].
    unfold candidates. apply elem_of_union_l, elem_of_union_r, elem_of_running. exists p. split; [done|].
    unfold alive. by rewrite Ha, bool_decide_true. }
  trans (zsum (get d ∘ request) l.*1).
  - clear -Hl. induction Hl as [|[k p] l [(_ & _ & Hr) _] _ IH]; cbn in *; [lia|]. rewrite Hr. unfold zsum in *. cbn in *. lia.
  - rewrite zsum_keys.
    + apply sum_set_le; [intros k; apply Hreq|]. intros k. rewrite elem_of_list_to_set, list_elem_of_fmap.
      intros (kp & -> & Hkp). rewrite Forall_forall in Hl. by apply Hl.
    + apply (sublist_NoDup _ (in_namespace L ns).*1); [apply in_namespace_keys|]. apply fmap_sublist, sublist_filter.
Qed.
(** A pod as the API server admits it: nothing negative, on a node when it runs,
    and its requests fit in an int64. *)
Definition admissible (q : Pod) : Prop :=
  pod_nonneg q ∧ (p_phase q = PodRunning → assignedPod q = true) ∧
  ∀ d name, res_name d = Some name → rounded d name q < 2 ^ 63.

Lemma reported_amount api ns eq rest pods name :
  api_quotas api ns = Items (eq :: rest) → api_pods api ns = Some pods → Forall requests_nonneg pods →
  amount_of (reported api ns eq) name = zsum (λ q, pod_request q name) (QuotaController.running pods).
Proof.
  intros Hq Hp Hnn. destruct (computeElasticQuotaUsed_spec api ns eq pods Hp Hnn) as (used & Hu & _ & Ha).
  unfold reported, Reconcile. rewrite Hq, Hu. destruct (Semantic_DeepEqual used (qo_Used eq)) eqn:E; cbn.
  - apply Semantic_DeepEqual_spec in E as [_ <-]. apply Ha.
  - destruct (patch_fails api); apply Ha.
Qed.

(** The exact sum over running pods is below the sum of the rounded requests. *)
Lemma running_rounded d name pods :
  res_name d = Some name → Forall admissible pods →
  0 ≤ zsum (λ q, pod_request q name) (QuotaController.running pods) ≤
  unit_of d * zsum (λ q, get d (ElasticQuota.computePodResourceRequest q)) (QuotaController.running pods).
Proof.
  intros Hname. induction 1 as [|q pods (Hnn & _ & Hfit) _ IH]; [cbn; lia|].
  unfold QuotaController.running in *. rewrite filter_cons. case_decide; [|done].
  pose proof (pod_request_rounded d name q Hnn). cbn. rewrite (plugin_request d name q Hname Hnn (Hfit d name Hname)).
  unfold zsum in *. rewrite Z.mul_add_distr_l. lia.
Qed.

End Agreement.

(** ** Witness *)

(** Two pods were admitted and reserved, and the informer reports the first as bound. *)
Definition w_three : gmap string ElasticQuotaInfo := addPod w_two (w_bound "a" "p1") None.

Definition w_ledger_three : Ledger := bound w_ledger_two true "p1" (w_bound "a" "p1").

Definition w_listed_quota : ElasticQuotaObject :=
  mkQuotaObject _ "a" "q" {[ResourceCPU := cores 3]} {[ResourceCPU := cores 5]} ∅.

Definition w_server : Api := {|
  api_quotas := λ _, Items [w_listed_quota]; api_pods := λ _, Some [w_bound "a" "p1"]; patch_fails := false |}.

Lemma w_run_three : QuotaAdmission.run (Others := unit) w_request w_three None.
Proof.
  refine (run_bound w_request w_two None (w_bound "a" "p1") None w_run_two _).
  assert (E : (λ i, bool_decide ("p1" ∈ eq_pods i)) <$> (w_two !! "a") = Some true) by (vm_compute; reflexivity).
  unfold already_held. change (p_namespace (w_bound "a" "p1")) with "a".
  destruct (w_two !! "a") as [i|]; [|discriminate E]. injection E as E%bool_decide_eq_true.
  by exists "p1".
Qed.

Lemma w_ledger_run_three : ledger_run w_request w_ns_of w_three w_ledger_three.
Proof.
  refine (lr_pod w_request w_ns_of w_two _ (NotifyAdd (PodObj (w_bound "a" "p1"))) None w_three w_ledger_three w_ledger_run_two _ _ _).
  - exists "p1", (w_bound "a" "p1"). split_and!; try done; by apply w_identifies.
  - by constructor.
  - done.
Qed.

Lemma w_admissible : Forall admissible [w_bound "a" "p1"].
Proof.
  apply Forall_singleton.
  assert (∀ k (v : Z) name, 0 ≤ v → 0 ≤ amount_of ({[k := v]} : gmap string Z) name ≤ v) as Hone.
  { intros k v name Hv. unfold amount_of. rewrite lookup_singleton. by case_decide. }
  split; [|split; [done|]].
  - split; [|split; [constructor|]].
    + apply Forall_singleton. intros name. by apply Hone.
    + intros name. apply Z.eq_le_incl. symmetry. apply amount_of_empty.
  - intros d name _.
    change (Z.max (units d (amount_of ({[ResourceCPU := cores 2]} : gmap string Z) name) + 0) 0 +
      units d (amount_of (default ∅ (p_overhead (w_bound "a" "p1"))) name) < 2 ^ 63).
    replace (amount_of (default ∅ (p_overhead (w_bound "a" "p1"))) name) with 0 by (symmetry; apply amount_of_empty). rewrite units_zero.
    destruct (Hone ResourceCPU (cores 2) name) as [Ha Hb]; [done|].
    pose proof (unit_of_pos d). pose proof (units_le d _ (cores 2) Ha ltac:(unfold cores in *; nia)).
    unfold cores in *. lia.
Qed.

