(* ===== verification/Trimaran.v ===== *)
(** * Common code of the load-aware plugins (pkg/trimaran)

    [handler.go]: the cache of recently bound pods that an informer handler
    fills and a ticker cleans; [collector.go]: the metrics of the load
    watcher; [resourcestats.go]: usage statistics, requests and limits.

    Times are in nanoseconds.  Measurements are finite floats.  The load
    watcher is third-party: its string constants are operations of
    [WatcherConsts]. *)

From S2P Require Import Prelude Float64 GoSort K8s K8sModel.
From Stdlib Require Import QArith Lqa.
From stdpp Require Import gmap.

Open Scope Z_scope.

(** ** Measurements (github.com/paypal/load-watcher/pkg/watcher) *)

Class WatcherConsts : Type := {
  w_CPU : string; w_Memory : string;
  w_Average : string; w_Std : string; w_Latest : string;
  (* metric provider types of apis/config *)
}.

Record Metric := { m_Type : string; m_Operator : string; m_Value : Q }.

(** [NodeMetricsMap] and the [Metrics] slice of a node may be nil. *)
Record WatcherMetrics := {
  Window_End : Z;
  NodeMetricsMap : option (gmap string (option (list Metric)));
}.

(** ** handler.go *)

Section Handler.
Context `{MapOrder} `{QuantityOps}.

Definition metricsAgentReportingIntervalSeconds : Z := 60.
Definition nano : Z := 1000000000.

Record podInfo := { Timestamp : Z; pi_Pod : Pod }.
Abbreviation pods_cache := (gmap string (list podInfo)).

(** What an informer hands to its handlers. *)
Inductive object := PodObj (pod : Pod) | DeletedFinalStateUnknown (obj : option Pod) | OtherObj.

Definition isAssigned (pod : Pod) : bool := negb (bool_decide (String.length (p_node_name pod) = 0%nat)).

Definition FilterFunc (obj : object) : bool :=
  match obj with
  | PodObj t => isAssigned t
  | DeletedFinalStateUnknown (Some pod) => isAssigned pod
  | _ => false
  end.

(** The type assertion [obj.(\*v1.Pod)]. *)
Definition as_pod (obj : object) : outcome Pod := match obj with PodObj pod => Ret pod | _ => Panic end.

Definition updateCache (now : Z) (cache : pods_cache) (pod : Pod) : pods_cache :=
  if bool_decide (p_node_name pod = "") then cache else
  <[p_node_name pod := default [] (cache !! p_node_name pod) ++ [{| Timestamp := now; pi_Pod := pod |}]]> cache.

Definition OnAdd (now : Z) (cache : pods_cache) (obj : object) : outcome pods_cache :=
  pod ← as_pod obj; Ret (updateCache now cache pod).

Definition OnUpdate (now : Z) (cache : pods_cache) (oldObj newObj : object) : outcome pods_cache :=
  oldPod ← as_pod oldObj;
  newPod ← as_pod newObj;
  Ret (if negb (bool_decide (p_node_name oldPod = p_node_name newPod)) then updateCache now cache newPod else cache).

Definition OnDelete (cache : pods_cache) (obj : object) : outcome pods_cache :=
  pod ← as_pod obj;
  Ret match cache !! p_node_name pod with
      | None => cache
      | Some infos =>
          match list_find (λ v, p_uid pod = p_uid (pi_Pod v)) infos with
          | None => cache
          | Some (i, _) => <[p_node_name pod := delete i infos]> cache
          end
      end.

Definition recent (curTime : Z) (info : podInfo) : bool :=
  bool_decide (Timestamp info + metricsAgentReportingIntervalSeconds * nano > curTime).

Definition recent_at (curTime : Z) (cache : list podInfo) (i : Z) : bool :=
  match cache !! Z.to_nat i with Some info => recent curTime info | None => false end.

(** The body of the loop of [cleanupCache]; every node reads the clock. *)
Definition cleanup_step (curTime : string → Z) (p : pods_cache) (entry : string * list podInfo) : pods_cache :=
  let '(nodeName, cache) := entry in
  let idx := Search (Z.of_nat (length cache)) (recent_at (curTime nodeName) cache) in
  if bool_decide (idx = Z.of_nat (length cache)) then p else
  let cache := drop (Z.to_nat idx) cache in
  if bool_decide (length cache = 0%nat) then delete nodeName p else <[nodeName := cache]> p.

Definition cleanupCache (curTime : string → Z) (p : pods_cache) : pods_cache :=
  foldl (cleanup_step curTime) p (range p).

(** *** Runs

    client-go's filtering handler decides which callback an event becomes. *)

Inductive event :=
| Add (obj : object)
| Update (oldObj newObj : object)
| Delete (obj : object)
| Cleanup.

Definition dispatch (now : Z) (cache : pods_cache) (e : event) : outcome pods_cache :=
  match e with
  | Add obj => if FilterFunc obj then OnAdd now cache obj else Ret cache
  | Update oldObj newObj =>
      match FilterFunc newObj, FilterFunc oldObj with
      | true, true => OnUpdate now cache oldObj newObj
      | true, false => OnAdd now cache newObj
      | false, true => OnDelete cache oldObj
      | false, false => Ret cache
      end
  | Delete obj => if FilterFunc obj then OnDelete cache obj else Ret cache
  | Cleanup => Ret (cleanupCache (λ _, now) cache)
  end.

(** The cache and the time of the last event; the clock does not run backwards. *)
Inductive reachable : pods_cache → Z → Prop :=
| reachable_New now : reachable ∅ now
| reachable_event cache clock now e cache' :
    reachable cache clock → clock ≤ now → dispatch now cache e = Ret cache' → reachable cache' now.

(** *** Lemmas *)

Definition sorted_infos (infos : list podInfo) : Prop := StronglySorted (λ a b, Timestamp a ≤ Timestamp b) infos.

(** The invariant of a node's list: in order of time, none in the future, on
    the node. *)
Definition infos_ok (clock : Z) (nodeName : string) (infos : list podInfo) : Prop :=
  sorted_infos infos ∧ Forall (λ v, Timestamp v ≤ clock ∧ p_node_name (pi_Pod v) = nodeName) infos.

Lemma sorted_sublist l l' : l `sublist_of` l' → sorted_infos l' → sorted_infos l.
Proof.
  unfold sorted_infos. intros Hsub. induction Hsub as [|x l l' Hsub IH|x l l' Hsub IH]; intros Hs.
  - constructor.
  - inversion Hs as [|? ? Hs' Hall]; subst. constructor; [by apply IH|].
    rewrite Forall_forall in Hall |- *. intros y Hy. apply Hall. by eapply elem_of_sublist.
  - inversion Hs; subst. by apply IH.
Qed.

Lemma infos_ok_sublist clock n l l' : l `sublist_of` l' → infos_ok clock n l' → infos_ok clock n l.
Proof.
  intros Hsub [Hs Hall]. split; [by eapply sorted_sublist|]. rewrite Forall_forall in Hall |- *.
  intros y Hy. apply Hall. by eapply elem_of_sublist.
Qed.

Lemma infos_ok_later clock now n l : clock ≤ now → infos_ok clock n l → infos_ok now n l.
Proof.
  intros Hle [Hs Hall]. split; [done|]. eapply Forall_impl; [exact Hall|]. intros v [? ?]. split; [lia|done].
Qed.

Lemma infos_ok_snoc clock now pod l :
  clock ≤ now → infos_ok clock (p_node_name pod) l →
  infos_ok now (p_node_name pod) (l ++ [{| Timestamp := now; pi_Pod := pod |}]).
Proof.
  intros Hle [Hs Hall]. split.
  - apply StronglySorted_app. split; [|split; [done|by repeat constructor]].
    intros x1 x2 H1 ->%list_elem_of_singleton. rewrite Forall_forall in Hall.
    apply Hall in H1 as [? _]. simpl. lia.
  - apply Forall_app. split; [|by repeat constructor]. eapply Forall_impl; [exact Hall|].
    intros v [? ?]. split; [lia|done].
Qed.

(** On a list in order of time, the recent entries are a suffix. *)
Lemma recent_suffix cur infos :
  sorted_infos infos →
  let idx := Search (Z.of_nat (length infos)) (recent_at cur infos) in
  0 ≤ idx ≤ Z.of_nat (length infos) ∧ drop (Z.to_nat idx) infos = filter (λ v, recent cur v = true) infos ∧
  (idx = Z.of_nat (length infos) ↔ filter (λ v, recent cur v = true) infos = []).
Proof.
  intros Hs. cbn zeta. set (idx := Search _ _).
  destruct (Search_spec (recent_at cur infos) (Z.of_nat (length infos))) as (Hr & Hlo & Hhi); [lia| |].
  { intros a b Ha Hab Hb. unfold recent_at.
    destruct (lookup_lt_is_Some_2 infos (Z.to_nat a)) as [x Hx]; [lia|].
    destruct (lookup_lt_is_Some_2 infos (Z.to_nat b)) as [y Hy]; [lia|]. rewrite Hx, Hy.
    destruct (decide (a = b)) as [->|]; [by simplify_eq|].
    pose proof (StronglySorted_lookup _ infos (Z.to_nat a) (Z.to_nat b) x y Hs Hx Hy ltac:(lia)) as Hxy.
    simpl in Hxy. unfold recent. rewrite !bool_decide_eq_true. lia. }
  fold idx in Hr, Hlo, Hhi.
  assert (drop (Z.to_nat idx) infos = filter (λ v, recent cur v = true) infos) as Hdrop.
  { rewrite <- (take_drop (Z.to_nat idx) infos) at 2. rewrite filter_app.
    assert (filter (λ v, recent cur v = true) (take (Z.to_nat idx) infos) = []) as ->.
    { apply filter_none. intros v Hv.
      apply list_elem_of_lookup in Hv as [i Hi]. pose proof (lookup_lt_Some _ _ _ Hi) as Hlt.
      rewrite length_take in Hlt. rewrite lookup_take_lt in Hi by lia.
      specialize (Hlo (Z.of_nat i) ltac:(lia)). unfold recent_at in Hlo. rewrite Nat2Z.id, Hi in Hlo. congruence. }
    simpl. symmetry. apply filter_all. intros v Hv.
    apply list_elem_of_lookup in Hv as [i Hi]. pose proof (lookup_lt_Some _ _ _ Hi) as Hlt.
    rewrite length_drop in Hlt. rewrite lookup_drop in Hi.
    specialize (Hhi (Z.of_nat (Z.to_nat idx + i)) ltac:(lia)). unfold recent_at in Hhi. by rewrite Nat2Z.id, Hi in Hhi. }
  split; [done|]. split; [done|]. rewrite <- Hdrop. split.
  - intros ->. apply drop_ge. lia.
  - intros E. apply (f_equal length) in E. rewrite length_drop in E. simpl in E. lia.
Qed.

Definition cleaned (cur : Z) (old : option (list podInfo)) (infos : list podInfo) : option (list podInfo) :=
  let idx := Search (Z.of_nat (length infos)) (recent_at cur infos) in
  if bool_decide (idx = Z.of_nat (length infos)) then old else
  if bool_decide (length (drop (Z.to_nat idx) infos) = 0%nat) then None else Some (drop (Z.to_nat idx) infos).

Lemma cleanup_step_lookup cur p k infos j :
  cleanup_step cur p (k, infos) !! j = if decide (j = k) then cleaned (cur k) (p !! k) infos else p !! j.
Proof.
  unfold cleanup_step, cleaned. case_bool_decide; [case_decide; by subst|].
  case_bool_decide; case_decide as E; subst; rewrite ?lookup_delete_eq, ?lookup_insert_eq, ?lookup_delete_ne,
    ?lookup_insert_ne by done; done.
Qed.

(** What a clean-up leaves of a list in order of time. *)
Lemma cleanupCache_lookup cur p n :
  (∀ infos, p !! n = Some infos → sorted_infos infos) →
  cleanupCache cur p !! n =
  match p !! n with
  | None => None
  | Some infos => let fresh := filter (λ v, recent (cur n) v = true) infos in
                  Some (if decide (fresh = []) then infos else fresh)
  end.
Proof.
  intros Hs. unfold cleanupCache.
  rewrite (foldl_range_lookup (λ k old infos, cleaned (cur k) old infos)) by (intros; apply cleanup_step_lookup).
  destruct (p !! n) as [infos|] eqn:E; [|done]. specialize (Hs infos eq_refl).
  destruct (recent_suffix (cur n) infos Hs) as (Hr & Hdrop & Hnil). cbn zeta. unfold cleaned.
  case_decide as Hf; case_bool_decide as Hi; [done|tauto|tauto|].
  rewrite Hdrop. case_bool_decide as Hl; [|done]. by apply nil_length_inv in Hl.
Qed.

Lemma updateCache_ok clock now cache pod :
  clock ≤ now → (∀ n infos, cache !! n = Some infos → infos_ok clock n infos) →
  ∀ n infos, updateCache now cache pod !! n = Some infos → infos_ok now n infos.
Proof.
  intros Hle Hok n infos. unfold updateCache. case_bool_decide.
  { intros E. eapply infos_ok_later; [done|]. by apply Hok. }
  destruct (decide (n = p_node_name pod)) as [->|Hn].
  - rewrite lookup_insert_eq. intros [= <-]. apply (infos_ok_snoc clock); [done|].
    destruct (cache !! p_node_name pod) eqn:E; [by apply Hok|]. by repeat constructor.
  - rewrite lookup_insert_ne by done. intros E. eapply infos_ok_later; [done|]. by apply Hok.
Qed.

Lemma OnDelete_ok clock cache obj cache' :
  (∀ n infos, cache !! n = Some infos → infos_ok clock n infos) → OnDelete cache obj = Ret cache' →
  ∀ n infos, cache' !! n = Some infos → infos_ok clock n infos.
Proof.
  intros Hok. destruct obj as [pod| |]; [|done..]. unfold OnDelete. simpl. intros [= <-] n infos.
  destruct (cache !! p_node_name pod) as [l|] eqn:E; [|apply Hok].
  destruct (list_find _ l) as [[i v]|]; [|apply Hok].
  destruct (decide (n = p_node_name pod)) as [->|Hn].
  - rewrite lookup_insert_eq. intros [= <-]. eapply infos_ok_sublist; [apply sublist_delete|]. by apply Hok.
  - rewrite lookup_insert_ne by done. apply Hok.
Qed.

Lemma reachable_infos_ok cache clock :
  reachable cache clock → ∀ n infos, cache !! n = Some infos → infos_ok clock n infos.
Proof.
  induction 1 as [now|cache clock now e cache' _ IH Hle He]; [done|].
  assert (∀ n infos, cache !! n = Some infos → infos_ok now n infos) as Hlater.
  { intros n infos E. eapply infos_ok_later; [done|]. by apply IH. }
  assert (∀ obj c, OnAdd now cache obj = Ret c → ∀ n infos, c !! n = Some infos → infos_ok now n infos) as Hadd.
  { intros [pod| |] c; [|done..]. intros [= <-]. by apply (updateCache_ok clock). }
  destruct e as [obj|oldObj newObj|obj|]; simpl in He.
  - destruct (FilterFunc obj); [by apply (Hadd obj)|by injection He as <-].
  - destruct (FilterFunc newObj), (FilterFunc oldObj).
    + destruct oldObj as [old| |], newObj as [new| |]; try done. unfold OnUpdate in He. simpl in He.
      injection He as <-. destruct (negb _); [|done]. by apply (updateCache_ok clock).
    + by apply (Hadd newObj).
    + by apply (OnDelete_ok now cache oldObj).
    + by injection He as <-.
  - destruct (FilterFunc obj); [by apply (OnDelete_ok now cache obj)|by injection He as <-].
  - injection He as <-. intros n infos. rewrite cleanupCache_lookup by (intros l E; by apply (Hlater n l)).
    destruct (cache !! n) as [l|] eqn:E; [|done]. cbn zeta. intros [= <-]. specialize (Hlater n l E).
    case_decide; [done|]. eapply infos_ok_sublist; [|exact Hlater]. apply sublist_filter.
Qed.

(** C25: whatever the informer delivers, the pods cached for a node are assigned
    to it and in order of their time stamps; so the binary search of a
    clean-up is exact: of a node with a pod of the last 60 seconds it keeps
    those pods, in order, and drops the older ones.  A node all of whose pods are
    older is not touched: it keeps every one of them, contrary to the comment on
    [cleanupCache], by which they are deleted and the entry of the node with
    them ([stale_node_kept]). *)
Theorem cleanupCache_spec cache clock cur n :
  reachable cache clock →
  from_option (infos_ok clock n) True (cache !! n) ∧
  cleanupCache cur cache !! n =
  match cache !! n with
  | None => None
  | Some infos => let fresh := filter (λ v, recent (cur n) v = true) infos in
                  Some (if decide (fresh = []) then infos else fresh)
  end.
Proof.
  intros Hr. pose proof (reachable_infos_ok cache clock Hr n) as Hok. split.
  - destruct (cache !! n); [by apply Hok|done].
  - apply cleanupCache_lookup. intros infos E. by apply Hok.
Qed.

(** Older entries of a node without a recent one stay, although the comment
    on [cleanupCache] says that they are deleted and the entry of the node
    with them. *)
Lemma stale_node_kept cache clock cur n infos :
  reachable cache clock → cache !! n = Some infos → (∀ v, v ∈ infos → recent (cur n) v = false) →
  cleanupCache cur cache !! n = Some infos.
Proof.
  intros Hr E Hstale. rewrite cleanupCache_lookup.
  - rewrite E. cbn zeta. rewrite decide_True; [done|]. apply filter_none. intros v Hv. by rewrite (Hstale v Hv).
  - intros l El. by apply (reachable_infos_ok cache clock Hr n).
Qed.

(** The filter accepts the tombstone of an assigned pod, the handler does not. *)
Lemma tombstone_panics now cache pod :
  isAssigned pod = true → dispatch now cache (Delete (DeletedFinalStateUnknown (Some pod))) = Panic.
Proof. intros E. simpl. by rewrite E. Qed.
End Handler.

(** ** collector.go *)

Section Collector.
Context `{WatcherConsts}.

(** TrimaranSpec, as far as it is checked; the provider names are constants of
    apis/config. *)
Definition KubernetesMetricsServer : string := "KubernetesMetricsServer".
Definition Prometheus : string := "Prometheus".
Definition SignalFx : string := "SignalFx".

Record TrimaranSpec := { MetricProvider_Type : string; WatcherAddress : string }.

(** The error, if any. *)
Definition checkSpecs (trimaranSpec : TrimaranSpec) : option string :=
  if bool_decide (WatcherAddress trimaranSpec = "") then
    let t := MetricProvider_Type trimaranSpec in
    if bool_decide (t = KubernetesMetricsServer) || bool_decide (t = Prometheus) || bool_decide (t = SignalFx)
    then None else Some "invalid MetricProvider.Type, got %v"
  else None.

(** The collected metrics; [None] from the load watcher is an error. *)
Definition updateMetrics (metrics : WatcherMetrics) (answer : option WatcherMetrics) : WatcherMetrics * bool :=
  match answer with None => (metrics, true) | Some m => (m, false) end.

(** The zero value of the collector's metrics, before the first update. *)
Definition no_metrics : WatcherMetrics := {| Window_End := 0; NodeMetricsMap := None |}.

(** [client] is whether a load watcher client can be made, [answer] its first
    answer, whose failure is logged only. *)
Definition NewCollector (trimaranSpec : TrimaranSpec) (client : bool) (answer : option WatcherMetrics) :
  option WatcherMetrics :=
  match checkSpecs trimaranSpec with
  | Some _ => None
  | None => if client then Some (updateMetrics no_metrics answer).1 else None
  end.

(** The metrics of the node and those of all nodes, each of them possibly nil. *)
Definition GetNodeMetrics (metrics : WatcherMetrics) (nodeName : string) : option (list Metric) * option WatcherMetrics :=
  match NodeMetricsMap metrics with
  | None => (None, None)
  | Some nodes =>
      match nodes !! nodeName with
      | None => (None, Some metrics)
      | Some node => (node, Some metrics)
      end
  end.

Lemma GetNodeMetrics_some metrics nodeName ms :
  (GetNodeMetrics metrics nodeName).1 = Some ms → (GetNodeMetrics metrics nodeName).2 = Some metrics.
Proof.
  unfold GetNodeMetrics. destruct (NodeMetricsMap metrics) as [nodes|]; [|done]. by destruct (nodes !! nodeName).
Qed.
End Collector.

(** ** resourcestats.go *)

Section Stats.
Context `{MapOrder} `{QuantityOps} `{!FrameworkOps} `{WatcherConsts}.

Definition MegaFactor : Q := f64 (1 # 1048576).

Record ResourceStats := mkStats { UsedAvg : Q; UsedStdev : Q; Req : Q; Capacity : Q }.

Definition data_step (resourceType : string) (acc : Q * Q * bool * bool) (metric : Metric) : Q * Q * bool * bool :=
  let '(avg, stDev, avgFound, isValid) := acc in
  if bool_decide (m_Type metric = resourceType) then
    if bool_decide (m_Operator metric = w_Average) then (m_Value metric, stDev, true, true)
    else if bool_decide (m_Operator metric = w_Std) then (avg, m_Value metric, avgFound, true)
    else if (bool_decide (m_Operator metric = "") || bool_decide (m_Operator metric = w_Latest)) && negb avgFound
         then (m_Value metric, stDev, avgFound, true)
         else (avg, stDev, avgFound, true)
  else acc.

Definition GetResourceData (metrics : list Metric) (resourceType : string) : Q * Q * bool :=
  let '(avg, stDev, _, isValid) := foldl (data_step resourceType) (0%Q, 0%Q, false, false) metrics in
  (avg, stDev, isValid).

Definition CreateResourceStats (metrics : list Metric) (node : Node) (podRequest : Resource)
    (resourceName watcherType : string) : option ResourceStats :=
  let '(nodeUtil, nodeStd, metricFound) := GetResourceData metrics watcherType in
  if negb metricFound then None else
  let allocatableResources := n_allocatable node in
  let '(capacity, req) :=
    if bool_decide (resourceName = ResourceCPU)
    then (f64_of_int (milli_of allocatableResources resourceName), f64_of_int (MilliCPU podRequest))
    else (f64_mul (f64_of_int (value_of allocatableResources resourceName)) MegaFactor,
          f64_mul (f64_of_int (Memory podRequest)) MegaFactor) in
  Some (mkStats (f64_div (f64_mul nodeUtil capacity) 100) (f64_div (f64_mul nodeStd capacity) 100) req capacity).

Definition clamp01 (x : Q) : Q := f_max (f_min x 1) 0.

Definition GetMuSigma (rs : ResourceStats) : Q * Q :=
  if f_le (Capacity rs) 0 then (0%Q, 0%Q) else
  let mu := f64_div (f64_add (UsedAvg rs) (Req rs)) (Capacity rs) in
  let mu := clamp01 mu in
  let sigma := f64_div (UsedStdev rs) (Capacity rs) in
  let sigma := clamp01 sigma in
  (mu, sigma).

Definition setMin (x y : Z) : Z := if bool_decide (x > y) then y else x.
Definition setMax (x y : Z) : Z := if bool_decide (x < y) then y else x.

Definition set_MilliCPU (r : Resource) (v : Z) : Resource := {|
  MilliCPU := v; Memory := Memory r; EphemeralStorage := EphemeralStorage r;
  AllowedPodNumber := AllowedPodNumber r; ScalarResources := ScalarResources r |}.
Definition set_Memory (r : Resource) (v : Z) : Resource := {|
  MilliCPU := MilliCPU r; Memory := v; EphemeralStorage := EphemeralStorage r;
  AllowedPodNumber := AllowedPodNumber r; ScalarResources := ScalarResources r |}.

(** The body of the loop over the resources of an init container. *)
Definition init_step (result : Resource) (entry : string * Quantity) : Resource :=
  let '(rName, rQuantity) := entry in
  if bool_decide (rName = ResourceCPU) then set_MilliCPU result (setMax (MilliCPU result) (q_MilliValue rQuantity))
  else if bool_decide (rName = ResourceMemory) then set_Memory result (setMax (Memory result) (q_Value rQuantity))
  else result.

Definition GetEffectiveResource (pod : Pod) (fn : Container → resource_list) : Resource :=
  let result := foldl (λ result container, res_Add result (fn container)) zero_resource (p_containers pod) in
  let result := foldl (λ result container, foldl init_step result (range (fn container))) result (p_init_containers pod) in
  match p_overhead pod with Some overhead => res_Add result overhead | None => result end.

Definition GetResourceRequested (pod : Pod) : Resource := GetEffectiveResource pod c_requests.
Definition GetResourceLimits (pod : Pod) : Resource := GetEffectiveResource pod c_limits.

(** The scalar map of a framework resource is nil until its first entry is
    written by the library, so an empty map here is the nil map: writing to it
    panics. *)
Definition scalar_limit_step (limits : gmap string Z) (entry : string * Z) : outcome (gmap string Z) :=
  let '(k, v) := entry in
  if bool_decide (default 0 (limits !! k) < v) then
    if bool_decide (limits = ∅) then Panic else Ret (<[k := v]> limits)
  else Ret limits.

Definition SetMaxLimits (requests limits : Resource) : outcome Resource :=
  scalars ← fold_outcome scalar_limit_step (ScalarResources limits) (range (ScalarResources requests));
  Ret {| MilliCPU := setMax (MilliCPU limits) (MilliCPU requests);
         Memory := setMax (Memory limits) (Memory requests);
         EphemeralStorage := setMax (EphemeralStorage limits) (EphemeralStorage requests);
         AllowedPodNumber :=
           if bool_decide (AllowedPodNumber limits < AllowedPodNumber requests)
           then AllowedPodNumber requests else AllowedPodNumber limits;
         ScalarResources := scalars |}.

Record NodeRequestsAndLimits := {
  NodeRequest : Resource;
  NodeLimit : Resource;
  NodeRequestMinusPod : Resource;
  NodeLimitMinusPod : Resource;
  Nodecapacity : Resource;
}.

Definition accumulate (total r : Resource) : Resource :=
  set_Memory (set_MilliCPU total (MilliCPU total +₆₄ MilliCPU r)) (Memory total +₆₄ Memory r).

(** A pod that is on the node already. *)
Definition present_step (acc : Resource * Resource) (p : Pod) : outcome (Resource * Resource) :=
  let requested := GetResourceRequested p in
  limits ← SetMaxLimits requested (GetResourceLimits p);
  Ret (accumulate acc.1 requested, accumulate acc.2 limits).

Definition cap_resource (r : Resource) (capCpu capMem : Z) : Resource :=
  set_Memory (set_MilliCPU r (setMin (MilliCPU r) capCpu)) (setMin (Memory r) capMem).

(** The pending pod is a pointer of its own, so the comparison [p == pod] holds
    for the last pod of the sequence only. *)
Definition GetNodeRequestsAndLimits (podInfosOnNode : list Pod) (node : Node) (podRequests podLimits : Resource) :
  outcome NodeRequestsAndLimits :=
  let capCpu := milli_of (n_allocatable node) ResourceCPU in
  let capMem := value_of (n_allocatable node) ResourceMemory in
  '(nodeRequest, nodeLimit) ← fold_outcome present_step (zero_resource, zero_resource) podInfosOnNode;
  Ret {| NodeRequest := cap_resource (accumulate nodeRequest podRequests) capCpu capMem;
         NodeLimit := accumulate nodeLimit podLimits;
         NodeRequestMinusPod := cap_resource nodeRequest capCpu capMem;
         NodeLimitMinusPod := nodeLimit;
         Nodecapacity := set_Memory (set_MilliCPU zero_resource capCpu) capMem |}.

(** *** Lemmas *)

Lemma clamp01_bounds x : (0 <= clamp01 x <= 1)%Q.
Proof.
  unfold clamp01. split; [apply f_max_ge|]. apply f_max_lub; [apply f_min_le|lra].
Qed.

Lemma GetMuSigma_bounds rs : (0 <= (GetMuSigma rs).1 <= 1)%Q ∧ (0 <= (GetMuSigma rs).2 <= 1)%Q.
Proof. unfold GetMuSigma. destruct (f_le _ 0); simpl; [lra|]. split; apply clamp01_bounds. Qed.

Lemma setMax_max x y : setMax x y = Z.max x y.
Proof. unfold setMax. case_bool_decide; lia. Qed.
Lemma setMin_min x y : setMin x y = Z.min x y.
Proof. unfold setMin. case_bool_decide; lia. Qed.

(** A mean that is measured as such is used, whatever comes beside it. *)
Lemma data_found t metrics acc :
  acc.1.2 = true →
  (foldl (data_step t) acc metrics).1.1.1 =
  default acc.1.1.1 (m_Value <$> last (filter (λ m, m_Type m = t ∧ m_Operator m = w_Average) metrics)).
Proof.
  revert acc. induction metrics as [|m metrics IH]; intros [[[avg sd] found] valid] Hfound; [done|].
  simpl in Hfound. subst. simpl foldl. rewrite filter_cons. case_bool_decide as Ht.
  - case_bool_decide as Ha.
    + rewrite decide_True by done. rewrite IH by done. cbn [fst snd]. rewrite last_cons.
      by destruct (last (filter _ metrics)).
    + rewrite decide_False by tauto. case_bool_decide; [by rewrite IH|]. rewrite andb_false_r. by rewrite IH.
  - rewrite decide_False by tauto. by rewrite IH.
Qed.

Lemma init_steps_cpu result (rl : resource_list) :
  MilliCPU (foldl init_step result (range rl)) =
  match rl !! ResourceCPU with Some q => Z.max (MilliCPU result) (q_MilliValue q) | None => MilliCPU result end ∧
  Memory (foldl init_step result (range rl)) =
  match rl !! ResourceMemory with Some q => Z.max (Memory result) (q_Value q) | None => Memory result end.
Proof.
  assert (∀ l, NoDup l.*1 → ∀ result,
    MilliCPU (foldl init_step result l) =
      match list_find (λ e : string * Quantity, e.1 = ResourceCPU) l with
      | Some (_, (_, q)) => Z.max (MilliCPU result) (q_MilliValue q) | None => MilliCPU result end ∧
    Memory (foldl init_step result l) =
      match list_find (λ e : string * Quantity, e.1 = ResourceMemory) l with
      | Some (_, (_, q)) => Z.max (Memory result) (q_Value q) | None => Memory result end) as Hl.
  { induction l as [|[k q] l IH]; intros Hnd r; [done|]. simpl in Hnd. apply NoDup_cons in Hnd as [Hk Hnd].
    cbn [foldl]. destruct (IH Hnd (init_step r (k, q))) as [-> ->].
    assert (∀ name, k = name → list_find (λ e : string * Quantity, e.1 = name) l = None) as Hnone.
    { intros name <-. apply list_find_None. apply Forall_forall. intros [k' q'] Hin E. simpl in E. subst k'.
      apply Hk. apply list_elem_of_fmap. by exists (k, q'). }
    simpl list_find. unfold init_step. split.
    - case_decide as E; simpl in E.
      + subst k. rewrite bool_decide_true, Hnone by done. simpl. apply setMax_max.
      + rewrite (bool_decide_false (k = ResourceCPU)) by done.
        destruct (list_find _ l) as [[i [k' q']]|]; simpl; by case_bool_decide.
    - case_decide as E; simpl in E.
      + subst k. rewrite bool_decide_false, bool_decide_true, Hnone by done. simpl. apply setMax_max.
      + repeat case_bool_decide; try done;
          by destruct (list_find (λ e : string * Quantity, e.1 = ResourceMemory) l) as [[i [k' q']]|]. }
  destruct (Hl (range rl) (range_NoDup rl) result) as [-> ->].
  assert (∀ name, match list_find (λ e : string * Quantity, e.1 = name) (range rl) with
                  | Some (_, (_, q)) => Some q | None => None end = rl !! name) as Hfind.
  { intros name. destruct (list_find _ (range rl)) as [[i [k q]]|] eqn:E.
    - apply list_find_Some in E as (Hi & Hk & _). simpl in Hk. subst. symmetry.
      apply elem_of_range. by eapply list_elem_of_lookup_2.
    - apply list_find_None in E. destruct (rl !! name) as [q|] eqn:Hq; [|done]. exfalso.
      apply elem_of_range in Hq. rewrite Forall_forall in E. by apply (E (name, q) Hq). }
  rewrite <- (Hfind ResourceCPU), <- (Hfind ResourceMemory).
  split; by destruct (list_find _ (range rl)) as [[i [k q]]|].
Qed.
End Stats.

(** ** Witness *)

Definition w_bound_pod (name : string) : Pod := model_pod "a" name "n" 0 ∅.
Definition w_cache : gmap string (list podInfo) := {["n" := [{| Timestamp := 0; pi_Pod := w_bound_pod "old" |};
                                                          {| Timestamp := 50 * nano; pi_Pod := w_bound_pod "new" |}]]}.

Lemma w_cache_reachable : reachable w_cache (50 * nano).
Proof.
  refine (reachable_event {["n" := [{| Timestamp := 0; pi_Pod := w_bound_pod "old" |}]]} 0 (50 * nano)
    (Add (PodObj (w_bound_pod "new"))) w_cache _ _ _); [|discriminate|reflexivity].
  refine (reachable_event ∅ 0 0 (Add (PodObj (w_bound_pod "old"))) _ (reachable_New 0) _ _); [discriminate|reflexivity].
Qed.

Lemma cleanupCache_spec_witness :
  map Timestamp <$> cleanupCache (λ _, 70 * nano) w_cache !! "n" = Some [50 * nano].
Proof.
  rewrite (proj2 (cleanupCache_spec w_cache (50 * nano) (λ _, 70 * nano) "n" w_cache_reachable)).
  vm_compute. reflexivity.
Defined.
