(* ===== verification/LoadVariation.v ===== *)
(** * The load variation risk balancing plugin (pkg/trimaran/loadvariationriskbalancing)

    [analysis.go] turns the measured mean and deviation of a resource into a
    score; the plugin takes the lower of the CPU and memory scores.

    The functions of package math that are not exact are operations of
    [GoMath]; only their documented special cases are relied on.  Infinity
    occurs as an exponent of [Pow] and nowhere else: it is [None] there. *)

From S2P Require Import Prelude Float64 K8s K8sModel GoSort Trimaran.
From Stdlib Require Import QArith Lqa.

Open Scope Z_scope.

Class GoMath : Type := {
  Pow : Q → option Q → Q;
  Exp : Q → Q;
  Sqrt : Q → Q;
}.

(** Pow(x, 1) = x for any x. *)
Class GoMathSpec `{GoMath} : Prop := {
  Pow_one x e : (e == 1)%Q → (Pow x (Some e) == x)%Q;
}.

Section Plugin.
Context `{MapOrder} `{QuantityOps} `{!FrameworkOps} `{WatcherConsts} `{GoMath}.

(** ** analysis.go *)

(** [1/sensitivity] for a non-negative sensitivity: infinite at zero. *)
Definition reciprocal (sensitivity : Q) : option Q :=
  if f_eq sensitivity 0 then None else Some (f64_div 1 sensitivity).

Definition computeScore (rs : ResourceStats) (margin sensitivity : Q) : Q :=
  if f_le (Capacity rs) 0 then 0%Q else
  let rs := mkStats (f_max (f_min (UsedAvg rs) (Capacity rs)) 0) (f_max (f_min (UsedStdev rs) (Capacity rs)) 0)
              (f_max (Req rs) 0) (Capacity rs) in
  let '(mu, sigma) := GetMuSigma rs in
  let sigma := if f_le 0 sensitivity then Pow sigma (reciprocal sensitivity) else sigma in
  let sigma := f64_mul sigma margin in
  let sigma := clamp01 sigma in
  let risk := f64_div (f64_add mu sigma) 2 in
  f64_mul (f64_sub 1 risk) (f64_of_int MaxNodeScore).

(** ** loadvariationriskbalancing.go *)

Record LoadVariationRiskBalancingArgs := {
  lv_TrimaranSpec : TrimaranSpec;
  SafeVarianceMargin : Q;
  SafeVarianceSensitivity : Q;
}.

Definition resource_score (args : LoadVariationRiskBalancingArgs) (stats : option ResourceStats) : Q :=
  match stats with
  | Some rs => computeScore rs (SafeVarianceMargin args) (SafeVarianceSensitivity args)
  | None => 0%Q
  end.

Definition Score (args : LoadVariationRiskBalancingArgs) (collected : WatcherMetrics) (pod : Pod) (nodeInfo : NodeInfo) :
  outcome (Z * Status) :=
  node ← deref (ni_node nodeInfo);
  match (GetNodeMetrics collected (n_name node)).1 with
  | None => Ret (MinNodeScore, None)
  | Some metrics =>
      let podRequest := GetResourceRequested pod in
      let cpuStats := CreateResourceStats metrics node podRequest ResourceCPU w_CPU in
      let cpuScore := resource_score args cpuStats in
      let memoryStats := CreateResourceStats metrics node podRequest ResourceMemory w_Memory in
      let memoryScore := resource_score args memoryStats in
      let totalScore :=
        if bool_decide (is_Some memoryStats) && bool_decide (is_Some cpuStats)
        then f_min memoryScore cpuScore else f_max memoryScore cpuScore in
      Ret (Round totalScore, Some (NewStatus Success ""))
  end.

Definition New (args : option LoadVariationRiskBalancingArgs) (client : bool) (answer : option WatcherMetrics) :
  option (LoadVariationRiskBalancingArgs * WatcherMetrics) :=
  args ← args;
  collector ← NewCollector (lv_TrimaranSpec args) client answer;
  Some (args, collector).

(** ** Lemmas *)

Lemma risk_bounds mu sigma : (0 <= mu <= 1)%Q → (0 <= sigma <= 1)%Q → (0 <= f64_div (f64_add mu sigma) 2 <= 1)%Q.
Proof.
  intros [? ?] [? ?]. split.
  - apply f64_nonneg. apply Qle_shift_div_l; [done|]. rewrite Qmult_0_l. apply f64_nonneg. lra.
  - apply Qle_trans with (f64_div (f64_add 1 1) 2); [|by vm_compute].
    apply f64_div_mono; [done|]. apply f64_add_mono; lra.
Qed.

Lemma score_of_risk_bounds risk :
  (0 <= risk <= 1)%Q → (0 <= f64_mul (f64_sub 1 risk) (f64_of_int MaxNodeScore) <= 100)%Q.
Proof.
  intros [? ?]. assert (0 <= f64_of_int MaxNodeScore)%Q by (by vm_compute).
  assert (0 <= f64_sub 1 risk)%Q by (apply f64_nonneg; lra). split.
  - apply f64_nonneg. by apply Qmult_le_0_compat.
  - apply Qle_trans with (f64_mul 1 (f64_of_int MaxNodeScore)); [|by vm_compute].
    apply f64_mul_mono; [done|]. apply Qle_trans with (f64 1); [apply f64_mono; lra|by vm_compute].
Qed.

Lemma computeScore_bounds rs margin sensitivity : (0 <= computeScore rs margin sensitivity <= 100)%Q.
Proof.
  unfold computeScore. destruct (f_le (Capacity rs) 0); [lra|].
  match goal with |- context [GetMuSigma ?rs'] => pose proof (GetMuSigma_bounds rs') as [Hmu _]; destruct (GetMuSigma rs') as [mu sigma] end.
  apply score_of_risk_bounds, risk_bounds; [done|]. apply clamp01_bounds.
Qed.

Lemma resource_score_bounds args stats : (0 <= resource_score args stats <= 100)%Q.
Proof. destruct stats; simpl; [apply computeScore_bounds|lra]. Qed.

Lemma clamp01_mono x y : (x <= y)%Q → (clamp01 x <= clamp01 y)%Q.
Proof.
  intros Hxy. unfold clamp01. apply f_max_lub; [|apply f_max_ge].
  apply Qle_trans with (f_min y 1); [|apply f_max_ge]. apply f_min_glb; [|apply f_min_le].
  apply Qle_trans with x; [apply f_min_le|done].
Qed.

Lemma f_clamp0_mono c x y : (x <= y)%Q → (f_max (f_min x c) 0 <= f_max (f_min y c) 0)%Q.
Proof.
  intros Hxy. apply f_max_lub; [|apply f_max_ge].
  apply Qle_trans with (f_min y c); [|apply f_max_ge]. apply f_min_glb; [|apply f_min_le].
  apply Qle_trans with x; [apply f_min_le|done].
Qed.

Lemma f_clamp_cap x c c' : (c == c')%Q → (f_max (f_min x c') 0 == f_max (f_min x c) 0)%Q.
Proof.
  intros Hc. apply Qle_antisym; (apply f_max_lub; [|apply f_max_ge]).
  - apply Qle_trans with (f_min x c); [|apply f_max_ge]. apply f_min_glb; [apply f_min_le|].
    rewrite Hc. apply f_min_le.
  - apply Qle_trans with (f_min x c'); [|apply f_max_ge]. apply f_min_glb; [apply f_min_le|].
    rewrite <- Hc. apply f_min_le.
Qed.

Lemma reciprocal_one s : (s == 1)%Q → ∃ e, reciprocal s = Some e ∧ (e == 1)%Q.
Proof.
  intros Hs. unfold reciprocal, f_eq. destruct (Qeq_bool s 0) eqn:E.
  - apply Qeq_bool_iff in E. lra.
  - eexists. split; [done|]. rewrite Hs. by vm_compute.
Qed.

(** With the default sensitivity, more load or more deviation is more risk. *)
Lemma computeScore_anti `{!GoMathSpec} rs rs' margin sensitivity :
  (sensitivity == 1)%Q → (0 <= margin)%Q → (Capacity rs == Capacity rs')%Q →
  (UsedAvg rs <= UsedAvg rs')%Q → (UsedStdev rs <= UsedStdev rs')%Q → (Req rs <= Req rs')%Q →
  (computeScore rs' margin sensitivity <= computeScore rs margin sensitivity)%Q.
Proof.
  destruct rs as [avg sd req cap], rs' as [avg' sd' req' cap']. cbn [Capacity UsedAvg UsedStdev Req]. intros Hs Hm Hcap Havg Hsd Hreq.
  destruct (reciprocal_one sensitivity Hs) as (e & He & Hone).
  unfold computeScore, GetMuSigma. cbn [Capacity UsedAvg UsedStdev Req].
  destruct (f_le cap 0) eqn:E1.
  - assert (f_le cap' 0 = true) as ->; [|lra]. apply f_le_iff in E1. apply f_le_iff. lra.
  - assert (f_le cap' 0 = false) as ->.
    { apply not_true_iff_false. intros E2. apply f_le_iff in E2. apply not_true_iff_false in E1. apply E1, f_le_iff. lra. }
    assert (0 < cap)%Q as Hpos.
    { apply Qnot_le_lt. intros E2. apply f_le_iff in E2. congruence. }
    assert (f_le 0 sensitivity = true) as -> by (apply f_le_iff; lra). rewrite He.
    apply f64_mul_mono; [unfold MaxNodeScore; rewrite f64_of_int_exact by done; done|].
    apply f64_sub_anti. apply f64_div_mono; [done|]. apply f64_add_mono.
    + apply clamp01_mono. rewrite (f_clamp_cap avg' cap cap') by done. rewrite <- Hcap.
      apply f64_div_mono; [done|]. apply f64_add_mono; [by apply f_clamp0_mono|].
      apply f_max_lub; [|apply f_max_ge]. apply Qle_trans with req'; [done|apply f_max_ge].
    + apply clamp01_mono. apply f64_mul_mono; [done|]. rewrite !Pow_one by done.
      apply clamp01_mono. rewrite (f_clamp_cap sd' cap cap') by done. rewrite <- Hcap.
      apply f64_div_mono; [done|]. by apply f_clamp0_mono.
Qed.

(** Measurements with the same resources, no more of them used and no more
    deviation. *)
Definition lighter (ms ms' : list Metric) (t : string) : Prop :=
  let '(avg, sd, valid) := GetResourceData ms t in
  let '(avg', sd', valid') := GetResourceData ms' t in
  (avg <= avg')%Q ∧ (sd <= sd')%Q ∧ valid = valid'.

Definition capacity_nonneg (node : Node) : Prop :=
  0 ≤ milli_of (n_allocatable node) ResourceCPU ∧ 0 ≤ value_of (n_allocatable node) ResourceMemory.

Lemma f64_of_int_nonneg z : 0 ≤ z → (0 <= f64_of_int z)%Q.
Proof. intros Hz. apply f64_nonneg. change 0%Q with (inject_Z 0). by rewrite <- Zle_Qle. Qed.

Lemma stats_anti `{!GoMathSpec} args ms ms' node req name t :
  (SafeVarianceSensitivity args == 1)%Q → (0 <= SafeVarianceMargin args)%Q → capacity_nonneg node →
  name = ResourceCPU ∨ name = ResourceMemory → lighter ms ms' t →
  let stats := CreateResourceStats ms node req name t in
  let stats' := CreateResourceStats ms' node req name t in
  (is_Some stats ↔ is_Some stats') ∧ (resource_score args stats' <= resource_score args stats)%Q.
Proof.
  intros Hs Hm [Hcpu Hmem] Hname Hl. unfold lighter in Hl. cbn zeta. unfold CreateResourceStats.
  destruct (GetResourceData ms t) as [[avg sd] valid], (GetResourceData ms' t) as [[avg' sd'] valid'].
  destruct Hl as (Havg & Hsd & Hv). subst valid'. destruct valid; cbn [negb]; [|by split; [|apply Qle_refl]].
  match goal with |- context [if bool_decide (name = ResourceCPU) then ?a else ?b] =>
    set (cr := if bool_decide (name = ResourceCPU) then a else b) end.
  assert (0 <= cr.1)%Q as Hcap.
  { subst cr. case_bool_decide as E; cbn [fst]; [subst; by apply f64_of_int_nonneg|].
    destruct Hname as [Hn|Hn]; [done|]. rewrite Hn. apply f64_nonneg. apply Qmult_le_0_compat; [by apply f64_of_int_nonneg|by vm_compute]. }
  destruct cr as [cap rq]. cbn [fst] in Hcap. split; [by split; eexists|].
  cbn [resource_score]. apply computeScore_anti; cbn [Capacity UsedAvg UsedStdev Req]; try done.
  - apply f64_div_mono; [done|]. by apply f64_mul_mono.
  - apply f64_div_mono; [done|]. by apply f64_mul_mono.
  - apply Qle_refl.
Qed.

Lemma f_min_mono x x' y y' : (x <= x')%Q → (y <= y')%Q → (f_min x y <= f_min x' y')%Q.
Proof.
  intros ? ?. pose proof (f_min_le x y) as [? ?]. apply f_min_glb; lra.
Qed.
Lemma f_max_mono x x' y y' : (x <= x')%Q → (y <= y')%Q → (f_max x y <= f_max x' y')%Q.
Proof.
  intros ? ?. pose proof (f_max_ge x' y') as [? ?]. apply f_max_lub; lra.
Qed.

(** ** Property *)

(** C32: the score of a node with metrics is between 0 and 100 whatever the
    arguments and the measurements are, and with the default sensitivity it
    does not grow when the measured mean or deviation of CPU or memory does. *)
Theorem Score_balances `{!GoMathSpec} args collected collected' pod nodeInfo node ms ms' :
  ni_node nodeInfo = Some node →
  (GetNodeMetrics collected (n_name node)).1 = Some ms →
  (GetNodeMetrics collected' (n_name node)).1 = Some ms' →
  ∃ s s', Score args collected pod nodeInfo = Ret (s, Some (NewStatus Success "")) ∧
          Score args collected' pod nodeInfo = Ret (s', Some (NewStatus Success "")) ∧
          0 ≤ s ≤ 100 ∧
          ((SafeVarianceSensitivity args == 1)%Q → (0 <= SafeVarianceMargin args)%Q → capacity_nonneg node →
           lighter ms ms' w_CPU → lighter ms ms' w_Memory → s' ≤ s).
Proof.
  intros Hnode Hms Hms'. unfold Score. rewrite Hnode. cbn [deref mbind outcome_bind]. rewrite Hms, Hms'.
  eexists _, _. split; [done|]. split; [done|]. split.
  - apply (Round_bounds _ 0 100). change (inject_Z 0) with 0%Q. change (inject_Z 100) with 100%Q.
    match goal with |- context [f_min (resource_score _ ?m) (resource_score _ ?c)] =>
      pose proof (resource_score_bounds args m) as [? ?]; pose proof (resource_score_bounds args c) as [? ?] end.
    destruct (_ && _).
    + split; [by apply f_min_glb|]. eapply Qle_trans; [apply f_min_le|]. done.
    + split; [|by apply f_max_lub]. eapply Qle_trans; [|apply f_max_ge]. done.
  - intros Hs Hm Hcap Hc Hmem. apply Round_mono.
    destruct (stats_anti args ms ms' node (GetResourceRequested pod) ResourceCPU w_CPU Hs Hm Hcap (or_introl eq_refl) Hc)
      as [Ec Lc].
    destruct (stats_anti args ms ms' node (GetResourceRequested pod) ResourceMemory w_Memory Hs Hm Hcap (or_intror eq_refl) Hmem)
      as [Em Lm].
    rewrite (bool_decide_ext _ _ Em), (bool_decide_ext _ _ Ec).
    destruct (_ && _); [by apply f_min_mono|by apply f_max_mono].
Qed.
End Plugin.

(** ** Witness *)

#[export] Instance model_watcher : WatcherConsts := {|
  w_CPU := "CPU"; w_Memory := "Memory"; w_Average := "AVG"; w_Std := "STD"; w_Latest := "Latest" |}.

(** The identity power and no exponentials: enough for the special case. *)
#[export] Instance model_math : GoMath := {| Pow x _ := x; Exp x := f64 (x + 1); Sqrt x := x |}.
#[export] Instance model_math_spec : GoMathSpec.
Proof. split. intros. apply Qeq_refl. Qed.

Definition w_collected (cpu memory : Q) : WatcherMetrics := {|
  Window_End := 0;
  NodeMetricsMap := Some {[ "n" := Some [{| m_Type := "CPU"; m_Operator := "AVG"; m_Value := cpu |};
                                         {| m_Type := "CPU"; m_Operator := "STD"; m_Value := 10 |};
                                         {| m_Type := "Memory"; m_Operator := "AVG"; m_Value := memory |}]]} |}.

Definition w_node : Node := {|
  n_name := "n"; n_labels := ∅; n_unschedulable := false; n_capacity := ∅;
  n_allocatable := {[ResourceCPU := cores 4; ResourceMemory := bytes 1048576]} |}.
Definition w_ni : NodeInfo := {|
  ni_node := Some w_node; ni_pods := []; ni_allocatable := zero_resource; ni_requested := zero_resource;
  ni_nonzero_requested := zero_resource |}.
Definition w_pod : Pod := model_pod "a" "p" "" 0 {[ResourceCPU := cores 1]}.
Definition w_args : LoadVariationRiskBalancingArgs := {|
  lv_TrimaranSpec := {| MetricProvider_Type := Prometheus; WatcherAddress := "" |};
  SafeVarianceMargin := 1; SafeVarianceSensitivity := 1 |}.

Lemma Score_balances_witness :
  ∃ s s', Score w_args (w_collected 20 30) w_pod w_ni = Ret (s, Some (NewStatus Success "")) ∧
          Score w_args (w_collected 50 40) w_pod w_ni = Ret (s', Some (NewStatus Success "")) ∧
          0 ≤ s ≤ 100 ∧ s' ≤ s.
Proof.
  destruct (Score_balances w_args (w_collected 20 30) (w_collected 50 40) w_pod w_ni w_node _ _ eq_refl eq_refl eq_refl)
    as (s & s' & E & E' & Hb & Hanti).
  exists s, s'. split; [exact E|]. split; [exact E'|]. split; [exact Hb|]. apply Hanti.
  - reflexivity.
  - discriminate.
  - split; vm_compute; discriminate.
  - split; [vm_compute; discriminate|split; [vm_compute; discriminate|reflexivity]].
  - split; [vm_compute; discriminate|split; [vm_compute; discriminate|reflexivity]].
Defined.

Example Score_value :
  Score w_args (w_collected 20 30) w_pod w_ni = Ret (73, Some (NewStatus Success "")).
Proof. vm_compute. reflexivity. Qed.
