(* ===== verification/LoadPacking.v ===== *)
(** * The target load packing plugin (pkg/trimaran/targetloadpacking)

    The score of a node is read off two straight lines: it rises with the
    predicted CPU utilisation up to the target and falls from there to zero
    at full utilisation.  The package variables set by [New] are the fields
    of [TargetLoadPacking]. *)

From S2P Require Import Prelude Float64 K8s K8sModel GoSort Trimaran LoadVariation.
From Stdlib Require Import QArith Lqa.

Open Scope Z_scope.

Record TargetLoadPacking := {
  requestsMilliCores : Z;
  hostTargetUtilizationPercent : Z;
  requestsMultiplier : Q;
}.

Section Plugin.
Context `{MapOrder} `{QuantityOps} `{WatcherConsts}.

(** [PredictUtilisation]: the limit, else a multiple of the request, else the
    default. *)
Definition PredictUtilisation (pl : TargetLoadPacking) (container : Container) : Z :=
  if bool_decide (is_Some (c_limits container !! ResourceCPU)) then milli_of (c_limits container) ResourceCPU
  else if bool_decide (is_Some (c_requests container !! ResourceCPU)) then
    Round (f64_mul (f64_of_int (milli_of (c_requests container) ResourceCPU)) (requestsMultiplier pl))
  else requestsMilliCores pl.

Definition predict_step (pl : TargetLoadPacking) (acc : Z) (container : Container) : Z :=
  acc +₆₄ PredictUtilisation pl container.

Definition overhead_milli (pod : Pod) : Z := milli_of (default ∅ (p_overhead pod)) ResourceCPU.

(** What the pod is expected to use; an absent overhead counts as none. *)
Definition pod_usage (pl : TargetLoadPacking) (acc : Z) (pod : Pod) : Z :=
  foldl (predict_step pl) acc (p_containers pod) +₆₄ overhead_milli pod.

Definition cpu_step (acc : Q * bool) (metric : Metric) : Q * bool :=
  if bool_decide (m_Type metric = w_CPU) then
    if bool_decide (m_Operator metric = w_Average) || bool_decide (m_Operator metric = w_Latest)
    then (m_Value metric, true) else acc
  else acc.

(** Timestamp.Unix(): whole seconds, rounded down. *)
Definition Unix (t : Z) : Z := t / nano.

(** The pods the metrics do not cover yet. *)
Definition missing_step (pl : TargetLoadPacking) (End : Z) (missing : Z) (info : podInfo) : Z :=
  let ts := Unix (Timestamp info) in
  if bool_decide (ts > End) ||
     (bool_decide (ts <= End) && bool_decide (End -₆₄ ts < metricsAgentReportingIntervalSeconds))
  then pod_usage pl missing (pi_Pod info) else missing.

(** The last part of [Score]. *)
Definition score_of_usage (target : Z) (predictedCPUUsage : Q) : Z :=
  let t := f64_of_int target in
  if f_lt t predictedCPUUsage then
    if f_lt 100 predictedCPUUsage then MinNodeScore
    else Round (f64_div (f64_mul t (f64_sub 100 predictedCPUUsage)) (f64_sub 100 t))
  else Round (f64_add (f64_div (f64_mul (f64_sub 100 t) predictedCPUUsage) t) t).

(** 100 * (nodeCPUUtilMillis + pod + missing) / capacity, 0 without capacity. *)
Definition predict (nodeCPUUtilPercent nodeCPUCapMillis : Q) (curPodCPUUsage missingCPUUtilMillis : Z) : Q :=
  let nodeCPUUtilMillis := f64_mul (f64_div nodeCPUUtilPercent 100) nodeCPUCapMillis in
  if f_eq nodeCPUCapMillis 0 then 0%Q
  else f64_div (f64_mul 100 (f64_add (f64_add nodeCPUUtilMillis (f64_of_int curPodCPUUsage))
                               (f64_of_int missingCPUUtilMillis))) nodeCPUCapMillis.

Definition Score (pl : TargetLoadPacking) (collected : WatcherMetrics) (cache : gmap string (list podInfo))
    (pod : Pod) (nodeInfo : NodeInfo) : outcome (Z * Status) :=
  node ← deref (ni_node nodeInfo);
  match GetNodeMetrics collected (n_name node) with
  | (None, _) => Ret (MinNodeScore, None)
  | (Some metrics, allMetrics) =>
      let curPodCPUUsage := pod_usage pl 0 pod in
      let '(nodeCPUUtilPercent, cpuMetricFound) := foldl cpu_step (0%Q, false) metrics in
      if negb cpuMetricFound then Ret (MinNodeScore, None) else
      let nodeCPUCapMillis := f64_of_int (milli_of (n_capacity node) ResourceCPU) in
      allMetrics ← deref allMetrics;
      let missingCPUUtilMillis :=
        foldl (missing_step pl (Window_End allMetrics)) 0 (default [] (cache !! n_name node)) in
      let predictedCPUUsage := predict nodeCPUUtilPercent nodeCPUCapMillis curPodCPUUsage missingCPUUtilMillis in
      Ret (score_of_usage (hostTargetUtilizationPercent pl) predictedCPUUsage, Some (NewStatus Success ""))
  end.

(** [New]: [multiplier] is what strconv.ParseFloat makes of the argument. *)
Definition New (spec : TrimaranSpec) (TargetUtilization : Z) (DefaultRequests : resource_list) (multiplier : option Q)
    (client : bool) (answer : option WatcherMetrics) : option (TargetLoadPacking * WatcherMetrics) :=
  collector ← NewCollector spec client answer;
  m ← multiplier;
  Some ({| requestsMilliCores := milli_of DefaultRequests ResourceCPU;
           hostTargetUtilizationPercent := TargetUtilization; requestsMultiplier := m |}, collector).

(** ** Lemmas *)

Section Lines.
Context (target : Z) (Htarget : 1 ≤ target ≤ 100).

Lemma target_exact : (f64_of_int target == inject_Z target)%Q.
Proof. apply f64_of_int_exact. lia. Qed.

Lemma rest_exact : (f64_sub 100 (inject_Z target) == inject_Z (100 - target))%Q.
Proof. change 100%Q with (inject_Z 100). apply f64_sub_int. lia. Qed.

Lemma inject_nonneg z : 0 ≤ z → (0 <= inject_Z z)%Q.
Proof. change 0%Q with (inject_Z 0). by rewrite <- Zle_Qle. Qed.
Lemma inject_pos z : 0 < z → (0 < inject_Z z)%Q.
Proof. change 0%Q with (inject_Z 0). by rewrite <- Zlt_Qlt. Qed.

(** The quotient of a product by one of its factors is exact. *)
Lemma line_end a b : 0 ≤ a ≤ 100 → 0 < b ≤ 100 →
  (f64_div (f64_mul (inject_Z a) (inject_Z b)) (inject_Z b) == inject_Z a)%Q.
Proof.
  intros Ha Hb. rewrite f64_mul_int by nia. unfold f64_div.
  assert (inject_Z (a * b) / inject_Z b == inject_Z a)%Q as E.
  { rewrite inject_Z_mult. field. intros E. pose proof (inject_pos b ltac:(lia)). lra. }
  rewrite E. apply f64_int. lia.
Qed.

(** The rising line: from the target at no load to 100 at the target. *)
Definition rising (p : Q) : Q :=
  f64_add (f64_div (f64_mul (inject_Z (100 - target)) p) (inject_Z target)) (inject_Z target).

Lemma rising_mono p p' : (p <= p')%Q → (rising p <= rising p')%Q.
Proof.
  intros Hp. apply f64_add_mono; [|apply Qle_refl]. apply f64_div_mono; [apply inject_pos; lia|].
  apply f64_mul_mono_r; [apply inject_nonneg; lia|done].
Qed.

Lemma rising_start : (rising 0 == inject_Z target)%Q.
Proof.
  unfold rising. assert (f64_mul (inject_Z (100 - target)) 0 == 0)%Q as ->.
  { unfold f64_mul. rewrite Qmult_0_r. by vm_compute. }
  assert (f64_div 0 (inject_Z target) == inject_Z 0)%Q as ->.
  { unfold f64_div, Qdiv. rewrite Qmult_0_l. by vm_compute. }
  rewrite f64_add_int by lia. done.
Qed.

Lemma rising_end : (rising (inject_Z target) == 100)%Q.
Proof.
  unfold rising. rewrite line_end by lia. rewrite f64_add_int by lia.
  by replace (100 - target + target) with 100 by lia.
Qed.

(** The falling line: from the target at the target to zero at 100. *)
Definition falling (p : Q) : Q :=
  f64_div (f64_mul (inject_Z target) (f64_sub 100 p)) (inject_Z (100 - target)).

Lemma falling_anti p p' : target < 100 → (p <= p')%Q → (falling p' <= falling p)%Q.
Proof.
  intros Ht Hp. apply f64_div_mono; [apply inject_pos; lia|]. apply f64_mul_mono_r; [apply inject_nonneg; lia|].
  by apply f64_sub_anti.
Qed.

Lemma falling_start : target < 100 → (falling (inject_Z target) == inject_Z target)%Q.
Proof. intros Ht. unfold falling. rewrite rest_exact. by apply line_end; lia. Qed.

Lemma falling_end : (falling 100 == 0)%Q.
Proof.
  unfold falling. assert (f64_sub 100 100 == 0)%Q as -> by by vm_compute.
  assert (f64_mul (inject_Z target) 0 == 0)%Q as ->.
  { unfold f64_mul. rewrite Qmult_0_r. by vm_compute. }
  unfold f64_div, Qdiv. rewrite Qmult_0_l. by vm_compute.
Qed.

Lemma score_of_usage_eq p :
  score_of_usage target p =
  if f_lt (inject_Z target) p then if f_lt 100 p then 0 else Round (falling p) else Round (rising p).
Proof.
  unfold score_of_usage.
  assert (f_lt (f64_of_int target) p = f_lt (inject_Z target) p) as ->.
  { apply eq_true_iff_eq. rewrite !f_lt_iff. by rewrite target_exact. }
  destruct (f_lt (inject_Z target) p); [destruct (f_lt 100 p); [done|]|]; apply Round_proper;
    unfold falling, rising; by rewrite target_exact, rest_exact.
Qed.

(** Within the target. *)
Lemma within_target p :
  (0 <= p <= inject_Z target)%Q → score_of_usage target p = Round (rising p) ∧ target ≤ Round (rising p) ≤ 100.
Proof.
  intros [Hp Ht]. rewrite score_of_usage_eq. apply f_lt_false in Ht as Hf. rewrite Hf. split; [done|].
  apply Round_bounds. rewrite <- rising_start. split; [by apply rising_mono|].
  change (inject_Z 100) with 100%Q. rewrite <- rising_end. by apply rising_mono.
Qed.

(** Above it. *)
Lemma above_target p :
  (inject_Z target < p)%Q → 0 ≤ score_of_usage target p ≤ target.
Proof.
  intros Ht. rewrite score_of_usage_eq. apply f_lt_iff in Ht as Hf. rewrite Hf.
  destruct (f_lt 100 p) eqn:E; [lia|]. apply f_lt_false in E.
  assert (target < 100). { rewrite Zlt_Qlt. change (inject_Z 100) with 100%Q. lra. }
  apply Round_bounds. change (inject_Z 0) with 0%Q. rewrite <- falling_end, <- falling_start at 1 by done.
  split; apply falling_anti; try done; lra.
Qed.

Lemma above_anti p p' :
  (inject_Z target < p)%Q → (p <= p')%Q → score_of_usage target p' ≤ score_of_usage target p.
Proof.
  intros Ht Hp. rewrite (score_of_usage_eq p'). pose proof (above_target p Ht) as [? _].
  assert (f_lt (inject_Z target) p' = true) as -> by (apply f_lt_iff; lra).
  destruct (f_lt 100 p') eqn:E; [done|]. apply f_lt_false in E.
  rewrite score_of_usage_eq. apply f_lt_iff in Ht as Hf. rewrite Hf.
  assert (f_lt 100 p = false) as -> by (apply f_lt_false; lra).
  assert (target < 100). { rewrite Zlt_Qlt. change (inject_Z 100) with 100%Q. lra. }
  apply Round_mono. by apply falling_anti.
Qed.
End Lines.

(** The utilisation predicted for a node that has a CPU measurement. *)
Definition predicted (pl : TargetLoadPacking) (collected : WatcherMetrics) (cache : gmap string (list podInfo))
    (pod : Pod) (node : Node) : option Q :=
  metrics ← (GetNodeMetrics collected (n_name node)).1;
  let '(percent, found) := foldl cpu_step (0%Q, false) metrics in
  if found : bool then
    Some (predict percent (f64_of_int (milli_of (n_capacity node) ResourceCPU)) (pod_usage pl 0 pod)
            (foldl (missing_step pl (Window_End collected)) 0 (default [] (cache !! n_name node))))
  else None.

Lemma Score_predicted pl collected cache pod nodeInfo node p :
  ni_node nodeInfo = Some node → predicted pl collected cache pod node = Some p →
  Score pl collected cache pod nodeInfo =
  Ret (score_of_usage (hostTargetUtilizationPercent pl) p, Some (NewStatus Success "")).
Proof.
  intros Hnode Hp. unfold predicted in Hp. apply bind_Some in Hp as (metrics & Hm & Hp).
  pose proof (GetNodeMetrics_some collected (n_name node) metrics Hm) as Hall.
  unfold Score. rewrite Hnode. cbn [deref mbind outcome_bind].
  destruct (GetNodeMetrics collected (n_name node)) as [m all]. cbn [fst snd] in Hm, Hall. subst m all.
  destruct (foldl cpu_step (0%Q, false) metrics) as [percent []]; [|done]. injection Hp as <-. done.
Qed.

(** ** Property *)

(** C27: with a target between 1 and 100 percent the score of a node with a CPU
    measurement and a predicted utilisation of at least 0 is between 0 and 100; a node
    whose predicted utilisation stays within the target scores at least the target
    and one above it at most that much; up to the target the fuller node scores no less,
    above it no more.  A larger target is accepted too and takes the score out of this
    range ([target_above_100]). *)
Theorem Score_packs pl collected cache pod nodeInfo node p :
  1 ≤ hostTargetUtilizationPercent pl ≤ 100 →
  ni_node nodeInfo = Some node → predicted pl collected cache pod node = Some p → (0 <= p)%Q →
  let target := hostTargetUtilizationPercent pl in
  ∃ s, Score pl collected cache pod nodeInfo = Ret (s, Some (NewStatus Success "")) ∧ 0 ≤ s ≤ 100 ∧
       ((p <= inject_Z target)%Q → target ≤ s) ∧ ((inject_Z target < p)%Q → s ≤ target) ∧
       ∀ collected' cache' nodeInfo' node' p',
         ni_node nodeInfo' = Some node' → predicted pl collected' cache' pod node' = Some p' → (p <= p')%Q →
         ∃ s', Score pl collected' cache' pod nodeInfo' = Ret (s', Some (NewStatus Success "")) ∧
               ((p' <= inject_Z target)%Q → s ≤ s') ∧ ((inject_Z target < p)%Q → s' ≤ s).
Proof.
  intros Ht Hnode Hp Hnn. cbn zeta. set (t := hostTargetUtilizationPercent pl) in *.
  exists (score_of_usage t p). split; [by eapply Score_predicted|].
  assert (∀ q, (0 <= q)%Q → (q <= inject_Z t)%Q → score_of_usage t q = Round (rising t q) ∧ t ≤ score_of_usage t q ≤ 100) as Hw.
  { intros q Hq1 Hq2. destruct (within_target t Ht q) as [E ?]; [done|]. split; [done|]. by rewrite E. }
  split; [|split; [|split]].
  - destruct (Qlt_le_dec (inject_Z t) p) as [Hq1|Hq1].
    + pose proof (above_target t Ht p Hq1). lia.
    + destruct (Hw p Hnn Hq1) as [_ ?]. lia.
  - intros Hq1. by destruct (Hw p Hnn Hq1) as [_ [? _]].
  - intros Hq1. by apply above_target.
  - intros collected' cache' nodeInfo' node' p' Hnode' Hp' Hle. exists (score_of_usage t p').
    split; [by eapply Score_predicted|]. split.
    + intros Hq1. destruct (Hw p) as [-> _]; [done|lra|]. destruct (Hw p') as [-> _]; [lra|done|].
      apply Round_mono. by apply rising_mono.
    + intros Hq1. by apply above_anti.
Qed.
End Plugin.

(** ** Witness *)

Definition w_pack : TargetLoadPacking := {|
  requestsMilliCores := 1000; hostTargetUtilizationPercent := 40; requestsMultiplier := f64 (3 # 2) |}.
Definition w_cpu_node : Node := {|
  n_name := "n"; n_labels := ∅; n_unschedulable := false; n_capacity := {[ResourceCPU := cores 10]};
  n_allocatable := {[ResourceCPU := cores 10]} |}.
Definition w_cpu_ni : NodeInfo := {|
  ni_node := Some w_cpu_node; ni_pods := []; ni_allocatable := zero_resource; ni_requested := zero_resource;
  ni_nonzero_requested := zero_resource |}.

Lemma Score_packs_witness :
  ∃ s, Score w_pack (w_collected 10 0) ∅ w_pod w_cpu_ni = Ret (s, Some (NewStatus Success "")) ∧ 40 ≤ s ≤ 100.
Proof.
  destruct (Score_packs w_pack (w_collected 10 0) ∅ w_pod w_cpu_ni w_cpu_node 25) as (s & E & [_ Hb] & Hlow & _).
  - split; discriminate.
  - reflexivity.
  - vm_compute. reflexivity.
  - discriminate.
  - exists s. split; [exact E|]. split; [|exact Hb]. apply Hlow. discriminate.
Defined.

(** ** A target above 100

    The defaults replace a target that is not positive, and nothing rejects
    one above 100: an idle node then scores more than the framework allows. *)
Lemma target_above_100 : score_of_usage 150 0 = 150.
Proof. vm_compute. reflexivity. Qed.
