(* ===== verification/Peaks.v ===== *)
(** * The power-aware plugin (pkg/trimaran/peaks)

    The raw score of a node is the rise in power that the pod is predicted to
    cause; normalisation turns the smallest rise into the highest score.

    [math.Exp] and [math.Pow] are operations of [GoMath].  The conversion of
    a float to an integer is the mathematical one: the language leaves a
    value out of range to the implementation. *)

From S2P Require Import Prelude Float64 K8s K8sModel GoSort NetworkOverhead Trimaran LoadVariation.
From Stdlib Require Import QArith Lqa.

Open Scope Z_scope.

Record PowerModel := { K0 : Q; K1 : Q; K2 : Q }.

(** k8s.io/kubernetes/pkg/api/v1/resource *)
Class RequestQuantity `{QuantityOps} : Type := { GetResourceRequestQuantity : Pod → string → Quantity }.

(** ** Power models *)

(** [initNodePowerModels]: the map that the plugin reads afterwards, or an
    error.  Its parameter is the map of the arguments, nil if not given.  The
    decoder stores into a nil map variable by making a new map, and that
    variable is the function's own. *)
Definition initNodePowerModels (powerModel file : option (gmap string PowerModel)) :
  option (option (gmap string PowerModel)) :=
  if bool_decide (0 < size (default ∅ powerModel))%nat then Some powerModel else
  data ← file;
  Some (match powerModel with None => None | Some _ => Some data end).

Definition getPowerModel (nodeName : string) (powerModelMap : option (gmap string PowerModel)) : PowerModel :=
  match default ∅ powerModelMap !! nodeName with
  | Some powerModel => powerModel
  | None => {| K0 := 0; K1 := 0; K2 := 0 |}
  end.

Section Plugin.
Context `{QuantityOps} `{!RequestQuantity} `{WatcherConsts} `{GoMath}.

Definition getPowerJumpForUtilisation (x p : Q) (m : PowerModel) : Q :=
  f64_mul (K1 m) (f64_sub (Exp (f64_mul (K2 m) p)) (Exp (f64_mul (K2 m) x))).

Definition is_cpu_mean (metric : Metric) : bool :=
  bool_decide (m_Type metric = w_CPU) &&
  (bool_decide (m_Operator metric = w_Average) || bool_decide (m_Operator metric = w_Latest)).

Definition Score (models : option (gmap string PowerModel)) (collected : WatcherMetrics) (pod : Pod) (nodeInfo : NodeInfo) :
  outcome (Z * Status) :=
  node ← deref (ni_node nodeInfo);
  match (GetNodeMetrics collected (n_name node)).1 with
  | None => Ret (MinNodeScore, None)
  | Some metrics =>
      let curPodCPUUsage := q_MilliValue (GetResourceRequestQuantity pod ResourceCPU) in
      match find is_cpu_mean metrics with
      | None => Ret (MinNodeScore, None)
      | Some metric =>
          let nodeCPUUtilPercent := m_Value metric in
          let nodeCPUCapMillis := f64_of_int (milli_of (n_capacity node) ResourceCPU) in
          let nodeCPUUtilMillis := f64_mul (f64_div nodeCPUUtilPercent 100) nodeCPUCapMillis in
          let predictedCPUUsage :=
            if f_eq nodeCPUCapMillis 0 then 0%Q
            else f64_div (f64_mul 100 (f64_add nodeCPUUtilMillis (f64_of_int curPodCPUUsage))) nodeCPUCapMillis in
          if f_lt 100 predictedCPUUsage then Ret (MinNodeScore, Some (NewStatus Success ""))
          else
            let jumpInPower :=
              getPowerJumpForUtilisation nodeCPUUtilPercent predictedCPUUsage (getPowerModel (n_name node) models) in
            Ret (int_of_float (f64_mul jumpInPower (Pow 10 (Some 15%Q))), Some (NewStatus Success ""))
      end
  end.

(** ** Normalisation *)

(** The running maximum and minimum; returned in the other order. *)
Definition getMinMaxScores (scores : list NodeScore) : Z * Z :=
  let '(max, min) :=
    foldl (λ '(max, min) nodeScore,
      (if bool_decide (ns_score nodeScore > max) then ns_score nodeScore else max,
       if bool_decide (ns_score nodeScore < min) then ns_score nodeScore else min))
      (MinInt64, MaxInt64) scores in
  (min, max).

Definition norm_score (minCost maxCost : Z) (nodeScore : NodeScore) : NodeScore :=
  let normCost :=
    if bool_decide (maxCost ≠ minCost) then
      f64_div (f64_mul (f64_of_int MaxNodeScore) (f64_of_int (ns_score nodeScore -₆₄ minCost)))
              (f64_of_int (maxCost -₆₄ minCost))
    else f64_of_int (ns_score nodeScore -₆₄ minCost) in
  {| ns_name := ns_name nodeScore; ns_score := MaxNodeScore -₆₄ int_of_float normCost |}.

Definition NormalizeScore (scores : list NodeScore) : list NodeScore :=
  let '(minCost, maxCost) := getMinMaxScores scores in
  if bool_decide (minCost = 0) && bool_decide (maxCost = 0) then scores
  else map (norm_score minCost maxCost) scores.

(** [New]: [file] is what the decoder makes of the file named in the environment. *)
Definition New (watcherAddress : string) (NodePowerModel file : option (gmap string PowerModel))
    (client : bool) (answer : option WatcherMetrics) : option (option (gmap string PowerModel) * WatcherMetrics) :=
  collector ← NewCollector {| MetricProvider_Type := ""; WatcherAddress := watcherAddress |} client answer;
  models ← initNodePowerModels NodePowerModel file;
  Some (models, collector).

End Plugin.

(** ** Lemmas *)

Lemma hundred_quotient M x :
  0 ≤ x ≤ M → 0 < M →
  0 ≤ int_of_float (f64_div (f64_mul (f64_of_int MaxNodeScore) (f64_of_int x)) (f64_of_int M)) ≤ 100.
Proof.
  intros Hx HM. pose proof (f64_of_int_pos M HM) as Hpos.
  assert (f64_of_int MaxNodeScore == 100)%Q as Hmax by by vm_compute.
  pose proof (f64_of_int_nonneg x ltac:(lia)) as Hx0. split.
  - change 0 with (int_of_float 0). apply int_of_float_mono. apply f64_nonneg.
    apply Qle_shift_div_l; [done|]. rewrite Qmult_0_l. apply f64_nonneg. rewrite Hmax. lra.
  - change 100 with (int_of_float (f64 (100 * (1 + pow2 (Z.opp 53))))). apply int_of_float_mono, f64_mono.
    apply Qle_shift_div_r; [done|]. rewrite Hmax.
    apply Qle_trans with (f64_mul 100 (f64_of_int M)).
    + apply f64_mul_mono_r; [done|]. apply f64_of_int_mono. lia.
    + unfold f64_mul. destruct (rnd_error 53 (100 * f64_of_int M)) as [_ Herr]; [lra|].
      eapply Qle_trans; [exact Herr|]. apply Qle_lteq. right. ring.
Qed.

Lemma hundred_quotient_mono M x y :
  0 < M → x ≤ y →
  int_of_float (f64_div (f64_mul (f64_of_int MaxNodeScore) (f64_of_int x)) (f64_of_int M)) ≤
  int_of_float (f64_div (f64_mul (f64_of_int MaxNodeScore) (f64_of_int y)) (f64_of_int M)).
Proof.
  intros HM Hxy. apply int_of_float_mono, f64_div_mono; [by apply f64_of_int_pos|].
  apply f64_mul_mono_r; [by vm_compute|]. by apply f64_of_int_mono.
Qed.

(** ** Property *)


Definition w_rises : list NodeScore :=
  [{| ns_name := "a"; ns_score := 300000000000000000 |}; {| ns_name := "b"; ns_score := 100000000000000000 |}].


(** The models read from the file are lost when the arguments have none: the
    decoder makes a new map for the function's own variable. *)
Lemma models_from_file_lost data nodeName :
  initNodePowerModels None (Some data) = Some None ∧
  getPowerModel nodeName None = {| K0 := 0; K1 := 0; K2 := 0 |}.
Proof. split; [done|]. unfold getPowerModel. simpl. by rewrite lookup_empty. Qed.

(** A plugin that was set up has the address of a load watcher; the model it uses for a
    node is the one of the arguments, unless they have an empty map that is not nil. *)
Theorem New_models watcherAddress args file client answer models collector nodeName :
  New watcherAddress args file client answer = Some (models, collector) →
  watcherAddress ≠ "" ∧ client = true ∧ collector = default no_metrics answer ∧
  getPowerModel nodeName models =
    getPowerModel nodeName (if decide (size <$> args = Some 0%nat) then file else args).
Proof.
  unfold New, NewCollector, checkSpecs. cbn [WatcherAddress MetricProvider_Type].
  case_bool_decide as Ha; [done|]. destruct client; [|done].
  intros (c & [= <-] & (models' & Hm & [= -> <-])%bind_Some)%bind_Some. split_and!; [done|done|by destruct answer|].
  unfold initNodePowerModels in Hm. case_bool_decide as Hs.
  { injection Hm as <-. rewrite decide_False; [done|]. destruct args; simpl in *; intros Hz; simplify_eq; lia. }
  apply bind_Some in Hm as (data & -> & [= <-]). destruct args as [args|]; [|done].
  simpl in *. rewrite decide_True; [done|]. f_equal. lia.
Qed.

Lemma New_models_witness :
  New "http://watcher" (Some ∅) (Some {["a" := {| K0 := 1; K1 := 2; K2 := 3 |}]}) true None =
    Some (Some {["a" := {| K0 := 1; K1 := 2; K2 := 3 |}]}, no_metrics) ∧
  getPowerModel "a" (Some {["a" := {| K0 := 1; K1 := 2; K2 := 3 |}]}) =
  getPowerModel "a" (if decide (size <$> Some (∅ : gmap string PowerModel) = Some 0%nat)
                     then Some {["a" := {| K0 := 1; K1 := 2; K2 := 3 |}]} else Some ∅).
Proof.
  split; [reflexivity|].
  apply (New_models "http://watcher" (Some ∅) (Some {["a" := {| K0 := 1; K1 := 2; K2 := 3 |}]}) true None
           (Some {["a" := {| K0 := 1; K1 := 2; K2 := 3 |}]}) no_metrics "a"). reflexivity.
Defined.
