(* ===== verification/Overcommit.v ===== *)
(** * The low risk over-commitment plugin (pkg/trimaran/lowriskovercommitment)

    [beta.go]: the beta distribution fitted to the measured load.
    [lowriskovercommitment.go]: the risk of a node combines how far limits
    exceed the capacity with how probable it is that more is used than was
    requested.

    A shape parameter can become infinite and a moment not a number: [None]
    stands for that.  The incomplete beta function is gonum's. *)

From S2P Require Import Prelude Float64 K8s K8sModel GoSort Trimaran LoadVariation.
From Stdlib Require Import QArith Lqa.

Open Scope Z_scope.

(** gonum.org/v1/gonum/mathext; [None] is NaN. *)
Class GonumBeta : Type := {
  gonum_Beta : option Q → option Q → Q;
  gonum_RegIncBeta : option Q → option Q → Q → option Q;
}.

(** ** beta.go *)

(** [alpha] and [beta]: [None] is +Inf.  The moments: [None] is NaN. *)
Record BetaDistribution := mkBeta {
  alpha : option Q;
  beta : option Q;
  isValid : bool;
  firstMoment : option Q;
  secondMoment : option Q;
  thirdMoment : option Q;
}.

Definition checkValidity (alpha beta : Q) : bool := f_lt 0 alpha && f_lt 0 beta.

(** Infinite parameters give the quotient Inf / Inf. *)
Definition computeMoments (b : BetaDistribution) : BetaDistribution * bool :=
  if negb (isValid b) then (b, false) else
  match alpha b, beta b with
  | Some al, Some be =>
      let m1 := f64_div al (f64_add al be) in
      let m2 := f64_div (f64_mul m1 (f64_add al 1)) (f64_add (f64_add al be) 1) in
      let m3 := f64_div (f64_mul m2 (f64_add al 2)) (f64_add (f64_add al be) 2) in
      (mkBeta (alpha b) (beta b) true (Some m1) (Some m2) (Some m3), true)
  | _, _ => (mkBeta (alpha b) (beta b) true None None None, true)
  end.

(** [None] is the nil pointer. *)
Definition NewBetaDistribution (al be : Q) : option BetaDistribution :=
  if negb (checkValidity al be) then None
  else Some (computeMoments (mkBeta (Some al) (Some be) true None None None)).1.

Definition Mean (b : BetaDistribution) : option Q := firstMoment b.
Definition Variance (b : BetaDistribution) : option Q :=
  m1 ← firstMoment b; m2 ← secondMoment b; Some (f64_sub m2 (f64_mul m1 m1)).

(** A positive parameter; an infinite one is. *)
Definition not_positive (a : option Q) : bool := match a with Some a => f_le a 0 | None => false end.

Section Beta.
Context `{GonumBeta} `{GoMath}.

Definition Complete (a b : option Q) : Q := gonum_Beta a b.

Definition RegularizedIncomplete (x : Q) (a b : option Q) : option Q :=
  if not_positive a || not_positive b || f_lt x 0 || f_lt 1 x then None
  else if f_eq x 0 then Some 0%Q
  else if f_eq x 1 then Some 1%Q
  else gonum_RegIncBeta a b x.

Definition DistributionFunction (b : BetaDistribution) (x : Q) : Q :=
  match RegularizedIncomplete x (alpha b) (beta b) with
  | None => 0%Q
  | Some p => if f_lt p 0 || f_lt 1 p then 0%Q else p
  end.

Definition SmallestNonzeroFloat64 : Q := pow2 (- 1074).

(** The parameters that have the two moments, and whether there are any; a
    variance that is rounded to zero makes them infinite. *)
Definition MatchMoments (b : BetaDistribution) (m1 m2 : Q) : BetaDistribution * bool :=
  let variance := f64_sub m2 (f64_mul m1 m1) in
  let spread := f64_mul m1 (f64_sub 1 m1) in
  if f_lt m1 0 || f_lt 1 m1 || f_lt variance 0 || f_le spread variance then (b, false) else
  if f_eq variance 0 then computeMoments (mkBeta None None (isValid b) (firstMoment b) (secondMoment b) (thirdMoment b))
  else
    let temp := f64_sub (f64_div spread variance) 1 in
    let temp := f_max temp SmallestNonzeroFloat64 in
    computeMoments (mkBeta (Some (f64_mul m1 temp)) (Some (f64_mul (f64_sub 1 m1) temp)) (isValid b)
                      (firstMoment b) (secondMoment b) (thirdMoment b)).

Definition GetMaxVariance (m1 : Q) : Q :=
  if f_lt 0 m1 && f_lt m1 1 then f64_mul m1 (f64_sub 1 m1) else 0%Q.

(** The test for NaN that follows the call of the distribution function can
    not succeed: that function returns 0 instead. *)
Definition ComputeProbability (mu sigma threshold : Q) : outcome (Q * option BetaDistribution) :=
  if f_eq mu 0 || (f_eq sigma 0 && f_le mu threshold) then Ret (1%Q, None) else
  if f_eq sigma 0 && f_lt threshold mu then Ret (0%Q, None) else
  let m1 := mu in
  let m2 := f64_add (f64_mul sigma sigma) (f64_mul mu mu) in
  betaDist ← deref (NewBetaDistribution 1 1);
  let '(betaDist, matched) := MatchMoments betaDist m1 m2 in
  if negb matched then Ret (0%Q, None)
  else Ret (DistributionFunction betaDist threshold, Some betaDist).

Lemma DistributionFunction_bounds b x : (0 <= DistributionFunction b x <= 1)%Q.
Proof.
  unfold DistributionFunction. destruct (RegularizedIncomplete x (alpha b) (beta b)) as [p|]; [|lra].
  destruct (f_lt p 0) eqn:E1; simpl; [lra|]. destruct (f_lt 1 p) eqn:E2; [lra|].
  apply f_lt_false in E1, E2. lra.
Qed.

Lemma ComputeProbability_bounds mu sigma threshold :
  ∃ p d, ComputeProbability mu sigma threshold = Ret (p, d) ∧ (0 <= p <= 1)%Q.
Proof.
  unfold ComputeProbability. destruct (f_eq mu 0 || _); [eexists _, _; split; [done|lra]|].
  destruct (f_eq sigma 0 && _); [eexists _, _; split; [done|lra]|]. cbn [NewBetaDistribution deref].
  change (NewBetaDistribution 1 1) with (Some (computeMoments (mkBeta (Some 1%Q) (Some 1%Q) true None None None)).1).
  cbn [deref mbind outcome_bind]. destruct (MatchMoments _ _ _) as [b []]; simpl.
  - eexists _, _. split; [done|]. apply DistributionFunction_bounds.
  - eexists _, _. split; [done|lra].
Qed.
End Beta.

(** ** lowriskovercommitment.go *)

Record LowRiskOverCommitment := {
  SmoothingWindowSize : Z;
  riskLimitWeightsMap : gmap string Q;
}.

Record PodResourcesStateData := { podRequests : Resource; podLimits : Resource }.

(** What the cycle state holds under the plugin's key: nothing, the plugin's
    data or data of another type. *)
Inductive state_entry := NoData | OwnData (data : PodResourcesStateData) | OtherData.

Definition MaxVarianceAllowance : Q := f64 (99 # 100).
Definition DefaultRiskLimitWeight : Q := 1 # 2.

Section Plugin.
Context `{MapOrder} `{QuantityOps} `{!FrameworkOps} `{WatcherConsts} `{GoMath} `{GonumBeta}.

Definition CreatePodResourcesStateData (pod : Pod) : outcome PodResourcesStateData :=
  let requests := GetResourceRequested pod in
  limits ← SetMaxLimits requests (GetResourceLimits pod);
  Ret {| podRequests := requests; podLimits := limits |}.

Definition PreScore (pod : Pod) : outcome state_entry :=
  data ← CreatePodResourcesStateData pod; Ret (OwnData data).

(** [None] is an error. *)
Definition getPreScoreState (cycleState : state_entry) : option PodResourcesStateData :=
  match cycleState with OwnData data => Some data | _ => None end.

(** The fields of a resource that a risk is computed for. *)
Definition resource_field (resourceName : string) : option (Resource → Z) :=
  if bool_decide (resourceName = ResourceCPU) then Some MilliCPU
  else if bool_decide (resourceName = ResourceMemory) then Some Memory
  else None.

(** The second component of the risk: measured over-commitment. *)
Definition riskLoad (pl : LowRiskOverCommitment) (metrics : list Metric) (resourceName resourceType : string)
    (node : Node) (requestMinusPod limitMinusPod capacity : Z) : outcome Q :=
  match CreateResourceStats metrics node zero_resource resourceName resourceType with
  | None => Ret 0%Q
  | Some stats =>
      let '(mu, sigma) := GetMuSigma stats in
      let sigma := f64_mul sigma (Pow (f64_of_int (SmoothingWindowSize pl)) (Some (1 # 2))) in
      let sigma := f_min sigma (Sqrt (f64_mul (GetMaxVariance mu) MaxVarianceAllowance)) in
      let allocThreshold := f64_div (f64_of_int requestMinusPod) (f64_of_int capacity) in
      let allocThreshold := f_min (f_max allocThreshold 0) 1 in
      '(allocProb, fitDistribution) ← ComputeProbability mu sigma allocThreshold;
      let allocProb :=
        if bool_decide (limitMinusPod < capacity) && bool_decide (requestMinusPod <= limitMinusPod) then
          let limitThreshold := f64_div (f64_of_int limitMinusPod) (f64_of_int capacity) in
          if f_eq limitThreshold 0 then 1%Q
          else match fitDistribution with
               | Some d =>
                   let limitProb := DistributionFunction d limitThreshold in
                   if f_lt 0 limitProb then f_min (f_max (f64_div allocProb limitProb) 0) 1 else allocProb
               | None => allocProb
               end
        else allocProb in
      Ret (f64_sub 1 allocProb)
  end.

Definition riskLimit (request limit capacity : Z) : Q :=
  if bool_decide (limit > capacity)
  then f64_div (f64_of_int (limit -₆₄ capacity)) (f64_of_int (limit -₆₄ request)) else 0%Q.

Definition computeRisk (pl : LowRiskOverCommitment) (metrics : list Metric) (resourceName resourceType : string)
    (node : Node) (n : NodeRequestsAndLimits) : outcome Q :=
  match resource_field resourceName with
  | None => Ret 0%Q
  | Some field =>
      let request := field (NodeRequest n) in
      let limit := field (NodeLimit n) in
      let requestMinusPod := field (NodeRequestMinusPod n) in
      let limitMinusPod := field (NodeLimitMinusPod n) in
      let capacity := field (Nodecapacity n) in
      let riskLimit := riskLimit request limit capacity in
      riskLoad ← riskLoad pl metrics resourceName resourceType node requestMinusPod limitMinusPod capacity;
      let w := default 0%Q (riskLimitWeightsMap pl !! resourceName) in
      let totalRisk := f64_add (f64_mul w riskLimit) (f64_mul (f64_sub 1 w) riskLoad) in
      Ret (f_min (f_max totalRisk 0) 1)
  end.

Definition computeRank (pl : LowRiskOverCommitment) (metrics : list Metric) (nodeInfo : NodeInfo) (node : Node)
    (podRequests podLimits : Resource) : outcome Q :=
  nodeRequestsAndLimits ← GetNodeRequestsAndLimits (ni_pods nodeInfo) node podRequests podLimits;
  riskCPU ← computeRisk pl metrics ResourceCPU w_CPU node nodeRequestsAndLimits;
  riskMemory ← computeRisk pl metrics ResourceMemory w_Memory node nodeRequestsAndLimits;
  Ret (f64_sub 1 (f_max riskCPU riskMemory)).

Definition best_effort (data : PodResourcesStateData) : bool :=
  bool_decide (MilliCPU (podRequests data) = 0) && bool_decide (Memory (podRequests data) = 0) &&
  bool_decide (MilliCPU (podLimits data) = 0) && bool_decide (Memory (podLimits data) = 0).

Definition Score (pl : LowRiskOverCommitment) (collected : WatcherMetrics) (cycleState : state_entry) (pod : Pod)
    (nodeInfo : NodeInfo) : outcome (Z * Status) :=
  node ← deref (ni_node nodeInfo);
  podResources ← match getPreScoreState cycleState with
                 | Some podResources => Ret podResources
                 | None => CreatePodResourcesStateData pod
                 end;
  if best_effort podResources then Ret (MinNodeScore, None) else
  match (GetNodeMetrics collected (n_name node)).1 with
  | None => Ret (MinNodeScore, None)
  | Some metrics =>
      rank ← computeRank pl metrics nodeInfo node (podRequests podResources) (podLimits podResources);
      let totalScore := f64_mul rank (f64_of_int MaxNodeScore) in
      Ret (Round totalScore, Some (NewStatus Success ""))
  end.

Definition weight_step (m : gmap string Q) (entry : string * Q) : gmap string Q := <[entry.1 := entry.2]> m.

Definition New (spec : TrimaranSpec) (window : Z) (RiskLimitWeights : gmap string Q) (client : bool)
    (answer : option WatcherMetrics) : option (LowRiskOverCommitment * WatcherMetrics) :=
  collector ← NewCollector spec client answer;
  let m := <[ResourceMemory := DefaultRiskLimitWeight]> (<[ResourceCPU := DefaultRiskLimitWeight]> ∅) in
  Some ({| SmoothingWindowSize := window;
           riskLimitWeightsMap := foldl weight_step m (range RiskLimitWeights) |}, collector).

(** ** Lemmas *)

(** The API server keeps the limit of every extended resource at its request. *)
Definition scalars_limited (requests limits : Resource) : Prop :=
  ∀ k v, ScalarResources requests !! k = Some v → v ≤ scalar limits k.

Lemma SetMaxLimits_ok requests limits :
  scalars_limited requests limits → SetMaxLimits requests limits =
  Ret {| MilliCPU := Z.max (MilliCPU limits) (MilliCPU requests);
         Memory := Z.max (Memory limits) (Memory requests);
         EphemeralStorage := Z.max (EphemeralStorage limits) (EphemeralStorage requests);
         AllowedPodNumber := Z.max (AllowedPodNumber limits) (AllowedPodNumber requests);
         ScalarResources := ScalarResources limits |}.
Proof.
  intros Hs. unfold SetMaxLimits.
  assert (∀ l, (∀ k v, (k, v) ∈ l → v ≤ scalar limits k) →
    fold_outcome scalar_limit_step (ScalarResources limits) l = Ret (ScalarResources limits)) as Hl.
  { induction l as [|[k v] l IH]; intros Hin; [done|]. cbn [fold_outcome].
    assert (scalar_limit_step (ScalarResources limits) (k, v) = Ret (ScalarResources limits)) as ->.
    { unfold scalar_limit_step. specialize (Hin k v ltac:(left)). unfold scalar in Hin. by rewrite bool_decide_false by lia. }
    cbn. apply IH. intros k' v' Hin'. apply Hin. by right. }
  rewrite Hl by (intros k v Hin%elem_of_range; by apply Hs). cbn. rewrite !setMax_max.
  repeat f_equal. case_bool_decide; lia.
Qed.

Lemma SetMaxLimits_outcome requests limits :
  scalars_limited requests limits → ∃ r, SetMaxLimits requests limits = Ret r.
Proof. intros Hs%SetMaxLimits_ok. eauto. Qed.

Definition pod_limited (pod : Pod) : Prop := scalars_limited (GetResourceRequested pod) (GetResourceLimits pod).

Lemma present_ok acc pods : Forall pod_limited pods → ∃ r, fold_outcome present_step acc pods = Ret r.
Proof.
  intros Hp. revert acc. induction Hp as [|p pods Hp _ IH]; intros acc; cbn [fold_outcome]; [eauto|].
  destruct (SetMaxLimits_outcome _ _ Hp) as [r E].
  assert (present_step acc p = Ret (accumulate acc.1 (GetResourceRequested p), accumulate acc.2 r)) as ->.
  { unfold present_step. by rewrite E. }
  apply IH.
Qed.

Lemma riskLoad_total pl metrics name t node a b c : ∃ q, riskLoad pl metrics name t node a b c = Ret q.
Proof.
  unfold riskLoad. destruct (CreateResourceStats _ _ _ _ _) as [stats|]; [|eauto].
  destruct (GetMuSigma stats) as [mu sigma].
  match goal with |- context [ComputeProbability ?m ?s ?t] =>
    destruct (ComputeProbability_bounds m s t) as (p & d & -> & _) end. cbn. eauto.
Qed.

Lemma computeRisk_bounds pl metrics name t node n :
  ∃ q, computeRisk pl metrics name t node n = Ret q ∧ (0 <= q <= 1)%Q.
Proof.
  unfold computeRisk. destruct (resource_field name) as [field|]; [|eexists; split; [done|lra]].
  match goal with |- context [riskLoad ?pl ?m ?nm ?t ?nd ?a ?b ?c] =>
    destruct (riskLoad_total pl m nm t nd a b c) as [load ->] end.
  cbn. eexists. split; [done|]. split; [|apply f_min_le].
  apply f_min_glb; [apply f_max_ge|lra].
Qed.

Lemma computeRank_bounds pl metrics nodeInfo node rq lm :
  Forall pod_limited (ni_pods nodeInfo) →
  ∃ q, computeRank pl metrics nodeInfo node rq lm = Ret q ∧ (0 <= q <= 1)%Q.
Proof.
  intros Hp. unfold computeRank, GetNodeRequestsAndLimits.
  destruct (present_ok (zero_resource, zero_resource) _ Hp) as [[r1 r2] ->]. cbn [mbind outcome_bind].
  match goal with |- context [computeRisk pl metrics ResourceCPU w_CPU node ?n] =>
    destruct (computeRisk_bounds pl metrics ResourceCPU w_CPU node n) as (q1 & -> & ? & ?);
    destruct (computeRisk_bounds pl metrics ResourceMemory w_Memory node n) as (q2 & -> & ? & ?) end.
  cbn. eexists. split; [done|]. pose proof (f_max_ge q1 q2) as [? ?].
  assert (f_max q1 q2 <= 1)%Q by by apply f_max_lub. split.
  - apply f64_nonneg. lra.
  - apply Qle_trans with (f64 1); [apply f64_mono; lra|by vm_compute].
Qed.

(** ** Properties *)

(** When the limits of the pods cover their extended resources, PreScore and
    Score do not panic; the score is between 0 and 100, 0 for a pod that asks
    for no CPU and memory; and it is the same whether the state was prepared
    by PreScore or is missing and computed again. *)
Theorem Score_low_risk pl collected pod nodeInfo node :
  ni_node nodeInfo = Some node → pod_limited pod → Forall pod_limited (ni_pods nodeInfo) →
  ∃ data s st, PreScore pod = Ret (OwnData data) ∧
    Score pl collected (OwnData data) pod nodeInfo = Ret (s, st) ∧
    Score pl collected NoData pod nodeInfo = Ret (s, st) ∧
    Score pl collected OtherData pod nodeInfo = Ret (s, st) ∧
    IsSuccess st = true ∧ 0 ≤ s ≤ 100 ∧ (best_effort data = true → s = 0).
Proof.
  intros Hnode Hpod Hpods. unfold PreScore, Score, CreatePodResourcesStateData.
  destruct (SetMaxLimits_outcome _ _ Hpod) as [limits ->]. rewrite Hnode.
  cbn [mbind outcome_bind deref getPreScoreState].
  set (data := {| podRequests := GetResourceRequested pod; podLimits := limits |}). exists data.
  destruct (best_effort data); [by eexists _, _|].
  destruct (GetNodeMetrics collected (n_name node)).1 as [metrics|]; [|by eexists _, _].
  destruct (computeRank_bounds pl metrics nodeInfo node (GetResourceRequested pod) limits Hpods) as (q & E & Hq).
  subst data. cbn [podRequests podLimits]. rewrite E. cbn [mbind outcome_bind].
  eexists _, _. do 5 (split; [done|]). split; [|done].
  apply (Round_bounds _ 0 100). change (inject_Z 0) with 0%Q. change (inject_Z 100) with 100%Q.
  assert (0 <= f64_of_int MaxNodeScore)%Q by (by vm_compute). destruct Hq. split.
  - apply f64_nonneg. by apply Qmult_le_0_compat.
  - apply Qle_trans with (f64_mul 1 (f64_of_int MaxNodeScore)); [by apply f64_mul_mono|by vm_compute].
Qed.
End Plugin.

(** ** Witness *)

#[export] Instance model_beta : GonumBeta := {| gonum_Beta _ _ := 1%Q; gonum_RegIncBeta _ _ x := Some x |}.

Definition w_low_risk : LowRiskOverCommitment := {|
  SmoothingWindowSize := 1; riskLimitWeightsMap := {[ResourceCPU := (1 # 2)%Q; ResourceMemory := (1 # 2)%Q]} |}.

Lemma w_pod_limited : pod_limited w_pod.
Proof.
  assert (ScalarResources (GetResourceRequested w_pod) = ∅) as E.
  { apply (bool_decide_eq_true_1 _). vm_compute. reflexivity. }
  intros k v Hk. rewrite E, lookup_empty in Hk. discriminate Hk.
Qed.

Definition w_busy_ni : NodeInfo := {|
  ni_node := Some w_node; ni_pods := [w_pod; w_pod]; ni_allocatable := zero_resource;
  ni_requested := zero_resource; ni_nonzero_requested := zero_resource |}.

Lemma Score_low_risk_witness :
  ∃ s st, Score w_low_risk (w_collected 50 50) NoData w_pod w_busy_ni = Ret (s, st) ∧ 0 ≤ s ≤ 100.
Proof.
  destruct (Score_low_risk w_low_risk (w_collected 50 50) w_pod w_busy_ni w_node eq_refl w_pod_limited)
    as (data & s & st & _ & _ & E & _ & _ & Hs & _).
  - apply Forall_cons_2; [exact w_pod_limited|]. apply Forall_cons_2; [exact w_pod_limited|apply Forall_nil_2].
  - exists s, st. split; [exact E|exact Hs].
Defined.

(** ** A nil map

    A scalar request without any scalar limit is written into a nil map. *)
Lemma scalar_without_limit_panics :
  SetMaxLimits {| MilliCPU := 0; Memory := 0; EphemeralStorage := 0; AllowedPodNumber := 0;
                  ScalarResources := {["nvidia.com/gpu" := 1]} |} zero_resource = Panic.
Proof. vm_compute. reflexivity. Qed.
