(* ===== verification/Config.v ===== *)
(** * Plugin arguments: defaults, conversion and validation (apis/config)

    The v1 arguments have pointers for optional fields ([option] here, a nil
    slice or map of length 0 being its empty value).  Loading a configuration
    applies the [SetDefaults] functions and then the conversion to the
    internal types, which dereferences the scoring strategy; validation looks
    at the internal types.  Fields that none of these functions reads or
    writes are left out. *)

From S2P Require Import Prelude Float64 K8s K8sModel GoSort Trimaran.
From Stdlib Require Import QArith Lqa.
From stdpp Require Import pretty.

Open Scope Z_scope.

(** ** types.go *)

Record ResourceSpec := { rs_Name : string; rs_Weight : Z }.

Record CoschedulingArgs := { PermitWaitingTimeSeconds : option Z; PodGroupBackoffSeconds : option Z }.

Record NodeResourcesAllocatableArgs := { nra_Resources : list ResourceSpec; nra_Mode : string }.

Record v1_TrimaranSpec := {
  mp_Type : string;
  mp_InsecureSkipVerify : option bool;
  ts_WatcherAddress : option string;
}.

Record TargetLoadPackingArgs `{QuantityOps} := {
  tlp_TrimaranSpec : v1_TrimaranSpec;
  DefaultRequests : option resource_list;
  DefaultRequestsMultiplier_ : option string;
  TargetUtilization : option Z;
}.

Record v1_LoadVariationArgs := {
  lvrb_TrimaranSpec : v1_TrimaranSpec;
  v1_SafeVarianceMargin : option Q;
  v1_SafeVarianceSensitivity : option Q;
}.

Record LowRiskOverCommitmentArgs := {
  lroc_TrimaranSpec : v1_TrimaranSpec;
  SmoothingWindowSize : option Z;
  RiskLimitWeights : gmap string Q;
}.

Record ScoringStrategy := { ss_Type : string; ss_Resources : list ResourceSpec }.

Record NodeResourceTopologyCache := {
  ForeignPodsDetect : option string;
  ResyncMethod : option string;
  InformerMode : option string;
}.

Record NodeResourceTopologyMatchArgs := {
  nrt_ScoringStrategy : option ScoringStrategy;
  nrt_Cache : option NodeResourceTopologyCache;
}.

Record TopologicalSortArgs := { tps_Namespaces : list string }.

Record NetworkOverheadArgs := {
  no_Namespaces : list string;
  WeightsName : option string;
  NetworkTopologyName : option string;
}.

Record SySchedArgs := { DefaultProfileNamespace : option string; DefaultProfileName : option string }.

(** ** defaults.go *)

Definition defaultPermitWaitingTimeSeconds : Z := 60.
Definition defaultPodGroupBackoffSeconds : Z := 0.
Definition Least : string := "Least".
Definition defaultNodeResourcesAllocatableMode : string := Least.
Definition defaultNodeResourcesAllocatableResourcesToWeightMap : list ResourceSpec :=
  [{| rs_Name := "cpu"; rs_Weight := Z.shiftl 1 20 |}; {| rs_Name := "memory"; rs_Weight := 1 |}].
Definition DefaultRequestsMilliCores : Z := 1000.
Definition DefaultRequestsMultiplier : string := "1.5".
Definition DefaultTargetUtilizationPercent : Z := 40.
Definition DefaultSafeVarianceMargin : Q := 1.
Definition DefaultSafeVarianceSensitivity : Q := 1.
Definition DefaultSmoothingWindowSize : Z := 5.
Definition DefaultRiskLimitWeight : Q := 1 # 2.
Definition DefaultRiskLimitWeights : gmap string Q :=
  <[ResourceCPU := DefaultRiskLimitWeight]> (<[ResourceMemory := DefaultRiskLimitWeight]> ∅).
Definition DefaultMetricProviderType : string := KubernetesMetricsServer.
Definition DefaultInsecureSkipVerify : bool := true.
Definition MostAllocated : string := "MostAllocated".
Definition BalancedAllocation : string := "BalancedAllocation".
Definition LeastAllocated : string := "LeastAllocated".
Definition LeastNUMANodes : string := "LeastNUMANodes".
Definition defaultResourceSpec : list ResourceSpec :=
  [{| rs_Name := ResourceCPU; rs_Weight := 1 |}; {| rs_Name := ResourceMemory; rs_Weight := 1 |}].
Definition defaultForeignPodsDetect : string := "All".
Definition defaultResyncMethod : string := "Autodetect".
Definition defaultInformerMode : string := "Dedicated".
Definition DefaultWeightsName : string := "UserDefined".
Definition DefaultNetworkTopologyName : string := "nt-default".
Definition NamespaceDefault : string := "default".
Definition DefaultSySchedProfileNamespace : string := "default".
Definition DefaultSySchedProfileName : string := "all-syscalls".

(** [if p == nil { p = &d }] *)
Definition or_default {A} (p : option A) (d : A) : option A := match p with Some a => Some a | None => Some d end.

Definition SetDefaults_CoschedulingArgs (obj : CoschedulingArgs) : CoschedulingArgs := {|
  PermitWaitingTimeSeconds := or_default (PermitWaitingTimeSeconds obj) defaultPermitWaitingTimeSeconds;
  PodGroupBackoffSeconds := or_default (PodGroupBackoffSeconds obj) defaultPodGroupBackoffSeconds |}.

Definition SetDefaults_NodeResourcesAllocatableArgs (obj : NodeResourcesAllocatableArgs) : NodeResourcesAllocatableArgs := {|
  nra_Resources := if bool_decide (length (nra_Resources obj) = 0%nat)
                   then defaultNodeResourcesAllocatableResourcesToWeightMap else nra_Resources obj;
  nra_Mode := if bool_decide (nra_Mode obj = "") then defaultNodeResourcesAllocatableMode else nra_Mode obj |}.

Definition SetDefaultTrimaranSpec (args : v1_TrimaranSpec) : v1_TrimaranSpec :=
  let t := if bool_decide (ts_WatcherAddress args = None) && bool_decide (mp_Type args = "")
           then DefaultMetricProviderType else mp_Type args in
  {| mp_Type := t;
     mp_InsecureSkipVerify :=
       if bool_decide (t = Prometheus) && bool_decide (mp_InsecureSkipVerify args = None)
       then Some DefaultInsecureSkipVerify else mp_InsecureSkipVerify args;
     ts_WatcherAddress := ts_WatcherAddress args |}.

(** k8s.io/apimachinery/pkg/api/resource *)
Class ParseQuantity `{QuantityOps} : Type := { MustParse : string → Quantity }.

(** strconv.FormatInt in base 10 is the library's decimal notation. *)
Definition SetDefaults_TargetLoadPackingArgs `{ParseQuantity} (args : TargetLoadPackingArgs) : TargetLoadPackingArgs := {|
  tlp_TrimaranSpec := SetDefaultTrimaranSpec (tlp_TrimaranSpec args);
  DefaultRequests := or_default (DefaultRequests args)
    {[ResourceCPU := MustParse (pretty DefaultRequestsMilliCores +:+ "m")]};
  DefaultRequestsMultiplier_ := or_default (DefaultRequestsMultiplier_ args) DefaultRequestsMultiplier;
  TargetUtilization := match TargetUtilization args with
                       | Some t => if bool_decide (t <= 0) then Some DefaultTargetUtilizationPercent else Some t
                       | None => Some DefaultTargetUtilizationPercent
                       end |}.

(** [p == nil || *p < 0] *)
Definition unless_nonneg (p : option Q) (d : Q) : option Q :=
  match p with Some v => if f_lt v 0 then Some d else Some v | None => Some d end.

Definition SetDefaults_LoadVariationRiskBalancingArgs (args : v1_LoadVariationArgs) : v1_LoadVariationArgs := {|
  lvrb_TrimaranSpec := SetDefaultTrimaranSpec (lvrb_TrimaranSpec args);
  v1_SafeVarianceMargin := unless_nonneg (v1_SafeVarianceMargin args) DefaultSafeVarianceMargin;
  v1_SafeVarianceSensitivity := unless_nonneg (v1_SafeVarianceSensitivity args) DefaultSafeVarianceSensitivity |}.

Definition weight_ok (w : Q) : bool := negb (f_lt w 0 || f_lt 1 w).

Definition weight_step (weights : gmap string Q) (entry : string * Q) : gmap string Q :=
  let '(r, w) := entry in
  if f_lt w 0 || f_lt 1 w then <[r := DefaultRiskLimitWeight]> weights else weights.

Definition SetDefaults_LowRiskOverCommitmentArgs `{MapOrder} (args : LowRiskOverCommitmentArgs) : LowRiskOverCommitmentArgs := {|
  lroc_TrimaranSpec := SetDefaultTrimaranSpec (lroc_TrimaranSpec args);
  SmoothingWindowSize := match SmoothingWindowSize args with
                         | Some n => if bool_decide (n <= 0) then Some DefaultSmoothingWindowSize else Some n
                         | None => Some DefaultSmoothingWindowSize
                         end;
  RiskLimitWeights := if bool_decide (size (RiskLimitWeights args) = 0%nat) then DefaultRiskLimitWeights
                      else foldl weight_step (RiskLimitWeights args) (range (RiskLimitWeights args)) |}.

Definition default_weight (r : ResourceSpec) : ResourceSpec :=
  if bool_decide (rs_Weight r = 0) then {| rs_Name := rs_Name r; rs_Weight := 1 |} else r.

Definition SetDefaults_NodeResourceTopologyMatchArgs (obj : NodeResourceTopologyMatchArgs) : NodeResourceTopologyMatchArgs :=
  let strategy := default {| ss_Type := LeastAllocated; ss_Resources := defaultResourceSpec |} (nrt_ScoringStrategy obj) in
  let resources := if bool_decide (length (ss_Resources strategy) = 0%nat)
                   then ss_Resources strategy ++ defaultResourceSpec else ss_Resources strategy in
  let cache := default {| ForeignPodsDetect := None; ResyncMethod := None; InformerMode := None |} (nrt_Cache obj) in
  {| nrt_ScoringStrategy := Some {| ss_Type := ss_Type strategy; ss_Resources := map default_weight resources |};
     nrt_Cache := Some {| ForeignPodsDetect := or_default (ForeignPodsDetect cache) defaultForeignPodsDetect;
                          ResyncMethod := or_default (ResyncMethod cache) defaultResyncMethod;
                          InformerMode := or_default (InformerMode cache) defaultInformerMode |} |}.

Definition SetDefaults_TopologicalSortArgs (obj : TopologicalSortArgs) : TopologicalSortArgs := {|
  tps_Namespaces := if bool_decide (length (tps_Namespaces obj) = 0%nat) then [NamespaceDefault] else tps_Namespaces obj |}.

Definition SetDefaults_NetworkOverheadArgs (obj : NetworkOverheadArgs) : NetworkOverheadArgs := {|
  no_Namespaces := if bool_decide (length (no_Namespaces obj) = 0%nat) then [NamespaceDefault] else no_Namespaces obj;
  WeightsName := or_default (WeightsName obj) DefaultWeightsName;
  NetworkTopologyName := or_default (NetworkTopologyName obj) DefaultNetworkTopologyName |}.

Definition SetDefaults_SySchedArgs (obj : SySchedArgs) : SySchedArgs := {|
  DefaultProfileNamespace := or_default (DefaultProfileNamespace obj) DefaultSySchedProfileNamespace;
  DefaultProfileName := or_default (DefaultProfileName obj) DefaultSySchedProfileName |}.

(** ** conversion.go and validation_pluginargs.go *)

(** The manual part of the conversion: the strategy pointer is dereferenced. *)
Definition Convert_v1_NodeResourceTopologyMatchArgs (args : NodeResourceTopologyMatchArgs) : outcome ScoringStrategy :=
  deref (nrt_ScoringStrategy args).

Definition Convert_config_NodeResourceTopologyMatchArgs (strategy : ScoringStrategy) (cache : option NodeResourceTopologyCache) :
  NodeResourceTopologyMatchArgs := {| nrt_ScoringStrategy := Some strategy; nrt_Cache := cache |}.

Definition validScoringStrategy : gset string :=
  {[MostAllocated; BalancedAllocation; LeastAllocated; LeastNUMANodes]}.

(** The error, if any. *)
Definition validateScoringStrategyType (scoringStrategy : string) : option string :=
  if negb (bool_decide (scoringStrategy ∈ validScoringStrategy)) then Some "invalid ScoringStrategyType" else None.

Definition ValidateNodeResourceTopologyMatchArgs (strategy : ScoringStrategy) : list string :=
  match validateScoringStrategyType (ss_Type strategy) with Some err => [err] | None => [] end.

(** The positions of the weights that are rejected. *)
Definition validateResources (resources : list ResourceSpec) : list nat :=
  (filter (λ ir, rs_Weight ir.2 ≤ 0) (imap pair resources)).*1.

Definition supportNodeResourcesMode : gset string := {[Least; "Most"]}.

Definition validateNodeResourcesModeType (mode : string) : option string :=
  if negb (bool_decide (mode ∈ supportNodeResourcesMode)) then Some "invalid support ModeType" else None.

(** The rejected weights and the error on the mode; no errors is acceptance. *)
Definition ValidateNodeResourcesAllocatableArgs (args : NodeResourcesAllocatableArgs) : list nat * option string :=
  (validateResources (nra_Resources args), validateNodeResourcesModeType (nra_Mode args)).

Definition ValidateCoschedulingArgs (permitWaitingTimeSeconds podGroupBackoffSeconds : Z) : list string :=
  (if bool_decide (permitWaitingTimeSeconds < 0) then ["permitWaitingTimeSeconds"] else []) ++
  (if bool_decide (podGroupBackoffSeconds < 0) then ["podGroupBackoffSeconds"] else []).

(** ** What defaulted arguments satisfy *)

Definition valid_trimaran (s : v1_TrimaranSpec) : Prop :=
  (ts_WatcherAddress s = None → mp_Type s ≠ "") ∧ (mp_Type s = Prometheus → is_Some (mp_InsecureSkipVerify s)).

Definition some_with {A} (P : A → Prop) (o : option A) : Prop := ∃ a, o = Some a ∧ P a.

Lemma or_default_some {A} (p : option A) d : is_Some (or_default p d).
Proof. destruct p; by eexists. Qed.

Lemma or_default_idem {A} (p : option A) d : or_default (or_default p d) d = or_default p d.
Proof. by destruct p. Qed.

Lemma unless_nonneg_ok p d : (0 <= d)%Q → some_with (λ v, (0 <= v)%Q) (unless_nonneg p d).
Proof.
  intros Hd. unfold unless_nonneg. destruct p as [v|]; [|by eexists].
  destruct (f_lt v 0) eqn:E; [by eexists|]. apply f_lt_false in E. by eexists.
Qed.

Lemma unless_nonneg_idem p d : (0 <= d)%Q → unless_nonneg (unless_nonneg p d) d = unless_nonneg p d.
Proof.
  intros Hd. assert (f_lt d 0 = false) as E by by apply f_lt_false. unfold unless_nonneg.
  destruct p as [v|]; [|by rewrite E]. destruct (f_lt v 0) eqn:Ev; [by rewrite E|by rewrite Ev].
Qed.

Lemma SetDefaultTrimaranSpec_valid s : valid_trimaran (SetDefaultTrimaranSpec s).
Proof.
  destruct s as [t skip w]. unfold SetDefaultTrimaranSpec, valid_trimaran. simpl. split.
  - intros ->. rewrite bool_decide_true by done. cbn [andb]. case_bool_decide; [intros E; discriminate E|done].
  - intros E. rewrite E. rewrite bool_decide_true by done. destruct skip; cbn; eauto.
Qed.

Lemma SetDefaultTrimaranSpec_idem s : SetDefaultTrimaranSpec (SetDefaultTrimaranSpec s) = SetDefaultTrimaranSpec s.
Proof.
  destruct s as [t skip w]. unfold SetDefaultTrimaranSpec. simpl. f_equal.
  - destruct (bool_decide (w = None)) eqn:Ew, (bool_decide (t = "")) eqn:Et; simpl; rewrite ?Et; done.
  - set (t' := if bool_decide (w = None) && bool_decide (t = "") then DefaultMetricProviderType else t).
    assert ((if bool_decide (w = None) && bool_decide (t' = "") then DefaultMetricProviderType else t') = t') as ->.
    { subst t'. destruct (bool_decide (w = None)) eqn:Ew, (bool_decide (t = "")) eqn:Et; simpl; rewrite ?Et; done. }
    destruct (bool_decide (t' = Prometheus)); simpl; [|done]. by destruct skip.
Qed.

Section Weights.
Context `{MapOrder}.

Lemma weights_lookup (m : gmap string Q) r :
  foldl weight_step m (range m) !! r = (λ w, if weight_ok w then w else DefaultRiskLimitWeight) <$> m !! r.
Proof.
  rewrite (foldl_range_lookup (λ _ o w, if weight_ok w then o else Some DefaultRiskLimitWeight)).
  - destruct (m !! r) as [w|]; [|done]. simpl. by destruct (weight_ok w).
  - intros acc k w j. unfold weight_step, weight_ok. destruct (f_lt w 0 || f_lt 1 w); simpl.
    + rewrite lookup_insert. case_decide as E1; case_decide as E2; try done; congruence.
    + case_decide; by subst.
Qed.

Lemma weights_idem (m : gmap string Q) :
  let m' := foldl weight_step m (range m) in foldl weight_step m' (range m') = m'.
Proof.
  cbn zeta. apply map_eq. intros r. rewrite weights_lookup, weights_lookup.
  destruct (m !! r) as [w|]; [|done]. simpl. destruct (weight_ok w) eqn:E; [by rewrite E|done].
Qed.

Lemma weights_dom (m : gmap string Q) : dom (foldl weight_step m (range m)) = dom m.
Proof. apply set_eq. intros r. by rewrite !elem_of_dom, weights_lookup, fmap_is_Some. Qed.
End Weights.

Lemma default_weight_ok r : rs_Weight (default_weight r) ≠ 0.
Proof. unfold default_weight. by case_bool_decide. Qed.

Lemma default_weight_idem r : default_weight (default_weight r) = default_weight r.
Proof. unfold default_weight at 1. by rewrite bool_decide_false by apply default_weight_ok. Qed.

Section Valid.
Context `{MapOrder} `{ParseQuantity}.

Definition valid_TargetLoadPacking (a : TargetLoadPackingArgs) : Prop :=
  valid_trimaran (tlp_TrimaranSpec a) ∧ is_Some (DefaultRequests a) ∧ is_Some (DefaultRequestsMultiplier_ a) ∧
  some_with (λ t, 1 ≤ t) (TargetUtilization a).

Definition valid_LoadVariation (a : v1_LoadVariationArgs) : Prop :=
  valid_trimaran (lvrb_TrimaranSpec a) ∧ some_with (λ v, (0 <= v)%Q) (v1_SafeVarianceMargin a) ∧
  some_with (λ v, (0 <= v)%Q) (v1_SafeVarianceSensitivity a).

Definition valid_LowRisk (a : LowRiskOverCommitmentArgs) : Prop :=
  valid_trimaran (lroc_TrimaranSpec a) ∧ some_with (λ n, 1 ≤ n) (SmoothingWindowSize a) ∧
  RiskLimitWeights a ≠ ∅ ∧ map_Forall (λ _ w, (0 <= w <= 1)%Q) (RiskLimitWeights a).

Definition valid_Allocatable (a : NodeResourcesAllocatableArgs) : Prop := nra_Resources a ≠ [] ∧ nra_Mode a ≠ "".

Definition valid_Topology (a : NodeResourceTopologyMatchArgs) : Prop :=
  some_with (λ s, ss_Resources s ≠ [] ∧ Forall (λ r, rs_Weight r ≠ 0) (ss_Resources s)) (nrt_ScoringStrategy a) ∧
  some_with (λ c, is_Some (ForeignPodsDetect c) ∧ is_Some (ResyncMethod c) ∧ is_Some (InformerMode c)) (nrt_Cache a).

Definition valid_NetworkOverhead (a : NetworkOverheadArgs) : Prop :=
  no_Namespaces a ≠ [] ∧ is_Some (WeightsName a) ∧ is_Some (NetworkTopologyName a).

(** Defaulting gives valid arguments and changes valid ones no further. *)
Definition defaults {A} (f : A → A) (valid : A → Prop) : Prop := ∀ a, valid (f a) ∧ f (f a) = f a.

Lemma or_first_nonempty {A} (l d : list A) : d ≠ [] →
  let l' := if bool_decide (length l = 0%nat) then d else l in
  l' ≠ [] ∧ (if bool_decide (length l' = 0%nat) then d else l') = l'.
Proof. intros Hd. destruct l as [|x l]; cbn; [|done]. split; [done|]. by destruct d. Qed.

Lemma TargetLoadPacking_defaults : defaults SetDefaults_TargetLoadPackingArgs valid_TargetLoadPacking.
Proof.
  intros a. split.
  - split_and!; [apply SetDefaultTrimaranSpec_valid|apply or_default_some|apply or_default_some|]. cbn.
    destruct (TargetUtilization a) as [t|]; [|by eexists]. case_bool_decide; eexists; split; done || lia.
  - unfold SetDefaults_TargetLoadPackingArgs. cbn. rewrite SetDefaultTrimaranSpec_idem, !or_default_idem. f_equal.
    destruct (TargetUtilization a) as [t|]; [|done]. destruct (bool_decide (t <= 0)) eqn:E; [done|]. by rewrite E.
Qed.

Lemma LoadVariation_defaults : defaults SetDefaults_LoadVariationRiskBalancingArgs valid_LoadVariation.
Proof.
  intros a. split.
  - split_and!; [apply SetDefaultTrimaranSpec_valid|by apply unless_nonneg_ok..].
  - unfold SetDefaults_LoadVariationRiskBalancingArgs. cbn [lvrb_TrimaranSpec v1_SafeVarianceMargin v1_SafeVarianceSensitivity].
    by rewrite SetDefaultTrimaranSpec_idem, !unless_nonneg_idem.
Qed.

Lemma LowRisk_defaults : defaults SetDefaults_LowRiskOverCommitmentArgs valid_LowRisk.
Proof.
  intros a. split.
  - split_and!; [apply SetDefaultTrimaranSpec_valid| | |]; cbn.
    + destruct (SmoothingWindowSize a) as [t|]; [|by eexists]. case_bool_decide; eexists; split; done || lia.
    + case_bool_decide as Hs; [done|]. intros E. apply Hs. apply (f_equal dom) in E. rewrite weights_dom in E.
      rewrite <- size_dom, E. by rewrite dom_empty_L, size_empty.
    + case_bool_decide as Hs.
      * intros r w. unfold DefaultRiskLimitWeights. rewrite !lookup_insert, lookup_empty.
        repeat case_decide; intros Hw; try discriminate Hw; injection Hw as <-; split; discriminate.
      * intros r w. rewrite weights_lookup. destruct (RiskLimitWeights a !! r) as [v|]; [|done].
        intros [= <-]. destruct (weight_ok v) eqn:E; [|split; discriminate].
        unfold weight_ok in E. rewrite negb_true_iff, orb_false_iff, !f_lt_false in E. lra.
  - unfold SetDefaults_LowRiskOverCommitmentArgs. cbn [lroc_TrimaranSpec SmoothingWindowSize RiskLimitWeights].
    rewrite SetDefaultTrimaranSpec_idem. f_equal.
    + destruct (SmoothingWindowSize a) as [t|]; [|done]. destruct (bool_decide (t <= 0)) eqn:E; [done|]. by rewrite E.
    + destruct (bool_decide (size (RiskLimitWeights a) = 0%nat)) eqn:E.
      { rewrite bool_decide_false by (vm_compute; discriminate). apply map_eq. intros r. rewrite weights_lookup.
        unfold DefaultRiskLimitWeights. rewrite !lookup_insert, lookup_empty. by repeat case_decide. }
      apply bool_decide_eq_false in E. rewrite bool_decide_false; [apply weights_idem|].
      by rewrite <- size_dom, weights_dom, size_dom.
Qed.

Lemma Allocatable_defaults : defaults SetDefaults_NodeResourcesAllocatableArgs valid_Allocatable.
Proof.
  intros a. destruct (or_first_nonempty (nra_Resources a) defaultNodeResourcesAllocatableResourcesToWeightMap) as [Hl Hi]; [done|].
  split.
  - split; [exact Hl|]. cbn. clear Hl Hi. case_bool_decide; [discriminate|done].
  - unfold SetDefaults_NodeResourcesAllocatableArgs. cbn [nra_Resources nra_Mode]. rewrite Hi. f_equal.
    destruct (bool_decide (nra_Mode a = "")) eqn:E; [reflexivity|by rewrite E].
Qed.

Lemma Topology_defaults : defaults SetDefaults_NodeResourceTopologyMatchArgs valid_Topology.
Proof.
  intros a. unfold SetDefaults_NodeResourceTopologyMatchArgs.
  set (strategy := default _ (nrt_ScoringStrategy a)).
  assert (∃ r rs, (if bool_decide (length (ss_Resources strategy) = 0%nat)
                   then ss_Resources strategy ++ defaultResourceSpec else ss_Resources strategy) = r :: rs) as (r & rs & E).
  { destruct (ss_Resources strategy) as [|r rs]; cbn; eauto. }
  cbn zeta. rewrite E. split.
  - split.
    + eexists. split; [done|]. split; [done|]. apply Forall_forall. intros x Hx. cbn in Hx.
      apply (list_elem_of_fmap_1 default_weight (r :: rs)) in Hx as (y & -> & _). apply default_weight_ok.
    + eexists. split; [done|]. split_and!; apply or_default_some.
  - cbn. rewrite bool_decide_false by done. cbn. rewrite !or_default_idem, default_weight_idem, map_map.
    by rewrite (map_ext _ default_weight default_weight_idem).
Qed.

Lemma NetworkOverhead_defaults : defaults SetDefaults_NetworkOverheadArgs valid_NetworkOverhead.
Proof.
  intros a. destruct (or_first_nonempty (no_Namespaces a) [NamespaceDefault]) as [Hl Hi]; [done|]. split.
  - split; [exact Hl|]. split; apply or_default_some.
  - unfold SetDefaults_NetworkOverheadArgs. cbn [no_Namespaces WeightsName NetworkTopologyName].
    by rewrite Hi, !or_default_idem.
Qed.

(** ** Properties *)

(** C36: whatever arguments a configuration gives, defaulting makes them well
    formed (every pointer that a plugin dereferences is set, the target and
    the window are positive, margins and sensitivities are not negative, the
    weights of the risk lie between 0 and 1, resource weights are not zero),
    and defaulting again changes nothing. *)
Theorem SetDefaults_valid :
  defaults SetDefaults_TargetLoadPackingArgs valid_TargetLoadPacking ∧
  defaults SetDefaults_LoadVariationRiskBalancingArgs valid_LoadVariation ∧
  defaults SetDefaults_LowRiskOverCommitmentArgs valid_LowRisk ∧
  defaults SetDefaults_NodeResourcesAllocatableArgs valid_Allocatable ∧
  defaults SetDefaults_NodeResourceTopologyMatchArgs valid_Topology ∧
  defaults SetDefaults_NetworkOverheadArgs valid_NetworkOverhead.
Proof.
  split_and!; [apply TargetLoadPacking_defaults|apply LoadVariation_defaults|apply LowRisk_defaults|
    apply Allocatable_defaults|apply Topology_defaults|apply NetworkOverhead_defaults].
Qed.

(** Loading the arguments of the topology plugin never panics, and they are
    accepted exactly when they name no strategy or one of the four. *)
Lemma load_topology_args (a : NodeResourceTopologyMatchArgs) :
  ∃ s, Convert_v1_NodeResourceTopologyMatchArgs (SetDefaults_NodeResourceTopologyMatchArgs a) = Ret s ∧
       (ValidateNodeResourceTopologyMatchArgs s = [] ↔
        ∀ s0, nrt_ScoringStrategy a = Some s0 → ss_Type s0 ∈ validScoringStrategy).
Proof.
  eexists. split; [done|]. unfold ValidateNodeResourceTopologyMatchArgs, validateScoringStrategyType. cbn [ss_Type].
  destruct (nrt_ScoringStrategy a) as [s0|] eqn:E; cbn [default from_option ss_Type id].
  - destruct (bool_decide (ss_Type s0 ∈ validScoringStrategy)) eqn:Ev; cbn.
    + apply bool_decide_eq_true in Ev. split; [intros _ s [= <-]; exact Ev|done].
    + apply bool_decide_eq_false in Ev. split; [done|]. intros Hall. destruct Ev. by apply Hall.
  - rewrite bool_decide_true by (unfold validScoringStrategy; set_solver). by split.
Qed.
End Valid.
