(* ===== verification/Exporter.v ===== *)
(** * The metrics exporter (monitoring/exporters/rescheduler-metrics-exporter.go)

    A stand-alone program that publishes, every 30 seconds, how the pods and the
    load are spread over the nodes.  The gauges of Prometheus are maps from label
    values to numbers that live as long as the program does; what the API server
    answers is an argument.

    A float that is infinite or not a number is [None]: all operations used
    here keep it so. *)

From S2P Require Import Prelude Float64 K8s K8sModel GoSort ReschedController Trimaran LoadVariation.
From Stdlib Require Import QArith Lqa.

Open Scope Z_scope.

(** Pow(±0, y) = +0 for y > 0 that is not an odd integer; Sqrt(±0) = ±0. *)
Class GoMathZero `{GoMath} : Prop := {
  Pow_zero x : (x == 0)%Q → (Pow x (Some 2%Q) == 0)%Q;
  Sqrt_zero x : (x == 0)%Q → (Sqrt x == 0)%Q;
}.

Section Exporter.
Context `{MapOrder} `{QuantityOps} `{GoMath}.

(** ** Definitions *)

(** The gauge vectors, by their label values. *)
Record Metrics := mkMetrics {
  podDistributionVariance : gmap string (option Q);
  nodeLoadBalanceScore : gmap string (option Q);
  nodePodsCount : gmap (string * string) Q;
  nodeResourceUsage : gmap (string * string) (option Q);
}.

Definition f2 (op : Q → Q → Q) (x y : option Q) : option Q := a ← x; b ← y; Some (op a b).

(** [float64(len(values))] and the two loops. *)
Definition calculateVariance (values : list (option Q)) : option Q :=
  if bool_decide (values = [] :> list (option Q)) then Some 0%Q else
  let n := Some (f64_of_int (Z.of_nat (length values))) in
  let mean := foldl (f2 f64_add) (Some 0%Q) values in
  let mean := f2 f64_div mean n in
  let variance := foldl (λ variance v, f2 f64_add variance ((λ d, Pow d (Some 2%Q)) <$> f2 f64_sub v mean))
                    (Some 0%Q) values in
  f2 f64_div variance n.

Definition calculateStandardDeviation (values : list (option Q)) : option Q :=
  Sqrt <$> calculateVariance values.

Definition isJobPod (pod : Pod) : bool :=
  existsb (λ ownerRef, bool_decide (or_kind ownerRef = "Job")) (p_owner_references pod).

(** [m[k]++] *)
Definition increment (m : gmap string Z) (k : string) : gmap string Z := <[k := default 0 (m !! k) + 1]> m.

(** The three counters: all pods, service pods, job pods. *)
Definition count_step (counts : gmap string Z * gmap string Z * gmap string Z) (pod : Pod) :
    gmap string Z * gmap string Z * gmap string Z :=
  let '(nodePodCount, nodeServicePodCount, nodeJobPodCount) := counts in
  let nodeName := p_node_name pod in
  if bool_decide (nodeName = "") then counts
  else
    let nodePodCount := increment nodePodCount nodeName in
    if isJobPod pod then (nodePodCount, nodeServicePodCount, increment nodeJobPodCount nodeName)
    else (nodePodCount, increment nodeServicePodCount nodeName, nodeJobPodCount).

(** [nodePodsCount.WithLabelValues(nodeName, podType).Set(float64(count))] for
    every entry. *)
Definition publish (podType : string) (gauge : gmap (string * string) Q) (counts : gmap string Z) :
    gmap (string * string) Q :=
  foldl (λ gauge '(nodeName, count), <[(nodeName, podType) := f64_of_int count]> gauge) gauge (range counts).

Definition counts_of (counts : gmap string Z) : list (option Q) :=
  map (λ e : string * Z, Some (f64_of_int e.2)) (range counts).

Definition set_variance (gauge : gmap string (option Q)) (label : string) (values : list (option Q)) :
    gmap string (option Q) :=
  if bool_decide (0 < Z.of_nat (length values)) then <[label := calculateVariance values]> gauge else gauge.

(** [pods]: the answer to the request for the running pods.  The result says
    whether an error is returned. *)
Definition collectPodDistribution (pods : option (list Pod)) (m : Metrics) : Metrics * bool :=
  match pods with
  | None => (m, true)
  | Some pods =>
      let '(nodePodCount, nodeServicePodCount, nodeJobPodCount) := foldl count_step (∅, ∅, ∅) pods in
      let gauge := publish "all" (nodePodsCount m) nodePodCount in
      let gauge := publish "service" gauge nodeServicePodCount in
      let gauge := publish "job" gauge nodeJobPodCount in
      let variance := set_variance (podDistributionVariance m) "count" (counts_of nodePodCount) in
      let variance := set_variance variance "service_count" (counts_of nodeServicePodCount) in
      (mkMetrics variance (nodeLoadBalanceScore m) gauge (nodeResourceUsage m), false)
  end.

(** [float64(usage) / float64(capacity) * 100] *)
Definition percent_of (usage capacity : Z) : option Q :=
  if bool_decide (capacity = 0) then None
  else Some (f64_mul (f64_div (f64_of_int usage) (f64_of_int capacity)) 100).

Definition usage_step (nodeCapacity : gmap string NodeMetricsItem)
    (acc : gmap (string * string) (option Q) * list (option Q) * list (option Q)) (node : Node) :
    gmap (string * string) (option Q) * list (option Q) * list (option Q) :=
  let '(gauge, cpuUsages, memoryUsages) := acc in
  if n_unschedulable node then acc
  else match nodeCapacity !! n_name node with
  | None => acc
  | Some metrics =>
      let cpuPercent := percent_of (q_MilliValue (quantity_of (it_Usage metrics) ResourceCPU))
                          (q_MilliValue (quantity_of (n_capacity node) ResourceCPU)) in
      let memoryPercent := percent_of (q_Value (quantity_of (it_Usage metrics) ResourceMemory))
                             (q_Value (quantity_of (n_capacity node) ResourceMemory)) in
      let gauge := <[(n_name node, "cpu") := cpuPercent]> gauge in
      let gauge := <[(n_name node, "memory") := memoryPercent]> gauge in
      (gauge, cpuUsages ++ [cpuPercent], memoryUsages ++ [memoryPercent])
  end.

Definition set_balance (gauge : gmap string (option Q)) (label : string) (usages : list (option Q)) :
    gmap string (option Q) :=
  if bool_decide (0 < Z.of_nat (length usages))
  then <[label := f2 f64_sub (Some 100%Q) (calculateStandardDeviation usages)]> gauge else gauge.

Definition collectNodeResourceUsage (nodeMetrics : option (list NodeMetricsItem)) (nodes : option (list Node))
    (m : Metrics) : Metrics * bool :=
  match nodeMetrics, nodes with
  | Some items, Some nodes =>
      let nodeCapacity := foldl (λ (nodeCapacity : gmap string NodeMetricsItem) item,
                                   <[it_Name item := item]> nodeCapacity) ∅ items in
      let '(gauge, cpuUsages, memoryUsages) := foldl (usage_step nodeCapacity) (nodeResourceUsage m, [], []) nodes in
      let balance := set_balance (nodeLoadBalanceScore m) "cpu" cpuUsages in
      let balance := set_balance balance "memory" memoryUsages in
      (mkMetrics (podDistributionVariance m) balance (nodePodsCount m) gauge, false)
  | _, _ => (m, true)
  end.

(** The errors are logged only. *)
Definition collectMetrics (pods : option (list Pod)) (nodeMetrics : option (list NodeMetricsItem))
    (nodes : option (list Node)) (m : Metrics) : Metrics :=
  let '(m, _) := collectPodDistribution pods m in
  let '(m, _) := collectNodeResourceUsage nodeMetrics nodes m in m.

(** ** What is counted *)

Definition on_node (n : string) (pod : Pod) : bool := bool_decide (p_node_name pod = n ∧ n ≠ "").
Definition number (P : Pod → bool) (pods : list Pod) : Z := Z.of_nat (length (filter (λ p, P p = true) pods)).

(** A counter holds the number of pods for the nodes that have one. *)
Definition counts (P : Pod → bool) (pods : list Pod) (m : gmap string Z) : Prop :=
  ∀ n, m !! n = let k := number (λ p, on_node n p && P p) pods in if decide (k = 0) then None else Some k.

Lemma number_snoc P pods p : number P (pods ++ [p]) = number P pods + if P p then 1 else 0.
Proof.
  unfold number. rewrite filter_app, length_app, filter_cons. case_decide as E; destruct (P p); cbn; done || lia.
Qed.

Lemma number_nonneg P pods : 0 ≤ number P pods.
Proof. unfold number. lia. Qed.

Lemma counts_keep P pods m p :
  (∀ n, on_node n p && P p = false) → counts P pods m → counts P (pods ++ [p]) m.
Proof. intros Hp Hm n. rewrite (Hm n), number_snoc, Hp. by rewrite Z.add_0_r. Qed.

Lemma counts_increment P pods m p :
  p_node_name p ≠ "" → P p = true → counts P pods m → counts P (pods ++ [p]) (increment m (p_node_name p)).
Proof.
  intros Hn Hp Hm n. cbn. unfold increment. rewrite lookup_insert, (Hm (p_node_name p)). cbn.
  rewrite number_snoc, Hp. pose proof (number_nonneg (λ p0, on_node n p0 && P p0) pods).
  case_decide as E.
  - subst n. assert (on_node (p_node_name p) p = true) as -> by (unfold on_node; by rewrite bool_decide_true).
    cbn. rewrite (decide_False (P := _ + 1 = 0)) by lia. case_decide as E; cbn; [by rewrite E|done].
  - assert (on_node n p = false) as -> by (unfold on_node; rewrite bool_decide_false; naive_solver).
    cbn. rewrite Z.add_0_r. apply Hm.
Qed.

Definition service (p : Pod) : bool := negb (isJobPod p).

Lemma count_steps pods :
  let '(all, services, jobs) := foldl count_step (∅, ∅, ∅) pods in
  counts (λ _, true) pods all ∧ counts service pods services ∧ counts isJobPod pods jobs.
Proof.
  induction pods as [|p pods IH] using rev_ind; [split; [|split]; intros n; apply lookup_empty|].
  rewrite foldl_snoc. destruct (foldl count_step _ pods) as [[all services] jobs].
  destruct IH as (Ha & Hs & Hj). unfold count_step. case_bool_decide as Hn.
  - assert (∀ n, on_node n p = false) as Hoff.
    { intros n. unfold on_node. rewrite bool_decide_false; [done|]. intros [E ?]. congruence. }
    split; [|split]; (apply counts_keep; [intros n; by rewrite Hoff|done]).
  - destruct (isJobPod p) eqn:Hjob.
    + split; [by apply counts_increment|]. split; [|by apply counts_increment].
      apply counts_keep; [|done]. intros n. unfold service. rewrite Hjob. apply andb_false_r.
    + split; [by apply counts_increment|]. split.
      * apply counts_increment; [done| |done]. unfold service. by rewrite Hjob.
      * apply counts_keep; [|done]. intros n. rewrite Hjob. apply andb_false_r.
Qed.

Lemma publish_lookup podType gauge m n t :
  publish podType gauge m !! (n, t) =
  if decide (t = podType) then
    match m !! n with Some count => Some (f64_of_int count) | None => gauge !! (n, t) end
  else gauge !! (n, t).
Proof.
  unfold publish.
  assert (∀ l gauge, NoDup l.*1 →
    foldl (λ (gauge : gmap (string * string) Q) '(nodeName, count), <[(nodeName, podType) := f64_of_int count]> gauge)
      gauge l !! (n, t) =
    if decide (t = podType) then
      match (list_to_map l : gmap string Z) !! n with Some count => Some (f64_of_int count) | None => gauge !! (n, t) end
    else gauge !! (n, t)) as Hl.
  { induction l as [|[k count] l IH]; intros g Hnd; cbn.
    - rewrite lookup_empty. by case_decide.
    - apply NoDup_cons in Hnd as [Hk Hnd]. rewrite IH, !lookup_insert by done.
      destruct (decide (t = podType)) as [->|Ht]; [|by rewrite decide_False by congruence].
      destruct (decide (k = n)) as [->|En].
      + rewrite not_elem_of_list_to_map_1 by done. by rewrite decide_True.
      + by rewrite (decide_False (P := (k, podType) = (n, podType))) by congruence. }
  rewrite Hl by apply range_NoDup. assert (list_to_map (range m) = m) as -> by
    (rewrite <- (list_to_map_to_list m); symmetry; apply list_to_map_proper;
       [apply NoDup_fst_map_to_list|by rewrite range_perm, list_to_map_to_list]).
  done.
Qed.

Lemma publish_same podType gauge m n :
  publish podType gauge m !! (n, podType) =
  match m !! n with Some count => Some (f64_of_int count) | None => gauge !! (n, podType) end.
Proof. by rewrite publish_lookup, decide_True. Qed.

Lemma publish_other podType gauge m n t :
  t ≠ podType → publish podType gauge m !! (n, t) = gauge !! (n, t).
Proof. intros. by rewrite publish_lookup, decide_False. Qed.

(** ** Properties *)

(** A collection sets, for every node that has running pods, the gauges to
    the number of its pods, of its service pods and of its job pods, and these
    add up; a gauge of a node that has no such pod keeps what an earlier collection
    set. *)
Theorem collect_counts pods m :
  let gauge := nodePodsCount (collectPodDistribution (Some pods) m).1 in
  let gauge_of n podType P :=
    gauge !! (n, podType) =
    let k := number (λ p, on_node n p && P p) pods in
    if decide (k = 0) then nodePodsCount m !! (n, podType) else Some (f64_of_int k) in
  ∀ n, gauge_of n "all" (λ _, true) ∧ gauge_of n "service" service ∧ gauge_of n "job" isJobPod ∧
    number (λ p, on_node n p && true) pods =
    number (λ p, on_node n p && service p) pods + number (λ p, on_node n p && isJobPod p) pods.
Proof.
  intros gauge gauge_of n. subst gauge_of gauge. cbn [collectPodDistribution].
  pose proof (count_steps pods) as Hc. destruct (foldl count_step _ pods) as [[all services] jobs].
  destruct Hc as (Ha & Hs & Hj). cbn.
  split; [|split; [|split]].
  - by rewrite ?publish_other, publish_same, (Ha n), ?publish_other by done; cbn; case_decide.
  - by rewrite ?publish_other, publish_same, (Hs n), ?publish_other by done; cbn; case_decide.
  - by rewrite ?publish_other, publish_same, (Hj n), ?publish_other by done; cbn; case_decide.
  - clear. induction pods as [|p pods IH] using rev_ind; [done|]. rewrite !number_snoc, IH.
    unfold service. destruct (on_node n p), (isJobPod p); cbn; lia.
Qed.

(** *** The variance *)

Lemma fold_sum_exact (vs : list (option Q)) k j x :
  (∀ v, v ∈ vs → ∃ y, v = Some y ∧ (y == inject_Z k)%Q) → (x == inject_Z j)%Q → 0 ≤ j → 0 ≤ k →
  j + k * Z.of_nat (length vs) < 2 ^ 53 →
  ∃ y, foldl (f2 f64_add) (Some x) vs = Some y ∧ (y == inject_Z (j + k * Z.of_nat (length vs)))%Q.
Proof.
  revert x j. induction vs as [|v vs IH]; intros x j Hvs Hx Hj Hk Hb; cbn [foldl length].
  - exists x. split; [done|]. by rewrite Z.mul_0_r, Z.add_0_r.
  - destruct (Hvs v) as (y & -> & Hy); [by left|]. cbn [length] in Hb.
    destruct (IH (f64_add x y) (j + k)) as (z & Ez & Hz); [intros; apply Hvs; by right| |lia..|].
    + rewrite Hx, Hy. apply f64_add_int. nia.
    + exists z. split; [exact Ez|]. rewrite Hz.
      assert (j + k + k * Z.of_nat (length vs) = j + k * Z.of_nat (S (length vs))) as -> by lia. done.
Qed.

Lemma fold_zero (vs : list (option Q)) mean x `{!GoMathZero} :
  (∀ v, v ∈ vs → ∃ y, v = Some y ∧ (y == mean)%Q) → (x == 0)%Q →
  ∃ y, foldl (λ variance v, f2 f64_add variance ((λ d, Pow d (Some 2%Q)) <$> f2 f64_sub v (Some mean))) (Some x) vs =
       Some y ∧ (y == 0)%Q.
Proof.
  revert x. induction vs as [|v vs IH]; intros x Hvs Hx; cbn [foldl]; [by exists x|].
  destruct (Hvs v) as (y & -> & Hy); [by left|]. apply IH; [intros; apply Hvs; by right|].
  assert (Pow (f64_sub y mean) (Some 2%Q) == 0)%Q as E.
  { apply Pow_zero. rewrite Hy. unfold f64_sub. apply f64_zero. ring. }
  rewrite E, Hx. apply f64_zero. ring.
Qed.

Lemma variance_equal (vs : list (option Q)) k `{!GoMathZero} :
  vs ≠ [] → (∀ v, v ∈ vs → ∃ y, v = Some y ∧ (y == inject_Z k)%Q) → 0 ≤ k →
  k * Z.of_nat (length vs) < 2 ^ 53 → Z.of_nat (length vs) < 2 ^ 53 →
  ∃ y, calculateVariance vs = Some y ∧ (y == 0)%Q.
Proof.
  intros Hne Hvs Hk Hb Hl. unfold calculateVariance. rewrite bool_decide_false by done.
  destruct (fold_sum_exact vs k 0 0%Q) as (s & -> & Hs); [done|done|lia|done|lia|]. rewrite Z.add_0_l in Hs.
  set (n := Z.of_nat (length vs)) in *. assert (0 < n) by (destruct vs; [done|cbn in n; lia]).
  assert (0 < inject_Z n)%Q as Hn by (change 0%Q with (inject_Z 0); by rewrite <- Zlt_Qlt).
  assert (f64_div s (f64_of_int n) == inject_Z k)%Q as Hmean.
  { rewrite Hs, (f64_of_int_exact n) by lia. unfold f64_div. rewrite inject_Z_mult.
    assert (inject_Z k * inject_Z n / inject_Z n == inject_Z k)%Q as -> by (field; lra).
    apply f64_int. nia. }
  destruct (fold_zero vs (f64_div s (f64_of_int n)) 0%Q) as (z & Ez & Hz);
    [intros v Hv; destruct (Hvs v Hv) as (y & -> & Hy); exists y; by rewrite Hmean|done|].
  cbn [f2 mbind option_bind]. rewrite Ez. eexists. split; [done|].
  unfold f64_div at 1. apply f64_zero. rewrite Hz. field.
  intros E. rewrite (f64_of_int_exact n) in E by lia. rewrite E in Hn. by apply (Qlt_irrefl 0).
Qed.

Lemma count_total pods :
  sum_map id (foldl count_step (∅, ∅, ∅) pods).1.1 ≤ Z.of_nat (length pods).
Proof.
  induction pods as [|p pods IH] using rev_ind; [done|].
  rewrite foldl_snoc, length_app. destruct (foldl count_step _ pods) as [[all services] jobs]. cbn in *.
  assert (∀ n, sum_map id (increment all n) = sum_map id all + 1) as Hinc.
  { intros n. unfold increment. destruct (all !! n) as [c|] eqn:E; cbn.
    - rewrite (sum_map_replace _ all n c) by done. cbn. lia.
    - rewrite sum_map_insert by done. cbn. lia. }
  unfold count_step. repeat case_match; cbn; rewrite ?Hinc; lia.
Qed.

Lemma zsum_const {A} (f : A → Z) (l : list A) k : (∀ a, a ∈ l → f a = k) → zsum f l = k * Z.of_nat (length l).
Proof.
  induction l as [|a l IH]; intros Hf; cbn; [lia|].
  rewrite (Hf a) by (by left). unfold zsum in IH. rewrite IH; [lia|]. intros. apply Hf. by right.
Qed.

(** When every node that has running pods has the same number of them, the
    published variance of the distribution is zero, in floating-point
    arithmetic too, for fewer than 2^53 pods. *)
Theorem even_distribution_no_variance pods m k p `{!GoMathZero} :
  Z.of_nat (length pods) < 2 ^ 53 →
  p ∈ pods → p_node_name p ≠ "" →
  (∀ q, q ∈ pods → p_node_name q ≠ "" → number (on_node (p_node_name q)) pods = k) →
  ∃ v, podDistributionVariance (collectPodDistribution (Some pods) m).1 !! "count" = Some (Some v) ∧ (v == 0)%Q.
Proof.
  intros Hlen Hp Hpn Heven. cbn [collectPodDistribution].
  pose proof (count_steps pods) as Hc. pose proof (count_total pods) as Htot.
  destruct (foldl count_step _ pods) as [[all services] jobs]. destruct Hc as (Ha & _ & _). cbn in *.
  assert (∀ n, number (λ p, on_node n p && true) pods = number (on_node n) pods) as Hnum.
  { intros n. unfold number. do 2 f_equal. apply list_filter_iff. intros q. by rewrite andb_true_r. }
  assert (∀ n c, all !! n = Some c → c = k ∧ 0 < c) as Hall.
  { intros n c E. specialize (Ha n). cbn in Ha. rewrite E, Hnum in Ha. case_decide as Hz; [done|].
    injection Ha as ->. pose proof (number_nonneg (on_node n) pods). split; [|lia].
    unfold number in *. destruct (filter _ pods) as [|q l] eqn:Hf; [done|].
    assert (q ∈ filter (λ p, on_node n p = true) pods) as Hq by (rewrite Hf; left).
    apply list_elem_of_filter in Hq as [Hq%bool_decide_eq_true Hin]. destruct Hq as [<- Hne].
    specialize (Heven q Hin Hne). by rewrite Hf in Heven. }
  assert (∃ c, all !! p_node_name p = Some c) as [c Hcn].
  { specialize (Ha (p_node_name p)). cbn in Ha. rewrite Hnum in Ha. case_decide as Hz; [|eauto]. exfalso.
    assert (p ∈ filter (λ q, on_node (p_node_name p) q = true) pods) as Hin.
    { apply list_elem_of_filter. split; [|done]. by apply bool_decide_eq_true. }
    unfold number in Hz. destruct (filter _ pods); [by apply not_elem_of_nil in Hin|cbn in Hz; lia]. }
  destruct (Hall _ _ Hcn) as [-> Hk].
  assert (∀ e, e ∈ range all → e.2 = k) as Hrange.
  { intros [n c] Hin%elem_of_range. by apply (Hall n c). }
  assert (k * Z.of_nat (length (range all)) ≤ Z.of_nat (length pods)) as Hbound.
  { rewrite <- (zsum_const snd (range all) k) by done.
    rewrite <- (zsum_range id) in Htot. exact Htot. }
  assert (counts_of all ≠ []) as Hne.
  { intros E. apply map_eq_nil in E. apply (elem_of_range all) in Hcn. rewrite E in Hcn.
    by apply not_elem_of_nil in Hcn. }
  destruct (variance_equal (counts_of all) k) as (v & Ev & Hv); [done| |lia|..].
  - intros x (e & -> & Hin)%list_elem_of_fmap. eexists. split; [done|]. rewrite Hrange by done.
    apply f64_of_int_exact. enough (k ≤ k * Z.of_nat (length (range all))) by lia.
    destruct (range all); [by apply not_elem_of_nil in Hin|cbn; nia].
  - unfold counts_of. rewrite length_map. lia.
  - unfold counts_of. rewrite length_map. nia.
  - exists v. split; [|done]. rewrite <- Ev. unfold set_variance.
    rewrite (bool_decide_true (0 < Z.of_nat (length (counts_of all)))) by
      (destruct (counts_of all); [done|cbn; lia]).
    case_bool_decide; [by rewrite lookup_insert_ne, lookup_insert_eq|by rewrite lookup_insert_eq].
Qed.
End Exporter.

(** ** Witnesses *)

Definition w_math : GoMath := {| Pow x _ := f64_mul x x; Exp x := f64 (x + 1); Sqrt x := x |}.

Lemma w_math_zero : @GoMathZero w_math.
Proof. split; [|done]. intros x Hx. cbn. unfold f64_mul. apply f64_zero. rewrite Hx. ring. Qed.

Definition w_spread (name node : string) : Pod := model_pod "a" name node 0 ∅.
Definition w_metrics : Metrics := mkMetrics ∅ ∅ {[("gone", "all") := 7%Q]} ∅.

Lemma even_distribution_no_variance_witness :
  ∃ v, podDistributionVariance (collectPodDistribution (H1 := w_math)
         (Some [w_spread "p" "n1"; w_spread "q" "n2"; w_spread "pending" ""]) w_metrics).1 !! "count" = Some (Some v) ∧
       (v == 0)%Q.
Proof.
  apply (even_distribution_no_variance (H1 := w_math) _ w_metrics 1 (w_spread "p" "n1") (H2 := w_math_zero));
    [done|by left|done|].
  intros q Hq Hn. repeat (apply elem_of_cons in Hq as [->|Hq]; [done || by destruct Hn|]).
  by apply not_elem_of_nil in Hq.
Defined.

(** The gauge of a node without pods is not reset. *)
Lemma stale_node_gauge :
  nodePodsCount (collectPodDistribution (H1 := w_math) (Some [w_spread "p" "n1"]) w_metrics).1 !! ("gone", "all") =
  Some 7%Q.
Proof. vm_compute. reflexivity. Qed.
