(* ===== verification/PluginSetup.v ===== *)
(** * From a configuration to a plugin

    The [New] functions of the NodeResourceTopologyMatch and the
    NodeResourcesAllocatable plugin, as far as they decide something: which
    arguments they refuse, which cache they build, how the detection of foreign
    pods is set up in the globals of cache/foreign_pods.go and attached to the pod
    informer, and the strategy and the weights the scores are computed with.
    Also here: podprovider's choice of an informer.

    Starting informers, tickers and watchers is left out; [Setup] says what the
    API server and the framework answer, and a cache carries the handlers that its
    construction added to the pod informer. *)

From S2P Require Import Prelude Float64 GoSort K8s K8sModel ResourceUtil ScoreNorm NodeConfig.
From S2P Require Import NrtCache OverReserve NumaFilter LeastNuma NumaScore Config.

(** ** Foreign pods: the globals of the package *)

Record ForeignGlobals := { schedProfileNames : gset string; onlyExclusiveResources : bool }.

Definition initial_globals : ForeignGlobals := {| schedProfileNames := ∅; onlyExclusiveResources := false |}.

Definition TrackOnlyForeignPodsWithExclusiveResources (g : ForeignGlobals) : ForeignGlobals :=
  {| schedProfileNames := schedProfileNames g; onlyExclusiveResources := true |}.
Definition TrackAllForeignPods (g : ForeignGlobals) : ForeignGlobals :=
  {| schedProfileNames := schedProfileNames g; onlyExclusiveResources := false |}.
Definition RegisterSchedulerProfileName (g : ForeignGlobals) (schedProfileName : string) : ForeignGlobals :=
  {| schedProfileNames := {[schedProfileName]} ∪ schedProfileNames g;
     onlyExclusiveResources := onlyExclusiveResources g |}.
Definition CleanRegisteredSchedulerProfileNames (g : ForeignGlobals) : ForeignGlobals :=
  {| schedProfileNames := ∅; onlyExclusiveResources := onlyExclusiveResources g |}.

(** ** NodeResourceTopologyMatch *)

Section Topology.
Context `{MapOrder} `{QuantityOps} `{!FrameworkOps} `{NrtAPI} `{BitMaskOps} `{Combin} `{GonumStat}.

Definition ForeignPodsDetectNone : string := "None".
Definition ForeignPodsDetectAll : string := "All".
Definition ForeignPodsDetectOnlyExclusiveResources : string := "OnlyExclusiveResources".
Definition CacheInformerDedicated : string := "Dedicated".

(** apis/config/types.go; the fields that [NewOverReserve] reads are a
    [CacheConfig]. *)
Record CacheArgs := {
  ca_ForeignPodsDetect : option string;
  ca_InformerMode : option string;
  ca_config : CacheConfig;
}.

Record TopologyMatchArgs := {
  tma_ScoringStrategy : ScoringStrategy;
  CacheResyncPeriodSeconds : Z;
  DiscardReservedNodes : bool;
  Cache : option CacheArgs;
}.

(** What the framework handle gives: a client, unless it cannot be created; the
    list of the NRT objects, unless the request fails; the name of the profile,
    when the handle is a [framework.Framework]. *)
Record Setup := {
  NewWithWatch : option nrt_client;
  List_nrts : option (list NodeResourceTopology);
  ProfileName : option string;
}.

Definition getForeignPodsDetectMode (cfg : option CacheArgs) : string :=
  match cfg ≫= ca_ForeignPodsDetect with Some mode => mode | None => ForeignPodsDetectAll end.

(** *** The handlers of pod events

    An informer hands over a pod or, for a deletion it missed, another object
    ([None]).  The handlers of a cache read the globals when they are called. *)
Inductive pod_event :=
| PodAdded (obj : option Pod)
| PodUpdated (oldObj newObj : option Pod)
| PodDeleted (obj : option Pod).

Record ResourceEventHandlerFuncs := {
  AddFunc : ForeignGlobals → option Pod → OverReserve → OverReserve;
  UpdateFunc : ForeignGlobals → option Pod → option Pod → OverReserve → OverReserve;
  DeleteFunc : ForeignGlobals → option Pod → OverReserve → OverReserve;
}.

(** Another object than a pod is only logged. *)
Definition foreign_object (g : ForeignGlobals) (obj : option Pod) (cc : OverReserve) : OverReserve :=
  match obj with
  | None => cc
  | Some pod => foreignCache (schedProfileNames g) (onlyExclusiveResources g) cc pod
  end.

Definition detector : ResourceEventHandlerFuncs := {|
  AddFunc := foreign_object; UpdateFunc := λ g oldObj newObj, foreign_object g newObj; DeleteFunc := foreign_object |}.

(** The handlers of the cache at its pod informer, with the detector added. *)
Definition SetupForeignPodsDetector (podInformer : list ResourceEventHandlerFuncs) : list ResourceEventHandlerFuncs :=
  podInformer ++ [detector].

(** The informer calls every handler. *)
Definition notify (g : ForeignGlobals) (podInformer : list ResourceEventHandlerFuncs) (ev : pod_event)
    (cc : OverReserve) : OverReserve :=
  foldl (λ cc h, match ev with
                 | PodAdded obj => AddFunc h g obj cc
                 | PodUpdated oldObj newObj => UpdateFunc h g oldObj newObj cc
                 | PodDeleted obj => DeleteFunc h g obj cc
                 end) cc podInformer.

(** The result has the handlers added to [podInformer]. *)
Definition initNodeTopologyForeignPodsDetection (g : ForeignGlobals) (cfg : option CacheArgs)
    (profile : option string) (podInformer : list ResourceEventHandlerFuncs) :
    ForeignGlobals * list ResourceEventHandlerFuncs :=
  let foreignPodsDetect := getForeignPodsDetectMode cfg in
  if bool_decide (foreignPodsDetect = ForeignPodsDetectNone) then (g, podInformer)
  else match profile with
  | None => (g, podInformer)
  | Some profileName =>
      let g := if bool_decide (foreignPodsDetect = ForeignPodsDetectOnlyExclusiveResources)
               then TrackOnlyForeignPodsWithExclusiveResources g else TrackAllForeignPods g in
      (RegisterSchedulerProfileName g profileName, SetupForeignPodsDetector podInformer)
  end.

(** podprovider.go *)
Definition wantsDedicatedInformer (cacheConf : option CacheArgs) : bool :=
  match cacheConf with
  | None => false
  | Some c => match ca_InformerMode c with
              | None => false
              | Some infMode => bool_decide (infMode = CacheInformerDedicated)
              end
  end.

(** Whether an informer of its own is started, and which pods are relevant. *)
Definition NewFromHandle (cacheConf : option CacheArgs) : bool * (Pod → bool) :=
  let dedicated := wantsDedicatedInformer cacheConf in
  if negb dedicated then (false, IsPodRelevantShared) else (true, IsPodRelevantDedicated).

Inductive AnyCache :=
| UsePassthrough (pt : Passthrough)
| UseDiscardReserved (dr : DiscardReserved)
| UseOverReserve (ov : OverReserve) (watch : bool) (podInformer : list ResourceEventHandlerFuncs) (resyncPeriod : Z).

(** A pod event reaches a cache through the handlers it has at the informer. *)
Definition pod_event_at (g : ForeignGlobals) (ev : pod_event) (c : AnyCache) : AnyCache :=
  match c with
  | UseOverReserve ov watch podInformer resyncPeriod =>
      UseOverReserve (notify g podInformer ev ov) watch podInformer resyncPeriod
  | _ => c
  end.

(** [time.Duration(s) * time.Second] is an int64. *)
Definition initNodeTopologyInformer (g : ForeignGlobals) (tcfg : TopologyMatchArgs) (handle : Setup) :
    ForeignGlobals * (string + AnyCache) :=
  match NewWithWatch handle with
  | None => (g, inl "cannot create the client")
  | Some client =>
      if DiscardReservedNodes tcfg then (g, inr (UseDiscardReserved (NewDiscardReserved client)))
      else if bool_decide (CacheResyncPeriodSeconds tcfg <= 0)
      then (g, inr (UsePassthrough {| pt_client := client |}))
      else
        let '(_, isPodRelevant) := NewFromHandle (Cache tcfg) in
        match NewOverReserve (ca_config <$> Cache tcfg) (List_nrts handle) isPodRelevant with
        | None => (g, inl "cannot list the NRT objects")
        | Some (nrtCache, watch) =>
            let '(g, podInformer) := initNodeTopologyForeignPodsDetection g (Cache tcfg) (ProfileName handle) [] in
            let resyncPeriod := CacheResyncPeriodSeconds tcfg *₆₄ 10 ^ 9 in
            (g, inr (UseOverReserve nrtCache watch podInformer resyncPeriod))
        end
  end.

Definition weight_map (resources : list ResourceSpec) : gmap string Z :=
  foldl (λ (resToWeightMap : gmap string Z) resource, <[rs_Name resource := rs_Weight resource]> resToWeightMap)
    ∅ resources.

Definition New (g : ForeignGlobals) (tcfg : TopologyMatchArgs) (handle : Setup) :
    ForeignGlobals * (string + TopologyMatch * AnyCache) :=
  let strategyType := ss_Type (tma_ScoringStrategy tcfg) in
  match ValidateNodeResourceTopologyMatchArgs (tma_ScoringStrategy tcfg) with
  | err :: _ => (g, inl err)
  | [] =>
      let '(g, nrtCache) := initNodeTopologyInformer g tcfg handle in
      match nrtCache with
      | inl err => (g, inl err)
      | inr nrtCache =>
          let resToWeightMap := weight_map (ss_Resources (tma_ScoringStrategy tcfg)) in
          match getScoringStrategyFunction strategyType with
          | inl err => (g, inl err)
          | inr strategy =>
              (g, inr ({| resourceToWeightMap := resToWeightMap; scoreStrategyFunc := strategy;
                          scoreStrategyType := strategyType |}, nrtCache))
          end
      end
  end.

(** ** Lemmas *)

Lemma weight_map_lookup resources name :
  weight_map resources !! name = rs_Weight <$> last (filter (λ r, rs_Name r = name) resources).
Proof.
  unfold weight_map. induction resources as [|r rs IH] using rev_ind; [done|].
  rewrite foldl_snoc, filter_app, lookup_insert, filter_cons, filter_nil, IH.
  repeat case_decide; try done; by rewrite ?last_snoc, ?app_nil_r.
Qed.

(** Validation accepts exactly the strategies the plugin has. *)
Lemma validated_strategy strategy :
  ValidateNodeResourceTopologyMatchArgs strategy = [] ↔
  ∃ f, getScoringStrategyFunction (ss_Type strategy) = inr f ∧
       (f = None ↔ ss_Type strategy = NumaScore.LeastNUMANodes).
Proof.
  unfold ValidateNodeResourceTopologyMatchArgs, validateScoringStrategyType, getScoringStrategyFunction.
  destruct strategy as [t rs]. cbn [ss_Type]. split.
  - case_bool_decide as Hv; [intros _|done].
    assert (t = Config.MostAllocated ∨ t = Config.BalancedAllocation ∨ t = Config.LeastAllocated ∨
            t = Config.LeastNUMANodes) as Ht by (unfold validScoringStrategy in Hv; set_solver).
    destruct Ht as [ -> | [ -> | [ -> | -> ] ] ]; eexists; (split; [reflexivity|]); split; done.
  - intros (f & Hf & _). rewrite bool_decide_true; [done|]. unfold validScoringStrategy.
    repeat case_bool_decide; try done; subst; set_solver.
Qed.

Lemma NewOverReserve_relevant cfg nrts relevant ov watch :
  NewOverReserve cfg nrts relevant = Some (ov, watch) →
  isPodRelevant ov = relevant ∧ watch = bool_decide (getCacheResyncScope cfg = CacheResyncScopeAll).
Proof. unfold NewOverReserve. destruct nrts; [|done]. by intros [= <- <-]. Qed.

(** The cache a configuration asks for. *)
Definition cache_matches (tcfg : TopologyMatchArgs) (handle : Setup) (c : AnyCache) : Prop :=
  match c with
  | UseDiscardReserved dr =>
      DiscardReservedNodes tcfg = true ∧ reservationMap dr = ∅ ∧ NewWithWatch handle = Some (dr_client dr)
  | UsePassthrough pt =>
      DiscardReservedNodes tcfg = false ∧ CacheResyncPeriodSeconds tcfg ≤ 0 ∧
      NewWithWatch handle = Some (pt_client pt)
  | UseOverReserve ov watch podInformer period =>
      is_Some (NewWithWatch handle) ∧ DiscardReservedNodes tcfg = false ∧ 0 < CacheResyncPeriodSeconds tcfg ∧
      (∃ items, List_nrts handle = Some items ∧ nrts ov = newNrtStore items) ∧ assumedResources ov = ∅ ∧
      watch = bool_decide (getCacheResyncScope (ca_config <$> Cache tcfg) = CacheResyncScopeAll) ∧
      isPodRelevant ov = (if wantsDedicatedInformer (Cache tcfg) then IsPodRelevantDedicated else IsPodRelevantShared) ∧
      (CacheResyncPeriodSeconds tcfg * 10 ^ 9 < 2 ^ 63 → period = CacheResyncPeriodSeconds tcfg * 10 ^ 9) ∧
      podInformer = (if bool_decide (getForeignPodsDetectMode (Cache tcfg) ≠ ForeignPodsDetectNone ∧
                                     is_Some (ProfileName handle)) then [detector] else [])
  end.

Lemma detection_outcome g cfg profile :
  (initNodeTopologyForeignPodsDetection g cfg profile []).2 =
  if bool_decide (getForeignPodsDetectMode cfg ≠ ForeignPodsDetectNone ∧ is_Some profile) then [detector] else [].
Proof.
  unfold initNodeTopologyForeignPodsDetection. case_bool_decide as Hnone.
  - rewrite (bool_decide_false (_ ∧ _)); [done|]. tauto.
  - destruct profile; [by rewrite (bool_decide_true (_ ∧ _)) by eauto|rewrite (bool_decide_false (_ ∧ _)); [done|]].
    by intros [_ [? [=]]].
Qed.

Lemma init_cache g tcfg handle :
  match (initNodeTopologyInformer g tcfg handle).2 with
  | inr c => cache_matches tcfg handle c
  | inl _ => NewWithWatch handle = None ∨
             DiscardReservedNodes tcfg = false ∧ 0 < CacheResyncPeriodSeconds tcfg ∧ List_nrts handle = None
  end.
Proof.
  unfold initNodeTopologyInformer. destruct (NewWithWatch handle) as [client|] eqn:Hc; [|by left].
  destruct (DiscardReservedNodes tcfg) eqn:Hd; [done|]. case_bool_decide as Hp; [done|].
  unfold NewFromHandle, NewOverReserve.
  pose proof (detection_outcome g (Cache tcfg) (ProfileName handle)) as Hdet.
  destruct (List_nrts handle) as [items|] eqn:Hl; [|destruct (wantsDedicatedInformer (Cache tcfg)); right; split_and!; done || lia].
  destruct (initNodeTopologyForeignPodsDetection g (Cache tcfg) (ProfileName handle) []) as [g' podInformer]. cbn in Hdet.
  destruct (wantsDedicatedInformer (Cache tcfg)) eqn:Hw; cbn; rewrite ?Hd, ?Hw;
    (split; [by eexists|]); (split; [done|]); (split; [lia|]); (split; [by exists items|]); (split; [done|]); (split; [done|]);
    (split; [done|]); (split; [intros; apply wrap64_id; unfold in64; lia|done]).
Qed.

(** ** Properties *)

(** What [New] cannot work with. *)
Definition refused (tcfg : TopologyMatchArgs) (handle : Setup) : Prop :=
  ss_Type (tma_ScoringStrategy tcfg) ∉ validScoringStrategy ∨ NewWithWatch handle = None ∨
  DiscardReservedNodes tcfg = false ∧ 0 < CacheResyncPeriodSeconds tcfg ∧ List_nrts handle = None.

Lemma cache_matches_accepted tcfg handle c :
  ss_Type (tma_ScoringStrategy tcfg) ∈ validScoringStrategy → cache_matches tcfg handle c → ¬ refused tcfg handle.
Proof.
  intros Hv Hc [?|[Hn|(Hd & Hp & Hl)]]; [done|..].
  - destruct c as [pt|dr|ov w i p]; cbn in Hc; [destruct Hc as (_ & _ & E)|destruct Hc as (_ & _ & E)|destruct Hc as ([? E] & _)];
      congruence.
  - destruct c as [pt|dr|ov w i p]; cbn in Hc; [lia|destruct Hc; congruence|].
    destruct Hc as (_ & _ & _ & (items & E & _) & _). congruence.
Qed.

(** The function that scores a NUMA node under each strategy. *)
Definition strategies :=
  [("MostAllocated", Some mostAllocatedScoreStrategy); ("LeastAllocated", Some leastAllocatedScoreStrategy);
   ("BalancedAllocation", Some balancedAllocationScoreStrategy); ("LeastNUMANodes", None)].

Lemma getScoringStrategyFunction_table t f : getScoringStrategyFunction t = inr f → (t, f) ∈ strategies.
Proof.
  unfold getScoringStrategyFunction, strategies. repeat case_bool_decide; intros [=]; subst; set_solver.
Qed.

(** C35: [New] refuses arguments exactly when the strategy is not one of the
    four, the client cannot be created, or a cache with resynchronisation is
    wanted and the objects cannot be listed.  Else the plugin has the function of
    the named strategy (MostAllocated, LeastAllocated or BalancedAllocation; none
    for LeastNUMANodes, which is scored without one), the last weight given for
    each resource, and the cache that was
    asked for: discarding reserved nodes goes before the period, without a period
    every request is passed through, else an empty over-reserve cache over the listed
    objects is resynchronised with the given period (if it is at most an int64 of
    nanoseconds), with the watcher when the scope is All and the detector of foreign
    pods when it is not disabled and the handle knows the profile. *)
Theorem New_spec g tcfg handle :
  match (New g tcfg handle).2 with
  | inr (tm, c) =>
      ¬ refused tcfg handle ∧ cache_matches tcfg handle c ∧
      scoreStrategyType tm = ss_Type (tma_ScoringStrategy tcfg) ∧
      (ss_Type (tma_ScoringStrategy tcfg), scoreStrategyFunc tm) ∈ strategies ∧
      ∀ name, resourceToWeightMap tm !! name =
        rs_Weight <$> last (filter (λ r, rs_Name r = name) (ss_Resources (tma_ScoringStrategy tcfg)))
  | inl _ => refused tcfg handle
  end.
Proof.
  unfold New. pose proof (validated_strategy (tma_ScoringStrategy tcfg)) as Hs.
  pose proof (init_cache g tcfg handle) as Hc.
  assert (ValidateNodeResourceTopologyMatchArgs (tma_ScoringStrategy tcfg) = [] ↔
          ss_Type (tma_ScoringStrategy tcfg) ∈ validScoringStrategy) as Hv.
  { unfold ValidateNodeResourceTopologyMatchArgs, validateScoringStrategyType. by case_bool_decide. }
  destruct (ValidateNodeResourceTopologyMatchArgs _) as [|err errs]; [|left; naive_solver].
  destruct (proj1 Hs eq_refl) as (f & Hf & Hnil).
  destruct (initNodeTopologyInformer g tcfg handle) as [g' [err|c]]; cbn in Hc; [by right|].
  rewrite Hf. cbn. split; [apply (cache_matches_accepted _ _ c); [by apply Hv|done]|]. split; [done|].
  split; [done|]. split; [by apply getScoringStrategyFunction_table|].
  intros name. apply weight_map_lookup.
Qed.

(** *** Several profiles *)

(** The framework builds the plugin once for each profile, one after the other. *)
Definition build (g : ForeignGlobals) (profiles : list (TopologyMatchArgs * Setup)) : ForeignGlobals :=
  foldl (λ g p, (New g p.1 p.2).1) g profiles.

(** The name and the mode with which a profile takes part in the detection: its
    plugin has a resynchronised cache and the mode is not None. *)
Definition detects (p : TopologyMatchArgs * Setup) : option (string * string) :=
  let '(tcfg, handle) := p in
  if bool_decide (ss_Type (tma_ScoringStrategy tcfg) ∈ validScoringStrategy ∧ is_Some (NewWithWatch handle) ∧
                  DiscardReservedNodes tcfg = false ∧ 0 < CacheResyncPeriodSeconds tcfg ∧
                  is_Some (List_nrts handle) ∧ getForeignPodsDetectMode (Cache tcfg) ≠ ForeignPodsDetectNone)
  then (λ name, (name, getForeignPodsDetectMode (Cache tcfg))) <$> ProfileName handle else None.

Lemma New_globals g p :
  (New g p.1 p.2).1 =
  match detects p with
  | Some (name, mode) =>
      {| schedProfileNames := {[name]} ∪ schedProfileNames g;
         onlyExclusiveResources := bool_decide (mode = ForeignPodsDetectOnlyExclusiveResources) |}
  | None => g
  end.
Proof.
  destruct p as [tcfg handle]. cbn [fst snd detects]. unfold New.
  pose proof (proj1 (validated_strategy (tma_ScoringStrategy tcfg))) as Hs.
  revert Hs. unfold ValidateNodeResourceTopologyMatchArgs, validateScoringStrategyType.
  destruct (bool_decide (_ ∈ validScoringStrategy)) eqn:Hv; cbn [negb]; intros Hs.
  2: { apply bool_decide_eq_false in Hv. rewrite (bool_decide_false (_ ∧ _)); [done|tauto]. }
  apply bool_decide_eq_true in Hv. destruct (Hs eq_refl) as (f & -> & _).
  unfold initNodeTopologyInformer. destruct (NewWithWatch handle) as [client|] eqn:Hc.
  2: { rewrite (bool_decide_false (_ ∧ _)); [done|]. by intros (_ & [? [=]] & _). }
  destruct (DiscardReservedNodes tcfg) eqn:Hd.
  { rewrite (bool_decide_false (_ ∧ _)); [done|]. by intros (_ & _ & [=] & _). }
  case_bool_decide as Hp.
  { rewrite (bool_decide_false (_ ∧ _)); [done|]. intros (_ & _ & _ & ? & _). lia. }
  unfold NewFromHandle, NewOverReserve. destruct (List_nrts handle) as [items|] eqn:Hl.
  2: { destruct (negb _); (rewrite (bool_decide_false (_ ∧ _)); [done|]); by intros (_ & _ & _ & _ & [? [=]] & _). }
  unfold initNodeTopologyForeignPodsDetection.
  destruct (bool_decide (getForeignPodsDetectMode (Cache tcfg) = ForeignPodsDetectNone)) eqn:Hm.
  { apply bool_decide_eq_true in Hm. destruct (negb _); (rewrite (bool_decide_false (_ ∧ _)); [done|]); tauto. }
  apply bool_decide_eq_false in Hm. rewrite (bool_decide_true (_ ∧ _)); [|split_and!; eauto; lia].
  destruct (negb _), (ProfileName handle); cbn; try done; unfold RegisterSchedulerProfileName; by case_bool_decide.
Qed.

Definition registered (profiles : list (TopologyMatchArgs * Setup)) : list (string * string) := omap detects profiles.

Lemma build_globals g profiles :
  schedProfileNames (build g profiles) = list_to_set (registered profiles).*1 ∪ schedProfileNames g ∧
  onlyExclusiveResources (build g profiles) =
  match last (registered profiles) with
  | Some (_, mode) => bool_decide (mode = ForeignPodsDetectOnlyExclusiveResources)
  | None => onlyExclusiveResources g
  end.
Proof.
  unfold build, registered. induction profiles as [|p ps [IHn IHo]] using rev_ind; [split; [set_solver|done]|].
  rewrite foldl_snoc, New_globals, omap_app. cbn [omap list_omap].
  destruct (detects p) as [[name mode]|]; [|by rewrite app_nil_r].
  cbn [schedProfileNames onlyExclusiveResources]. rewrite fmap_app, list_to_set_app_L, last_snoc, IHn.
  split; [set_solver|done].
Qed.

(** The pod of an event: the new object of an update. *)
Definition event_pod (ev : pod_event) : option Pod :=
  match ev with PodAdded obj | PodUpdated _ obj | PodDeleted obj => obj end.

(** Whether a pod is foreign to the profiles. *)
Definition foreign_to (profiles : list (TopologyMatchArgs * Setup)) (pod : Pod) : Prop :=
  p_node_name pod ≠ "" ∧ p_scheduler_name pod ∉ (registered profiles).*1 ∧
  (snd <$> last (registered profiles) = Some ForeignPodsDetectOnlyExclusiveResources → AreExclusiveForPod pod = true).

Lemma IsForeignPod_built profiles pod :
  let g := build initial_globals profiles in
  IsForeignPod (schedProfileNames g) (onlyExclusiveResources g) pod = true ↔ foreign_to profiles pod.
Proof.
  intros g. destruct (build_globals initial_globals profiles) as [Hn Ho]. fold g in Hn, Ho.
  unfold IsForeignPod, foreign_to. rewrite Hn, Ho.
  destruct (bool_decide (p_node_name pod = "")) eqn:Hnode; cbn [negb].
  { apply bool_decide_eq_true in Hnode. split; [done|tauto]. }
  apply bool_decide_eq_false in Hnode.
  destruct (bool_decide (p_scheduler_name pod ∈ _)) eqn:Hname; cbn [negb].
  { apply bool_decide_eq_true in Hname. split; [done|]. set_solver. }
  apply bool_decide_eq_false in Hname.
  assert (p_scheduler_name pod ∉ (registered profiles).*1) as Hreg by set_solver.
  destruct (last (registered profiles)) as [[name mode]|]; cbn; [|naive_solver].
  destruct (bool_decide (mode = _)) eqn:Hm; cbn [negb].
  - apply bool_decide_eq_true in Hm. rewrite Hm. naive_solver.
  - apply bool_decide_eq_false in Hm. split; [intros _; split_and!; [done..|congruence]|done].
Qed.

(** The handlers that the plugin of a profile has at the informer. *)
Lemma New_handlers g p tm ov watch podInformer period :
  (New g p.1 p.2).2 = inr (tm, UseOverReserve ov watch podInformer period) →
  podInformer = (if bool_decide (is_Some (detects p)) then [detector] else []).
Proof.
  destruct p as [tcfg handle]. cbn [fst snd]. intros HN.
  assert (Hc : ¬ refused tcfg handle ∧ cache_matches tcfg handle (UseOverReserve ov watch podInformer period)).
  { revert HN. unfold New. pose proof (proj1 (validated_strategy (tma_ScoringStrategy tcfg))) as Hs.
    assert (Hv : ValidateNodeResourceTopologyMatchArgs (tma_ScoringStrategy tcfg) = [] →
      ss_Type (tma_ScoringStrategy tcfg) ∈ validScoringStrategy)
      by (unfold ValidateNodeResourceTopologyMatchArgs, validateScoringStrategyType; by case_bool_decide).
    destruct (ValidateNodeResourceTopologyMatchArgs _) as [|err errs]; [|done]. destruct (Hs eq_refl) as (f & -> & _).
    pose proof (init_cache g tcfg handle) as Hi. destruct (initNodeTopologyInformer g tcfg handle) as [g' [err|c]]; [done|].
    cbn in Hi |- *. intros [= _ ->]. split; [|done]. apply (cache_matches_accepted _ _ _ (Hv eq_refl) Hi). }
  destruct Hc as [Hr (Hcl & Hd & Hp & (items & Hl & _) & _ & _ & _ & _ & ->)].
  assert (Hval : ss_Type (tma_ScoringStrategy tcfg) ∈ validScoringStrategy).
  { destruct (decide (ss_Type (tma_ScoringStrategy tcfg) ∈ validScoringStrategy)); [done|]. exfalso. apply Hr. by left. }
  cbn [detects]. destruct (ProfileName handle) as [name|].
  - destruct (decide (getForeignPodsDetectMode (Cache tcfg) = ForeignPodsDetectNone)) as [Hm|Hm].
    + rewrite !(bool_decide_false (_ ∧ _)) by tauto. by rewrite bool_decide_false by (by intros [? [=]]).
    + rewrite !(bool_decide_true (_ ∧ _)) by (split_and!; eauto). by rewrite bool_decide_true by (by eexists).
  - assert (Hno : ∀ A, ¬ is_Some (None : option A)) by (by intros A [? [=]]).
    rewrite (bool_decide_false (_ ≠ _ ∧ is_Some (None : option string))) by (intros [_ ?]; by eapply Hno).
    by destruct (bool_decide (_ ∈ _ ∧ _)).
Qed.

(** C34: once all profiles are built, an added, updated or deleted pod changes the cache of a plugin only
    if the plugin has the over-reserve cache and takes part in the detection: its arguments ask for a
    resynchronised cache, its detection mode is not None, and its handle knows the profile.  Then the node
    of the pod (of its new object, if it was updated) gets a mark for foreign pods exactly when the pod is
    foreign: it is on a node, its scheduler is none of the profiles that take part, and it has exclusive
    resources, if the profile that was built last of these asks for such pods only; and only if the
    cache has an NRT object for that node.  Objects that are no pods are passed over. No other mark and nothing
    else of the cache changes, in whatever state it is. *)
Theorem foreign_detection profiles p g0 tm c ev :
  (New g0 p.1 p.2).2 = inr (tm, c) →
  let g := build initial_globals profiles in
  match c with
  | UseOverReserve _ watch podInformer period =>
      ∀ ov, ∃ ov', pod_event_at g ev (UseOverReserve ov watch podInformer period) = UseOverReserve ov' watch podInformer period ∧
        (∀ n, is_Some (nodesWithForeignPods ov' !! n) ↔
           is_Some (nodesWithForeignPods ov !! n) ∨
           is_Some (detects p) ∧ is_Some (nrts ov !! n) ∧
             ∃ pod, event_pod ev = Some pod ∧ p_node_name pod = n ∧ foreign_to profiles pod) ∧
        set_marks ov' (nodesMaybeOverreserved ov') (nodesWithForeignPods ov) (nodesWithAttrUpdate ov') = ov
  | _ => pod_event_at g ev c = c
  end.
Proof.
  intros HN g. destruct c as [pt|dr|ov0 watch podInformer period]; [done|done|]. intros ov.
  rewrite (New_handlers g0 p tm ov0 watch podInformer period HN). cbn [pod_event_at]. eexists. split; [done|].
  case_bool_decide as Hdet; cbn [notify foldl]; [|split; [intros n; split; [by left|tauto]|by destruct ov]].
  assert (Hobj : ∀ ov, match ev with
    | PodAdded obj => AddFunc detector g obj ov
    | PodUpdated oldObj newObj => UpdateFunc detector g oldObj newObj ov
    | PodDeleted obj => DeleteFunc detector g obj ov end = foreign_object g (event_pod ev) ov) by (by destruct ev).
  rewrite Hobj. destruct (event_pod ev) as [pod|]; cbn [foreign_object].
  2: { split; [|by destruct ov]. intros n. split; [by left|]. intros [?|(_ & _ & ? & [=] & _)]. done. }
  pose proof (IsForeignPod_built profiles pod) as Hf. cbn zeta in Hf. fold g in Hf. unfold foreignCache.
  destruct (IsForeignPod _ _ pod); cbn [negb].
  2: { split; [|by destruct ov]. intros n. split; [by left|]. intros [?|(_ & _ & ? & [= <-] & _ & ?%Hf)]; done. }
  unfold ov_NodeHasForeignPods, Contains. case_bool_decide as Hnrt; cbn [negb].
  - split; [|by destruct ov]. intros n. cbn. unfold Incr. rewrite lookup_insert_is_Some. split.
    + intros [<-|[_ ?]]; [|by left]. right. split; [done|]. split; [done|]. exists pod. naive_solver.
    + intros [?|(_ & _ & ? & [= <-] & <- & _)]; [|by left]. destruct (decide (p_node_name pod = n)); [by left|by right].
  - split; [|by destruct ov]. intros n. split; [by left|]. intros [?|(_ & ? & ? & [= <-] & <- & _)]; done.
Qed.
End Topology.

(** ** NodeResourcesAllocatable *)

Section Allocatable.
Context `{MapOrder} `{QuantityOps} `{!FrameworkOps}.

(** The mode as [score] switches on it. *)
Definition mode_of (mode : string) : ModeType :=
  if bool_decide (mode = Config.Least) then ScoreNorm.Least
  else if bool_decide (mode = "Most") then ScoreNorm.Most else OtherMode.

Record Allocatable := { al_resToWeightMap : gmap string Z; al_mode : ModeType }.

(** Nil arguments are [None]. *)
Definition NewAllocatable (allocArgs : option NodeResourcesAllocatableArgs) : option Allocatable :=
  match allocArgs with
  | None => Some {| al_resToWeightMap := defaultResourcesToWeightMap; al_mode := mode_of "" |}
  | Some args =>
      let mode := if bool_decide (nra_Mode args = "") then Config.Least else nra_Mode args in
      match ValidateNodeResourcesAllocatableArgs {| nra_Resources := nra_Resources args; nra_Mode := mode |} with
      | ([], None) =>
          Some {| al_resToWeightMap := if bool_decide (0 < Z.of_nat (length (nra_Resources args)))
                                       then weight_map (nra_Resources args) else defaultResourcesToWeightMap;
                  al_mode := mode_of mode |}
      | _ => None
      end
  end.

Lemma validateResources_ok resources :
  validateResources resources = [] ↔ Forall (λ r, 0 < rs_Weight r) resources.
Proof.
  unfold validateResources. split.
  - intros Hf%fmap_nil_inv. apply Forall_forall. intros r (i & Hi)%list_elem_of_lookup. apply Z.nle_gt. intros Hle.
    assert ((i, r) ∈ filter (λ ir : nat * ResourceSpec, rs_Weight ir.2 ≤ 0) (imap pair resources)) as Hin.
    { apply list_elem_of_filter. split; [done|]. apply elem_of_lookup_imap. by exists i, r. }
    rewrite Hf in Hin. by apply not_elem_of_nil in Hin.
  - intros Hall. rewrite filter_none; [done|]. intros [i r] (j & x & [= -> ->] & Hj)%elem_of_lookup_imap. cbn.
    rewrite Forall_forall in Hall. specialize (Hall x ltac:(by eapply list_elem_of_lookup_2)). lia.
Qed.

Lemma weight_map_pos resources :
  Forall (λ r, 0 < rs_Weight r) resources → map_Forall (λ _ w, 0 < w) (weight_map resources).
Proof.
  intros Hall name w. rewrite weight_map_lookup. intros (r & Hr & ->)%fmap_Some.
  apply last_Some_elem_of in Hr. apply list_elem_of_filter in Hr as [_ Hr].
  rewrite Forall_forall in Hall. by apply Hall.
Qed.

Lemma weight_map_nonempty resources : resources ≠ [] → weight_map resources ≠ ∅.
Proof.
  intros Hne E. destruct (exists_last Hne) as (rs & r & ->). apply (f_equal (lookup (rs_Name r))) in E.
  rewrite weight_map_lookup, filter_app, filter_cons, decide_True, filter_nil, last_snoc, lookup_empty in E by done.
  done.
Qed.

Lemma default_weights :
  defaultResourcesToWeightMap ≠ ∅ ∧ map_Forall (λ _ w, 0 < w) defaultResourcesToWeightMap.
Proof.
  unfold defaultResourcesToWeightMap. split; [apply insert_non_empty|].
  apply map_Forall_insert_2; [lia|]. by apply map_Forall_singleton.
Qed.

(** [NewAllocatable] accepts arguments exactly when all weights are positive
    and the mode is Least, Most or missing (then Least is meant), and what it accepts
    cannot make the score divide by zero, unless the weights add up to 2^63 or
    more: there is a weight, and all are positive. *)
Theorem NewAllocatable_spec args :
  (is_Some (NewAllocatable (Some args)) ↔
   Forall (λ r, 0 < rs_Weight r) (nra_Resources args) ∧ nra_Mode args ∈ ["Least"; "Most"; ""]) ∧
  ∀ pl, NewAllocatable (Some args) = Some pl →
    al_mode pl = (if decide (nra_Mode args = "Most") then ScoreNorm.Most else ScoreNorm.Least) ∧
    ∀ pod nodeInfo node, ni_node nodeInfo = Some node →
      let weights := map_to_list (al_resToWeightMap pl) in
      weight_sum weights < 2 ^ 63 → - 2 ^ 63 < weighted_sum nodeInfo weights < 2 ^ 63 →
      al_Score (al_resToWeightMap pl) (al_mode pl) pod nodeInfo =
      Ret (Z.quot (mode_sign (al_mode pl) * weighted_sum nodeInfo weights) (weight_sum weights), None).
Proof.
  unfold NewAllocatable, ValidateNodeResourcesAllocatableArgs, validateNodeResourcesModeType. cbn [nra_Resources nra_Mode].
  set (mode := if bool_decide (nra_Mode args = "") then _ else _).
  assert (mode ∈ supportNodeResourcesMode ↔ nra_Mode args ∈ ["Least"; "Most"; ""]) as Hmode.
  { unfold supportNodeResourcesMode, mode, Config.Least.
    rewrite elem_of_union, !elem_of_singleton, !elem_of_cons, elem_of_nil. case_bool_decide; naive_solver. }
  pose proof (validateResources_ok (nra_Resources args)) as Hres.
  destruct (validateResources (nra_Resources args)) as [|r rs].
  2: { split; [|done]. split; [by intros [? [=]]|]. intros [Hall _]. by apply Hres in Hall. }
  pose proof (proj1 Hres eq_refl) as Hall. case_bool_decide as Hm; cbn [negb].
  2: { split; [|done]. split; [by intros [? [=]]|]. intros [_ Hin]. tauto. }
  split; [split; [intros _; tauto|by eexists]|]. intros pl [= <-]. cbn [al_mode al_resToWeightMap].
  split.
  - unfold mode_of, mode, Config.Least. apply Hmode in Hm. rewrite !elem_of_cons, elem_of_nil in Hm.
    destruct Hm as [ -> | [ -> | [ -> | [] ] ] ]; reflexivity.
  - intros pod nodeInfo node Hn Hsum Hws.
    set (weights := if bool_decide (0 < _) then _ else _) in *.
    enough (weights ≠ ∅ ∧ map_Forall (λ _ w, 0 < w) weights) as [Hne Hpos].
    { clearbody weights. apply (al_Score_spec _ _ _ _ node Hn Hne Hpos); [unfold in64; lia|exact Hsum|lia]. }
    unfold weights. case_bool_decide as Hlen.
    + split; [|by apply weight_map_pos]. apply weight_map_nonempty. by destruct (nra_Resources args).
    + apply default_weights.
Qed.

(** Without arguments the mode stays empty, and every node scores zero. *)
Lemma nil_args_score_zero pl : NewAllocatable None = Some pl → al_mode pl = OtherMode.
Proof. by intros [= <-]. Qed.
End Allocatable.

(** ** Witnesses *)

Definition w_args (detect : string) : TopologyMatchArgs := {|
  tma_ScoringStrategy := {| ss_Type := NumaScore.LeastAllocated; ss_Resources := [] |};
  CacheResyncPeriodSeconds := 5; DiscardReservedNodes := false;
  Cache := Some {| ca_ForeignPodsDetect := Some detect; ca_InformerMode := None;
                   ca_config := {| cfg_ResyncMethod := None; cfg_ResyncScope := None |} |} |}.

Definition w_setup (profile : string) : Setup :=
  {| NewWithWatch := Some (λ _, None); List_nrts := Some []; ProfileName := Some profile |}.

(** The mode is one variable for all profiles: a pod without exclusive resources
    that "first" wants to know about is not detected any more once "second" is
    built. *)
Lemma detection_mode_is_shared `{GonumStat} :
  let pod := model_pod "a" "p" "n" 0 ∅ in
  let foreign g := IsForeignPod (schedProfileNames g) (onlyExclusiveResources g) pod in
  foreign (build initial_globals [(w_args "All", w_setup "first")]) = true ∧
  foreign (build initial_globals [(w_args "All", w_setup "first");
                                  (w_args "OnlyExclusiveResources", w_setup "second")]) = false.
Proof. split; vm_compute; reflexivity. Qed.

(** Mean and sample variance, over the rationals; NaN becomes the smallest int64. *)
Definition mean (l : list Q) : Q := (foldr Qplus 0 l / inject_Z (Z.of_nat (length l)))%Q.
Definition squares (l : list Q) : Q := foldr Qplus 0%Q (map (λ x, (x - mean l) * (x - mean l))%Q l).

#[local] Instance model_stat : GonumStat := {|
  stat_Mean l := match l with [] => None | _ => Some (mean l) end;
  stat_Variance l := match l with
                     | [] | [_] => None
                     | _ :: rest => Some (squares l / inject_Z (Z.of_nat (length rest)))%Q
                     end;
  int_of_nan := - 2 ^ 63 |}.

(** The plugin of the profile "first" sees an unknown scheduler's pod appear on
    the node n, and one of its own; a plugin that detects nothing sees neither. *)
Lemma foreign_detection_witness :
  let foreign ev detect := match (New initial_globals (w_args detect) (w_setup "first")).2 with
    | inr (_, UseOverReserve _ watch podInformer period) =>
        match pod_event_at (build initial_globals [(w_args detect, w_setup "first")]) ev
                (UseOverReserve w_cache watch podInformer period) with
        | UseOverReserve ov _ _ _ => IsSet (nodesWithForeignPods ov) "n"
        | _ => false
        end
    | _ => false
    end in
  foreign (PodAdded (Some w_new)) "All" = true ∧ foreign (PodAdded (Some w_new)) "None" = false ∧
  foreign (PodDeleted None) "All" = false ∧
  ∃ tm ov0 watch podInformer period ov',
    (New initial_globals (w_args "All") (w_setup "first")).2 = inr (tm, UseOverReserve ov0 watch podInformer period) ∧
    pod_event_at (build initial_globals [(w_args "All", w_setup "first")]) (PodAdded (Some w_new))
      (UseOverReserve w_cache watch podInformer period) = UseOverReserve ov' watch podInformer period ∧
    is_Some (nodesWithForeignPods ov' !! "n").
Proof.
  split; [vm_compute; reflexivity|]. split; [vm_compute; reflexivity|]. split; [vm_compute; reflexivity|].
  destruct (foreign_detection [(w_args "All", w_setup "first")] (w_args "All", w_setup "first") initial_globals _ _
    (PodAdded (Some w_new)) eq_refl w_cache) as (ov' & E & Hmarks & _).
  eexists _, _, _, _, _, ov'. split; [reflexivity|]. split; [exact E|].
  apply Hmarks. right. split; [by eexists|]. split; [by eexists|]. exists w_new. split; [reflexivity|].
  split; [reflexivity|]. split; [discriminate|]. split; [|discriminate].
  intros Hin. apply list_elem_of_singleton in Hin. discriminate Hin.
Defined.

Definition w_allocatable : NodeResourcesAllocatableArgs :=
  {| nra_Resources := [{| rs_Name := ResourceCPU; rs_Weight := 3 |}]; nra_Mode := "" |}.

Definition w_big_node : NodeInfo :=
  {| ni_node := Some {| n_name := "n"; n_labels := ∅; n_unschedulable := false; n_capacity := ∅; n_allocatable := ∅ |};
     ni_pods := []; ni_allocatable := {| MilliCPU := 4000; Memory := 0; EphemeralStorage := 0; AllowedPodNumber := 0;
                                         ScalarResources := ∅ |};
     ni_requested := zero_resource; ni_nonzero_requested := zero_resource |}.

Lemma NewAllocatable_spec_witness :
  al_Score {[ResourceCPU := 3]} ScoreNorm.Least (model_pod "a" "p" "" 0 ∅) w_big_node = Ret (-4000, None).
Proof.
  destruct (NewAllocatable_spec w_allocatable) as [Hiff Hpl].
  destruct (proj2 Hiff) as [pl E].
  { split; [by repeat constructor|]. cbn. set_solver. }
  destruct (Hpl pl E) as [_ Hscore]. revert Hscore.
  assert (pl = {| al_resToWeightMap := {[ResourceCPU := 3]}; al_mode := ScoreNorm.Least |}) as ->
    by (injection E as <-; reflexivity).
  intros Hscore. exact (Hscore (model_pod "a" "p" "" 0 ∅) w_big_node _ eq_refl eq_refl (conj eq_refl eq_refl)).
Defined.

(** The weights of accepted arguments can add up to zero modulo 2^64: the score
    then divides by zero. *)
Lemma weights_overflow_panics :
  let big name := {| rs_Name := name; rs_Weight := 2 ^ 62 |} in
  let args := {| nra_Resources := [big "a"; big "b"; big "c"; big "d"]; nra_Mode := "" |} in
  (λ pl, al_Score (al_resToWeightMap pl) (al_mode pl) (model_pod "a" "p" "" 0 ∅) w_big_node) <$> NewAllocatable (Some args)
  = Some Panic.
Proof. vm_compute. reflexivity. Qed.
