(* ===== verification/InformerFactory.v ===== *)
(** * pkg/generated/informers/externalversions

    The shared informer factory: factory.go and generic.go, the accessors of
    scheduling/interface.go, scheduling/v1alpha1/interface.go, elasticquota.go and
    podgroup.go.

    An informer is an object of client-go; what the code makes of it is
    [Informer], the arguments of [NewSharedIndexInformer] and the transform.  The
    factory's mutex makes [Start], [InformerFor], the flag of [Shutdown] and
    the first part of [WaitForCacheSync] critical sections; a [World] is the
    factory with what runs around it, and [step] one critical section, the end
    of a goroutine, or an event of the environment. *)

From S2P Require Import Prelude.

Section InformerFactory.
Context `{MapOrder}.

(** Types of client-go; a [reflect.Type] is its name. *)
Context {Client ListOptions Reply Transform : Type}.

(** [client.SchedulingV1alpha1().<resource>(namespace).List] and [Watch]. *)
Context (List_ Watch_ : Client → string → string → ListOptions → Reply).

(** ** Informers *)

Record Informer := mkInformer {
  ListFunc : ListOptions → Reply;
  WatchFunc : ListOptions → Reply;
  objectType : string;
  resyncCheckPeriod : Z;
  inf_indexers : list string;
  inf_transform : option Transform;
}.

Definition NewInformerFunc : Type := Client → Z → Informer.

Definition TweakListOptionsFunc : Type := ListOptions → ListOptions.

Definition SetTransform (informer : Informer) (f : option Transform) : Informer := {|
  ListFunc := ListFunc informer; WatchFunc := WatchFunc informer; objectType := objectType informer;
  resyncCheckPeriod := resyncCheckPeriod informer; inf_indexers := inf_indexers informer;
  inf_transform := f |}.

(** ** The factory *)

(** [informers] holds pointers. *)
Record sharedInformerFactory := mkFactory {
  client : Client;
  namespace : string;
  tweakListOptions : option TweakListOptionsFunc;
  defaultResync : Z;
  customResync : gmap string Z;
  transform : option Transform;
  informers : gmap string nat;
  startedInformers : gset string;
  wg : Z;
  shuttingDown : bool;
}.

Definition SharedInformerOption : Type := sharedInformerFactory → sharedInformerFactory.

(** [resyncConfig] lists the types of its keys in the order of the loop. *)
Definition WithCustomResyncConfig (resyncConfig : list (string * Z)) : SharedInformerOption := λ f,
  mkFactory (client f) (namespace f) (tweakListOptions f) (defaultResync f)
    (foldl (λ m kv, <[kv.1 := kv.2]> m) (customResync f) resyncConfig) (transform f)
    (informers f) (startedInformers f) (wg f) (shuttingDown f).

Definition WithTweakListOptions (tweak : option TweakListOptionsFunc) : SharedInformerOption := λ f,
  mkFactory (client f) (namespace f) tweak (defaultResync f) (customResync f) (transform f)
    (informers f) (startedInformers f) (wg f) (shuttingDown f).

Definition WithNamespace (ns : string) : SharedInformerOption := λ f,
  mkFactory (client f) ns (tweakListOptions f) (defaultResync f) (customResync f) (transform f)
    (informers f) (startedInformers f) (wg f) (shuttingDown f).

Definition WithTransform (tr : option Transform) : SharedInformerOption := λ f,
  mkFactory (client f) (namespace f) (tweakListOptions f) (defaultResync f) (customResync f) tr
    (informers f) (startedInformers f) (wg f) (shuttingDown f).

Definition NewSharedInformerFactoryWithOptions (c : Client) (resync : Z)
    (options : list SharedInformerOption) : sharedInformerFactory :=
  foldl (λ f opt, opt f) (mkFactory c "" None resync ∅ None ∅ ∅ 0 false) options.

Definition NewSharedInformerFactory (c : Client) (resync : Z) : sharedInformerFactory :=
  NewSharedInformerFactoryWithOptions c resync [].

Definition NewFilteredSharedInformerFactory (c : Client) (resync : Z) (ns : string)
    (tweak : option TweakListOptionsFunc) : sharedInformerFactory :=
  NewSharedInformerFactoryWithOptions c resync [WithNamespace ns; WithTweakListOptions tweak].

(** ** The world *)

(** A call of [WaitForCacheSync] past its critical section. *)
Record WaitCall := mkWaitCall { wc_stopCh : nat; wc_rest : list (string * nat); wc_res : gmap string bool }.

(** [heap] holds the informers the factory points to, [goroutines] what is
    running: an informer and the channel that stops it.  [launched] remembers
    every goroutine ever started, [closed] the closed channels, [synced] the
    informers whose [HasSynced] holds.  [waiting] calls of [Shutdown] are at
    [wg.Wait()], [returned] have returned. *)
Record World := mkWorld {
  factory : sharedInformerFactory;
  heap : list Informer;
  goroutines : list (nat * nat);
  launched : list (nat * nat);
  closed : gset nat;
  synced : gset nat;
  waiting : nat;
  returned : nat;
  calls : gmap nat WaitCall;
}.

Definition new_world (f : sharedInformerFactory) : World := mkWorld f [] [] [] ∅ ∅ 0 0 ∅.

(** ** Critical sections *)

Definition InformerFor (w : World) (informerType : string) (newFunc : NewInformerFunc) : World * nat :=
  let f := factory w in
  match informers f !! informerType with
  | Some informer => (w, informer)
  | None =>
      let resyncPeriod := default (defaultResync f) (customResync f !! informerType) in
      let informer := SetTransform (newFunc (client f) resyncPeriod) (transform f) in
      let p := length (heap w) in
      (mkWorld
         (mkFactory (client f) (namespace f) (tweakListOptions f) (defaultResync f) (customResync f)
            (transform f) (<[informerType := p]> (informers f)) (startedInformers f) (wg f) (shuttingDown f))
         (heap w ++ [informer]) (goroutines w) (launched w) (closed w) (synced w) (waiting w) (returned w)
         (calls w), p)
  end.

Definition start_one (stopCh : nat) (w : World) (ti : string * nat) : World :=
  let '(informerType, informer) := ti in
  let f := factory w in
  if decide (informerType ∈ startedInformers f) then w
  else mkWorld
    (mkFactory (client f) (namespace f) (tweakListOptions f) (defaultResync f) (customResync f)
       (transform f) (informers f) ({[informerType]} ∪ startedInformers f) (wg f + 1) (shuttingDown f))
    (heap w) (goroutines w ++ [(informer, stopCh)]) (launched w ++ [(informer, stopCh)])
    (closed w) (synced w) (waiting w) (returned w) (calls w).

Definition Start (w : World) (stopCh : nat) : World :=
  if shuttingDown (factory w) then w
  else foldl (start_one stopCh) w (range (informers (factory w))).

(** [Shutdown] until [wg.Wait()] ... *)
Definition Shutdown_begin (w : World) : World :=
  let f := factory w in
  mkWorld
    (mkFactory (client f) (namespace f) (tweakListOptions f) (defaultResync f) (customResync f)
       (transform f) (informers f) (startedInformers f) (wg f) true)
    (heap w) (goroutines w) (launched w) (closed w) (synced w) (S (waiting w)) (returned w) (calls w).

(** ... and from there, once the counter is zero. *)
Definition Shutdown_end (w : World) : option World :=
  match waiting w with
  | S n =>
      if decide (wg (factory w) = 0) then
        Some (mkWorld (factory w) (heap w) (goroutines w) (launched w) (closed w) (synced w) n
                (S (returned w)) (calls w))
      else None
  | 0%nat => None
  end.

(** The informers [WaitForCacheSync] copies. *)
Definition started_informers (f : sharedInformerFactory) : list (string * nat) :=
  range (filter (λ ti, ti.1 ∈ startedInformers f) (informers f)).

Definition set_call (w : World) (tid : nat) (c : WaitCall) : World :=
  mkWorld (factory w) (heap w) (goroutines w) (launched w) (closed w) (synced w) (waiting w) (returned w)
    (<[tid := c]> (calls w)).

Definition WaitForCacheSync_begin (w : World) (tid stopCh : nat) : World :=
  set_call w tid (mkWaitCall stopCh (started_informers (factory w)) ∅).

(** One [cache.WaitForCacheSync]: it answers true when the informer has synced,
    false when the channel is closed. *)
Definition WaitForCacheSync_next (w : World) (tid : nat) (ok : bool) : option World :=
  match calls w !! tid with
  | Some (mkWaitCall stopCh ((informType, informer) :: rest) res) =>
      if (if ok then bool_decide (informer ∈ synced w) else bool_decide (stopCh ∈ closed w))
      then Some (set_call w tid (mkWaitCall stopCh rest (<[informType := ok]> res)))
      else None
  | _ => None
  end.

(** The deferred [wg.Done()] of a goroutine whose informer returned from [Run],
    which it does when its channel is closed. *)
Definition goroutine_exit (w : World) (i : nat) : option World :=
  match goroutines w !! i with
  | Some (_, stopCh) =>
      if decide (stopCh ∈ closed w) then
        let f := factory w in
        Some (mkWorld
          (mkFactory (client f) (namespace f) (tweakListOptions f) (defaultResync f) (customResync f)
             (transform f) (informers f) (startedInformers f) (wg f - 1) (shuttingDown f))
          (heap w) (delete i (goroutines w)) (launched w) (closed w) (synced w) (waiting w) (returned w)
          (calls w))
      else None
  | None => None
  end.

(** ** Runs *)

Inductive event :=
| EvInformerFor (informerType : string) (newFunc : NewInformerFunc)
| EvStart (stopCh : nat)
| EvShutdown
| EvShutdownReturns
| EvWaitForCacheSync (tid stopCh : nat)
| EvWaitNext (tid : nat) (ok : bool)
| EvExit (i : nat)
| EvClose (ch : nat)
| EvSynced (informer : nat).

(** [None] when the event cannot happen. *)
Definition step (w : World) (ev : event) : option World :=
  match ev with
  | EvInformerFor informerType newFunc => Some (InformerFor w informerType newFunc).1
  | EvStart stopCh => Some (Start w stopCh)
  | EvShutdown => Some (Shutdown_begin w)
  | EvShutdownReturns => Shutdown_end w
  | EvWaitForCacheSync tid stopCh =>
      if decide (calls w !! tid = None) then Some (WaitForCacheSync_begin w tid stopCh) else None
  | EvWaitNext tid ok => WaitForCacheSync_next w tid ok
  | EvExit i => goroutine_exit w i
  | EvClose ch =>
      Some (mkWorld (factory w) (heap w) (goroutines w) (launched w) ({[ch]} ∪ closed w) (synced w)
              (waiting w) (returned w) (calls w))
  | EvSynced informer =>
      if decide (informer ∈ (goroutines w).*1) then
        Some (mkWorld (factory w) (heap w) (goroutines w) (launched w) (closed w) ({[informer]} ∪ synced w)
                (waiting w) (returned w) (calls w))
      else None
  end.

Fixpoint runs (w : World) (evs : list event) : option World :=
  match evs with
  | [] => Some w
  | ev :: evs => w ← step w ev; runs w evs
  end.

(** ** The typed accessors *)

(** [elasticQuotaInformer], [podGroupInformer], and the types [group] and
    [version] they are reached through: each holds the factory and two of
    its fields as they were when [Scheduling] was called. *)
Record TypedInformer := mkTypedInformer {
  ti_objectType : string;
  ti_tweakListOptions : option TweakListOptionsFunc;
  ti_namespace : string;
}.

Record group := mkGroup { g_namespace : string; g_tweakListOptions : option TweakListOptionsFunc }.

Definition Scheduling (f : sharedInformerFactory) : group := mkGroup (namespace f) (tweakListOptions f).

Definition V1alpha1 (g : group) : group := mkGroup (g_namespace g) (g_tweakListOptions g).

Definition ElasticQuotas (v : group) : TypedInformer :=
  mkTypedInformer "*v1alpha1.ElasticQuota" (g_tweakListOptions v) (g_namespace v).

Definition PodGroups (v : group) : TypedInformer :=
  mkTypedInformer "*v1alpha1.PodGroup" (g_tweakListOptions v) (g_namespace v).

Definition tweaked (tweak : option TweakListOptionsFunc) (options : ListOptions) : ListOptions :=
  match tweak with Some f => f options | None => options end.

Definition NewFilteredElasticQuotaInformer (c : Client) (ns : string) (resyncPeriod : Z)
    (indexers : list string) (tweak : option TweakListOptionsFunc) : Informer := {|
  ListFunc options := List_ c "elasticquotas" ns (tweaked tweak options);
  WatchFunc options := Watch_ c "elasticquotas" ns (tweaked tweak options);
  objectType := "*v1alpha1.ElasticQuota"; resyncCheckPeriod := resyncPeriod; inf_indexers := indexers;
  inf_transform := None |}.

Definition NewFilteredPodGroupInformer (c : Client) (ns : string) (resyncPeriod : Z)
    (indexers : list string) (tweak : option TweakListOptionsFunc) : Informer := {|
  ListFunc options := List_ c "podgroups" ns (tweaked tweak options);
  WatchFunc options := Watch_ c "podgroups" ns (tweaked tweak options);
  objectType := "*v1alpha1.PodGroup"; resyncCheckPeriod := resyncPeriod; inf_indexers := indexers;
  inf_transform := None |}.

Definition NewElasticQuotaInformer (c : Client) (ns : string) (resyncPeriod : Z) (indexers : list string) :
    Informer := NewFilteredElasticQuotaInformer c ns resyncPeriod indexers None.

Definition NewPodGroupInformer (c : Client) (ns : string) (resyncPeriod : Z) (indexers : list string) :
    Informer := NewFilteredPodGroupInformer c ns resyncPeriod indexers None.

Definition NamespaceIndex : string := "namespace".

Definition eq_defaultInformer (f : TypedInformer) : NewInformerFunc := λ c resyncPeriod,
  NewFilteredElasticQuotaInformer c (ti_namespace f) resyncPeriod [NamespaceIndex] (ti_tweakListOptions f).

Definition pg_defaultInformer (f : TypedInformer) : NewInformerFunc := λ c resyncPeriod,
  NewFilteredPodGroupInformer c (ti_namespace f) resyncPeriod [NamespaceIndex] (ti_tweakListOptions f).

Definition eq_Informer (w : World) (f : TypedInformer) : World * nat :=
  InformerFor w (ti_objectType f) (eq_defaultInformer f).

Definition pg_Informer (w : World) (f : TypedInformer) : World * nat :=
  InformerFor w (ti_objectType f) (pg_defaultInformer f).

(** [resource] is the group, version and resource; the generic informer is
    the pointer with the group and resource. *)
Definition SchemeGroupVersion : string * string := ("scheduling.x-k8s.io", "v1alpha1").

Definition ForResource (w : World) (resource : string * string * string) :
    World * option (nat * (string * string)) :=
  let '(gv, r) := resource in
  if decide (resource = (SchemeGroupVersion, "elasticquotas")) then
    let '(w, p) := eq_Informer w (ElasticQuotas (V1alpha1 (Scheduling (factory w)))) in (w, Some (p, (gv.1, r)))
  else if decide (resource = (SchemeGroupVersion, "podgroups")) then
    let '(w, p) := pg_Informer w (PodGroups (V1alpha1 (Scheduling (factory w)))) in (w, Some (p, (gv.1, r)))
  else (w, None).

(** ** The invariant *)

Record fac_inv (w : World) : Prop := {
  fi_once : NoDup (launched w).*1;
  fi_running : goroutines w ⊆+ launched w;
  fi_wg : wg (factory w) = Z.of_nat (length (goroutines w));
  fi_heap : ∀ t p, informers (factory w) !! t = Some p → (p < length (heap w))%nat;
  fi_inj : ∀ t1 t2 p, informers (factory w) !! t1 = Some p → informers (factory w) !! t2 = Some p → t1 = t2;
  fi_started : ∀ t, t ∈ startedInformers (factory w) → is_Some (informers (factory w) !! t);
  fi_launched : ∀ t p, informers (factory w) !! t = Some p →
    t ∈ startedInformers (factory w) ↔ p ∈ (launched w).*1;
  fi_known : ∀ p, p ∈ (launched w).*1 → ∃ t, informers (factory w) !! t = Some p;
  fi_flag : (0 < waiting w + returned w)%nat → shuttingDown (factory w) = true;
  fi_stopped : (0 < returned w)%nat → goroutines w = [];
}.

(** What no event changes. *)
Definition same_config (f f' : sharedInformerFactory) : Prop :=
  client f' = client f ∧ namespace f' = namespace f ∧ tweakListOptions f' = tweakListOptions f ∧
  defaultResync f' = defaultResync f ∧ customResync f' = customResync f ∧ transform f' = transform f.

Lemma start_one_inv stopCh w t p :
  shuttingDown (factory w) = false → informers (factory w) !! t = Some p →
  fac_inv w → fac_inv (start_one stopCh w (t, p)).
Proof.
  intros Hflag Ht [Honce Hrun Hwg Hheap Hinj Hst Hla Hkn Hfl Hsp]. unfold start_one.
  case_decide as Hdec; [by split|].
  assert (p ∉ (launched w).*1) as Hnew by (rewrite <- (Hla t p Ht); done).
  split; simpl; try done.
  - rewrite fmap_app. apply NoDup_app. split; [done|]. split; [|apply NoDup_singleton].
    intros q Hq ->%list_elem_of_singleton. done.
  - by apply submseteq_app.
  - rewrite length_app, Hwg. simpl. lia.
  - intros t'. rewrite elem_of_union, elem_of_singleton. intros [->|]; eauto.
  - intros t' p' Ht'. rewrite elem_of_union, elem_of_singleton, fmap_app, elem_of_app, (Hla t' p' Ht').
    simpl. rewrite list_elem_of_singleton. split; intros [Hx|Hx]; auto.
    + subst t'. right. rewrite Ht in Ht'. by injection Ht' as <-.
    + subst p'. left. by eapply Hinj.
  - intros q. rewrite fmap_app, elem_of_app. simpl. rewrite list_elem_of_singleton. intros [?| ->]; eauto.
  - intros Hret. rewrite Hfl in Hflag; [done|lia].
Qed.

Lemma start_one_frame stopCh w ti :
  let w' := start_one stopCh w ti in
  same_config (factory w) (factory w') ∧ informers (factory w') = informers (factory w) ∧
  shuttingDown (factory w') = shuttingDown (factory w) ∧ heap w' = heap w ∧ closed w' = closed w ∧
  synced w' = synced w ∧ calls w' = calls w ∧ waiting w' = waiting w ∧ returned w' = returned w.
Proof. unfold start_one. destruct ti. by case_decide. Qed.

Lemma start_loop stopCh w0 l w :
  shuttingDown (factory w0) = false →
  (∀ t p, (t, p) ∈ l → informers (factory w0) !! t = Some p) →
  informers (factory w) = informers (factory w0) → shuttingDown (factory w) = false →
  fac_inv w → fac_inv (foldl (start_one stopCh) w l).
Proof.
  intros Hf. revert w. induction l as [|[t p] l IH]; intros w Hl Hi Hs Hinv; simpl; [done|].
  pose proof (start_one_frame stopCh w (t, p)) as (_ & Hi' & Hs' & _).
  apply IH; [set_solver|by etrans|by etrans|].
  apply start_one_inv; [done| |done]. rewrite Hi. apply Hl. by left.
Qed.

Lemma start_loop_frame stopCh l w :
  let w' := foldl (start_one stopCh) w l in
  same_config (factory w) (factory w') ∧ informers (factory w') = informers (factory w) ∧
  shuttingDown (factory w') = shuttingDown (factory w) ∧ heap w' = heap w ∧ closed w' = closed w ∧
  synced w' = synced w ∧ calls w' = calls w ∧ waiting w' = waiting w ∧ returned w' = returned w.
Proof.
  revert w. induction l as [|ti l IH]; intros w; simpl; [done|].
  pose proof (start_one_frame stopCh w ti) as Hw. specialize (IH (start_one stopCh w ti)).
  unfold same_config in *. simpl in *.
  destruct Hw as ((-> & -> & -> & -> & -> & ->) & -> & -> & -> & -> & -> & -> & -> & ->) in IH. done.
Qed.

Lemma Start_inv w stopCh : fac_inv w → fac_inv (Start w stopCh).
Proof.
  intros Hinv. unfold Start. destruct (shuttingDown _) eqn:Hs; [done|].
  apply (start_loop _ w); [done| |done..]. intros t p. by rewrite elem_of_range.
Qed.

Lemma InformerFor_inv w t newFunc : fac_inv w → fac_inv (InformerFor w t newFunc).1.
Proof.
  intros [Honce Hrun Hwg Hheap Hinj Hst Hla Hkn Hfl Hsp]. unfold InformerFor.
  destruct (informers (factory w) !! t) as [p|] eqn:Ht; [by split|].
  assert (length (heap w) ∉ (launched w).*1) as Hnew.
  { intros (t' & Ht')%Hkn. specialize (Hheap _ _ Ht'). lia. }
  split; simpl; try done.
  - intros t' p' [[<- <-]|[_ Ht']]%lookup_insert_Some; rewrite length_app; simpl; [lia|].
    specialize (Hheap _ _ Ht'). lia.
  - intros t1 t2 p [[<- <-]|[H1 H1']]%lookup_insert_Some [[<- ?]|[H2 H2']]%lookup_insert_Some; [done| | |by eapply Hinj].
    + specialize (Hheap _ _ H2'). lia.
    + specialize (Hheap _ _ H1'). lia.
  - intros t' Ht'. rewrite lookup_insert_is_Some'. right. by apply Hst.
  - intros t' p' [[<- <-]|[_ Ht']]%lookup_insert_Some; [|by apply Hla].
    split; [|done]. intros Hin. destruct (Hst t Hin) as [p Hp]. congruence.
  - intros p (t' & Ht')%Hkn. exists t'. rewrite lookup_insert_ne; [done|]. by intros ->; rewrite Ht in Ht'.
Qed.

Lemma step_inv w ev w' : fac_inv w → step w ev = Some w' → fac_inv w'.
Proof.
  intros Hinv. destruct ev as [t newFunc|stopCh| | |tid stopCh|tid ok|i|ch|informer]; simpl.
  - intros [= <-]. by apply InformerFor_inv.
  - intros [= <-]. by apply Start_inv.
  - intros [= <-]. destruct Hinv. by split; simpl.
  - unfold Shutdown_end. destruct Hinv as [Honce Hrun Hwg Hheap Hinj Hst Hla Hkn Hfl Hsp].
    destruct (waiting w) as [|n] eqn:Hn; [done|]. case_decide as Hz; [|done]. intros [= <-].
    split; simpl; try done; [intros _; apply Hfl; lia|]. intros _. apply nil_length_inv. lia.
  - case_decide; [|done]. intros [= <-]. destruct Hinv. by split.
  - unfold WaitForCacheSync_next. destruct (calls w !! tid) as [[ch [|[ty p] rest] res]|]; [done| |done].
    destruct (if ok then _ else _); [|done]. intros [= <-]. destruct Hinv. by split.
  - unfold goroutine_exit. destruct Hinv as [Honce Hrun Hwg Hheap Hinj Hst Hla Hkn Hfl Hsp].
    destruct (goroutines w !! i) as [[p ch]|] eqn:Hi; [|done]. case_decide; [|done]. intros [= <-].
    split; simpl; try done.
    + etrans; [|done]. apply sublist_submseteq, sublist_delete.
    + rewrite length_delete, Hwg by (by eexists). apply lookup_lt_Some in Hi. lia.
    + intros Hret. by rewrite Hsp in Hi.
  - intros [= <-]. destruct Hinv. by split.
  - case_decide; [|done]. intros [= <-]. destruct Hinv. by split.
Qed.

(** What only grows, and what a shut down factory no longer does. *)
Record grows (w w' : World) : Prop := {
  gr_config : same_config (factory w) (factory w');
  gr_informers : informers (factory w) ⊆ informers (factory w');
  gr_heap : heap w `prefix_of` heap w';
  gr_closed : closed w ⊆ closed w';
  gr_synced : synced w ⊆ synced w';
  gr_flag : shuttingDown (factory w) = true → shuttingDown (factory w') = true ∧ launched w' = launched w;
  gr_returned : (returned w ≤ returned w')%nat;
}.

#[local] Instance grows_preorder : PreOrder grows.
Proof.
  split; [by split; auto|].
  intros w1 w2 w3 [C1 I1 H1 L1 S1 F1 R1] [C2 I2 H2 L2 S2 F2 R2]. split; try (by etrans); [|..].
  - unfold same_config in *. intuition congruence.
  - intros E. destruct (F1 E) as [E2 <-]. by apply F2.
Qed.

Lemma step_grows w ev w' : step w ev = Some w' → grows w w'.
Proof.
  destruct ev as [t newFunc|stopCh| | |tid stopCh|tid ok|i|ch|informer]; simpl.
  - intros [= <-]. unfold InformerFor. destruct (informers (factory w) !! t) eqn:Ht; [done|].
    split; simpl; try done; [by apply insert_subseteq|by apply prefix_app_r].
  - intros [= <-]. unfold Start. destruct (shuttingDown _) eqn:Hs; [done|].
    pose proof (start_loop_frame stopCh (range (informers (factory w))) w) as (? & Hi & Hf & Hh & Hc & Hsy & _ & _ & Hr).
    split; [done| | | | | |].
    + by rewrite Hi.
    + by rewrite Hh.
    + by rewrite Hc.
    + by rewrite Hsy.
    + by rewrite Hs.
    + by rewrite Hr.
  - by intros [= <-].
  - unfold Shutdown_end. destruct (waiting w); [done|]. case_decide; [|done]. intros [= <-].
    split; simpl; auto with lia; done.
  - case_decide; [|done]. by intros [= <-].
  - unfold WaitForCacheSync_next. destruct (calls w !! tid) as [[ch [|[ty p] rest] res]|]; [done| |done].
    destruct (if ok then _ else _); [|done]. by intros [= <-].
  - unfold goroutine_exit. destruct (goroutines w !! i) as [[p ch]|] eqn:Hi; [|done]. case_decide; [|done].
    by intros [= <-].
  - intros [= <-]. split; simpl; try done; set_solver.
  - case_decide; [|done]. intros [= <-]. split; simpl; try done; set_solver.
Qed.

Lemma runs_inv w evs w' : fac_inv w → runs w evs = Some w' → fac_inv w'.
Proof.
  revert w. induction evs as [|ev evs IH]; intros w Hinv; simpl; [by intros [= <-]|].
  intros (w1 & Hs & Hr)%bind_Some. eapply IH; [|done]. by eapply step_inv.
Qed.

Lemma runs_grows w evs w' : runs w evs = Some w' → grows w w'.
Proof.
  revert w. induction evs as [|ev evs IH]; intros w; simpl; [by intros [= <-]|].
  intros (w1 & Hs & Hr)%bind_Some. etrans; [by eapply step_grows|by apply IH].
Qed.

(** The factories the options of the package give. *)
Inductive is_option : SharedInformerOption → Prop :=
| option_resync resyncConfig : is_option (WithCustomResyncConfig resyncConfig)
| option_tweak tweak : is_option (WithTweakListOptions tweak)
| option_namespace ns : is_option (WithNamespace ns)
| option_transform tr : is_option (WithTransform tr).

Lemma new_factory_inv c resync options :
  Forall is_option options → fac_inv (new_world (NewSharedInformerFactoryWithOptions c resync options)).
Proof.
  intros Hopts.
  assert (∀ f, informers f = ∅ → startedInformers f = ∅ → wg f = 0 →
    let f' := foldl (λ f opt, opt f) f options in
    informers f' = ∅ ∧ startedInformers f' = ∅ ∧ wg f' = 0) as Hf.
  { induction Hopts as [|opt options Hopt _ IH]; intros f Hi Hs Hw; [done|]. simpl.
    by destruct Hopt; apply IH. }
  destruct (Hf (mkFactory c "" None resync ∅ None ∅ ∅ 0 false)) as (Hi & Hs & Hw); [done..|].
  unfold NewSharedInformerFactoryWithOptions. split; simpl; rewrite ?Hi, ?Hs, ?Hw.
  - apply NoDup_nil_2.
  - done.
  - done.
  - intros t p Ht. by rewrite lookup_empty in Ht.
  - intros t1 t2 p Ht. by rewrite lookup_empty in Ht.
  - by intros t ?%not_elem_of_empty.
  - intros t p Ht. by rewrite lookup_empty in Ht.
  - by intros p ?%not_elem_of_nil.
  - lia.
  - done.
Qed.

Definition reachable (w : World) : Prop := ∃ c resync options evs,
  Forall is_option options ∧ runs (new_world (NewSharedInformerFactoryWithOptions c resync options)) evs = Some w.

Lemma world_inv w : reachable w → fac_inv w.
Proof. intros (c & resync & options & evs & Hopts & Hr). eapply runs_inv; [by apply new_factory_inv|done]. Qed.

Lemma finish_all w :
  fac_inv w → (0 < waiting w)%nat → Forall (λ g, g.2 ∈ closed w) (goroutines w) →
  ∃ w', runs w (replicate (length (goroutines w)) (EvExit 0) ++ [EvShutdownReturns]) = Some w' ∧
    goroutines w' = [] ∧ returned w' = S (returned w).
Proof.
  remember (goroutines w) as gs eqn:Hg. revert w Hg. induction gs as [|[p ch] gs IH]; intros w Hg Hinv Hw Hcl.
  - simpl. unfold Shutdown_end. destruct (waiting w) as [|n]; [lia|].
    rewrite decide_True by (rewrite (fi_wg _ Hinv), <- Hg; done). by eexists.
  - apply Forall_cons in Hcl as [Hch Hcl]. cbn [length replicate app runs]. change (step w (EvExit 0)) with (goroutine_exit w 0).
    destruct (goroutine_exit w 0) as [w1|] eqn:Hexit.
    2: { unfold goroutine_exit in Hexit. rewrite <- Hg in Hexit. simpl in Hexit. by rewrite decide_True in Hexit. }
    assert (fac_inv w1) as Hinv1 by by eapply (step_inv w (EvExit 0)).
    unfold goroutine_exit in Hexit. rewrite <- Hg in Hexit. simpl in Hexit.
    rewrite decide_True in Hexit by done. injection Hexit as <-.
    pose proof (λ E, IH _ E Hinv1 Hw Hcl) as IHw. exact (IHw eq_refl).
Qed.

(** What a call of [WaitForCacheSync] has left to do and its answers so far,
    [l0] being what it copied. *)
Definition call_inv (l0 : list (string * nat)) (stopCh : nat) (w : World) (c : WaitCall) : Prop :=
  wc_stopCh c = stopCh ∧ ∃ l1, l0 = l1 ++ wc_rest c ∧
    ∀ t, match wc_res c !! t with
         | None => t ∉ l1.*1
         | Some ok => ∃ p, (t, p) ∈ l1 ∧ if ok : bool then p ∈ synced w else stopCh ∈ closed w
         end.

Lemma call_inv_grows l0 stopCh w w' c : grows w w' → call_inv l0 stopCh w c → call_inv l0 stopCh w' c.
Proof.
  intros [_ _ _ Hcl Hsy _ _] (Hs & l1 & Hl & Hres). split; [done|]. exists l1. split; [done|].
  intros t. specialize (Hres t). destruct (wc_res c !! t) as [ok|]; [|done].
  destruct Hres as (p & Hp & Hok). exists p. split; [done|]. destruct ok; set_solver.
Qed.

Lemma WaitNext_call l0 stopCh w tid ok w' c :
  NoDup l0.*1 → calls w !! tid = Some c → call_inv l0 stopCh w c →
  WaitForCacheSync_next w tid ok = Some w' →
  ∃ c', calls w' !! tid = Some c' ∧ call_inv l0 stopCh w' c'.
Proof.
  intros Hnd Hc (Hs & l1 & Hl & Hres). unfold WaitForCacheSync_next. rewrite Hc.
  destruct c as [ch [|[t p] rest] res]; [done|]. simpl in *. subst ch.
  destruct (if ok then _ else _) eqn:Hok; [|done]. intros [= <-]. simpl. rewrite lookup_insert_eq.
  eexists. split; [done|]. split; [done|]. exists (l1 ++ [(t, p)]). rewrite <- app_assoc. split; [done|].
  intros t'. simpl. destruct (decide (t' = t)) as [->|Hne].
  - rewrite lookup_insert_eq. exists p. split; [set_solver|].
    destruct ok; by apply bool_decide_eq_true in Hok.
  - rewrite lookup_insert_ne by done. specialize (Hres t'). destruct (res !! t') as [ok'|].
    + destruct Hres as (p' & Hp' & ?). exists p'. split; [set_solver|done].
    + rewrite fmap_app. set_solver.
Qed.

Lemma call_step l0 stopCh w ev w' tid c :
  NoDup l0.*1 → calls w !! tid = Some c → call_inv l0 stopCh w c → step w ev = Some w' →
  ∃ c', calls w' !! tid = Some c' ∧ call_inv l0 stopCh w' c'.
Proof.
  intros Hnd Hc Hinv Hs. pose proof (step_grows _ _ _ Hs) as Hgr.
  assert (calls w' !! tid = Some c → ∃ c', calls w' !! tid = Some c' ∧ call_inv l0 stopCh w' c') as Hsame.
  { intros E. exists c. split; [done|]. by eapply call_inv_grows. }
  destruct ev as [t newFunc|ch| | |tid' ch|tid' ok|i|ch|informer]; simpl in Hs.
  - injection Hs as <-. apply Hsame. unfold InformerFor. by destruct (informers (factory w) !! t).
  - injection Hs as <-. apply Hsame. unfold Start. destruct (shuttingDown _); [done|].
    by pose proof (start_loop_frame ch (range (informers (factory w))) w) as (_ & _ & _ & _ & _ & _ & -> & _).
  - injection Hs as <-. by apply Hsame.
  - apply Hsame. unfold Shutdown_end in Hs. destruct (waiting w); [done|]. case_decide; [|done]. by injection Hs as <-.
  - apply Hsame. case_decide; [|done]. injection Hs as <-. simpl. rewrite lookup_insert_ne; [done|]. by intros ->; rewrite Hc in *.
  - destruct (decide (tid' = tid)) as [->|Hne]; [by eapply WaitNext_call|]. apply Hsame.
    unfold WaitForCacheSync_next in Hs. destruct (calls w !! tid') as [[ch [|[ty p] rest] res]|]; [done| |done].
    destruct (if ok then _ else _); [|done]. injection Hs as <-. simpl. by rewrite lookup_insert_ne.
  - apply Hsame. unfold goroutine_exit in Hs. destruct (goroutines w !! i) as [[p ch]|]; [|done].
    case_decide; [|done]. by injection Hs as <-.
  - injection Hs as <-. by apply Hsame.
  - apply Hsame. case_decide; [|done]. by injection Hs as <-.
Qed.

Lemma call_runs l0 stopCh w evs w' tid c :
  NoDup l0.*1 → calls w !! tid = Some c → call_inv l0 stopCh w c → runs w evs = Some w' →
  ∃ c', calls w' !! tid = Some c' ∧ call_inv l0 stopCh w' c'.
Proof.
  intros Hnd. revert w c. induction evs as [|ev evs IH]; intros w c Hc Hinv; simpl; [intros [= <-]; by exists c|].
  intros (w1 & Hs & Hr)%bind_Some. destruct (call_step _ _ _ _ _ _ _ Hnd Hc Hinv Hs) as (c' & ? & ?). by eapply IH.
Qed.

(** ** Properties *)

(** C29: in every run of a factory built with the options of the package each
    informer is run at most once, and a type counts as started exactly when its
    informer was run; the wait group counts the goroutines that are running.
    Once [Shutdown] has set its flag no goroutine is started any more (so
    nothing is added to a wait group that is being waited on), once a call of it
    has returned nothing runs ever after, and a call that waits can return as
    soon as the channels of the running goroutines are closed. *)
Theorem factory_lifecycle c resync options evs w :
  Forall is_option options →
  runs (new_world (NewSharedInformerFactoryWithOptions c resync options)) evs = Some w →
  NoDup (launched w).*1 ∧
  (∀ t p, informers (factory w) !! t = Some p → t ∈ startedInformers (factory w) ↔ p ∈ (launched w).*1) ∧
  goroutines w ⊆+ launched w ∧ wg (factory w) = Z.of_nat (length (goroutines w)) ∧
  (∀ evs' w', runs w evs' = Some w' →
     (shuttingDown (factory w) = true → launched w' = launched w) ∧
     ((0 < returned w)%nat → goroutines w' = [])) ∧
  ((0 < waiting w)%nat → Forall (λ g, g.2 ∈ closed w) (goroutines w) →
   ∃ w', runs w (replicate (length (goroutines w)) (EvExit 0) ++ [EvShutdownReturns]) = Some w' ∧
     goroutines w' = [] ∧ returned w' = S (returned w)).
Proof.
  intros Hopts Hr. pose proof (runs_inv _ _ _ (new_factory_inv c resync options Hopts) Hr) as Hinv.
  split; [apply Hinv|]. split; [apply Hinv|]. split; [apply Hinv|]. split; [apply Hinv|].
  split; [|by apply finish_all].
  intros evs' w' Hr'. pose proof (runs_grows _ _ _ Hr') as Hgr. pose proof (runs_inv _ _ _ Hinv Hr') as Hinv'.
  split; [intros Hf; by apply (gr_flag _ _ Hgr)|].
  intros Hret. apply Hinv'. pose proof (gr_returned _ _ Hgr). lia.
Qed.

(** The map a call of [WaitForCacheSync] returns has exactly the types that
    were started when the call took the lock, whatever happens meanwhile; it
    says true for an informer that has synced and false only when the call's
    channel is closed.  With the channel closed the call can always return. *)
Theorem WaitForCacheSync_exact w tid stopCh w1 evs w2 c :
  reachable w → step w (EvWaitForCacheSync tid stopCh) = Some w1 → runs w1 evs = Some w2 →
  calls w2 !! tid = Some c →
  (wc_rest c = [] → ∀ t, match wc_res c !! t with
     | None => t ∉ startedInformers (factory w)
     | Some ok => t ∈ startedInformers (factory w) ∧ ∃ p, informers (factory w) !! t = Some p ∧
         if ok : bool then p ∈ synced w2 else stopCh ∈ closed w2
     end) ∧
  (stopCh ∈ closed w2 → ∃ w3 c', runs w2 (replicate (length (wc_rest c)) (EvWaitNext tid false)) = Some w3 ∧
     calls w3 !! tid = Some c' ∧ wc_rest c' = []).
Proof.
  intros Hinv%world_inv Hbegin Hr Hc. simpl in Hbegin. case_decide; [|done]. injection Hbegin as <-.
  set (l0 := started_informers (factory w)).
  assert (∀ t p, (t, p) ∈ l0 ↔ t ∈ startedInformers (factory w) ∧ informers (factory w) !! t = Some p) as Hl0.
  { intros t p. unfold l0, started_informers. rewrite elem_of_range, map_lookup_filter_Some. simpl. tauto. }
  assert (call_inv l0 stopCh (WaitForCacheSync_begin w tid stopCh) (mkWaitCall stopCh l0 ∅)) as Hstart.
  { split; [done|]. exists []. split; [done|]. intros t. simpl. rewrite lookup_empty. apply not_elem_of_nil. }
  destruct (call_runs l0 stopCh _ _ _ tid _ (range_NoDup _) (lookup_insert_eq _ _ _) Hstart Hr) as (c' & Hc' & Hci).
  rewrite Hc in Hc'. injection Hc' as <-. destruct Hci as (Hstop & l1 & Hl & Hres). split.
  - intros Hrest t. rewrite Hrest, app_nil_r in Hl. subst l1. specialize (Hres t).
    destruct (wc_res c !! t) as [ok|].
    + destruct Hres as (p & [Ht Hp]%Hl0 & Hok). split; [done|]. by exists p.
    + intros Hin. apply Hres. destruct (fi_started _ Hinv t Hin) as [p Hp].
      apply list_elem_of_fmap. exists (t, p). split; [done|]. by apply Hl0.
  - clear - Hc Hstop. destruct c as [ch rest res]. simpl in *. subst ch. intros Hcl.
    revert w2 res Hc Hcl. induction rest as [|[t p] rest IH]; intros w res Hc Hcl; simpl; [by eexists _, _|].
    unfold WaitForCacheSync_next. rewrite Hc, bool_decide_eq_true_2 by done. simpl.
    eapply IH; [apply lookup_insert_eq|done].
Qed.

(** A type has one informer: after [InformerFor] has answered, whatever
    happens meanwhile, asking again gives the same pointer and leaves the world
    as it is.  The informer was made by the first caller's function with the
    client of the factory, the resync period set for the type or else the
    default one, and the transform of the factory. *)
Theorem InformerFor_shares w t newFunc w1 p evs w2 newFunc' :
  InformerFor w t newFunc = (w1, p) → runs w1 evs = Some w2 →
  InformerFor w2 t newFunc' = (w2, p) ∧
  (informers (factory w) !! t = None → let f := factory w2 in
   heap w2 !! p = Some (SetTransform
     (newFunc (client f) (default (defaultResync f) (customResync f !! t))) (transform f))).
Proof.
  intros Hf Hr. pose proof (runs_grows _ _ _ Hr) as [Hcfg Hinf Hheap _ _ _ _].
  assert (informers (factory w1) !! t = Some p) as Hp.
  { unfold InformerFor in Hf. destruct (informers (factory w) !! t) as [q|] eqn:Ht.
    - by injection Hf as <- <-.
    - injection Hf as <- <-. simpl. apply lookup_insert_eq. }
  split.
  - unfold InformerFor. by rewrite (lookup_weaken _ _ _ _ Hp Hinf).
  - intros Ht. cbv zeta. unfold InformerFor in Hf. rewrite Ht in Hf. injection Hf as <- <-.
    destruct Hcfg as (-> & _ & _ & -> & -> & ->). simpl in *.
    eapply prefix_lookup_Some; [|done]. by rewrite lookup_app_r, Nat.sub_diag.
Qed.

(** The generic accessor and the typed one give the same informer. *)
Lemma ForResource_shares w w1 p gr :
  ForResource w (SchemeGroupVersion, "elasticquotas") = (w1, Some (p, gr)) →
  eq_Informer w1 (ElasticQuotas (V1alpha1 (Scheduling (factory w1)))) = (w1, p).
Proof.
  unfold ForResource. rewrite decide_True by done. destruct (eq_Informer w _) as [w' p'] eqn:Hf.
  intros [= <- <- _]. unfold eq_Informer, InformerFor in *.
  destruct (informers (factory w) !! _) as [q|] eqn:Hq; injection Hf as <- <-; simpl in *.
  - by rewrite Hq.
  - by rewrite lookup_insert_eq.
Qed.
End InformerFactory.

(** ** Witnesses *)

(** Clients and options are strings, a reply tells who was asked what. *)
Definition w_list (c resource ns options : string) : string := c +:+ "/" +:+ resource +:+ "/" +:+ ns +:+ options.

Abbreviation W_factory := (sharedInformerFactory (Client := string) (ListOptions := string) (Transform := string)).
Abbreviation W_world := (World (Client := string) (ListOptions := string) (Reply := string) (Transform := string)).
Abbreviation W_event := (event (Client := string) (ListOptions := string) (Reply := string) (Transform := string)).

Definition w_options : list (W_factory → W_factory) :=
  [WithNamespace "ns"; WithCustomResyncConfig [("*v1alpha1.PodGroup", 30)]; WithTransform (Some "strip")].

Definition w_factory : W_factory := NewSharedInformerFactoryWithOptions "client" 10 w_options.

Lemma w_options_ok : Forall is_option w_options.
Proof. repeat constructor. Defined.

Definition w_pg : TypedInformer := PodGroups (V1alpha1 (Scheduling w_factory)).
Definition w_eq : TypedInformer := ElasticQuotas (V1alpha1 (Scheduling w_factory)).

(** Two informers are started with the channels 1 and 2, the first one twice;
    after the flag of [Shutdown] a third informer is not started. *)
Definition w_events : list W_event :=
  [EvInformerFor "*v1alpha1.PodGroup" (pg_defaultInformer w_list w_list w_pg); EvStart 1; EvSynced 0;
   EvInformerFor "*v1alpha1.ElasticQuota" (eq_defaultInformer w_list w_list w_eq); EvStart 2; EvShutdown;
   EvInformerFor "other" (eq_defaultInformer w_list w_list w_eq); EvStart 3; EvClose 1; EvClose 2].

Definition world_view (w : W_world) : list (nat * nat) * Z * nat * bool :=
  (launched w, wg (factory w), returned w, shuttingDown (factory w)).

Lemma w_factory_run (evs : list W_event) v :
  world_view <$> runs (new_world w_factory) evs = Some v →
  ∃ w, runs (new_world w_factory) evs = Some w ∧ world_view w = v.
Proof. intros (w & ? & ?)%fmap_Some. by exists w. Defined.

Lemma factory_lifecycle_witness :
  ∃ w w' : W_world, runs (new_world w_factory) w_events = Some w ∧ launched w = [(0, 1); (1, 2)]%nat ∧
    NoDup (launched w).*1 ∧
    runs w (replicate (length (goroutines w)) (EvExit 0) ++ [EvShutdownReturns]) = Some w' ∧ goroutines w' = [].
Proof.
  destruct (w_factory_run w_events ([(0, 1); (1, 2)]%nat, 2, 0%nat, true)) as (w & Hr & Hv);
    [vm_compute; reflexivity|].
  assert ((λ w, (waiting w, bool_decide (Forall (λ g : nat * nat, g.2 ∈ closed w) (goroutines w)))) <$>
    runs (new_world w_factory) w_events = Some (1%nat, true)) as Hw by (vm_compute; reflexivity).
  rewrite Hr in Hw. injection Hw as Hwait Hcl.
  destruct (factory_lifecycle "client" 10 w_options w_events w w_options_ok Hr)
    as (Honce & _ & _ & _ & _ & Hend).
  destruct Hend as (w' & Hr' & Hg & _); [rewrite Hwait; lia|by apply bool_decide_eq_true in Hcl|].
  exists w, w'. injection Hv as Hl _ _ _.
  split; [exact Hr|]. split; [exact Hl|]. split; [exact Honce|]. split; [exact Hr'|exact Hg].
Defined.

(** A wait for the two informers that were started; one of them has synced. *)
Definition w_started : list W_event := take 5 w_events ++ [EvClose 9].

Definition w_waited : list W_event := [EvWaitNext 7 false; EvClose 2; EvWaitNext 7 true].

Lemma WaitForCacheSync_exact_witness :
  ∃ (w w1 w2 : W_world) c, runs (new_world w_factory) w_started = Some w ∧
    step w (EvWaitForCacheSync 7 9) = Some w1 ∧ runs w1 w_waited = Some w2 ∧ calls w2 !! 7%nat = Some c ∧
    wc_res c !! "other" = None ∧ ¬ ("other" ∈ startedInformers (factory w)) ∧ size (wc_res c) = 2%nat.
Proof.
  destruct (runs (new_world w_factory) w_started) as [w|] eqn:Hr; [|vm_compute in Hr; discriminate].
  destruct (step w (EvWaitForCacheSync 7 9)) as [w1|] eqn:Hs.
  2: { assert (is_Some ((runs (new_world w_factory) w_started) ≫= (λ w, step w (EvWaitForCacheSync 7 9)))) as [w' Hw']
         by (vm_compute; by eexists). rewrite Hr in Hw'. cbn [mbind option_bind] in Hw'. rewrite Hs in Hw'. discriminate. }
  assert ((λ c, (wc_rest c, wc_res c)) <$>
    (runs (new_world w_factory) w_started ≫= λ w, step w (EvWaitForCacheSync 7 9) ≫= λ w, runs w w_waited ≫= λ w, calls w !! 7%nat)
    = Some ([], {["*v1alpha1.PodGroup" := true; "*v1alpha1.ElasticQuota" := false]})) as Hc by (vm_compute; reflexivity).
  rewrite Hr in Hc. cbn [mbind option_bind] in Hc. rewrite Hs in Hc. cbn [mbind option_bind] in Hc.
  destruct (runs w1 w_waited) as [w2|] eqn:Hr2; [|discriminate]. cbn [mbind option_bind] in Hc.
  destruct (calls w2 !! 7%nat) as [c|] eqn:Hcall; [|discriminate]. injection Hc as Hrest Hres.
  exists w, w1, w2, c. split; [reflexivity|]. split; [exact Hs|]. split; [exact Hr2|]. split; [exact Hcall|].
  destruct (WaitForCacheSync_exact w 7 9 w1 w_waited w2 c) as [Hexact _];
    [exists "client", 10, w_options, w_started; split; [apply w_options_ok|exact Hr]|exact Hs|exact Hr2|exact Hcall|].
  specialize (Hexact Hrest "other"). rewrite Hres in *.
  split; [vm_compute; reflexivity|]. split; [exact Hexact|vm_compute; reflexivity].
Defined.

Lemma InformerFor_shares_witness :
  ∃ w w2 : W_world,
    InformerFor (new_world w_factory) "*v1alpha1.PodGroup" (pg_defaultInformer w_list w_list w_pg) = (w, 0%nat) ∧
    runs w (drop 1 w_events) = Some w2 ∧
    InformerFor w2 "*v1alpha1.PodGroup" (eq_defaultInformer w_list w_list w_eq) = (w2, 0%nat) ∧
    (λ i, (resyncCheckPeriod i, inf_transform i, ListFunc i "?limit=1")) <$> heap w2 !! 0%nat
      = Some (30, Some "strip", "client/podgroups/ns?limit=1").
Proof.
  destruct (InformerFor (new_world w_factory) "*v1alpha1.PodGroup" (pg_defaultInformer w_list w_list w_pg))
    as [w p] eqn:Hf.
  assert (p = 0%nat) as -> by (injection Hf as _ <-; vm_compute; reflexivity).
  destruct (runs w (drop 1 w_events)) as [w2|] eqn:Hr.
  2: { assert (is_Some (runs (InformerFor (new_world w_factory) "*v1alpha1.PodGroup"
         (pg_defaultInformer w_list w_list w_pg)).1 (drop 1 w_events))) as [w' Hw'] by (vm_compute; by eexists).
       rewrite Hf in Hw'. cbn [fst] in Hw'. rewrite Hr in Hw'. discriminate. }
  exists w, w2. split; [reflexivity|]. split; [exact Hr|].
  destruct (InformerFor_shares (new_world w_factory) "*v1alpha1.PodGroup" (pg_defaultInformer w_list w_list w_pg)
    w 0 (drop 1 w_events) w2 (eq_defaultInformer w_list w_list w_eq) Hf Hr) as [Hsame Hmade].
  split; [exact Hsame|].
  assert ((λ w, (client (factory w), defaultResync (factory w), customResync (factory w) !! "*v1alpha1.PodGroup",
      transform (factory w))) <$> runs (InformerFor (new_world w_factory) "*v1alpha1.PodGroup"
         (pg_defaultInformer w_list w_list w_pg)).1 (drop 1 w_events)
    = Some ("client", 10, Some 30, Some "strip")) as Hcfg by (vm_compute; reflexivity).
  rewrite Hf in Hcfg. cbn [fst] in Hcfg. rewrite Hr in Hcfg. injection Hcfg as Hc Hd Hcu Ht.
  rewrite Hmade by reflexivity. rewrite Hc, Hcu, Ht. reflexivity.
Defined.
