(* ===== verification/GoHeap.v ===== *)
(** * A memory for objects with pointers

    The API types (apis/config, apis/config/v1, apis/scheduling/v1alpha1) are
    structs with pointers, slices and maps, and what matters of their generated
    copies and conversions is which of these are shared.  This file is the
    memory those operations run on, for any type [C] of memory cells: pointers,
    a monad of operations that may panic, the value behind a pointer
    structure (class [Repr]), and what it means to copy one (class [Copies]). *)

From S2P Require Import Prelude Float64.

Abbreviation loc := positive.

(** A pointer, slice or map of Go: nil, or the location of what it refers to. *)
Inductive ref (A : Type) : Type := Nil | At (l : loc).
Arguments Nil {A}.
Arguments At {A} l.

(** An operation: [None] is a panic. *)
Definition M (C A : Type) : Type := gmap loc C → option (A * gmap loc C).

#[export] Instance M_ret C : MRet (M C) := λ A a m, Some (a, m).
#[export] Instance M_bind C : MBind (M C) := λ A B f c m,
  match c m with Some (a, m') => f a m' | None => None end.

(** Cells of several types in one memory. *)
Class Stores (C A : Type) : Type := {
  inj : A → C;
  prj : C → option A;
  prj_inj a : prj (inj a) = Some a;
}.

(** [new(T)] and the assignment that follows it; a read through a pointer, and a
    write. *)
Definition alloc {C A} `{Stores C A} (a : A) : M C (ref A) := λ m,
  let l := fresh (dom m) in Some (At l, <[l := inj a]> m).

Definition load {C A} `{Stores C A} (p : ref A) : M C A := λ m,
  match p with
  | Nil => None
  | At l => match m !! l ≫= prj with Some a => Some (a, m) | None => None end
  end.

Definition store {C A} `{Stores C A} (p : ref A) (a : A) : M C () := λ m,
  match p with
  | Nil => None
  | At l => match m !! l with Some _ => Some ((), <[l := inj a]> m) | None => None end
  end.

(** ** Values *)

(** The value an [A] in memory stands for. *)
Class Repr (C A B : Type) : Type := {
  abs : gmap loc C → A → option B;
  abs_mono m m' a v : m ⊆ m' → abs m a = Some v → abs m' a = Some v;
}.
#[export] Hint Mode Repr ! ! - : typeclass_instances.

(** Data without pointers. *)
Class Plain (A : Type) : Type := plain : unit.

#[export] Instance plain_Z : Plain Z := tt.
#[export] Instance plain_Q : Plain Q := tt.
#[export] Instance plain_bool : Plain bool := tt.
#[export] Instance plain_string : Plain string := tt.
#[export] Instance plain_map V : Plain (gmap string V) := tt.

#[export] Program Instance repr_plain C A `{Plain A} : Repr C A A := {| abs _ a := Some a |}.

Definition abs_ref {C A B} `{Stores C A} `{Repr C A B} (m : gmap loc C) (p : ref A) : option (option B) :=
  match p with
  | Nil => Some None
  | At l => a ← m !! l ≫= prj; v ← abs m a; Some (Some v)
  end.

Lemma abs_ref_mono {C A B} `{Stores C A} `{Repr C A B} m m' (p : ref A) (v : option B) :
  m ⊆ m' → abs_ref m p = Some v → abs_ref m' p = Some v.
Proof.
  destruct p as [|l]; intros Hsub; [done|]. simpl. intros (a & Ha & Hv)%bind_Some.
  apply bind_Some in Ha as (c & Hc & Ha). apply bind_Some in Hv as (b & Hb & Hv).
  rewrite (lookup_weaken _ _ _ _ Hc Hsub). simpl. rewrite Ha. simpl.
  by rewrite (abs_mono _ _ _ _ Hsub Hb).
Qed.

#[export] Instance repr_ref C A B `{Stores C A} `{Repr C A B} : Repr C (ref A) (option B) :=
  {| abs := abs_ref; abs_mono := abs_ref_mono |}.

Lemma abs_list_mono {C A B} `{Repr C A B} (m m' : gmap loc C) (l : list A) (v : list B) :
  m ⊆ m' → mapM (abs m) l = Some v → mapM (abs m') l = Some v.
Proof.
  intros Hsub. rewrite !mapM_Some. intros Hl.
  eapply Forall2_impl; [done|]. intros a b. by apply abs_mono.
Qed.

#[export] Instance repr_list C A B `{Repr C A B} : Repr C (list A) (list B) :=
  {| abs m := mapM (abs m); abs_mono := abs_list_mono |}.

(** ** What an operation does *)

Definition wp {C A} (f : M C A) (m : gmap loc C) (Q : A → gmap loc C → Prop) : Prop :=
  match f m with Some (a, m') => Q a m' | None => False end.

Section Copies.
Context {C : Type}.
Implicit Types m : gmap loc C.

Lemma wp_ret {A} (a : A) m (Q : A → gmap loc C → Prop) : Q a m → wp (mret a) m Q.
Proof. done. Qed.

Lemma wp_bind {A B} (f : M C A) (k : A → M C B) m Q :
  wp f m (λ a m', wp (k a) m' Q) → wp (f ≫= k) m Q.
Proof. unfold wp, mbind, M_bind. by destruct (f m) as [[a m']|]. Qed.

Lemma wp_mono {A} (f : M C A) m (Q Q' : A → gmap loc C → Prop) :
  wp f m Q → (∀ a m', Q a m' → Q' a m') → wp f m Q'.
Proof. unfold wp. destruct (f m) as [[a m']|]; auto. Qed.

Lemma wp_load {A} `{Stores C A} l a m (Q : A → gmap loc C → Prop) :
  m !! l ≫= prj = Some a → Q a m → wp (load (At l)) m Q.
Proof. intros Hl HQ. unfold wp, load. by rewrite Hl. Qed.

Lemma wp_alloc {A} `{Stores C A} (a : A) m (Q : ref A → gmap loc C → Prop) :
  (∀ l, m !! l = None → Q (At l) (<[l := inj a]> m)) → wp (alloc a) m Q.
Proof. intros HQ. apply HQ. apply not_elem_of_dom, is_fresh. Qed.

(** [a] stands for [v] because of cells that [m'] has and [m] has not, and
    whatever is written to other cells. *)
Definition isolated {A B} `{Repr C A B} m m' (a : A) (v : B) : Prop :=
  ∀ m'', (∀ l, l ∈ dom m' → l ∉ dom m → m'' !! l = m' !! l) → abs m'' a = Some v.

Lemma isolated_mono {A B} `{Repr C A B} m m1 m2 (a : A) (v : B) :
  m1 ⊆ m2 → isolated m m1 a v → isolated m m2 a v.
Proof.
  intros Hsub Hiso m'' Hag. apply Hiso. intros l [c Hl]%elem_of_dom Hnew.
  pose proof (lookup_weaken _ _ _ _ Hl Hsub) as Hl2. rewrite Hag, Hl2; [done| |done].
  apply elem_of_dom. by eexists.
Qed.

Lemma isolated_anti {A B} `{Repr C A B} m0 m m' (a : A) (v : B) :
  m0 ⊆ m → isolated m m' a v → isolated m0 m' a v.
Proof.
  intros Hsub Hiso m'' Hag. apply Hiso. intros l Hl Hnew. apply Hag; [done|].
  intros Hin. apply Hnew. by eapply subseteq_dom.
Qed.

Lemma isolated_plain {A} `{Plain A} m m' (a : A) : isolated m m' a a.
Proof. by intros m'' _. Qed.

Lemma isolated_abs {A B} `{Repr C A B} m m' (a : A) (v : B) : isolated m m' a v → abs m' a = Some v.
Proof. intros Hiso. by apply Hiso. Qed.

Lemma abs_bind {A B V} `{Repr C A B} m (a : A) (b : B) (k : B → option V) r :
  abs m a = Some b → k b = r → abs m a ≫= k = r.
Proof. by intros -> <-. Qed.

(** A copy has the value of the original and nothing in common with it. *)
Class Copies {A B} `{Repr C A B} (f : A → M C A) : Prop :=
  copies m a v : abs m a = Some v → wp (f a) m (λ a' m', m ⊆ m' ∧ isolated m m' a' v).

(** One field of a struct: [m0] is the memory before the first. *)
Lemma wp_copy {A B A'} `{Repr C A B} (f : A → M C A) `{!Copies f} m0 m (a : A) (v : B) (k : A → M C A') Q :
  m0 ⊆ m → abs m0 a = Some v →
  (∀ a' m', m0 ⊆ m' → m ⊆ m' → isolated m0 m' a' v → wp (k a') m' Q) → wp (f a ≫= k) m Q.
Proof.
  intros Hsub Ha Hk. apply wp_bind. eapply wp_mono; [apply copies; by eapply abs_mono|].
  intros a' m' [Hsub' Hiso]. apply Hk; [by etrans|done|by eapply isolated_anti].
Qed.

(** *** Copying what a field refers to *)

#[export] Instance copies_plain {A} `{Plain A} : Copies (mret : A → M C A).
Proof. intros m a v [= <-]. apply wp_ret. split; [done|]. apply isolated_plain. Qed.

(** [if in.F != nil { *out = new(T); (copy of *in into *out) }] *)
Definition copy_ref {A} `{Stores C A} (f : A → M C A) (p : ref A) : M C (ref A) :=
  match p with
  | Nil => mret Nil
  | At l => a ← load p; a' ← f a; alloc a'
  end.

Lemma isolated_alloc {A B} `{Stores C A} `{Repr C A B} m m' (a : A) (v : B) l :
  m ⊆ m' → isolated m m' a v → m' !! l = None → isolated m (<[l := inj a]> m') (At l) (Some v).
Proof.
  intros Hsub Hiso Hl m'' Hag. simpl.
  rewrite Hag, lookup_insert_eq; [|by rewrite dom_insert; set_solver|].
  - simpl. rewrite prj_inj. simpl. rewrite Hiso; [done|].
    intros l' Hl' Hnew. rewrite Hag; [|rewrite dom_insert; set_solver|done].
    rewrite lookup_insert_ne; [done|]. intros ->. by apply elem_of_dom in Hl' as [? ?]; simplify_eq.
  - intros [c Hc]%elem_of_dom. by rewrite (lookup_weaken _ _ _ _ Hc Hsub) in Hl.
Qed.

#[export] Instance copies_ref {A B} `{Stores C A} `{Repr C A B} (f : A → M C A) `{!Copies f} :
  Copies (copy_ref f).
Proof.
  intros m [|l] v; simpl; [intros [= <-]; by apply wp_ret|].
  intros (a & Ha & Hv)%bind_Some. apply bind_Some in Hv as (b & Hb & [= <-]).
  apply wp_bind. eapply wp_load; [done|]. eapply wp_copy; [done|done|done|].
  intros a' m' Hsub _ Hiso. apply wp_alloc. intros l' Hl'. split.
  - etrans; [done|]. by apply insert_subseteq.
  - by apply isolated_alloc.
Qed.

(** [make], and a loop over the slice that copies each element. *)
Definition copy_slice {A} (f : A → M C A) (l : list A) : M C (list A) := mapM f l.

(** A loop whose copies stand for [g] of the value of the original. *)
Lemma wp_mapM {A B} `{Repr C A B} (f : A → M C A) (g : B → B) (l : list A) m (vs : list B) :
  (∀ m a v, abs m a = Some v → wp (f a) m (λ a' m', m ⊆ m' ∧ isolated m m' a' (g v))) →
  abs m l = Some vs → wp (mapM f l) m (λ l' m', m ⊆ m' ∧ isolated m m' l' (g <$> vs)).
Proof.
  intros Hf. induction l as [|a l IH] in m, vs |- *; intros Hl; simpl in *.
  { injection Hl as <-. by apply wp_ret. }
  apply bind_Some in Hl as (b & Hb & Hl). apply bind_Some in Hl as (bs & Hbs & [= <-]).
  apply wp_bind. eapply wp_mono; [by apply Hf|]. intros a' m' [Hsub Hiso]. apply wp_bind.
  eapply wp_mono; [apply IH; by eapply (abs_list_mono (C := C))|].
  intros l' m'' [Hsub' Hiso']. apply wp_ret. split; [by etrans|].
  intros m3 Hag. simpl. rewrite (isolated_mono _ _ _ _ _ Hsub' Hiso m3 Hag). simpl.
  pose proof (isolated_anti _ _ _ _ _ Hsub Hiso' m3 Hag) as Hl'. simpl in Hl'. by rewrite Hl'.
Qed.

#[export] Instance copies_slice {A B} `{Repr C A B} (f : A → M C A) `{!Copies f} : Copies (copy_slice f).
Proof.
  intros m l v Hl. rewrite <- (list_fmap_id v). apply wp_mapM; [|done].
  intros m' a b. apply copies.
Qed.

(** [make], and a loop over the map that sets each key to a copy of its value. *)
Definition copy_map `{MapOrder} {V} (f : V → V) (kvs : gmap string V) : M C (gmap string V) :=
  mret (foldl (λ out kv, <[kv.1 := f kv.2]> out) ∅ (range kvs)).

(** A copy of a value gives the same value. *)
Class Faithful {V} (f : V → V) : Prop := faithful x : f x = x.

#[export] Instance faithful_id {V} : Faithful (λ x : V, x).
Proof. done. Qed.

(** A loop that enters distinct keys one after the other gives the map of the entries. *)
Lemma foldl_inserts `{Countable K} {V} (l : list (K * V)) (f : V → V) `{!Faithful f} :
  NoDup l.*1 → foldl (λ out kv, <[kv.1 := f kv.2]> out) ∅ l = list_to_map (M := gmap K V) l.
Proof.
  assert (∀ out : gmap K V, NoDup l.*1 → (∀ k, k ∈ l.*1 → out !! k = None) →
    foldl (λ out kv, <[kv.1 := f kv.2]> out) out l = list_to_map l ∪ out) as Hf.
  { induction l as [|[k x] l IH]; intros out Hnd Hout; simpl; [by rewrite (left_id_L ∅ (∪))|].
    apply NoDup_cons in Hnd as [Hk Hnd]. rewrite (faithful (f := f)), IH; [|done|].
    - rewrite <- insert_union_r by (by apply not_elem_of_list_to_map_1). by rewrite insert_union_l.
    - intros k' Hk'. rewrite lookup_insert_ne by (by intros ->). apply Hout. by right. }
  intros Hnd. by rewrite Hf, (right_id_L ∅ (∪)).
Qed.

#[export] Instance copies_map `{MapOrder} {V} (f : V → V) `{!Faithful f} : Copies (copy_map f).
Proof.
  intros m kvs v [= <-]. apply wp_ret. split; [done|].
  rewrite (foldl_inserts (range kvs) f (range_NoDup kvs)).
  rewrite (list_to_map_proper (range kvs) (map_to_list kvs)); [|apply range_NoDup|apply range_perm].
  rewrite list_to_map_to_list. apply isolated_plain.
Qed.
End Copies.

(** A struct is copied field by field. *)
Ltac reanchor S :=
  repeat match goal with
  | Hi : isolated ?m0 ?m1 ?a ?v |- _ =>
      lazymatch type of S with m1 ⊆ ?m2 => apply (isolated_mono m0 m1 m2 a v S) in Hi end
  end.

Tactic Notation "copy_struct" reference(into) reference(value) :=
  let m := fresh "m" in let a := fresh "a" in let v := fresh "v" in let Ha := fresh "Ha" in
  intros m a v Ha; cbn [abs] in Ha; unfold value in Ha; unfold into;
  repeat (let Hx := fresh "Hx" in let S := fresh "S" in let Hi := fresh "Hi" in
    apply bind_Some in Ha as (? & Hx & Ha);
    eapply (wp_copy _ m); [first [done | eassumption]|exact Hx|];
    intros ? ? ? S Hi; reanchor S; clear S);
  injection Ha as <-; apply wp_ret; split; [done|];
  let m2 := fresh in let Hag := fresh in
  intros m2 Hag; cbn [abs]; unfold value;
  repeat match goal with Hi : isolated _ _ _ _ |- _ => refine (abs_bind _ _ _ _ _ (Hi m2 Hag) _) end; done.
