(* ===== verification/NumaNodes.v ===== *)
(** * Copies and comparison of NUMA nodes

    pkg/noderesourcetopology/numaresources.go: [DeepCopy] and [Equal] of [NUMANode] and
    [NUMANodeList].  The filter and the scores (files NumaFilter, LeastNuma) work on the
    value of a node; here a node is a struct with two maps in the memory of file
    GoHeap, because a nil map and an empty one differ in [Equal]. *)

From S2P Require Import Prelude Float64 K8s K8sModel GoHeap.

(** ** Definitions *)

(** [P := ref] in memory, [P := option] as a value, where [None] is a nil map. *)
Record Node `{QuantityOps} (P : Type → Type) := mkNode {
  nn_NUMAID : Z;
  nn_Resources : P resource_list;
  nn_Costs : P (gmap Z Z);
}.
Arguments mkNode {_ P} _ _ _.
Arguments nn_NUMAID {_ P} _.
Arguments nn_Resources {_ P} _.
Arguments nn_Costs {_ P} _.

Inductive node_cell `{QuantityOps} := NC_resources (rl : resource_list) | NC_costs (costs : gmap Z Z).

#[export] Instance stores_resources `{QuantityOps} : Stores node_cell resource_list :=
  {| inj := NC_resources; prj c := match c with NC_resources x => Some x | _ => None end; prj_inj _ := eq_refl |}.
#[export] Instance stores_costs `{QuantityOps} : Stores node_cell (gmap Z Z) :=
  {| inj := NC_costs; prj c := match c with NC_costs x => Some x | _ => None end; prj_inj _ := eq_refl |}.
#[export] Instance plain_costs : Plain (gmap Z Z) := tt.

Abbreviation node_memory := (gmap loc node_cell).

Section NumaNodes.
Context `{MapOrder} `{QuantityOps}.

(** Code of Kubernetes: the copy of a quantity, and [Quantity.Equal]. *)
Context (q_DeepCopy : Quantity → Quantity) (q_Equal : Quantity → Quantity → bool).

(** [n.Resources.DeepCopy()] *)
Definition ResourceList_DeepCopy (rl : ref resource_list) : M node_cell (ref resource_list) :=
  copy_ref (copy_map q_DeepCopy) rl.

(** The costs are copied when there are any, else left nil.  The order in which the loop
    visits a map of integers does not matter. *)
Definition Node_DeepCopy (n : Node ref) : M node_cell (Node ref) :=
  resources ← ResourceList_DeepCopy (nn_Resources n);
  costs ← match nn_Costs n with
          | Nil => mret Nil
          | At l =>
              costs ← load (At l);
              if Nat.ltb 0 (size (costs : gmap Z Z))
              then alloc (foldl (λ ret kv, <[kv.1 := kv.2]> ret) ∅ (map_to_list costs))
              else mret Nil
          end;
  mret (mkNode (nn_NUMAID n) resources costs).

Definition NodeList_DeepCopy (nnl : list (Node ref)) : M node_cell (list (Node ref)) := mapM Node_DeepCopy nnl.

(** A nil list of resources has no entries. *)
Definition equalResourceList (ra rb : option resource_list) : bool :=
  let ra := default ∅ ra in
  let rb := default ∅ rb in
  if negb (Nat.eqb (size ra) (size rb)) then false
  else forallb (λ kv, match rb !! kv.1 with
                      | None => false
                      | Some valB => q_Equal kv.2 valB
                      end) (range ra).

(** [reflect.DeepEqual] tells a nil map from an empty one. *)
Definition Node_Equal (n o : Node option) : bool :=
  if negb (bool_decide (nn_NUMAID n = nn_NUMAID o)) then false
  else if negb (bool_decide (nn_Costs n = nn_Costs o)) then false
  else equalResourceList (nn_Resources n) (nn_Resources o).

Fixpoint all_equal (nnl oth : list (Node option)) : bool :=
  match nnl, oth with
  | n :: nnl, o :: oth => if negb (Node_Equal n o) then false else all_equal nnl oth
  | _, _ => true
  end.

Definition NodeList_Equal (nnl oth : list (Node option)) : bool :=
  if negb (Nat.eqb (length nnl) (length oth)) then false else all_equal nnl oth.

(** ** The value of a node *)

Definition abs_Node (m : node_memory) (n : Node ref) : option (Node option) :=
  resources ← abs m (nn_Resources n);
  costs ← abs m (nn_Costs n);
  mret (mkNode (nn_NUMAID n) resources costs).

Lemma abs_Node_mono m m' n v : m ⊆ m' → abs_Node m n = Some v → abs_Node m' n = Some v.
Proof.
  intros Hsub (r & Hr & (c & Hc & Hv)%bind_Some)%bind_Some.
  eapply abs_bind; [by eapply abs_mono|]. eapply abs_bind; [by eapply abs_mono|done].
Qed.

#[export] Instance repr_Node : Repr node_cell (Node ref) (Node option) :=
  {| abs := abs_Node; abs_mono := abs_Node_mono |}.

(** ** Properties *)

(** What the copy of a node stands for. *)
Definition copied (v : Node option) : Node option :=
  mkNode (nn_NUMAID v) (nn_Resources v) (c ← nn_Costs v; if decide (c = ∅) then None else Some c).

Context `{!Faithful q_DeepCopy}.
Hypothesis q_Equal_refl : ∀ q, q_Equal q q = true.

(** The copy of one node stands for [copied v] and shares nothing with the original. *)
Lemma Node_DeepCopy_spec (m : node_memory) n v :
  abs m n = Some v → wp (Node_DeepCopy n) m (λ n' m', m ⊆ m' ∧ isolated m m' n' (copied v)).
Proof.
  intros (r & Hr & (c & Hc & [= <-])%bind_Some)%bind_Some. unfold Node_DeepCopy.
  eapply (wp_copy (ResourceList_DeepCopy) m); [done|exact Hr|]. intros r' m1 S1 _ Hr'.
  apply wp_bind.
  eapply (wp_mono _ _ (λ c' m', m1 ⊆ m' ∧ isolated m m' c' (c ≫= λ c, if decide (c = ∅) then None else Some c))).
  2: { intros c' m2 [S2 Hc']. apply wp_ret. split; [by etrans|]. intros m3 Hag.
       eapply abs_bind; [by apply (isolated_mono _ _ _ _ _ S2 Hr')|]. eapply abs_bind; [by apply Hc'|]. done. }
  destruct (nn_Costs n) as [|l]; [injection Hc as <-; apply wp_ret; split; [done|by intros m'' _]|].
  apply bind_Some in Hc as (a & Ha & (b & [= <-] & [= <-])%bind_Some). apply wp_bind.
  eapply wp_load; [|].
  { apply bind_Some in Ha as (cell & Hcell & Ha). by rewrite (lookup_weaken _ _ _ _ Hcell S1). }
  simpl. destruct (Nat.ltb_spec 0 (size a)) as [Hs|Hs].
  - rewrite decide_False by (intros ->; rewrite map_size_empty in Hs; lia).
    rewrite (foldl_inserts (map_to_list a) (λ x, x) (NoDup_fst_map_to_list a)), list_to_map_to_list.
    apply wp_alloc. intros l' Hl'. split; [by apply insert_subseteq|].
    by apply (isolated_alloc m m1 a a l' S1 (isolated_plain m m1 a)).
  - rewrite decide_True by (apply map_size_empty_inv; lia). apply wp_ret. split; [done|by intros m'' _].
Qed.

Lemma NodeList_DeepCopy_spec (m : node_memory) nnl vs :
  abs m nnl = Some vs →
  wp (NodeList_DeepCopy nnl) m (λ nnl' m', m ⊆ m' ∧ isolated m m' nnl' (copied <$> vs)).
Proof. apply wp_mapM. intros m' n v. apply Node_DeepCopy_spec. Qed.

Lemma equalResourceList_refl ra : equalResourceList ra ra = true.
Proof.
  unfold equalResourceList. rewrite Nat.eqb_refl. simpl. apply forallb_forall. intros [k q] Hkq.
  apply list_elem_of_In in Hkq. rewrite range_perm in Hkq. apply elem_of_map_to_list in Hkq. simpl.
  rewrite Hkq. apply q_Equal_refl.
Qed.

(** Not an empty map: one of [make] to which nothing was added. *)
Definition costs_kept (v : Node option) : Prop := nn_Costs v ≠ Some ∅.

Lemma Node_Equal_copied v : Node_Equal v (copied v) = true ↔ costs_kept v.
Proof.
  unfold Node_Equal, costs_kept. simpl. rewrite bool_decide_eq_true_2 by done. simpl.
  destruct (nn_Costs v) as [c|]; simpl; [destruct (decide (c = ∅)) as [->|Hc]|].
  - rewrite bool_decide_eq_false_2 by done. split; [done|by intros []].
  - rewrite bool_decide_eq_true_2 by done. simpl. rewrite equalResourceList_refl. naive_solver.
  - rewrite equalResourceList_refl. naive_solver.
Qed.

Lemma all_equal_copied vs : all_equal vs (copied <$> vs) = true ↔ Forall costs_kept vs.
Proof.
  induction vs as [|v vs IH]; simpl; [by split|].
  rewrite Forall_cons, <- IH, <- Node_Equal_copied. destruct (Node_Equal v (copied v)); (split; [by try split|by intros []]).
Qed.

(** The copy of a list of nodes succeeds, whatever is later written through the original
    list leaves it alone, and [Equal] finds the two alike exactly when every node of the
    original has a nil map of costs or one with entries. *)
Theorem NodeList_DeepCopy_Equal (m : node_memory) nnl vs :
  abs m nnl = Some vs →
  wp (NodeList_DeepCopy nnl) m (λ nnl' m', ∃ vs',
    isolated m m' nnl' vs' ∧ abs m' nnl = Some vs ∧
    (NodeList_Equal vs vs' = true ↔ Forall costs_kept vs)).
Proof.
  intros Hvs. eapply wp_mono; [by apply NodeList_DeepCopy_spec|]. intros nnl' m' [Hsub Hiso].
  exists (copied <$> vs). split; [done|]. split; [by eapply abs_mono|].
  unfold NodeList_Equal. rewrite length_fmap, Nat.eqb_refl. simpl. apply all_equal_copied.
Qed.
End NumaNodes.

(** Two nodes, one with the distances [extractCosts] gives, one whose zone lists none. *)
Definition two_nodes : gmap loc node_cell :=
  {[ 1%positive := NC_resources {["cpu" := 4]}; 2%positive := NC_costs {[0 := 10; 1 := 20]};
     3%positive := NC_costs ∅ ]}.
Definition node_0 : Node ref := mkNode 0 (At 1%positive) (At 2%positive).
Definition node_1 : Node ref := mkNode 1 (At 1%positive) (At 3%positive).

Definition same_quantity (p q : @Quantity ZQuantity) : bool := Z.eqb p q.

(** The copy of the first is equal to it, the copy of the list of both is not. *)
Lemma NodeList_DeepCopy_Equal_witness :
  let values := [mkNode (P := option) 0 (Some {["cpu" := 4]}) (Some {[0 := 10; 1 := 20]});
                 mkNode (P := option) 1 (Some {["cpu" := 4]}) (Some ∅)] in
  abs two_nodes [node_0; node_1] = Some values ∧
  wp (NodeList_DeepCopy (λ q, q) [node_0; node_1]) two_nodes (λ nnl' m', ∃ vs',
    isolated two_nodes m' nnl' vs' ∧ abs m' [node_0; node_1] = Some values ∧
    (NodeList_Equal same_quantity values vs' = true ↔ Forall costs_kept values)) ∧
  Forall costs_kept (take 1 values) ∧ ¬ Forall costs_kept values.
Proof.
  split; [reflexivity|]. split.
  - apply (NodeList_DeepCopy_Equal (λ q, q) same_quantity Z.eqb_refl). reflexivity.
  - split; [by repeat constructor|]. rewrite !Forall_cons. intros (_ & Hn & _). by apply Hn.
Defined.
