(* ===== verification/ApiTypes.v ===== *)
(** * The API types

    apis/config/types.go, apis/config/v1/types.go and apis/scheduling/v1alpha1/types.go, as
    structs in the memory of file GoHeap.

    Each struct is declared once, for any type [P] of pointers: [P := ref] is the struct
    in memory, [P := option] the value it stands for, nil being [None].  A slice
    or map counts as a pointer.  The code casts between the pointers of
    [ScoringStrategy], [NodeResourceTopologyCache] and [PowerModel] of the two
    packages of apis/config, which have the same fields; each is one type
    here.  The metadata of an object belongs to Kubernetes (class [MetaTypes]). *)

From S2P Require Import Prelude Float64 K8s GoHeap.
Open Scope Z_scope.
Set Implicit Arguments.

(** ** Types of other packages *)

Record TypeMeta := mkTypeMeta { Kind : string; APIVersion : string }.
Record ResourceSpec := mkResourceSpec { rs_Name : string; rs_Weight : Z }.
Definition Time : Type := Z.

Class MetaTypes : Type := {
  ObjectMeta : (Type → Type) → Type;
  ListMeta : (Type → Type) → Type;
}.

(** A struct inside another whose address the code takes: the location of its
    own cell in memory, itself as a value. *)
Inductive box (A : Type) : Type := BoxAt (l : loc).
Arguments BoxAt {A} l.
Definition here (A : Type) : Type := A.

Section Types.
Context `{QuantityOps} `{MetaTypes}.

(** ** apis/config: types of both packages *)

Record PowerModel := mk_PowerModel { K0 : Q; K1 : Q; K2 : Q }.

Record ScoringStrategy (P : Type → Type) := mk_ScoringStrategy {
  ss_Type : string;
  ss_Resources : P (list ResourceSpec);
}.

Record NodeResourceTopologyCache (P : Type → Type) := mk_NodeResourceTopologyCache {
  nc_ForeignPodsDetect : P string;
  nc_ResyncMethod : P string;
  nc_InformerMode : P string;
  nc_ResyncScope : P string;
}.

(** ** apis/config/v1 *)

Record v1_MetricProviderSpec (P : Type → Type) := mk_v1_MetricProviderSpec {
  mp_Type : string;
  mp_Address : P string;
  mp_Token : P string;
  mp_InsecureSkipVerify : P bool;
}.

Record v1_TrimaranSpec (P : Type → Type) := mk_v1_TrimaranSpec {
  ts_MetricProvider : v1_MetricProviderSpec P;
  ts_WatcherAddress : P string;
}.

Record v1_CoschedulingArgs (P : Type → Type) := mk_v1_CoschedulingArgs {
  co_TypeMeta : TypeMeta;
  co_PermitWaitingTimeSeconds : P Z;
  co_PodGroupBackoffSeconds : P Z;
}.

Record v1_NodeResourcesAllocatableArgs (P : Type → Type) := mk_v1_NodeResourcesAllocatableArgs {
  na_TypeMeta : TypeMeta;
  na_Resources : P (list ResourceSpec);
  na_Mode : string;
}.

Record v1_TargetLoadPackingArgs (P : Type → Type) := mk_v1_TargetLoadPackingArgs {
  tl_TypeMeta : TypeMeta;
  tl_TrimaranSpec : v1_TrimaranSpec P;
  tl_DefaultRequests : P resource_list;
  tl_DefaultRequestsMultiplier : P string;
  tl_TargetUtilization : P Z;
}.

Record v1_LoadVariationRiskBalancingArgs (P : Type → Type) := mk_v1_LoadVariationRiskBalancingArgs {
  lv_TypeMeta : TypeMeta;
  lv_TrimaranSpec : v1_TrimaranSpec P;
  lv_SafeVarianceMargin : P Q;
  lv_SafeVarianceSensitivity : P Q;
}.

Record v1_LowRiskOverCommitmentArgs (P : Type → Type) := mk_v1_LowRiskOverCommitmentArgs {
  lr_TypeMeta : TypeMeta;
  lr_TrimaranSpec : v1_TrimaranSpec P;
  lr_SmoothingWindowSize : P Z;
  lr_RiskLimitWeights : P (gmap string Q);
}.

Record v1_NodeResourceTopologyMatchArgs (P : Type → Type) := mk_v1_NodeResourceTopologyMatchArgs {
  nm_TypeMeta : TypeMeta;
  nm_ScoringStrategy : P (ScoringStrategy P);
  nm_CacheResyncPeriodSeconds : P Z;
  nm_DiscardReservedNodes : bool;
  nm_Cache : P (NodeResourceTopologyCache P);
}.

Record v1_PreemptionTolerationArgs (P : Type → Type) := mk_v1_PreemptionTolerationArgs {
  pt_TypeMeta : TypeMeta;
  pt_MinCandidateNodesPercentage : P Z;
  pt_MinCandidateNodesAbsolute : P Z;
}.

Record v1_TopologicalSortArgs (P : Type → Type) := mk_v1_TopologicalSortArgs {
  tt_TypeMeta : TypeMeta;
  tt_Namespaces : P (list string);
}.

Record v1_NetworkOverheadArgs (P : Type → Type) := mk_v1_NetworkOverheadArgs {
  no_TypeMeta : TypeMeta;
  no_Namespaces : P (list string);
  no_WeightsName : P string;
  no_NetworkTopologyName : P string;
}.

Record v1_SySchedArgs (P : Type → Type) := mk_v1_SySchedArgs {
  sy_TypeMeta : TypeMeta;
  sy_DefaultProfileNamespace : P string;
  sy_DefaultProfileName : P string;
}.

Record v1_PeaksArgs (P : Type → Type) := mk_v1_PeaksArgs {
  pk_TypeMeta : TypeMeta;
  pk_WatcherAddress : string;
  pk_NodePowerModel : P (gmap string PowerModel);
}.

(** ** apis/config *)

Record config_MetricProviderSpec := mk_config_MetricProviderSpec {
  cmp_Type : string;
  cmp_Address : string;
  cmp_Token : string;
  cmp_InsecureSkipVerify : bool;
}.

Record config_TrimaranSpec := mk_config_TrimaranSpec {
  cts_MetricProvider : config_MetricProviderSpec;
  cts_WatcherAddress : string;
}.

Record config_CoschedulingArgs := mk_config_CoschedulingArgs {
  cco_TypeMeta : TypeMeta;
  cco_PermitWaitingTimeSeconds : Z;
  cco_PodGroupBackoffSeconds : Z;
}.

Record config_NodeResourcesAllocatableArgs (P : Type → Type) := mk_config_NodeResourcesAllocatableArgs {
  cna_TypeMeta : TypeMeta;
  cna_Resources : P (list ResourceSpec);
  cna_Mode : string;
}.

Record config_TargetLoadPackingArgs (P : Type → Type) := mk_config_TargetLoadPackingArgs {
  ctl_TypeMeta : TypeMeta;
  ctl_TrimaranSpec : config_TrimaranSpec;
  ctl_DefaultRequests : P resource_list;
  ctl_DefaultRequestsMultiplier : string;
  ctl_TargetUtilization : Z;
}.

Record config_LoadVariationRiskBalancingArgs := mk_config_LoadVariationRiskBalancingArgs {
  clv_TypeMeta : TypeMeta;
  clv_TrimaranSpec : config_TrimaranSpec;
  clv_SafeVarianceMargin : Q;
  clv_SafeVarianceSensitivity : Q;
}.

Record config_LowRiskOverCommitmentArgs (P : Type → Type) := mk_config_LowRiskOverCommitmentArgs {
  clr_TypeMeta : TypeMeta;
  clr_TrimaranSpec : config_TrimaranSpec;
  clr_SmoothingWindowSize : Z;
  clr_RiskLimitWeights : P (gmap string Q);
}.

Record config_NodeResourceTopologyMatchArgs (P E : Type → Type) := mk_config_NodeResourceTopologyMatchArgs {
  cnm_TypeMeta : TypeMeta;
  cnm_ScoringStrategy : E (ScoringStrategy P);
  cnm_CacheResyncPeriodSeconds : Z;
  cnm_DiscardReservedNodes : bool;
  cnm_Cache : P (NodeResourceTopologyCache P);
}.

Record config_PreemptionTolerationArgs := mk_config_PreemptionTolerationArgs {
  cpt_TypeMeta : TypeMeta;
  cpt_MinCandidateNodesPercentage : Z;
  cpt_MinCandidateNodesAbsolute : Z;
}.

Record config_TopologicalSortArgs (P : Type → Type) := mk_config_TopologicalSortArgs {
  ctt_TypeMeta : TypeMeta;
  ctt_Namespaces : P (list string);
}.

Record config_NetworkOverheadArgs (P : Type → Type) := mk_config_NetworkOverheadArgs {
  cno_TypeMeta : TypeMeta;
  cno_Namespaces : P (list string);
  cno_WeightsName : string;
  cno_NetworkTopologyName : string;
}.

Record config_SySchedArgs := mk_config_SySchedArgs {
  csy_TypeMeta : TypeMeta;
  csy_DefaultProfileNamespace : string;
  csy_DefaultProfileName : string;
}.

Record config_PeaksArgs (P : Type → Type) := mk_config_PeaksArgs {
  cpk_TypeMeta : TypeMeta;
  cpk_WatcherAddress : string;
  cpk_NodePowerModel : P (gmap string PowerModel);
}.

(** ** apis/scheduling/v1alpha1 *)

Record ElasticQuotaSpec (P : Type → Type) := mk_ElasticQuotaSpec {
  eqs_Min : P resource_list;
  eqs_Max : P resource_list;
}.

Record ElasticQuotaStatus (P : Type → Type) := mk_ElasticQuotaStatus {
  eqt_Used : P resource_list;
}.

Record ElasticQuota (P : Type → Type) := mk_ElasticQuota {
  eq_TypeMeta : TypeMeta;
  eq_ObjectMeta : ObjectMeta P;
  eq_Spec : ElasticQuotaSpec P;
  eq_Status : ElasticQuotaStatus P;
}.

Record ElasticQuotaList (P : Type → Type) := mk_ElasticQuotaList {
  eql_TypeMeta : TypeMeta;
  eql_ListMeta : ListMeta P;
  eql_Items : P (list (ElasticQuota P));
}.

Record PodGroupSpec (P : Type → Type) := mk_PodGroupSpec {
  pgs_MinMember : Z;
  pgs_MinResources : P resource_list;
  pgs_ScheduleTimeoutSeconds : P Z;
}.

Record PodGroupStatus := mk_PodGroupStatus {
  pgt_Phase : string;
  pgt_OccupiedBy : string;
  pgt_Running : Z;
  pgt_Succeeded : Z;
  pgt_Failed : Z;
  pgt_ScheduleStartTime : Time;
}.

Record PodGroup (P : Type → Type) := mk_PodGroup {
  pg_TypeMeta : TypeMeta;
  pg_ObjectMeta : ObjectMeta P;
  pg_Spec : PodGroupSpec P;
  pg_Status : PodGroupStatus;
}.

Record PodGroupList (P : Type → Type) := mk_PodGroupList {
  pgl_TypeMeta : TypeMeta;
  pgl_ListMeta : ListMeta P;
  pgl_Items : P (list (PodGroup P));
}.

(** ** Memory cells *)

Inductive cell :=
| C_Z (x : Z)
| C_Q (x : Q)
| C_bool (x : bool)
| C_string (x : string)
| C_strings (x : (list string))
| C_ResourceSpecs (x : (list ResourceSpec))
| C_floats (x : (gmap string Q))
| C_ResourceList (x : resource_list)
| C_PowerModels (x : (gmap string PowerModel))
| C_labels (x : (gmap string string))
| C_ElasticQuotas (x : (list (ElasticQuota ref)))
| C_PodGroups (x : (list (PodGroup ref)))
| C_ScoringStrategy (x : ScoringStrategy ref)
| C_NodeResourceTopologyCache (x : NodeResourceTopologyCache ref)
| C_v1_MetricProviderSpec (x : v1_MetricProviderSpec ref)
| C_v1_TrimaranSpec (x : v1_TrimaranSpec ref)
| C_v1_CoschedulingArgs (x : v1_CoschedulingArgs ref)
| C_v1_NodeResourcesAllocatableArgs (x : v1_NodeResourcesAllocatableArgs ref)
| C_v1_TargetLoadPackingArgs (x : v1_TargetLoadPackingArgs ref)
| C_v1_LoadVariationRiskBalancingArgs (x : v1_LoadVariationRiskBalancingArgs ref)
| C_v1_LowRiskOverCommitmentArgs (x : v1_LowRiskOverCommitmentArgs ref)
| C_v1_NodeResourceTopologyMatchArgs (x : v1_NodeResourceTopologyMatchArgs ref)
| C_v1_PreemptionTolerationArgs (x : v1_PreemptionTolerationArgs ref)
| C_v1_TopologicalSortArgs (x : v1_TopologicalSortArgs ref)
| C_v1_NetworkOverheadArgs (x : v1_NetworkOverheadArgs ref)
| C_v1_SySchedArgs (x : v1_SySchedArgs ref)
| C_v1_PeaksArgs (x : v1_PeaksArgs ref)
| C_config_MetricProviderSpec (x : config_MetricProviderSpec)
| C_config_TrimaranSpec (x : config_TrimaranSpec)
| C_config_CoschedulingArgs (x : config_CoschedulingArgs)
| C_config_NodeResourcesAllocatableArgs (x : config_NodeResourcesAllocatableArgs ref)
| C_config_TargetLoadPackingArgs (x : config_TargetLoadPackingArgs ref)
| C_config_LoadVariationRiskBalancingArgs (x : config_LoadVariationRiskBalancingArgs)
| C_config_LowRiskOverCommitmentArgs (x : config_LowRiskOverCommitmentArgs ref)
| C_config_NodeResourceTopologyMatchArgs (x : config_NodeResourceTopologyMatchArgs ref box)
| C_config_PreemptionTolerationArgs (x : config_PreemptionTolerationArgs)
| C_config_TopologicalSortArgs (x : config_TopologicalSortArgs ref)
| C_config_NetworkOverheadArgs (x : config_NetworkOverheadArgs ref)
| C_config_SySchedArgs (x : config_SySchedArgs)
| C_config_PeaksArgs (x : config_PeaksArgs ref)
| C_ElasticQuotaSpec (x : ElasticQuotaSpec ref)
| C_ElasticQuotaStatus (x : ElasticQuotaStatus ref)
| C_ElasticQuota (x : ElasticQuota ref)
| C_ElasticQuotaList (x : ElasticQuotaList ref)
| C_PodGroupSpec (x : PodGroupSpec ref)
| C_PodGroupStatus (x : PodGroupStatus)
| C_PodGroup (x : PodGroup ref)
| C_PodGroupList (x : PodGroupList ref)
| C_PowerModel (x : PowerModel).

Abbreviation memory := (gmap loc cell).

#[export] Instance stores_Z : Stores cell Z :=
  {| inj := C_Z; prj c := match c with C_Z x => Some x | _ => None end; prj_inj _ := eq_refl |}.
#[export] Instance stores_Q : Stores cell Q :=
  {| inj := C_Q; prj c := match c with C_Q x => Some x | _ => None end; prj_inj _ := eq_refl |}.
#[export] Instance stores_bool : Stores cell bool :=
  {| inj := C_bool; prj c := match c with C_bool x => Some x | _ => None end; prj_inj _ := eq_refl |}.
#[export] Instance stores_string : Stores cell string :=
  {| inj := C_string; prj c := match c with C_string x => Some x | _ => None end; prj_inj _ := eq_refl |}.
#[export] Instance stores_strings : Stores cell (list string) :=
  {| inj := C_strings; prj c := match c with C_strings x => Some x | _ => None end; prj_inj _ := eq_refl |}.
#[export] Instance stores_ResourceSpecs : Stores cell (list ResourceSpec) :=
  {| inj := C_ResourceSpecs;
     prj c := match c with C_ResourceSpecs x => Some x | _ => None end; prj_inj _ := eq_refl |}.
#[export] Instance stores_floats : Stores cell (gmap string Q) :=
  {| inj := C_floats; prj c := match c with C_floats x => Some x | _ => None end; prj_inj _ := eq_refl |}.
#[export] Instance stores_ResourceList : Stores cell resource_list :=
  {| inj := C_ResourceList;
     prj c := match c with C_ResourceList x => Some x | _ => None end; prj_inj _ := eq_refl |}.
#[export] Instance stores_PowerModels : Stores cell (gmap string PowerModel) :=
  {| inj := C_PowerModels;
     prj c := match c with C_PowerModels x => Some x | _ => None end; prj_inj _ := eq_refl |}.
#[export] Instance stores_labels : Stores cell (gmap string string) :=
  {| inj := C_labels; prj c := match c with C_labels x => Some x | _ => None end; prj_inj _ := eq_refl |}.
#[export] Instance stores_ElasticQuotas : Stores cell (list (ElasticQuota ref)) :=
  {| inj := C_ElasticQuotas;
     prj c := match c with C_ElasticQuotas x => Some x | _ => None end; prj_inj _ := eq_refl |}.
#[export] Instance stores_PodGroups : Stores cell (list (PodGroup ref)) :=
  {| inj := C_PodGroups; prj c := match c with C_PodGroups x => Some x | _ => None end; prj_inj _ := eq_refl |}.
#[export] Instance stores_ScoringStrategy : Stores cell (ScoringStrategy ref) :=
  {| inj := C_ScoringStrategy;
     prj c := match c with C_ScoringStrategy x => Some x | _ => None end; prj_inj _ := eq_refl |}.
#[export] Instance stores_NodeResourceTopologyCache : Stores cell (NodeResourceTopologyCache ref) :=
  {| inj := C_NodeResourceTopologyCache;
     prj c := match c with C_NodeResourceTopologyCache x => Some x | _ => None end; prj_inj _ := eq_refl |}.
#[export] Instance stores_v1_MetricProviderSpec : Stores cell (v1_MetricProviderSpec ref) :=
  {| inj := C_v1_MetricProviderSpec;
     prj c := match c with C_v1_MetricProviderSpec x => Some x | _ => None end; prj_inj _ := eq_refl |}.
#[export] Instance stores_v1_TrimaranSpec : Stores cell (v1_TrimaranSpec ref) :=
  {| inj := C_v1_TrimaranSpec;
     prj c := match c with C_v1_TrimaranSpec x => Some x | _ => None end; prj_inj _ := eq_refl |}.
#[export] Instance stores_v1_CoschedulingArgs : Stores cell (v1_CoschedulingArgs ref) :=
  {| inj := C_v1_CoschedulingArgs;
     prj c := match c with C_v1_CoschedulingArgs x => Some x | _ => None end; prj_inj _ := eq_refl |}.
#[export] Instance stores_v1_NodeResourcesAllocatableArgs : Stores cell (v1_NodeResourcesAllocatableArgs ref) :=
  {| inj := C_v1_NodeResourcesAllocatableArgs;
     prj c := match c with C_v1_NodeResourcesAllocatableArgs x => Some x | _ => None end; prj_inj _ := eq_refl |}.
#[export] Instance stores_v1_TargetLoadPackingArgs : Stores cell (v1_TargetLoadPackingArgs ref) :=
  {| inj := C_v1_TargetLoadPackingArgs;
     prj c := match c with C_v1_TargetLoadPackingArgs x => Some x | _ => None end; prj_inj _ := eq_refl |}.
#[export] Instance stores_v1_LoadVariationRiskBalancingArgs : Stores cell (v1_LoadVariationRiskBalancingArgs ref) :=
  {| inj := C_v1_LoadVariationRiskBalancingArgs;


     prj c := match c with C_v1_LoadVariationRiskBalancingArgs x => Some x | _ => None end; prj_inj _ := eq_refl |}.
#[export] Instance stores_v1_LowRiskOverCommitmentArgs : Stores cell (v1_LowRiskOverCommitmentArgs ref) :=
  {| inj := C_v1_LowRiskOverCommitmentArgs;
     prj c := match c with C_v1_LowRiskOverCommitmentArgs x => Some x | _ => None end; prj_inj _ := eq_refl |}.
#[export] Instance stores_v1_NodeResourceTopologyMatchArgs : Stores cell (v1_NodeResourceTopologyMatchArgs ref) :=
  {| inj := C_v1_NodeResourceTopologyMatchArgs;
     prj c := match c with C_v1_NodeResourceTopologyMatchArgs x => Some x | _ => None end; prj_inj _ := eq_refl |}.
#[export] Instance stores_v1_PreemptionTolerationArgs : Stores cell (v1_PreemptionTolerationArgs ref) :=
  {| inj := C_v1_PreemptionTolerationArgs;
     prj c := match c with C_v1_PreemptionTolerationArgs x => Some x | _ => None end; prj_inj _ := eq_refl |}.
#[export] Instance stores_v1_TopologicalSortArgs : Stores cell (v1_TopologicalSortArgs ref) :=
  {| inj := C_v1_TopologicalSortArgs;
     prj c := match c with C_v1_TopologicalSortArgs x => Some x | _ => None end; prj_inj _ := eq_refl |}.
#[export] Instance stores_v1_NetworkOverheadArgs : Stores cell (v1_NetworkOverheadArgs ref) :=
  {| inj := C_v1_NetworkOverheadArgs;
     prj c := match c with C_v1_NetworkOverheadArgs x => Some x | _ => None end; prj_inj _ := eq_refl |}.
#[export] Instance stores_v1_SySchedArgs : Stores cell (v1_SySchedArgs ref) :=
  {| inj := C_v1_SySchedArgs;
     prj c := match c with C_v1_SySchedArgs x => Some x | _ => None end; prj_inj _ := eq_refl |}.
#[export] Instance stores_v1_PeaksArgs : Stores cell (v1_PeaksArgs ref) :=
  {| inj := C_v1_PeaksArgs;
     prj c := match c with C_v1_PeaksArgs x => Some x | _ => None end; prj_inj _ := eq_refl |}.
#[export] Instance stores_config_MetricProviderSpec : Stores cell (config_MetricProviderSpec) :=
  {| inj := C_config_MetricProviderSpec;
     prj c := match c with C_config_MetricProviderSpec x => Some x | _ => None end; prj_inj _ := eq_refl |}.
#[export] Instance stores_config_TrimaranSpec : Stores cell (config_TrimaranSpec) :=
  {| inj := C_config_TrimaranSpec;
     prj c := match c with C_config_TrimaranSpec x => Some x | _ => None end; prj_inj _ := eq_refl |}.
#[export] Instance stores_config_CoschedulingArgs : Stores cell (config_CoschedulingArgs) :=
  {| inj := C_config_CoschedulingArgs;
     prj c := match c with C_config_CoschedulingArgs x => Some x | _ => None end; prj_inj _ := eq_refl |}.
#[export] Instance stores_config_NodeResourcesAllocatableArgs : Stores cell (config_NodeResourcesAllocatableArgs ref) :=
  {| inj := C_config_NodeResourcesAllocatableArgs;


     prj c := match c with C_config_NodeResourcesAllocatableArgs x => Some x | _ => None end; prj_inj _ := eq_refl |}.
#[export] Instance stores_config_TargetLoadPackingArgs : Stores cell (config_TargetLoadPackingArgs ref) :=
  {| inj := C_config_TargetLoadPackingArgs;
     prj c := match c with C_config_TargetLoadPackingArgs x => Some x | _ => None end; prj_inj _ := eq_refl |}.
#[export] Instance stores_config_LoadVariationRiskBalancingArgs : Stores cell (config_LoadVariationRiskBalancingArgs) :=
  {| inj := C_config_LoadVariationRiskBalancingArgs;


     prj c := match c with C_config_LoadVariationRiskBalancingArgs x => Some x | _ => None end; prj_inj _ := eq_refl |}.
#[export] Instance stores_config_LowRiskOverCommitmentArgs : Stores cell (config_LowRiskOverCommitmentArgs ref) :=
  {| inj := C_config_LowRiskOverCommitmentArgs;
     prj c := match c with C_config_LowRiskOverCommitmentArgs x => Some x | _ => None end; prj_inj _ := eq_refl |}.
#[export] Instance stores_config_NodeResourceTopologyMatchArgs : Stores cell (config_NodeResourceTopologyMatchArgs ref box) :=
  {| inj := C_config_NodeResourceTopologyMatchArgs;


     prj c := match c with C_config_NodeResourceTopologyMatchArgs x => Some x | _ => None end; prj_inj _ := eq_refl |}.
#[export] Instance stores_config_PreemptionTolerationArgs : Stores cell (config_PreemptionTolerationArgs) :=
  {| inj := C_config_PreemptionTolerationArgs;
     prj c := match c with C_config_PreemptionTolerationArgs x => Some x | _ => None end; prj_inj _ := eq_refl |}.
#[export] Instance stores_config_TopologicalSortArgs : Stores cell (config_TopologicalSortArgs ref) :=
  {| inj := C_config_TopologicalSortArgs;
     prj c := match c with C_config_TopologicalSortArgs x => Some x | _ => None end; prj_inj _ := eq_refl |}.
#[export] Instance stores_config_NetworkOverheadArgs : Stores cell (config_NetworkOverheadArgs ref) :=
  {| inj := C_config_NetworkOverheadArgs;
     prj c := match c with C_config_NetworkOverheadArgs x => Some x | _ => None end; prj_inj _ := eq_refl |}.
#[export] Instance stores_config_SySchedArgs : Stores cell (config_SySchedArgs) :=
  {| inj := C_config_SySchedArgs;
     prj c := match c with C_config_SySchedArgs x => Some x | _ => None end; prj_inj _ := eq_refl |}.
#[export] Instance stores_config_PeaksArgs : Stores cell (config_PeaksArgs ref) :=
  {| inj := C_config_PeaksArgs;
     prj c := match c with C_config_PeaksArgs x => Some x | _ => None end; prj_inj _ := eq_refl |}.
#[export] Instance stores_ElasticQuotaSpec : Stores cell (ElasticQuotaSpec ref) :=
  {| inj := C_ElasticQuotaSpec;
     prj c := match c with C_ElasticQuotaSpec x => Some x | _ => None end; prj_inj _ := eq_refl |}.
#[export] Instance stores_ElasticQuotaStatus : Stores cell (ElasticQuotaStatus ref) :=
  {| inj := C_ElasticQuotaStatus;
     prj c := match c with C_ElasticQuotaStatus x => Some x | _ => None end; prj_inj _ := eq_refl |}.
#[export] Instance stores_ElasticQuota : Stores cell (ElasticQuota ref) :=
  {| inj := C_ElasticQuota;
     prj c := match c with C_ElasticQuota x => Some x | _ => None end; prj_inj _ := eq_refl |}.
#[export] Instance stores_ElasticQuotaList : Stores cell (ElasticQuotaList ref) :=
  {| inj := C_ElasticQuotaList;
     prj c := match c with C_ElasticQuotaList x => Some x | _ => None end; prj_inj _ := eq_refl |}.
#[export] Instance stores_PodGroupSpec : Stores cell (PodGroupSpec ref) :=
  {| inj := C_PodGroupSpec;
     prj c := match c with C_PodGroupSpec x => Some x | _ => None end; prj_inj _ := eq_refl |}.
#[export] Instance stores_PodGroupStatus : Stores cell (PodGroupStatus) :=
  {| inj := C_PodGroupStatus;
     prj c := match c with C_PodGroupStatus x => Some x | _ => None end; prj_inj _ := eq_refl |}.
#[export] Instance stores_PodGroup : Stores cell (PodGroup ref) :=
  {| inj := C_PodGroup; prj c := match c with C_PodGroup x => Some x | _ => None end; prj_inj _ := eq_refl |}.
#[export] Instance stores_PodGroupList : Stores cell (PodGroupList ref) :=
  {| inj := C_PodGroupList;
     prj c := match c with C_PodGroupList x => Some x | _ => None end; prj_inj _ := eq_refl |}.
#[export] Instance stores_PowerModel : Stores cell PowerModel :=
  {| inj := C_PowerModel; prj c := match c with C_PowerModel x => Some x | _ => None end; prj_inj _ := eq_refl |}.

(** ** The value of a struct *)

#[export] Instance plain_TypeMeta : Plain TypeMeta := tt.
#[export] Instance plain_ResourceSpec : Plain ResourceSpec := tt.
#[export] Instance plain_Time : Plain Time := tt.
#[export] Instance plain_PowerModel : Plain PowerModel := tt.

Definition abs_box {A B} `{Stores cell A} `{Repr cell A B} (m : memory) (b : box A) : option (here B) :=
  match b with BoxAt l => a ← m !! l ≫= prj; abs m a end.

Lemma abs_box_mono {A B} `{Stores cell A} `{Repr cell A B} (m m' : memory) (b : box A) (v : here B) :
  m ⊆ m' → abs_box m b = Some v → abs_box m' b = Some v.
Proof.
  destruct b as [l]. intros Hsub. simpl. intros (a & Ha & Hv)%bind_Some.
  apply bind_Some in Ha as (c & Hc & Ha). rewrite (lookup_weaken _ _ _ _ Hc Hsub). simpl. rewrite Ha. simpl.
  by apply (abs_mono _ _ _ _ Hsub).
Qed.

#[export] Instance repr_box A B `{Stores cell A} `{Repr cell A B} : Repr cell (box A) (here B) :=
  {| abs := abs_box; abs_mono := abs_box_mono |}.

Definition load_box {A} `{Stores cell A} (b : box A) : M cell A :=
  match b with BoxAt l => load (At l) end.

Definition alloc_box {A} `{Stores cell A} (a : A) : M cell (box A) := λ m,
  let l := fresh (dom m) in Some (BoxAt l, <[l := inj a]> m).

Lemma wp_alloc_box {A} `{Stores cell A} (a : A) m (Q : box A → memory → Prop) :
  (∀ l, m !! l = None → Q (BoxAt l) (<[l := inj a]> m)) → wp (alloc_box a) m Q.
Proof. intros HQ. apply HQ. apply not_elem_of_dom, is_fresh. Qed.

(** The fields of a struct are read one after the other. *)
Lemma bind_mono {A B V} `{Repr cell A B} (m m' : memory) (a : A) (k k' : B → option V) v :
  m ⊆ m' → (∀ b, k b = Some v → k' b = Some v) → abs m a ≫= k = Some v → abs m' a ≫= k' = Some v.
Proof.
  intros Hsub Hk (b & Hb & Hv)%bind_Some. rewrite (abs_mono _ _ _ _ Hsub Hb). by apply Hk.
Qed.

Ltac struct_mono := intros ?; repeat (apply bind_mono; [done|intros ?]); done.

Definition abs_ScoringStrategy (m : memory) (x : ScoringStrategy ref) : option (ScoringStrategy option) :=
  x1 ← abs m (ss_Resources x);
  mret {| ss_Type := ss_Type x; ss_Resources := x1 |}.

Lemma abs_ScoringStrategy_mono m m' x v :
  m ⊆ m' → abs_ScoringStrategy m x = Some v → abs_ScoringStrategy m' x = Some v.
Proof. unfold abs_ScoringStrategy. struct_mono. Qed.

#[export] Instance repr_ScoringStrategy : Repr cell (ScoringStrategy ref) (ScoringStrategy option) :=
  {| abs := abs_ScoringStrategy; abs_mono := abs_ScoringStrategy_mono |}.

Definition abs_NodeResourceTopologyCache (m : memory) (x : NodeResourceTopologyCache ref) :
    option (NodeResourceTopologyCache option) :=
  x1 ← abs m (nc_ForeignPodsDetect x);
  x2 ← abs m (nc_ResyncMethod x);
  x3 ← abs m (nc_InformerMode x);
  x4 ← abs m (nc_ResyncScope x);
  mret {| nc_ForeignPodsDetect := x1; nc_ResyncMethod := x2; nc_InformerMode := x3; nc_ResyncScope := x4 |}.

Lemma abs_NodeResourceTopologyCache_mono m m' x v :
  m ⊆ m' → abs_NodeResourceTopologyCache m x = Some v → abs_NodeResourceTopologyCache m' x = Some v.
Proof. unfold abs_NodeResourceTopologyCache. struct_mono. Qed.

#[export] Instance repr_NodeResourceTopologyCache :
  Repr cell (NodeResourceTopologyCache ref) (NodeResourceTopologyCache option) :=
  {| abs := abs_NodeResourceTopologyCache; abs_mono := abs_NodeResourceTopologyCache_mono |}.

Definition abs_v1_MetricProviderSpec (m : memory) (x : v1_MetricProviderSpec ref) :
    option (v1_MetricProviderSpec option) :=
  x1 ← abs m (mp_Address x);
  x2 ← abs m (mp_Token x);
  x3 ← abs m (mp_InsecureSkipVerify x);
  mret {| mp_Type := mp_Type x; mp_Address := x1; mp_Token := x2; mp_InsecureSkipVerify := x3 |}.

Lemma abs_v1_MetricProviderSpec_mono m m' x v :
  m ⊆ m' → abs_v1_MetricProviderSpec m x = Some v → abs_v1_MetricProviderSpec m' x = Some v.
Proof. unfold abs_v1_MetricProviderSpec. struct_mono. Qed.

#[export] Instance repr_v1_MetricProviderSpec :
  Repr cell (v1_MetricProviderSpec ref) (v1_MetricProviderSpec option) :=
  {| abs := abs_v1_MetricProviderSpec; abs_mono := abs_v1_MetricProviderSpec_mono |}.

Definition abs_v1_TrimaranSpec (m : memory) (x : v1_TrimaranSpec ref) : option (v1_TrimaranSpec option) :=
  x1 ← abs m (ts_MetricProvider x);
  x2 ← abs m (ts_WatcherAddress x);
  mret {| ts_MetricProvider := x1; ts_WatcherAddress := x2 |}.

Lemma abs_v1_TrimaranSpec_mono m m' x v :
  m ⊆ m' → abs_v1_TrimaranSpec m x = Some v → abs_v1_TrimaranSpec m' x = Some v.
Proof. unfold abs_v1_TrimaranSpec. struct_mono. Qed.

#[export] Instance repr_v1_TrimaranSpec : Repr cell (v1_TrimaranSpec ref) (v1_TrimaranSpec option) :=
  {| abs := abs_v1_TrimaranSpec; abs_mono := abs_v1_TrimaranSpec_mono |}.

Definition abs_v1_CoschedulingArgs (m : memory) (x : v1_CoschedulingArgs ref) :
    option (v1_CoschedulingArgs option) :=
  x1 ← abs m (co_PermitWaitingTimeSeconds x);
  x2 ← abs m (co_PodGroupBackoffSeconds x);
  mret {| co_TypeMeta := co_TypeMeta x; co_PermitWaitingTimeSeconds := x1; co_PodGroupBackoffSeconds := x2 |}.

Lemma abs_v1_CoschedulingArgs_mono m m' x v :
  m ⊆ m' → abs_v1_CoschedulingArgs m x = Some v → abs_v1_CoschedulingArgs m' x = Some v.
Proof. unfold abs_v1_CoschedulingArgs. struct_mono. Qed.

#[export] Instance repr_v1_CoschedulingArgs : Repr cell (v1_CoschedulingArgs ref) (v1_CoschedulingArgs option) :=
  {| abs := abs_v1_CoschedulingArgs; abs_mono := abs_v1_CoschedulingArgs_mono |}.

Definition abs_v1_NodeResourcesAllocatableArgs (m : memory) (x : v1_NodeResourcesAllocatableArgs ref) :
    option (v1_NodeResourcesAllocatableArgs option) :=
  x1 ← abs m (na_Resources x);
  mret {| na_TypeMeta := na_TypeMeta x; na_Resources := x1; na_Mode := na_Mode x |}.

Lemma abs_v1_NodeResourcesAllocatableArgs_mono m m' x v :
  m ⊆ m' → abs_v1_NodeResourcesAllocatableArgs m x = Some v → abs_v1_NodeResourcesAllocatableArgs m' x = Some v.
Proof. unfold abs_v1_NodeResourcesAllocatableArgs. struct_mono. Qed.

#[export] Instance repr_v1_NodeResourcesAllocatableArgs :
  Repr cell (v1_NodeResourcesAllocatableArgs ref) (v1_NodeResourcesAllocatableArgs option) :=
  {| abs := abs_v1_NodeResourcesAllocatableArgs; abs_mono := abs_v1_NodeResourcesAllocatableArgs_mono |}.

Definition abs_v1_TargetLoadPackingArgs (m : memory) (x : v1_TargetLoadPackingArgs ref) :
    option (v1_TargetLoadPackingArgs option) :=
  x1 ← abs m (tl_TrimaranSpec x);
  x2 ← abs m (tl_DefaultRequests x);
  x3 ← abs m (tl_DefaultRequestsMultiplier x);
  x4 ← abs m (tl_TargetUtilization x);
    mret {| tl_TypeMeta := tl_TypeMeta x; tl_TrimaranSpec := x1; tl_DefaultRequests := x2;
        tl_DefaultRequestsMultiplier := x3; tl_TargetUtilization := x4 |}.

Lemma abs_v1_TargetLoadPackingArgs_mono m m' x v :
  m ⊆ m' → abs_v1_TargetLoadPackingArgs m x = Some v → abs_v1_TargetLoadPackingArgs m' x = Some v.
Proof. unfold abs_v1_TargetLoadPackingArgs. struct_mono. Qed.

#[export] Instance repr_v1_TargetLoadPackingArgs :
  Repr cell (v1_TargetLoadPackingArgs ref) (v1_TargetLoadPackingArgs option) :=
  {| abs := abs_v1_TargetLoadPackingArgs; abs_mono := abs_v1_TargetLoadPackingArgs_mono |}.

Definition abs_v1_LoadVariationRiskBalancingArgs (m : memory) (x : v1_LoadVariationRiskBalancingArgs ref) :
    option (v1_LoadVariationRiskBalancingArgs option) :=
  x1 ← abs m (lv_TrimaranSpec x);
  x2 ← abs m (lv_SafeVarianceMargin x);
  x3 ← abs m (lv_SafeVarianceSensitivity x);
    mret {| lv_TypeMeta := lv_TypeMeta x; lv_TrimaranSpec := x1; lv_SafeVarianceMargin := x2;
        lv_SafeVarianceSensitivity := x3 |}.

Lemma abs_v1_LoadVariationRiskBalancingArgs_mono m m' x v :
  m ⊆ m' → abs_v1_LoadVariationRiskBalancingArgs m x = Some v → abs_v1_LoadVariationRiskBalancingArgs m' x = Some v.
Proof. unfold abs_v1_LoadVariationRiskBalancingArgs. struct_mono. Qed.

#[export] Instance repr_v1_LoadVariationRiskBalancingArgs :
  Repr cell (v1_LoadVariationRiskBalancingArgs ref) (v1_LoadVariationRiskBalancingArgs option) :=
  {| abs := abs_v1_LoadVariationRiskBalancingArgs; abs_mono := abs_v1_LoadVariationRiskBalancingArgs_mono |}.

Definition abs_v1_LowRiskOverCommitmentArgs (m : memory) (x : v1_LowRiskOverCommitmentArgs ref) :
    option (v1_LowRiskOverCommitmentArgs option) :=
  x1 ← abs m (lr_TrimaranSpec x);
  x2 ← abs m (lr_SmoothingWindowSize x);
  x3 ← abs m (lr_RiskLimitWeights x);
    mret {| lr_TypeMeta := lr_TypeMeta x; lr_TrimaranSpec := x1; lr_SmoothingWindowSize := x2;
        lr_RiskLimitWeights := x3 |}.

Lemma abs_v1_LowRiskOverCommitmentArgs_mono m m' x v :
  m ⊆ m' → abs_v1_LowRiskOverCommitmentArgs m x = Some v → abs_v1_LowRiskOverCommitmentArgs m' x = Some v.
Proof. unfold abs_v1_LowRiskOverCommitmentArgs. struct_mono. Qed.

#[export] Instance repr_v1_LowRiskOverCommitmentArgs :
  Repr cell (v1_LowRiskOverCommitmentArgs ref) (v1_LowRiskOverCommitmentArgs option) :=
  {| abs := abs_v1_LowRiskOverCommitmentArgs; abs_mono := abs_v1_LowRiskOverCommitmentArgs_mono |}.

Definition abs_v1_NodeResourceTopologyMatchArgs (m : memory) (x : v1_NodeResourceTopologyMatchArgs ref) :
    option (v1_NodeResourceTopologyMatchArgs option) :=
  x1 ← abs m (nm_ScoringStrategy x);
  x2 ← abs m (nm_CacheResyncPeriodSeconds x);
  x3 ← abs m (nm_Cache x);
    mret {| nm_TypeMeta := nm_TypeMeta x; nm_ScoringStrategy := x1; nm_CacheResyncPeriodSeconds := x2;
        nm_DiscardReservedNodes := nm_DiscardReservedNodes x; nm_Cache := x3 |}.

Lemma abs_v1_NodeResourceTopologyMatchArgs_mono m m' x v :
  m ⊆ m' → abs_v1_NodeResourceTopologyMatchArgs m x = Some v → abs_v1_NodeResourceTopologyMatchArgs m' x = Some v.
Proof. unfold abs_v1_NodeResourceTopologyMatchArgs. struct_mono. Qed.

#[export] Instance repr_v1_NodeResourceTopologyMatchArgs :
  Repr cell (v1_NodeResourceTopologyMatchArgs ref) (v1_NodeResourceTopologyMatchArgs option) :=
  {| abs := abs_v1_NodeResourceTopologyMatchArgs; abs_mono := abs_v1_NodeResourceTopologyMatchArgs_mono |}.

Definition abs_v1_PreemptionTolerationArgs (m : memory) (x : v1_PreemptionTolerationArgs ref) :
    option (v1_PreemptionTolerationArgs option) :=
  x1 ← abs m (pt_MinCandidateNodesPercentage x);
  x2 ← abs m (pt_MinCandidateNodesAbsolute x);
    mret {| pt_TypeMeta := pt_TypeMeta x; pt_MinCandidateNodesPercentage := x1;
        pt_MinCandidateNodesAbsolute := x2 |}.

Lemma abs_v1_PreemptionTolerationArgs_mono m m' x v :
  m ⊆ m' → abs_v1_PreemptionTolerationArgs m x = Some v → abs_v1_PreemptionTolerationArgs m' x = Some v.
Proof. unfold abs_v1_PreemptionTolerationArgs. struct_mono. Qed.

#[export] Instance repr_v1_PreemptionTolerationArgs :
  Repr cell (v1_PreemptionTolerationArgs ref) (v1_PreemptionTolerationArgs option) :=
  {| abs := abs_v1_PreemptionTolerationArgs; abs_mono := abs_v1_PreemptionTolerationArgs_mono |}.

Definition abs_v1_TopologicalSortArgs (m : memory) (x : v1_TopologicalSortArgs ref) :
    option (v1_TopologicalSortArgs option) :=
  x1 ← abs m (tt_Namespaces x);
  mret {| tt_TypeMeta := tt_TypeMeta x; tt_Namespaces := x1 |}.

Lemma abs_v1_TopologicalSortArgs_mono m m' x v :
  m ⊆ m' → abs_v1_TopologicalSortArgs m x = Some v → abs_v1_TopologicalSortArgs m' x = Some v.
Proof. unfold abs_v1_TopologicalSortArgs. struct_mono. Qed.

#[export] Instance repr_v1_TopologicalSortArgs :
  Repr cell (v1_TopologicalSortArgs ref) (v1_TopologicalSortArgs option) :=
  {| abs := abs_v1_TopologicalSortArgs; abs_mono := abs_v1_TopologicalSortArgs_mono |}.

Definition abs_v1_NetworkOverheadArgs (m : memory) (x : v1_NetworkOverheadArgs ref) :
    option (v1_NetworkOverheadArgs option) :=
  x1 ← abs m (no_Namespaces x);
  x2 ← abs m (no_WeightsName x);
  x3 ← abs m (no_NetworkTopologyName x);
  mret {| no_TypeMeta := no_TypeMeta x; no_Namespaces := x1; no_WeightsName := x2; no_NetworkTopologyName := x3 |}.

Lemma abs_v1_NetworkOverheadArgs_mono m m' x v :
  m ⊆ m' → abs_v1_NetworkOverheadArgs m x = Some v → abs_v1_NetworkOverheadArgs m' x = Some v.
Proof. unfold abs_v1_NetworkOverheadArgs. struct_mono. Qed.

#[export] Instance repr_v1_NetworkOverheadArgs :
  Repr cell (v1_NetworkOverheadArgs ref) (v1_NetworkOverheadArgs option) :=
  {| abs := abs_v1_NetworkOverheadArgs; abs_mono := abs_v1_NetworkOverheadArgs_mono |}.

Definition abs_v1_SySchedArgs (m : memory) (x : v1_SySchedArgs ref) : option (v1_SySchedArgs option) :=
  x1 ← abs m (sy_DefaultProfileNamespace x);
  x2 ← abs m (sy_DefaultProfileName x);
  mret {| sy_TypeMeta := sy_TypeMeta x; sy_DefaultProfileNamespace := x1; sy_DefaultProfileName := x2 |}.

Lemma abs_v1_SySchedArgs_mono m m' x v :
  m ⊆ m' → abs_v1_SySchedArgs m x = Some v → abs_v1_SySchedArgs m' x = Some v.
Proof. unfold abs_v1_SySchedArgs. struct_mono. Qed.

#[export] Instance repr_v1_SySchedArgs : Repr cell (v1_SySchedArgs ref) (v1_SySchedArgs option) :=
  {| abs := abs_v1_SySchedArgs; abs_mono := abs_v1_SySchedArgs_mono |}.

Definition abs_v1_PeaksArgs (m : memory) (x : v1_PeaksArgs ref) : option (v1_PeaksArgs option) :=
  x1 ← abs m (pk_NodePowerModel x);
  mret {| pk_TypeMeta := pk_TypeMeta x; pk_WatcherAddress := pk_WatcherAddress x; pk_NodePowerModel := x1 |}.

Lemma abs_v1_PeaksArgs_mono m m' x v : m ⊆ m' → abs_v1_PeaksArgs m x = Some v → abs_v1_PeaksArgs m' x = Some v.
Proof. unfold abs_v1_PeaksArgs. struct_mono. Qed.

#[export] Instance repr_v1_PeaksArgs : Repr cell (v1_PeaksArgs ref) (v1_PeaksArgs option) :=
  {| abs := abs_v1_PeaksArgs; abs_mono := abs_v1_PeaksArgs_mono |}.

#[export] Instance plain_config_MetricProviderSpec : Plain config_MetricProviderSpec := tt.

#[export] Instance plain_config_TrimaranSpec : Plain config_TrimaranSpec := tt.

#[export] Instance plain_config_CoschedulingArgs : Plain config_CoschedulingArgs := tt.

Definition abs_config_NodeResourcesAllocatableArgs (m : memory) (x : config_NodeResourcesAllocatableArgs ref) :
    option (config_NodeResourcesAllocatableArgs option) :=
  x1 ← abs m (cna_Resources x);
  mret {| cna_TypeMeta := cna_TypeMeta x; cna_Resources := x1; cna_Mode := cna_Mode x |}.

Lemma abs_config_NodeResourcesAllocatableArgs_mono m m' x v :
  m ⊆ m' → abs_config_NodeResourcesAllocatableArgs m x = Some v → abs_config_NodeResourcesAllocatableArgs m' x = Some v.
Proof. unfold abs_config_NodeResourcesAllocatableArgs. struct_mono. Qed.

#[export] Instance repr_config_NodeResourcesAllocatableArgs :
  Repr cell (config_NodeResourcesAllocatableArgs ref) (config_NodeResourcesAllocatableArgs option) :=
  {| abs := abs_config_NodeResourcesAllocatableArgs; abs_mono := abs_config_NodeResourcesAllocatableArgs_mono |}.

Definition abs_config_TargetLoadPackingArgs (m : memory) (x : config_TargetLoadPackingArgs ref) :
    option (config_TargetLoadPackingArgs option) :=
  x1 ← abs m (ctl_DefaultRequests x);
    mret {| ctl_TypeMeta := ctl_TypeMeta x; ctl_TrimaranSpec := ctl_TrimaranSpec x; ctl_DefaultRequests := x1;
        ctl_DefaultRequestsMultiplier := ctl_DefaultRequestsMultiplier x;
        ctl_TargetUtilization := ctl_TargetUtilization x |}.

Lemma abs_config_TargetLoadPackingArgs_mono m m' x v :
  m ⊆ m' → abs_config_TargetLoadPackingArgs m x = Some v → abs_config_TargetLoadPackingArgs m' x = Some v.
Proof. unfold abs_config_TargetLoadPackingArgs. struct_mono. Qed.

#[export] Instance repr_config_TargetLoadPackingArgs :
  Repr cell (config_TargetLoadPackingArgs ref) (config_TargetLoadPackingArgs option) :=
  {| abs := abs_config_TargetLoadPackingArgs; abs_mono := abs_config_TargetLoadPackingArgs_mono |}.

#[export] Instance plain_config_LoadVariationRiskBalancingArgs : Plain config_LoadVariationRiskBalancingArgs := tt.

Definition abs_config_LowRiskOverCommitmentArgs (m : memory) (x : config_LowRiskOverCommitmentArgs ref) :
    option (config_LowRiskOverCommitmentArgs option) :=
  x1 ← abs m (clr_RiskLimitWeights x);
    mret {| clr_TypeMeta := clr_TypeMeta x; clr_TrimaranSpec := clr_TrimaranSpec x;
        clr_SmoothingWindowSize := clr_SmoothingWindowSize x; clr_RiskLimitWeights := x1 |}.

Lemma abs_config_LowRiskOverCommitmentArgs_mono m m' x v :
  m ⊆ m' → abs_config_LowRiskOverCommitmentArgs m x = Some v → abs_config_LowRiskOverCommitmentArgs m' x = Some v.
Proof. unfold abs_config_LowRiskOverCommitmentArgs. struct_mono. Qed.

#[export] Instance repr_config_LowRiskOverCommitmentArgs :
  Repr cell (config_LowRiskOverCommitmentArgs ref) (config_LowRiskOverCommitmentArgs option) :=
  {| abs := abs_config_LowRiskOverCommitmentArgs; abs_mono := abs_config_LowRiskOverCommitmentArgs_mono |}.

Definition abs_config_NodeResourceTopologyMatchArgs (m : memory) (x : config_NodeResourceTopologyMatchArgs ref box) :
    option (config_NodeResourceTopologyMatchArgs option here) :=
  x1 ← abs m (cnm_ScoringStrategy x);
  x2 ← abs m (cnm_Cache x);
    mret {| cnm_TypeMeta := cnm_TypeMeta x; cnm_ScoringStrategy := x1;
        cnm_CacheResyncPeriodSeconds := cnm_CacheResyncPeriodSeconds x;
        cnm_DiscardReservedNodes := cnm_DiscardReservedNodes x; cnm_Cache := x2 |}.

Lemma abs_config_NodeResourceTopologyMatchArgs_mono m m' x v :
  m ⊆ m' → abs_config_NodeResourceTopologyMatchArgs m x = Some v → abs_config_NodeResourceTopologyMatchArgs m' x = Some v.
Proof. unfold abs_config_NodeResourceTopologyMatchArgs. struct_mono. Qed.

#[export] Instance repr_config_NodeResourceTopologyMatchArgs :
  Repr cell (config_NodeResourceTopologyMatchArgs ref box) (config_NodeResourceTopologyMatchArgs option here) :=
  {| abs := abs_config_NodeResourceTopologyMatchArgs; abs_mono := abs_config_NodeResourceTopologyMatchArgs_mono |}.

#[export] Instance plain_config_PreemptionTolerationArgs : Plain config_PreemptionTolerationArgs := tt.

Definition abs_config_TopologicalSortArgs (m : memory) (x : config_TopologicalSortArgs ref) :
    option (config_TopologicalSortArgs option) :=
  x1 ← abs m (ctt_Namespaces x);
  mret {| ctt_TypeMeta := ctt_TypeMeta x; ctt_Namespaces := x1 |}.

Lemma abs_config_TopologicalSortArgs_mono m m' x v :
  m ⊆ m' → abs_config_TopologicalSortArgs m x = Some v → abs_config_TopologicalSortArgs m' x = Some v.
Proof. unfold abs_config_TopologicalSortArgs. struct_mono. Qed.

#[export] Instance repr_config_TopologicalSortArgs :
  Repr cell (config_TopologicalSortArgs ref) (config_TopologicalSortArgs option) :=
  {| abs := abs_config_TopologicalSortArgs; abs_mono := abs_config_TopologicalSortArgs_mono |}.

Definition abs_config_NetworkOverheadArgs (m : memory) (x : config_NetworkOverheadArgs ref) :
    option (config_NetworkOverheadArgs option) :=
  x1 ← abs m (cno_Namespaces x);
    mret {| cno_TypeMeta := cno_TypeMeta x; cno_Namespaces := x1; cno_WeightsName := cno_WeightsName x;
        cno_NetworkTopologyName := cno_NetworkTopologyName x |}.

Lemma abs_config_NetworkOverheadArgs_mono m m' x v :
  m ⊆ m' → abs_config_NetworkOverheadArgs m x = Some v → abs_config_NetworkOverheadArgs m' x = Some v.
Proof. unfold abs_config_NetworkOverheadArgs. struct_mono. Qed.

#[export] Instance repr_config_NetworkOverheadArgs :
  Repr cell (config_NetworkOverheadArgs ref) (config_NetworkOverheadArgs option) :=
  {| abs := abs_config_NetworkOverheadArgs; abs_mono := abs_config_NetworkOverheadArgs_mono |}.

#[export] Instance plain_config_SySchedArgs : Plain config_SySchedArgs := tt.

Definition abs_config_PeaksArgs (m : memory) (x : config_PeaksArgs ref) : option (config_PeaksArgs option) :=
  x1 ← abs m (cpk_NodePowerModel x);
  mret {| cpk_TypeMeta := cpk_TypeMeta x; cpk_WatcherAddress := cpk_WatcherAddress x; cpk_NodePowerModel := x1 |}.

Lemma abs_config_PeaksArgs_mono m m' x v :
  m ⊆ m' → abs_config_PeaksArgs m x = Some v → abs_config_PeaksArgs m' x = Some v.
Proof. unfold abs_config_PeaksArgs. struct_mono. Qed.

#[export] Instance repr_config_PeaksArgs : Repr cell (config_PeaksArgs ref) (config_PeaksArgs option) :=
  {| abs := abs_config_PeaksArgs; abs_mono := abs_config_PeaksArgs_mono |}.

Definition abs_ElasticQuotaSpec (m : memory) (x : ElasticQuotaSpec ref) : option (ElasticQuotaSpec option) :=
  x1 ← abs m (eqs_Min x);
  x2 ← abs m (eqs_Max x);
  mret {| eqs_Min := x1; eqs_Max := x2 |}.

Lemma abs_ElasticQuotaSpec_mono m m' x v :
  m ⊆ m' → abs_ElasticQuotaSpec m x = Some v → abs_ElasticQuotaSpec m' x = Some v.
Proof. unfold abs_ElasticQuotaSpec. struct_mono. Qed.

#[export] Instance repr_ElasticQuotaSpec : Repr cell (ElasticQuotaSpec ref) (ElasticQuotaSpec option) :=
  {| abs := abs_ElasticQuotaSpec; abs_mono := abs_ElasticQuotaSpec_mono |}.

Definition abs_ElasticQuotaStatus (m : memory) (x : ElasticQuotaStatus ref) : option (ElasticQuotaStatus option) :=
  x1 ← abs m (eqt_Used x);
  mret {| eqt_Used := x1 |}.

Lemma abs_ElasticQuotaStatus_mono m m' x v :
  m ⊆ m' → abs_ElasticQuotaStatus m x = Some v → abs_ElasticQuotaStatus m' x = Some v.
Proof. unfold abs_ElasticQuotaStatus. struct_mono. Qed.

#[export] Instance repr_ElasticQuotaStatus : Repr cell (ElasticQuotaStatus ref) (ElasticQuotaStatus option) :=
  {| abs := abs_ElasticQuotaStatus; abs_mono := abs_ElasticQuotaStatus_mono |}.

Class MetaRepr : Type := {
  repr_ObjectMeta :: Repr cell (ObjectMeta ref) (ObjectMeta option);
  repr_ListMeta :: Repr cell (ListMeta ref) (ListMeta option);
}.
Context `{!MetaRepr}.

Definition abs_ElasticQuota (m : memory) (x : ElasticQuota ref) : option (ElasticQuota option) :=
  x1 ← abs m (eq_ObjectMeta x);
  x2 ← abs m (eq_Spec x);
  x3 ← abs m (eq_Status x);
  mret {| eq_TypeMeta := eq_TypeMeta x; eq_ObjectMeta := x1; eq_Spec := x2; eq_Status := x3 |}.

Lemma abs_ElasticQuota_mono m m' x v : m ⊆ m' → abs_ElasticQuota m x = Some v → abs_ElasticQuota m' x = Some v.
Proof. unfold abs_ElasticQuota. struct_mono. Qed.

#[export] Instance repr_ElasticQuota : Repr cell (ElasticQuota ref) (ElasticQuota option) :=
  {| abs := abs_ElasticQuota; abs_mono := abs_ElasticQuota_mono |}.

Definition abs_ElasticQuotaList (m : memory) (x : ElasticQuotaList ref) : option (ElasticQuotaList option) :=
  x1 ← abs m (eql_ListMeta x);
  x2 ← abs m (eql_Items x);
  mret {| eql_TypeMeta := eql_TypeMeta x; eql_ListMeta := x1; eql_Items := x2 |}.

Lemma abs_ElasticQuotaList_mono m m' x v :
  m ⊆ m' → abs_ElasticQuotaList m x = Some v → abs_ElasticQuotaList m' x = Some v.
Proof. unfold abs_ElasticQuotaList. struct_mono. Qed.

#[export] Instance repr_ElasticQuotaList : Repr cell (ElasticQuotaList ref) (ElasticQuotaList option) :=
  {| abs := abs_ElasticQuotaList; abs_mono := abs_ElasticQuotaList_mono |}.

Definition abs_PodGroupSpec (m : memory) (x : PodGroupSpec ref) : option (PodGroupSpec option) :=
  x1 ← abs m (pgs_MinResources x);
  x2 ← abs m (pgs_ScheduleTimeoutSeconds x);
  mret {| pgs_MinMember := pgs_MinMember x; pgs_MinResources := x1; pgs_ScheduleTimeoutSeconds := x2 |}.

Lemma abs_PodGroupSpec_mono m m' x v : m ⊆ m' → abs_PodGroupSpec m x = Some v → abs_PodGroupSpec m' x = Some v.
Proof. unfold abs_PodGroupSpec. struct_mono. Qed.

#[export] Instance repr_PodGroupSpec : Repr cell (PodGroupSpec ref) (PodGroupSpec option) :=
  {| abs := abs_PodGroupSpec; abs_mono := abs_PodGroupSpec_mono |}.

#[export] Instance plain_PodGroupStatus : Plain PodGroupStatus := tt.

Definition abs_PodGroup (m : memory) (x : PodGroup ref) : option (PodGroup option) :=
  x1 ← abs m (pg_ObjectMeta x);
  x2 ← abs m (pg_Spec x);
  mret {| pg_TypeMeta := pg_TypeMeta x; pg_ObjectMeta := x1; pg_Spec := x2; pg_Status := pg_Status x |}.

Lemma abs_PodGroup_mono m m' x v : m ⊆ m' → abs_PodGroup m x = Some v → abs_PodGroup m' x = Some v.
Proof. unfold abs_PodGroup. struct_mono. Qed.

#[export] Instance repr_PodGroup : Repr cell (PodGroup ref) (PodGroup option) :=
  {| abs := abs_PodGroup; abs_mono := abs_PodGroup_mono |}.

Definition abs_PodGroupList (m : memory) (x : PodGroupList ref) : option (PodGroupList option) :=
  x1 ← abs m (pgl_ListMeta x);
  x2 ← abs m (pgl_Items x);
  mret {| pgl_TypeMeta := pgl_TypeMeta x; pgl_ListMeta := x1; pgl_Items := x2 |}.

Lemma abs_PodGroupList_mono m m' x v : m ⊆ m' → abs_PodGroupList m x = Some v → abs_PodGroupList m' x = Some v.
Proof. unfold abs_PodGroupList. struct_mono. Qed.

#[export] Instance repr_PodGroupList : Repr cell (PodGroupList ref) (PodGroupList option) :=
  {| abs := abs_PodGroupList; abs_mono := abs_PodGroupList_mono |}.

End Types.
