(* ===== verification/DeepCopy.v ===== *)
(** * The generated deep copies

    apis/config/v1/zz_generated.deepcopy.go, apis/config/zz_generated.deepcopy.go and
    apis/scheduling/v1alpha1/zz_generated.deepcopy.go: [DeepCopyInto], [DeepCopy] and
    [DeepCopyObject] of every API type, on the memory of file GoHeap.  [X_DeepCopyInto] gives
    the struct [out] points to afterwards.  The copies of a quantity and of the metadata of
    an object belong to Kubernetes. *)

From S2P Require Import Prelude Float64 K8s K8sModel GoHeap ApiTypes.

(** The copies of other packages give the same value, nothing of it shared. *)
Class QuantityCopy `{QuantityOps} : Type := {
  q_DeepCopy : Quantity → Quantity;
  q_faithful :: Faithful q_DeepCopy;
}.

Class MetaCopy `{QuantityOps} `{!MetaTypes} `{!MetaRepr} : Type := {
  ObjectMeta_DeepCopyInto : ObjectMeta ref → M cell (ObjectMeta ref);
  ListMeta_DeepCopyInto : ListMeta ref → M cell (ListMeta ref);
  ObjectMeta_copies :: Copies ObjectMeta_DeepCopyInto;
  ListMeta_copies :: Copies ListMeta_DeepCopyInto;
}.

Section DeepCopy.
Context `{MapOrder} `{QuantityOps} `{!QuantityCopy} `{!MetaTypes} `{!MetaRepr} `{!MetaCopy}.

Abbreviation memory := (gmap loc cell).

(** [runtime.Object]: nil, or a pointer to an object. *)
Inductive Object := NilObject | ObjectAt (l : loc).

Definition as_object {A} (c : ref A) : Object :=
  match c with Nil => NilObject | At l => ObjectAt l end.

(** The struct inside another, copied in place. *)
Definition copy_box {A} `{Stores cell A} (f : A → M cell A) (b : box A) : M cell (box A) :=
  a ← load_box b; a' ← f a; alloc_box a'.

#[export] Instance copies_box {A B} `{Stores cell A} `{Repr cell A B} (f : A → M cell A) `{!Copies f} :
  Copies (copy_box f).
Proof.
  intros m [l] v. simpl. intros (a & Ha & Hv)%bind_Some. unfold copy_box.
  apply wp_bind. eapply wp_load; [done|]. eapply wp_copy; [done|done|done|].
  intros a' m' Hsub _ Hiso. apply (wp_alloc_box a'). intros l' Hl'. split.
  - etrans; [done|]. by apply insert_subseteq.
  - intros m'' Hag. pose proof (isolated_alloc _ _ _ _ _ Hsub Hiso Hl' m'' Hag) as Hv'.
    simpl in *. destruct (m'' !! l' ≫= prj) as [b|]; [|done]. simpl in *.
    by apply bind_Some in Hv' as (? & ? & [= ->]).
Qed.

(** ** apis/config/v1 *)

Definition v1_ScoringStrategy_DeepCopyInto (in_ : ScoringStrategy ref) : M cell (ScoringStrategy ref) :=
  x1 ← copy_ref (copy_slice mret) (ss_Resources in_);
    mret {| ss_Type := ss_Type in_; ss_Resources := x1 |}.

Definition v1_ScoringStrategy_DeepCopy (in_ : ref (ScoringStrategy ref)) : M cell (ref (ScoringStrategy ref)) :=
  copy_ref v1_ScoringStrategy_DeepCopyInto in_.

#[export] Instance v1_ScoringStrategy_copies : Copies v1_ScoringStrategy_DeepCopyInto.
Proof. copy_struct v1_ScoringStrategy_DeepCopyInto abs_ScoringStrategy. Qed.

Definition v1_NodeResourceTopologyCache_DeepCopyInto (in_ : NodeResourceTopologyCache ref) :
    M cell (NodeResourceTopologyCache ref) :=
  x1 ← copy_ref mret (nc_ForeignPodsDetect in_);
  x2 ← copy_ref mret (nc_ResyncMethod in_);
  x3 ← copy_ref mret (nc_InformerMode in_);
  x4 ← copy_ref mret (nc_ResyncScope in_);
    mret {| nc_ForeignPodsDetect := x1; nc_ResyncMethod := x2; nc_InformerMode := x3; nc_ResyncScope := x4 |}.

Definition v1_NodeResourceTopologyCache_DeepCopy (in_ : ref (NodeResourceTopologyCache ref)) :
    M cell (ref (NodeResourceTopologyCache ref)) :=
  copy_ref v1_NodeResourceTopologyCache_DeepCopyInto in_.

#[export] Instance v1_NodeResourceTopologyCache_copies : Copies v1_NodeResourceTopologyCache_DeepCopyInto.
Proof. copy_struct v1_NodeResourceTopologyCache_DeepCopyInto abs_NodeResourceTopologyCache. Qed.

Definition v1_PowerModel_DeepCopyInto (in_ : PowerModel) : M cell PowerModel :=
  mret in_.

Definition v1_PowerModel_DeepCopy (in_ : ref PowerModel) : M cell (ref PowerModel) :=
  copy_ref v1_PowerModel_DeepCopyInto in_.

#[export] Instance v1_PowerModel_copies : Copies v1_PowerModel_DeepCopyInto := copies_plain.

Definition v1_MetricProviderSpec_DeepCopyInto (in_ : v1_MetricProviderSpec ref) :
    M cell (v1_MetricProviderSpec ref) :=
  x1 ← copy_ref mret (mp_Address in_);
  x2 ← copy_ref mret (mp_Token in_);
  x3 ← copy_ref mret (mp_InsecureSkipVerify in_);
    mret {| mp_Type := mp_Type in_; mp_Address := x1; mp_Token := x2; mp_InsecureSkipVerify := x3 |}.

Definition v1_MetricProviderSpec_DeepCopy (in_ : ref (v1_MetricProviderSpec ref)) :
    M cell (ref (v1_MetricProviderSpec ref)) :=
  copy_ref v1_MetricProviderSpec_DeepCopyInto in_.

#[export] Instance v1_MetricProviderSpec_copies : Copies v1_MetricProviderSpec_DeepCopyInto.
Proof. copy_struct v1_MetricProviderSpec_DeepCopyInto abs_v1_MetricProviderSpec. Qed.

Definition v1_TrimaranSpec_DeepCopyInto (in_ : v1_TrimaranSpec ref) : M cell (v1_TrimaranSpec ref) :=
  x1 ← v1_MetricProviderSpec_DeepCopyInto (ts_MetricProvider in_);
  x2 ← copy_ref mret (ts_WatcherAddress in_);
    mret {| ts_MetricProvider := x1; ts_WatcherAddress := x2 |}.

Definition v1_TrimaranSpec_DeepCopy (in_ : ref (v1_TrimaranSpec ref)) : M cell (ref (v1_TrimaranSpec ref)) :=
  copy_ref v1_TrimaranSpec_DeepCopyInto in_.

#[export] Instance v1_TrimaranSpec_copies : Copies v1_TrimaranSpec_DeepCopyInto.
Proof. copy_struct v1_TrimaranSpec_DeepCopyInto abs_v1_TrimaranSpec. Qed.

Definition v1_CoschedulingArgs_DeepCopyInto (in_ : v1_CoschedulingArgs ref) : M cell (v1_CoschedulingArgs ref) :=
  x1 ← copy_ref mret (co_PermitWaitingTimeSeconds in_);
  x2 ← copy_ref mret (co_PodGroupBackoffSeconds in_);
    mret {| co_TypeMeta := co_TypeMeta in_; co_PermitWaitingTimeSeconds := x1; co_PodGroupBackoffSeconds := x2 |}.

Definition v1_CoschedulingArgs_DeepCopy (in_ : ref (v1_CoschedulingArgs ref)) :
    M cell (ref (v1_CoschedulingArgs ref)) :=
  copy_ref v1_CoschedulingArgs_DeepCopyInto in_.

Definition v1_CoschedulingArgs_DeepCopyObject (in_ : ref (v1_CoschedulingArgs ref)) : M cell Object :=
  c ← v1_CoschedulingArgs_DeepCopy in_; mret (as_object c).

#[export] Instance v1_CoschedulingArgs_copies : Copies v1_CoschedulingArgs_DeepCopyInto.
Proof. copy_struct v1_CoschedulingArgs_DeepCopyInto abs_v1_CoschedulingArgs. Qed.

Definition v1_NodeResourcesAllocatableArgs_DeepCopyInto (in_ : v1_NodeResourcesAllocatableArgs ref) :
    M cell (v1_NodeResourcesAllocatableArgs ref) :=
  x1 ← copy_ref (copy_slice mret) (na_Resources in_);
    mret {| na_TypeMeta := na_TypeMeta in_; na_Resources := x1; na_Mode := na_Mode in_ |}.

Definition v1_NodeResourcesAllocatableArgs_DeepCopy (in_ : ref (v1_NodeResourcesAllocatableArgs ref)) :
    M cell (ref (v1_NodeResourcesAllocatableArgs ref)) :=
  copy_ref v1_NodeResourcesAllocatableArgs_DeepCopyInto in_.

Definition v1_NodeResourcesAllocatableArgs_DeepCopyObject (in_ : ref (v1_NodeResourcesAllocatableArgs ref)) :
    M cell Object :=
  c ← v1_NodeResourcesAllocatableArgs_DeepCopy in_; mret (as_object c).

#[export] Instance v1_NodeResourcesAllocatableArgs_copies : Copies v1_NodeResourcesAllocatableArgs_DeepCopyInto.
Proof. copy_struct v1_NodeResourcesAllocatableArgs_DeepCopyInto abs_v1_NodeResourcesAllocatableArgs. Qed.

Definition v1_TargetLoadPackingArgs_DeepCopyInto (in_ : v1_TargetLoadPackingArgs ref) :
    M cell (v1_TargetLoadPackingArgs ref) :=
  x1 ← v1_TrimaranSpec_DeepCopyInto (tl_TrimaranSpec in_);
  x2 ← copy_ref (copy_map q_DeepCopy) (tl_DefaultRequests in_);
  x3 ← copy_ref mret (tl_DefaultRequestsMultiplier in_);
  x4 ← copy_ref mret (tl_TargetUtilization in_);
    mret {| tl_TypeMeta := tl_TypeMeta in_; tl_TrimaranSpec := x1; tl_DefaultRequests := x2;
        tl_DefaultRequestsMultiplier := x3; tl_TargetUtilization := x4 |}.

Definition v1_TargetLoadPackingArgs_DeepCopy (in_ : ref (v1_TargetLoadPackingArgs ref)) :
    M cell (ref (v1_TargetLoadPackingArgs ref)) :=
  copy_ref v1_TargetLoadPackingArgs_DeepCopyInto in_.

Definition v1_TargetLoadPackingArgs_DeepCopyObject (in_ : ref (v1_TargetLoadPackingArgs ref)) : M cell Object :=
  c ← v1_TargetLoadPackingArgs_DeepCopy in_; mret (as_object c).

#[export] Instance v1_TargetLoadPackingArgs_copies : Copies v1_TargetLoadPackingArgs_DeepCopyInto.
Proof. copy_struct v1_TargetLoadPackingArgs_DeepCopyInto abs_v1_TargetLoadPackingArgs. Qed.

Definition v1_LoadVariationRiskBalancingArgs_DeepCopyInto (in_ : v1_LoadVariationRiskBalancingArgs ref) :
    M cell (v1_LoadVariationRiskBalancingArgs ref) :=
  x1 ← v1_TrimaranSpec_DeepCopyInto (lv_TrimaranSpec in_);
  x2 ← copy_ref mret (lv_SafeVarianceMargin in_);
  x3 ← copy_ref mret (lv_SafeVarianceSensitivity in_);
    mret {| lv_TypeMeta := lv_TypeMeta in_; lv_TrimaranSpec := x1; lv_SafeVarianceMargin := x2;
        lv_SafeVarianceSensitivity := x3 |}.

Definition v1_LoadVariationRiskBalancingArgs_DeepCopy (in_ : ref (v1_LoadVariationRiskBalancingArgs ref)) :
    M cell (ref (v1_LoadVariationRiskBalancingArgs ref)) :=
  copy_ref v1_LoadVariationRiskBalancingArgs_DeepCopyInto in_.

Definition v1_LoadVariationRiskBalancingArgs_DeepCopyObject (in_ : ref (v1_LoadVariationRiskBalancingArgs ref)) :
    M cell Object :=
  c ← v1_LoadVariationRiskBalancingArgs_DeepCopy in_; mret (as_object c).

#[export] Instance v1_LoadVariationRiskBalancingArgs_copies : Copies v1_LoadVariationRiskBalancingArgs_DeepCopyInto.
Proof. copy_struct v1_LoadVariationRiskBalancingArgs_DeepCopyInto abs_v1_LoadVariationRiskBalancingArgs. Qed.

Definition v1_LowRiskOverCommitmentArgs_DeepCopyInto (in_ : v1_LowRiskOverCommitmentArgs ref) :
    M cell (v1_LowRiskOverCommitmentArgs ref) :=
  x1 ← v1_TrimaranSpec_DeepCopyInto (lr_TrimaranSpec in_);
  x2 ← copy_ref mret (lr_SmoothingWindowSize in_);
  x3 ← copy_ref (copy_map (λ val, val)) (lr_RiskLimitWeights in_);
    mret {| lr_TypeMeta := lr_TypeMeta in_; lr_TrimaranSpec := x1; lr_SmoothingWindowSize := x2;
        lr_RiskLimitWeights := x3 |}.

Definition v1_LowRiskOverCommitmentArgs_DeepCopy (in_ : ref (v1_LowRiskOverCommitmentArgs ref)) :
    M cell (ref (v1_LowRiskOverCommitmentArgs ref)) :=
  copy_ref v1_LowRiskOverCommitmentArgs_DeepCopyInto in_.

Definition v1_LowRiskOverCommitmentArgs_DeepCopyObject (in_ : ref (v1_LowRiskOverCommitmentArgs ref)) :
    M cell Object :=
  c ← v1_LowRiskOverCommitmentArgs_DeepCopy in_; mret (as_object c).

#[export] Instance v1_LowRiskOverCommitmentArgs_copies : Copies v1_LowRiskOverCommitmentArgs_DeepCopyInto.
Proof. copy_struct v1_LowRiskOverCommitmentArgs_DeepCopyInto abs_v1_LowRiskOverCommitmentArgs. Qed.

Definition v1_NodeResourceTopologyMatchArgs_DeepCopyInto (in_ : v1_NodeResourceTopologyMatchArgs ref) :
    M cell (v1_NodeResourceTopologyMatchArgs ref) :=
  x1 ← copy_ref v1_ScoringStrategy_DeepCopyInto (nm_ScoringStrategy in_);
  x2 ← copy_ref mret (nm_CacheResyncPeriodSeconds in_);
  x3 ← copy_ref v1_NodeResourceTopologyCache_DeepCopyInto (nm_Cache in_);
    mret {| nm_TypeMeta := nm_TypeMeta in_; nm_ScoringStrategy := x1; nm_CacheResyncPeriodSeconds := x2;
        nm_DiscardReservedNodes := nm_DiscardReservedNodes in_; nm_Cache := x3 |}.

Definition v1_NodeResourceTopologyMatchArgs_DeepCopy (in_ : ref (v1_NodeResourceTopologyMatchArgs ref)) :
    M cell (ref (v1_NodeResourceTopologyMatchArgs ref)) :=
  copy_ref v1_NodeResourceTopologyMatchArgs_DeepCopyInto in_.

Definition v1_NodeResourceTopologyMatchArgs_DeepCopyObject (in_ : ref (v1_NodeResourceTopologyMatchArgs ref)) :
    M cell Object :=
  c ← v1_NodeResourceTopologyMatchArgs_DeepCopy in_; mret (as_object c).

#[export] Instance v1_NodeResourceTopologyMatchArgs_copies : Copies v1_NodeResourceTopologyMatchArgs_DeepCopyInto.
Proof. copy_struct v1_NodeResourceTopologyMatchArgs_DeepCopyInto abs_v1_NodeResourceTopologyMatchArgs. Qed.

Definition v1_PreemptionTolerationArgs_DeepCopyInto (in_ : v1_PreemptionTolerationArgs ref) :
    M cell (v1_PreemptionTolerationArgs ref) :=
  x1 ← copy_ref mret (pt_MinCandidateNodesPercentage in_);
  x2 ← copy_ref mret (pt_MinCandidateNodesAbsolute in_);
    mret {| pt_TypeMeta := pt_TypeMeta in_; pt_MinCandidateNodesPercentage := x1;
        pt_MinCandidateNodesAbsolute := x2 |}.

Definition v1_PreemptionTolerationArgs_DeepCopy (in_ : ref (v1_PreemptionTolerationArgs ref)) :
    M cell (ref (v1_PreemptionTolerationArgs ref)) :=
  copy_ref v1_PreemptionTolerationArgs_DeepCopyInto in_.

Definition v1_PreemptionTolerationArgs_DeepCopyObject (in_ : ref (v1_PreemptionTolerationArgs ref)) :
    M cell Object :=
  c ← v1_PreemptionTolerationArgs_DeepCopy in_; mret (as_object c).

#[export] Instance v1_PreemptionTolerationArgs_copies : Copies v1_PreemptionTolerationArgs_DeepCopyInto.
Proof. copy_struct v1_PreemptionTolerationArgs_DeepCopyInto abs_v1_PreemptionTolerationArgs. Qed.

Definition v1_TopologicalSortArgs_DeepCopyInto (in_ : v1_TopologicalSortArgs ref) :
    M cell (v1_TopologicalSortArgs ref) :=
  x1 ← copy_ref (copy_slice mret) (tt_Namespaces in_);
    mret {| tt_TypeMeta := tt_TypeMeta in_; tt_Namespaces := x1 |}.

Definition v1_TopologicalSortArgs_DeepCopy (in_ : ref (v1_TopologicalSortArgs ref)) :
    M cell (ref (v1_TopologicalSortArgs ref)) :=
  copy_ref v1_TopologicalSortArgs_DeepCopyInto in_.

Definition v1_TopologicalSortArgs_DeepCopyObject (in_ : ref (v1_TopologicalSortArgs ref)) : M cell Object :=
  c ← v1_TopologicalSortArgs_DeepCopy in_; mret (as_object c).

#[export] Instance v1_TopologicalSortArgs_copies : Copies v1_TopologicalSortArgs_DeepCopyInto.
Proof. copy_struct v1_TopologicalSortArgs_DeepCopyInto abs_v1_TopologicalSortArgs. Qed.

Definition v1_NetworkOverheadArgs_DeepCopyInto (in_ : v1_NetworkOverheadArgs ref) :
    M cell (v1_NetworkOverheadArgs ref) :=
  x1 ← copy_ref (copy_slice mret) (no_Namespaces in_);
  x2 ← copy_ref mret (no_WeightsName in_);
  x3 ← copy_ref mret (no_NetworkTopologyName in_);
    mret {| no_TypeMeta := no_TypeMeta in_; no_Namespaces := x1; no_WeightsName := x2;
        no_NetworkTopologyName := x3 |}.

Definition v1_NetworkOverheadArgs_DeepCopy (in_ : ref (v1_NetworkOverheadArgs ref)) :
    M cell (ref (v1_NetworkOverheadArgs ref)) :=
  copy_ref v1_NetworkOverheadArgs_DeepCopyInto in_.

Definition v1_NetworkOverheadArgs_DeepCopyObject (in_ : ref (v1_NetworkOverheadArgs ref)) : M cell Object :=
  c ← v1_NetworkOverheadArgs_DeepCopy in_; mret (as_object c).

#[export] Instance v1_NetworkOverheadArgs_copies : Copies v1_NetworkOverheadArgs_DeepCopyInto.
Proof. copy_struct v1_NetworkOverheadArgs_DeepCopyInto abs_v1_NetworkOverheadArgs. Qed.

Definition v1_SySchedArgs_DeepCopyInto (in_ : v1_SySchedArgs ref) : M cell (v1_SySchedArgs ref) :=
  x1 ← copy_ref mret (sy_DefaultProfileNamespace in_);
  x2 ← copy_ref mret (sy_DefaultProfileName in_);
    mret {| sy_TypeMeta := sy_TypeMeta in_; sy_DefaultProfileNamespace := x1; sy_DefaultProfileName := x2 |}.

Definition v1_SySchedArgs_DeepCopy (in_ : ref (v1_SySchedArgs ref)) : M cell (ref (v1_SySchedArgs ref)) :=
  copy_ref v1_SySchedArgs_DeepCopyInto in_.

Definition v1_SySchedArgs_DeepCopyObject (in_ : ref (v1_SySchedArgs ref)) : M cell Object :=
  c ← v1_SySchedArgs_DeepCopy in_; mret (as_object c).

#[export] Instance v1_SySchedArgs_copies : Copies v1_SySchedArgs_DeepCopyInto.
Proof. copy_struct v1_SySchedArgs_DeepCopyInto abs_v1_SySchedArgs. Qed.

Definition v1_PeaksArgs_DeepCopyInto (in_ : v1_PeaksArgs ref) : M cell (v1_PeaksArgs ref) :=
  x1 ← copy_ref (copy_map (λ val, val)) (pk_NodePowerModel in_);
    mret {| pk_TypeMeta := pk_TypeMeta in_; pk_WatcherAddress := pk_WatcherAddress in_; pk_NodePowerModel := x1 |}.

Definition v1_PeaksArgs_DeepCopy (in_ : ref (v1_PeaksArgs ref)) : M cell (ref (v1_PeaksArgs ref)) :=
  copy_ref v1_PeaksArgs_DeepCopyInto in_.

Definition v1_PeaksArgs_DeepCopyObject (in_ : ref (v1_PeaksArgs ref)) : M cell Object :=
  c ← v1_PeaksArgs_DeepCopy in_; mret (as_object c).

#[export] Instance v1_PeaksArgs_copies : Copies v1_PeaksArgs_DeepCopyInto.
Proof. copy_struct v1_PeaksArgs_DeepCopyInto abs_v1_PeaksArgs. Qed.

(** ** apis/config *)

Definition config_ScoringStrategy_DeepCopyInto (in_ : ScoringStrategy ref) : M cell (ScoringStrategy ref) :=
  x1 ← copy_ref (copy_slice mret) (ss_Resources in_);
    mret {| ss_Type := ss_Type in_; ss_Resources := x1 |}.

Definition config_ScoringStrategy_DeepCopy (in_ : ref (ScoringStrategy ref)) :
    M cell (ref (ScoringStrategy ref)) :=
  copy_ref config_ScoringStrategy_DeepCopyInto in_.

#[export] Instance config_ScoringStrategy_copies : Copies config_ScoringStrategy_DeepCopyInto.
Proof. copy_struct config_ScoringStrategy_DeepCopyInto abs_ScoringStrategy. Qed.

Definition config_NodeResourceTopologyCache_DeepCopyInto (in_ : NodeResourceTopologyCache ref) :
    M cell (NodeResourceTopologyCache ref) :=
  x1 ← copy_ref mret (nc_ForeignPodsDetect in_);
  x2 ← copy_ref mret (nc_ResyncMethod in_);
  x3 ← copy_ref mret (nc_InformerMode in_);
  x4 ← copy_ref mret (nc_ResyncScope in_);
    mret {| nc_ForeignPodsDetect := x1; nc_ResyncMethod := x2; nc_InformerMode := x3; nc_ResyncScope := x4 |}.

Definition config_NodeResourceTopologyCache_DeepCopy (in_ : ref (NodeResourceTopologyCache ref)) :
    M cell (ref (NodeResourceTopologyCache ref)) :=
  copy_ref config_NodeResourceTopologyCache_DeepCopyInto in_.

#[export] Instance config_NodeResourceTopologyCache_copies : Copies config_NodeResourceTopologyCache_DeepCopyInto.
Proof. copy_struct config_NodeResourceTopologyCache_DeepCopyInto abs_NodeResourceTopologyCache. Qed.

Definition config_PowerModel_DeepCopyInto (in_ : PowerModel) : M cell PowerModel :=
  mret in_.

Definition config_PowerModel_DeepCopy (in_ : ref PowerModel) : M cell (ref PowerModel) :=
  copy_ref config_PowerModel_DeepCopyInto in_.

#[export] Instance config_PowerModel_copies : Copies config_PowerModel_DeepCopyInto := copies_plain.

Definition config_MetricProviderSpec_DeepCopyInto (in_ : config_MetricProviderSpec) :
    M cell config_MetricProviderSpec :=
  mret in_.

Definition config_MetricProviderSpec_DeepCopy (in_ : ref config_MetricProviderSpec) :
    M cell (ref config_MetricProviderSpec) :=
  copy_ref config_MetricProviderSpec_DeepCopyInto in_.

#[export] Instance config_MetricProviderSpec_copies : Copies config_MetricProviderSpec_DeepCopyInto := copies_plain.

Definition config_TrimaranSpec_DeepCopyInto (in_ : config_TrimaranSpec) : M cell config_TrimaranSpec :=
  mret in_.

Definition config_TrimaranSpec_DeepCopy (in_ : ref config_TrimaranSpec) : M cell (ref config_TrimaranSpec) :=
  copy_ref config_TrimaranSpec_DeepCopyInto in_.

#[export] Instance config_TrimaranSpec_copies : Copies config_TrimaranSpec_DeepCopyInto := copies_plain.

Definition config_CoschedulingArgs_DeepCopyInto (in_ : config_CoschedulingArgs) : M cell config_CoschedulingArgs :=
  mret in_.

Definition config_CoschedulingArgs_DeepCopy (in_ : ref config_CoschedulingArgs) :
    M cell (ref config_CoschedulingArgs) :=
  copy_ref config_CoschedulingArgs_DeepCopyInto in_.

Definition config_CoschedulingArgs_DeepCopyObject (in_ : ref config_CoschedulingArgs) : M cell Object :=
  c ← config_CoschedulingArgs_DeepCopy in_; mret (as_object c).

#[export] Instance config_CoschedulingArgs_copies : Copies config_CoschedulingArgs_DeepCopyInto := copies_plain.

Definition config_NodeResourcesAllocatableArgs_DeepCopyInto (in_ : config_NodeResourcesAllocatableArgs ref) :
    M cell (config_NodeResourcesAllocatableArgs ref) :=
  x1 ← copy_ref (copy_slice mret) (cna_Resources in_);
    mret {| cna_TypeMeta := cna_TypeMeta in_; cna_Resources := x1; cna_Mode := cna_Mode in_ |}.

Definition config_NodeResourcesAllocatableArgs_DeepCopy (in_ : ref (config_NodeResourcesAllocatableArgs ref)) :
    M cell (ref (config_NodeResourcesAllocatableArgs ref)) :=
  copy_ref config_NodeResourcesAllocatableArgs_DeepCopyInto in_.

Definition config_NodeResourcesAllocatableArgs_DeepCopyObject (in_ : ref (config_NodeResourcesAllocatableArgs ref)) :
    M cell Object :=
  c ← config_NodeResourcesAllocatableArgs_DeepCopy in_; mret (as_object c).

#[export] Instance config_NodeResourcesAllocatableArgs_copies : Copies config_NodeResourcesAllocatableArgs_DeepCopyInto.
Proof. copy_struct config_NodeResourcesAllocatableArgs_DeepCopyInto abs_config_NodeResourcesAllocatableArgs. Qed.

Definition config_TargetLoadPackingArgs_DeepCopyInto (in_ : config_TargetLoadPackingArgs ref) :
    M cell (config_TargetLoadPackingArgs ref) :=
  x1 ← copy_ref (copy_map q_DeepCopy) (ctl_DefaultRequests in_);
    mret {| ctl_TypeMeta := ctl_TypeMeta in_; ctl_TrimaranSpec := ctl_TrimaranSpec in_;
        ctl_DefaultRequests := x1; ctl_DefaultRequestsMultiplier := ctl_DefaultRequestsMultiplier in_;
        ctl_TargetUtilization := ctl_TargetUtilization in_ |}.

Definition config_TargetLoadPackingArgs_DeepCopy (in_ : ref (config_TargetLoadPackingArgs ref)) :
    M cell (ref (config_TargetLoadPackingArgs ref)) :=
  copy_ref config_TargetLoadPackingArgs_DeepCopyInto in_.

Definition config_TargetLoadPackingArgs_DeepCopyObject (in_ : ref (config_TargetLoadPackingArgs ref)) :
    M cell Object :=
  c ← config_TargetLoadPackingArgs_DeepCopy in_; mret (as_object c).

#[export] Instance config_TargetLoadPackingArgs_copies : Copies config_TargetLoadPackingArgs_DeepCopyInto.
Proof. copy_struct config_TargetLoadPackingArgs_DeepCopyInto abs_config_TargetLoadPackingArgs. Qed.

Definition config_LoadVariationRiskBalancingArgs_DeepCopyInto (in_ : config_LoadVariationRiskBalancingArgs) :
    M cell config_LoadVariationRiskBalancingArgs :=
  mret in_.

Definition config_LoadVariationRiskBalancingArgs_DeepCopy (in_ : ref config_LoadVariationRiskBalancingArgs) :
    M cell (ref config_LoadVariationRiskBalancingArgs) :=
  copy_ref config_LoadVariationRiskBalancingArgs_DeepCopyInto in_.

Definition config_LoadVariationRiskBalancingArgs_DeepCopyObject (in_ : ref config_LoadVariationRiskBalancingArgs) :
    M cell Object :=
  c ← config_LoadVariationRiskBalancingArgs_DeepCopy in_; mret (as_object c).

#[export] Instance config_LoadVariationRiskBalancingArgs_copies : Copies config_LoadVariationRiskBalancingArgs_DeepCopyInto := copies_plain.

Definition config_LowRiskOverCommitmentArgs_DeepCopyInto (in_ : config_LowRiskOverCommitmentArgs ref) :
    M cell (config_LowRiskOverCommitmentArgs ref) :=
  x1 ← copy_ref (copy_map (λ val, val)) (clr_RiskLimitWeights in_);
    mret {| clr_TypeMeta := clr_TypeMeta in_; clr_TrimaranSpec := clr_TrimaranSpec in_;
        clr_SmoothingWindowSize := clr_SmoothingWindowSize in_; clr_RiskLimitWeights := x1 |}.

Definition config_LowRiskOverCommitmentArgs_DeepCopy (in_ : ref (config_LowRiskOverCommitmentArgs ref)) :
    M cell (ref (config_LowRiskOverCommitmentArgs ref)) :=
  copy_ref config_LowRiskOverCommitmentArgs_DeepCopyInto in_.

Definition config_LowRiskOverCommitmentArgs_DeepCopyObject (in_ : ref (config_LowRiskOverCommitmentArgs ref)) :
    M cell Object :=
  c ← config_LowRiskOverCommitmentArgs_DeepCopy in_; mret (as_object c).

#[export] Instance config_LowRiskOverCommitmentArgs_copies : Copies config_LowRiskOverCommitmentArgs_DeepCopyInto.
Proof. copy_struct config_LowRiskOverCommitmentArgs_DeepCopyInto abs_config_LowRiskOverCommitmentArgs. Qed.

Definition config_NodeResourceTopologyMatchArgs_DeepCopyInto (in_ : config_NodeResourceTopologyMatchArgs ref box) :
    M cell (config_NodeResourceTopologyMatchArgs ref box) :=
  x1 ← copy_box config_ScoringStrategy_DeepCopyInto (cnm_ScoringStrategy in_);
  x2 ← copy_ref config_NodeResourceTopologyCache_DeepCopyInto (cnm_Cache in_);
    mret {| cnm_TypeMeta := cnm_TypeMeta in_; cnm_ScoringStrategy := x1;
        cnm_CacheResyncPeriodSeconds := cnm_CacheResyncPeriodSeconds in_;
        cnm_DiscardReservedNodes := cnm_DiscardReservedNodes in_; cnm_Cache := x2 |}.

Definition config_NodeResourceTopologyMatchArgs_DeepCopy (in_ : ref (config_NodeResourceTopologyMatchArgs ref box)) :
    M cell (ref (config_NodeResourceTopologyMatchArgs ref box)) :=
  copy_ref config_NodeResourceTopologyMatchArgs_DeepCopyInto in_.

Definition config_NodeResourceTopologyMatchArgs_DeepCopyObject (in_ : ref (config_NodeResourceTopologyMatchArgs ref box)) :
    M cell Object :=
  c ← config_NodeResourceTopologyMatchArgs_DeepCopy in_; mret (as_object c).

#[export] Instance config_NodeResourceTopologyMatchArgs_copies : Copies config_NodeResourceTopologyMatchArgs_DeepCopyInto.
Proof. copy_struct config_NodeResourceTopologyMatchArgs_DeepCopyInto abs_config_NodeResourceTopologyMatchArgs. Qed.

Definition config_PreemptionTolerationArgs_DeepCopyInto (in_ : config_PreemptionTolerationArgs) :
    M cell config_PreemptionTolerationArgs :=
  mret in_.

Definition config_PreemptionTolerationArgs_DeepCopy (in_ : ref config_PreemptionTolerationArgs) :
    M cell (ref config_PreemptionTolerationArgs) :=
  copy_ref config_PreemptionTolerationArgs_DeepCopyInto in_.

Definition config_PreemptionTolerationArgs_DeepCopyObject (in_ : ref config_PreemptionTolerationArgs) :
    M cell Object :=
  c ← config_PreemptionTolerationArgs_DeepCopy in_; mret (as_object c).

#[export] Instance config_PreemptionTolerationArgs_copies : Copies config_PreemptionTolerationArgs_DeepCopyInto := copies_plain.

Definition config_TopologicalSortArgs_DeepCopyInto (in_ : config_TopologicalSortArgs ref) :
    M cell (config_TopologicalSortArgs ref) :=
  x1 ← copy_ref (copy_slice mret) (ctt_Namespaces in_);
    mret {| ctt_TypeMeta := ctt_TypeMeta in_; ctt_Namespaces := x1 |}.

Definition config_TopologicalSortArgs_DeepCopy (in_ : ref (config_TopologicalSortArgs ref)) :
    M cell (ref (config_TopologicalSortArgs ref)) :=
  copy_ref config_TopologicalSortArgs_DeepCopyInto in_.

Definition config_TopologicalSortArgs_DeepCopyObject (in_ : ref (config_TopologicalSortArgs ref)) :
    M cell Object :=
  c ← config_TopologicalSortArgs_DeepCopy in_; mret (as_object c).

#[export] Instance config_TopologicalSortArgs_copies : Copies config_TopologicalSortArgs_DeepCopyInto.
Proof. copy_struct config_TopologicalSortArgs_DeepCopyInto abs_config_TopologicalSortArgs. Qed.

Definition config_NetworkOverheadArgs_DeepCopyInto (in_ : config_NetworkOverheadArgs ref) :
    M cell (config_NetworkOverheadArgs ref) :=
  x1 ← copy_ref (copy_slice mret) (cno_Namespaces in_);
    mret {| cno_TypeMeta := cno_TypeMeta in_; cno_Namespaces := x1; cno_WeightsName := cno_WeightsName in_;
        cno_NetworkTopologyName := cno_NetworkTopologyName in_ |}.

Definition config_NetworkOverheadArgs_DeepCopy (in_ : ref (config_NetworkOverheadArgs ref)) :
    M cell (ref (config_NetworkOverheadArgs ref)) :=
  copy_ref config_NetworkOverheadArgs_DeepCopyInto in_.

Definition config_NetworkOverheadArgs_DeepCopyObject (in_ : ref (config_NetworkOverheadArgs ref)) :
    M cell Object :=
  c ← config_NetworkOverheadArgs_DeepCopy in_; mret (as_object c).

#[export] Instance config_NetworkOverheadArgs_copies : Copies config_NetworkOverheadArgs_DeepCopyInto.
Proof. copy_struct config_NetworkOverheadArgs_DeepCopyInto abs_config_NetworkOverheadArgs. Qed.

Definition config_SySchedArgs_DeepCopyInto (in_ : config_SySchedArgs) : M cell config_SySchedArgs :=
  mret in_.

Definition config_SySchedArgs_DeepCopy (in_ : ref config_SySchedArgs) : M cell (ref config_SySchedArgs) :=
  copy_ref config_SySchedArgs_DeepCopyInto in_.

Definition config_SySchedArgs_DeepCopyObject (in_ : ref config_SySchedArgs) : M cell Object :=
  c ← config_SySchedArgs_DeepCopy in_; mret (as_object c).

#[export] Instance config_SySchedArgs_copies : Copies config_SySchedArgs_DeepCopyInto := copies_plain.

Definition config_PeaksArgs_DeepCopyInto (in_ : config_PeaksArgs ref) : M cell (config_PeaksArgs ref) :=
  x1 ← copy_ref (copy_map (λ val, val)) (cpk_NodePowerModel in_);
    mret {| cpk_TypeMeta := cpk_TypeMeta in_; cpk_WatcherAddress := cpk_WatcherAddress in_;
        cpk_NodePowerModel := x1 |}.

Definition config_PeaksArgs_DeepCopy (in_ : ref (config_PeaksArgs ref)) : M cell (ref (config_PeaksArgs ref)) :=
  copy_ref config_PeaksArgs_DeepCopyInto in_.

Definition config_PeaksArgs_DeepCopyObject (in_ : ref (config_PeaksArgs ref)) : M cell Object :=
  c ← config_PeaksArgs_DeepCopy in_; mret (as_object c).

#[export] Instance config_PeaksArgs_copies : Copies config_PeaksArgs_DeepCopyInto.
Proof. copy_struct config_PeaksArgs_DeepCopyInto abs_config_PeaksArgs. Qed.

(** ** apis/scheduling/v1alpha1 *)

Definition ElasticQuotaSpec_DeepCopyInto (in_ : ElasticQuotaSpec ref) : M cell (ElasticQuotaSpec ref) :=
  x1 ← copy_ref (copy_map q_DeepCopy) (eqs_Min in_);
  x2 ← copy_ref (copy_map q_DeepCopy) (eqs_Max in_);
    mret {| eqs_Min := x1; eqs_Max := x2 |}.

Definition ElasticQuotaSpec_DeepCopy (in_ : ref (ElasticQuotaSpec ref)) : M cell (ref (ElasticQuotaSpec ref)) :=
  copy_ref ElasticQuotaSpec_DeepCopyInto in_.

#[export] Instance ElasticQuotaSpec_copies : Copies ElasticQuotaSpec_DeepCopyInto.
Proof. copy_struct ElasticQuotaSpec_DeepCopyInto abs_ElasticQuotaSpec. Qed.

Definition ElasticQuotaStatus_DeepCopyInto (in_ : ElasticQuotaStatus ref) : M cell (ElasticQuotaStatus ref) :=
  x1 ← copy_ref (copy_map q_DeepCopy) (eqt_Used in_);
    mret {| eqt_Used := x1 |}.

Definition ElasticQuotaStatus_DeepCopy (in_ : ref (ElasticQuotaStatus ref)) :
    M cell (ref (ElasticQuotaStatus ref)) :=
  copy_ref ElasticQuotaStatus_DeepCopyInto in_.

#[export] Instance ElasticQuotaStatus_copies : Copies ElasticQuotaStatus_DeepCopyInto.
Proof. copy_struct ElasticQuotaStatus_DeepCopyInto abs_ElasticQuotaStatus. Qed.

Definition ElasticQuota_DeepCopyInto (in_ : ElasticQuota ref) : M cell (ElasticQuota ref) :=
  x1 ← ObjectMeta_DeepCopyInto (eq_ObjectMeta in_);
  x2 ← ElasticQuotaSpec_DeepCopyInto (eq_Spec in_);
  x3 ← ElasticQuotaStatus_DeepCopyInto (eq_Status in_);
    mret {| eq_TypeMeta := eq_TypeMeta in_; eq_ObjectMeta := x1; eq_Spec := x2; eq_Status := x3 |}.

Definition ElasticQuota_DeepCopy (in_ : ref (ElasticQuota ref)) : M cell (ref (ElasticQuota ref)) :=
  copy_ref ElasticQuota_DeepCopyInto in_.

Definition ElasticQuota_DeepCopyObject (in_ : ref (ElasticQuota ref)) : M cell Object :=
  c ← ElasticQuota_DeepCopy in_; mret (as_object c).

#[export] Instance ElasticQuota_copies : Copies ElasticQuota_DeepCopyInto.
Proof. copy_struct ElasticQuota_DeepCopyInto abs_ElasticQuota. Qed.

Definition ElasticQuotaList_DeepCopyInto (in_ : ElasticQuotaList ref) : M cell (ElasticQuotaList ref) :=
  x1 ← ListMeta_DeepCopyInto (eql_ListMeta in_);
  x2 ← copy_ref (copy_slice ElasticQuota_DeepCopyInto) (eql_Items in_);
    mret {| eql_TypeMeta := eql_TypeMeta in_; eql_ListMeta := x1; eql_Items := x2 |}.

Definition ElasticQuotaList_DeepCopy (in_ : ref (ElasticQuotaList ref)) : M cell (ref (ElasticQuotaList ref)) :=
  copy_ref ElasticQuotaList_DeepCopyInto in_.

Definition ElasticQuotaList_DeepCopyObject (in_ : ref (ElasticQuotaList ref)) : M cell Object :=
  c ← ElasticQuotaList_DeepCopy in_; mret (as_object c).

#[export] Instance ElasticQuotaList_copies : Copies ElasticQuotaList_DeepCopyInto.
Proof. copy_struct ElasticQuotaList_DeepCopyInto abs_ElasticQuotaList. Qed.

Definition PodGroupSpec_DeepCopyInto (in_ : PodGroupSpec ref) : M cell (PodGroupSpec ref) :=
  x1 ← copy_ref (copy_map q_DeepCopy) (pgs_MinResources in_);
  x2 ← copy_ref mret (pgs_ScheduleTimeoutSeconds in_);
    mret {| pgs_MinMember := pgs_MinMember in_; pgs_MinResources := x1; pgs_ScheduleTimeoutSeconds := x2 |}.

Definition PodGroupSpec_DeepCopy (in_ : ref (PodGroupSpec ref)) : M cell (ref (PodGroupSpec ref)) :=
  copy_ref PodGroupSpec_DeepCopyInto in_.

#[export] Instance PodGroupSpec_copies : Copies PodGroupSpec_DeepCopyInto.
Proof. copy_struct PodGroupSpec_DeepCopyInto abs_PodGroupSpec. Qed.

Definition PodGroupStatus_DeepCopyInto (in_ : PodGroupStatus) : M cell PodGroupStatus :=
  mret in_.

Definition PodGroupStatus_DeepCopy (in_ : ref PodGroupStatus) : M cell (ref PodGroupStatus) :=
  copy_ref PodGroupStatus_DeepCopyInto in_.

#[export] Instance PodGroupStatus_copies : Copies PodGroupStatus_DeepCopyInto := copies_plain.

Definition PodGroup_DeepCopyInto (in_ : PodGroup ref) : M cell (PodGroup ref) :=
  x1 ← ObjectMeta_DeepCopyInto (pg_ObjectMeta in_);
  x2 ← PodGroupSpec_DeepCopyInto (pg_Spec in_);
  x3 ← PodGroupStatus_DeepCopyInto (pg_Status in_);
    mret {| pg_TypeMeta := pg_TypeMeta in_; pg_ObjectMeta := x1; pg_Spec := x2; pg_Status := x3 |}.

Definition PodGroup_DeepCopy (in_ : ref (PodGroup ref)) : M cell (ref (PodGroup ref)) :=
  copy_ref PodGroup_DeepCopyInto in_.

Definition PodGroup_DeepCopyObject (in_ : ref (PodGroup ref)) : M cell Object :=
  c ← PodGroup_DeepCopy in_; mret (as_object c).

#[export] Instance PodGroup_copies : Copies PodGroup_DeepCopyInto.
Proof. copy_struct PodGroup_DeepCopyInto abs_PodGroup. Qed.

Definition PodGroupList_DeepCopyInto (in_ : PodGroupList ref) : M cell (PodGroupList ref) :=
  x1 ← ListMeta_DeepCopyInto (pgl_ListMeta in_);
  x2 ← copy_ref (copy_slice PodGroup_DeepCopyInto) (pgl_Items in_);
    mret {| pgl_TypeMeta := pgl_TypeMeta in_; pgl_ListMeta := x1; pgl_Items := x2 |}.

Definition PodGroupList_DeepCopy (in_ : ref (PodGroupList ref)) : M cell (ref (PodGroupList ref)) :=
  copy_ref PodGroupList_DeepCopyInto in_.

Definition PodGroupList_DeepCopyObject (in_ : ref (PodGroupList ref)) : M cell Object :=
  c ← PodGroupList_DeepCopy in_; mret (as_object c).

#[export] Instance PodGroupList_copies : Copies PodGroupList_DeepCopyInto.
Proof. copy_struct PodGroupList_DeepCopyInto abs_PodGroupList. Qed.

(** ** What a deep copy is *)

(** A nil pointer gives nil.  Otherwise the copy has the value of the original,
    the original keeps it, and they share nothing: the copy keeps its value whatever
    is later written to the memory there was before, and the original whatever
    is written to the cells of the copy. *)
Definition deep_copies {A B} `{Repr cell A B} `{Stores cell A} (f : ref A → M cell (ref A)) : Prop :=
  ∀ (m : memory) p v, abs m p = Some v →
    wp (f p) m (λ p' m', abs m' p' = Some v ∧ abs m' p = Some v ∧ (p = Nil ↔ p' = Nil) ∧
      (∀ m'', (∀ l, l ∈ dom m' → l ∉ dom m → m'' !! l = m' !! l) → abs m'' p' = Some v) ∧
      (∀ m'', (∀ l, l ∈ dom m → m'' !! l = m' !! l) → abs m'' p = Some v)).

Lemma copies_deep {A B} `{Repr cell A B} `{Stores cell A} (f : A → M cell A) `{!Copies f} :
  deep_copies (copy_ref f).
Proof.
  intros m p v Hp. eapply wp_mono; [by apply copies|]. intros p' m' [Hsub Hiso].
  pose proof (isolated_abs _ _ _ _ Hiso) as Hp'.
  split; [done|]. split; [by eapply abs_mono|]. split; [|split; [done|]].
  - destruct p as [|l], p' as [|l']; try done.
    + injection Hp as <-. by apply bind_Some in Hp' as (? & _ & (? & _ & ?)%bind_Some).
    + apply bind_Some in Hp as (? & _ & (? & _ & [= <-])%bind_Some). done.
  - intros m'' Hag. eapply abs_mono; [|done]. apply map_subseteq_spec. intros l c Hl.
    rewrite Hag by (apply elem_of_dom; by eexists). by eapply lookup_weaken.
Qed.

(** C26: the generated [DeepCopy] of every API type gives an object with the same
    value and nothing in common with the original. *)
Theorem DeepCopy_isolates :
  deep_copies v1_ScoringStrategy_DeepCopy ∧
  deep_copies v1_NodeResourceTopologyCache_DeepCopy ∧
  deep_copies v1_PowerModel_DeepCopy ∧
  deep_copies v1_MetricProviderSpec_DeepCopy ∧
  deep_copies v1_TrimaranSpec_DeepCopy ∧
  deep_copies v1_CoschedulingArgs_DeepCopy ∧
  deep_copies v1_NodeResourcesAllocatableArgs_DeepCopy ∧
  deep_copies v1_TargetLoadPackingArgs_DeepCopy ∧
  deep_copies v1_LoadVariationRiskBalancingArgs_DeepCopy ∧
  deep_copies v1_LowRiskOverCommitmentArgs_DeepCopy ∧
  deep_copies v1_NodeResourceTopologyMatchArgs_DeepCopy ∧
  deep_copies v1_PreemptionTolerationArgs_DeepCopy ∧
  deep_copies v1_TopologicalSortArgs_DeepCopy ∧
  deep_copies v1_NetworkOverheadArgs_DeepCopy ∧
  deep_copies v1_SySchedArgs_DeepCopy ∧
  deep_copies v1_PeaksArgs_DeepCopy ∧
  deep_copies config_ScoringStrategy_DeepCopy ∧
  deep_copies config_NodeResourceTopologyCache_DeepCopy ∧
  deep_copies config_PowerModel_DeepCopy ∧
  deep_copies config_MetricProviderSpec_DeepCopy ∧
  deep_copies config_TrimaranSpec_DeepCopy ∧
  deep_copies config_CoschedulingArgs_DeepCopy ∧
  deep_copies config_NodeResourcesAllocatableArgs_DeepCopy ∧
  deep_copies config_TargetLoadPackingArgs_DeepCopy ∧
  deep_copies config_LoadVariationRiskBalancingArgs_DeepCopy ∧
  deep_copies config_LowRiskOverCommitmentArgs_DeepCopy ∧
  deep_copies config_NodeResourceTopologyMatchArgs_DeepCopy ∧
  deep_copies config_PreemptionTolerationArgs_DeepCopy ∧
  deep_copies config_TopologicalSortArgs_DeepCopy ∧
  deep_copies config_NetworkOverheadArgs_DeepCopy ∧
  deep_copies config_SySchedArgs_DeepCopy ∧
  deep_copies config_PeaksArgs_DeepCopy ∧
  deep_copies ElasticQuotaSpec_DeepCopy ∧
  deep_copies ElasticQuotaStatus_DeepCopy ∧
  deep_copies ElasticQuota_DeepCopy ∧
  deep_copies ElasticQuotaList_DeepCopy ∧
  deep_copies PodGroupSpec_DeepCopy ∧
  deep_copies PodGroupStatus_DeepCopy ∧
  deep_copies PodGroup_DeepCopy ∧
  deep_copies PodGroupList_DeepCopy.
Proof. split_and!; apply copies_deep, _. Qed.

(** [DeepCopyObject] of nil is the nil interface, not an interface that holds a nil pointer. *)
Lemma DeepCopyObject_nil (m : memory) : PodGroup_DeepCopyObject Nil m = Some (NilObject, m).
Proof. done. Qed.
End DeepCopy.

(** ** Witnesses *)

(** Objects have a name and labels. *)
Record w_ObjectMeta (P : Type → Type) := { w_Name : string; w_Labels : P (gmap string string) }.
Arguments w_Name {P} _.
Arguments w_Labels {P} _.

#[export] Instance w_meta_types : MetaTypes := {| ObjectMeta := w_ObjectMeta; ListMeta := λ _, string |}.

Definition abs_w_ObjectMeta (m : gmap loc cell) (x : w_ObjectMeta ref) : option (w_ObjectMeta option) :=
  labels ← abs m (w_Labels x); mret {| w_Name := w_Name x; w_Labels := labels |}.

Lemma abs_w_ObjectMeta_mono m m' x v : m ⊆ m' → abs_w_ObjectMeta m x = Some v → abs_w_ObjectMeta m' x = Some v.
Proof.
  intros Hsub (labels & Hl & Hv)%bind_Some. unfold abs_w_ObjectMeta. by rewrite (abs_mono _ _ _ _ Hsub Hl).
Qed.

#[export] Instance w_repr_ObjectMeta : Repr cell (w_ObjectMeta ref) (w_ObjectMeta option) :=
  {| abs := abs_w_ObjectMeta; abs_mono := abs_w_ObjectMeta_mono |}.

#[export] Instance w_meta_repr : MetaRepr :=
  {| repr_ObjectMeta := w_repr_ObjectMeta; repr_ListMeta := repr_plain cell string |}.

Definition w_copy_ObjectMeta (in_ : w_ObjectMeta ref) : M cell (w_ObjectMeta ref) :=
  labels ← copy_ref (copy_map (λ val, val)) (w_Labels in_);
  mret {| w_Name := w_Name in_; w_Labels := labels |}.

#[export] Instance w_ObjectMeta_copies : Copies w_copy_ObjectMeta.
Proof. copy_struct w_copy_ObjectMeta abs_w_ObjectMeta. Qed.

#[export] Instance w_quantity_copy : QuantityCopy := {| q_DeepCopy := λ q, q |}.

#[export] Instance w_meta_copy : MetaCopy := {|
  ObjectMeta_DeepCopyInto := w_copy_ObjectMeta; ListMeta_DeepCopyInto := mret;
  ObjectMeta_copies := w_ObjectMeta_copies; ListMeta_copies := copies_plain |}.

(** A pod group with a label, minimal resources and a timeout, in the cells 1 to 4. *)
Definition w_group : PodGroup ref := {|
  pg_TypeMeta := mkTypeMeta "PodGroup" "v1alpha1";
  pg_ObjectMeta := {| w_Name := "g"; w_Labels := At 1 |};
  pg_Spec := {| pgs_MinMember := 3; pgs_MinResources := At 2; pgs_ScheduleTimeoutSeconds := At 3 |};
  pg_Status := {| pgt_Phase := "Pending"; pgt_OccupiedBy := ""; pgt_Running := 0; pgt_Succeeded := 0;
                  pgt_Failed := 0; pgt_ScheduleStartTime := 0 |} |}.

Definition w_memory : gmap loc cell :=
  <[1%positive := C_labels {["app" := "db"]}]> (<[2%positive := C_ResourceList {[ResourceCPU := cores 2]}]>
    (<[3%positive := C_Z 60]> {[4%positive := C_PodGroup w_group]})).

(** The value of the group, less the parts that stay the same. *)
Definition group_view (v : option (PodGroup option)) : option (option string * option Z) :=
  (λ v, (w_Labels (pg_ObjectMeta v) ≫= (.!! "app"), pgs_ScheduleTimeoutSeconds (pg_Spec v))) <$> v.

Lemma DeepCopy_isolates_witness :
  ∃ p' m', PodGroup_DeepCopy (At 4) w_memory = Some (p', m') ∧ p' ≠ At 4 ∧
    (group_view <$> abs (<[3%positive := C_Z 7]> (<[1%positive := C_labels ∅]> m')) p') =
      Some (Some (Some "db", Some 60)).
Proof.
  assert ((group_view <$> abs w_memory (At (A := PodGroup ref) 4)) = Some (Some (Some "db", Some 60))) as Hview
    by (vm_compute; reflexivity).
  apply fmap_Some in Hview as (v & Habs & Hview).
  assert (deep_copies PodGroup_DeepCopy) as Hdeep.
  { pose proof DeepCopy_isolates as Hd. repeat match goal with H : _ ∧ _ |- _ => destruct H end. assumption. }
  specialize (Hdeep w_memory (At 4) v Habs). unfold wp in Hdeep.
  destruct (PodGroup_DeepCopy (At 4) w_memory) as [[p' m']|] eqn:Hcopy; [|contradiction].
  destruct Hdeep as (_ & _ & _ & Hiso & _).
  exists p', m'. split; [reflexivity|]. split.
  - intros ->. assert (((λ r : ref (PodGroup ref) * gmap loc cell, match r.1 with At l => bool_decide (l = 4%positive) | Nil => true end) <$> PodGroup_DeepCopy (At 4) w_memory) = Some false) as E
      by (vm_compute; reflexivity). rewrite Hcopy in E. discriminate E.
  - rewrite Hiso; [simpl; by rewrite <- Hview|]. intros l _ Hl. rewrite !lookup_insert_ne; [reflexivity|..];
      intros <-; apply Hl; vm_compute; by eexists.
Defined.
