(* ===== verification/Conversion.v ===== *)
(** * Conversions between the versions of the configuration

    apis/config/v1/zz_generated.conversion.go and apis/config/v1/conversion.go, on the memory of
    file GoHeap.  A conversion gives the struct [out] points to afterwards; the type
    metadata of [out] stays.  Converting a pointer to a value and back is done by
    Kubernetes (class [ConversionOps]); where the two versions have the same type
    the code casts with [unsafe.Pointer], so both point to the same cell.  No
    conversion returns an error; a nil dereference is a panic. *)

From S2P Require Import Prelude Float64 K8s K8sModel GoHeap ApiTypes DeepCopy.

Section Conversion.
Context `{QuantityOps} `{!MetaTypes} `{!MetaRepr}.

Abbreviation memory := (gmap loc cell).

(** metav1.Convert_Pointer_int64_To_int64 and the like. *)
Class ConversionOps : Type := {
  Convert_Pointer_int64_To_int64 : ref Z → M cell Z;
  Convert_int64_To_Pointer_int64 : Z → M cell (ref Z);
  Convert_Pointer_int32_To_int32 : ref Z → M cell Z;
  Convert_int32_To_Pointer_int32 : Z → M cell (ref Z);
  Convert_Pointer_float64_To_float64 : ref Q → M cell Q;
  Convert_float64_To_Pointer_float64 : Q → M cell (ref Q);
  Convert_Pointer_string_To_string : ref string → M cell string;
  Convert_string_To_Pointer_string : string → M cell (ref string);
  Convert_Pointer_bool_To_bool : ref bool → M cell bool;
  Convert_bool_To_Pointer_bool : bool → M cell (ref bool);
}.

(** A nil pointer gives the zero value, any other what it points to ... *)
Definition reads {A} `{Stores cell A} `{Plain A} (zero : A) (f : ref A → M cell A) : Prop :=
  ∀ (m : memory) p v, abs m p = Some v → f p m = Some (default zero v, m).

(** ... and a value a pointer to a new cell. *)
Definition points {A} `{Stores cell A} `{Plain A} (f : A → M cell (ref A)) : Prop :=
  ∀ (m : memory) a, wp (f a) m (λ p m', m ⊆ m' ∧ abs m' p = Some (Some a)).

Class ConversionSpec `{!ConversionOps} : Prop := {
  reads_int64 : reads 0%Z Convert_Pointer_int64_To_int64;
  points_int64 : points Convert_int64_To_Pointer_int64;
  reads_int32 : reads 0%Z Convert_Pointer_int32_To_int32;
  points_int32 : points Convert_int32_To_Pointer_int32;
  reads_float64 : reads 0%Q Convert_Pointer_float64_To_float64;
  points_float64 : points Convert_float64_To_Pointer_float64;
  reads_string : reads "" Convert_Pointer_string_To_string;
  points_string : points Convert_string_To_Pointer_string;
  reads_bool : reads false Convert_Pointer_bool_To_bool;
  points_bool : points Convert_bool_To_Pointer_bool;
}.

Context `{!ConversionOps}.

(** [&in.F] for a field that is a struct. *)
Definition address_of {A} (b : box A) : ref A := match b with BoxAt l => At l end.

Definition autoConvert_v1_PowerModel_To_config_PowerModel
    (in_ : PowerModel) (out : PowerModel) : M cell PowerModel :=
  mret {| K0 := K0 in_; K1 := K1 in_; K2 := K2 in_ |}.

Definition Convert_v1_PowerModel_To_config_PowerModel
    (in_ : PowerModel) (out : PowerModel) : M cell PowerModel :=
  autoConvert_v1_PowerModel_To_config_PowerModel in_ out.

Definition autoConvert_config_PowerModel_To_v1_PowerModel
    (in_ : PowerModel) (out : PowerModel) : M cell PowerModel :=
  mret {| K0 := K0 in_; K1 := K1 in_; K2 := K2 in_ |}.

Definition Convert_config_PowerModel_To_v1_PowerModel
    (in_ : PowerModel) (out : PowerModel) : M cell PowerModel :=
  autoConvert_config_PowerModel_To_v1_PowerModel in_ out.

Definition autoConvert_v1_ScoringStrategy_To_config_ScoringStrategy
    (in_ : ScoringStrategy ref) (out : ScoringStrategy ref) : M cell (ScoringStrategy ref) :=
  mret {| ss_Type := ss_Type in_; ss_Resources := ss_Resources in_ |}.

Definition Convert_v1_ScoringStrategy_To_config_ScoringStrategy
    (in_ : ScoringStrategy ref) (out : ScoringStrategy ref) : M cell (ScoringStrategy ref) :=
  autoConvert_v1_ScoringStrategy_To_config_ScoringStrategy in_ out.

Definition autoConvert_config_ScoringStrategy_To_v1_ScoringStrategy
    (in_ : ScoringStrategy ref) (out : ScoringStrategy ref) : M cell (ScoringStrategy ref) :=
  mret {| ss_Type := ss_Type in_; ss_Resources := ss_Resources in_ |}.

Definition Convert_config_ScoringStrategy_To_v1_ScoringStrategy
    (in_ : ScoringStrategy ref) (out : ScoringStrategy ref) : M cell (ScoringStrategy ref) :=
  autoConvert_config_ScoringStrategy_To_v1_ScoringStrategy in_ out.

Definition autoConvert_v1_NodeResourceTopologyCache_To_config_NodeResourceTopologyCache
    (in_ : NodeResourceTopologyCache ref) (out : NodeResourceTopologyCache ref) :
    M cell (NodeResourceTopologyCache ref) :=
  mret {| nc_ForeignPodsDetect := nc_ForeignPodsDetect in_; nc_ResyncMethod := nc_ResyncMethod in_;
      nc_InformerMode := nc_InformerMode in_; nc_ResyncScope := nc_ResyncScope in_ |}.

Definition Convert_v1_NodeResourceTopologyCache_To_config_NodeResourceTopologyCache
    (in_ : NodeResourceTopologyCache ref) (out : NodeResourceTopologyCache ref) :
    M cell (NodeResourceTopologyCache ref) :=
  autoConvert_v1_NodeResourceTopologyCache_To_config_NodeResourceTopologyCache in_ out.

Definition autoConvert_config_NodeResourceTopologyCache_To_v1_NodeResourceTopologyCache
    (in_ : NodeResourceTopologyCache ref) (out : NodeResourceTopologyCache ref) :
    M cell (NodeResourceTopologyCache ref) :=
  mret {| nc_ForeignPodsDetect := nc_ForeignPodsDetect in_; nc_ResyncMethod := nc_ResyncMethod in_;
      nc_InformerMode := nc_InformerMode in_; nc_ResyncScope := nc_ResyncScope in_ |}.

Definition Convert_config_NodeResourceTopologyCache_To_v1_NodeResourceTopologyCache
    (in_ : NodeResourceTopologyCache ref) (out : NodeResourceTopologyCache ref) :
    M cell (NodeResourceTopologyCache ref) :=
  autoConvert_config_NodeResourceTopologyCache_To_v1_NodeResourceTopologyCache in_ out.

Definition autoConvert_v1_MetricProviderSpec_To_config_MetricProviderSpec
    (in_ : v1_MetricProviderSpec ref) (out : config_MetricProviderSpec) : M cell config_MetricProviderSpec :=
  x1 ← Convert_Pointer_string_To_string (mp_Address in_);
  x2 ← Convert_Pointer_string_To_string (mp_Token in_);
  x3 ← Convert_Pointer_bool_To_bool (mp_InsecureSkipVerify in_);
  mret {| cmp_Type := mp_Type in_; cmp_Address := x1; cmp_Token := x2; cmp_InsecureSkipVerify := x3 |}.

Definition Convert_v1_MetricProviderSpec_To_config_MetricProviderSpec
    (in_ : v1_MetricProviderSpec ref) (out : config_MetricProviderSpec) : M cell config_MetricProviderSpec :=
  autoConvert_v1_MetricProviderSpec_To_config_MetricProviderSpec in_ out.

Definition autoConvert_config_MetricProviderSpec_To_v1_MetricProviderSpec
    (in_ : config_MetricProviderSpec) (out : v1_MetricProviderSpec ref) : M cell (v1_MetricProviderSpec ref) :=
  x1 ← Convert_string_To_Pointer_string (cmp_Address in_);
  x2 ← Convert_string_To_Pointer_string (cmp_Token in_);
  x3 ← Convert_bool_To_Pointer_bool (cmp_InsecureSkipVerify in_);
  mret {| mp_Type := cmp_Type in_; mp_Address := x1; mp_Token := x2; mp_InsecureSkipVerify := x3 |}.

Definition Convert_config_MetricProviderSpec_To_v1_MetricProviderSpec
    (in_ : config_MetricProviderSpec) (out : v1_MetricProviderSpec ref) : M cell (v1_MetricProviderSpec ref) :=
  autoConvert_config_MetricProviderSpec_To_v1_MetricProviderSpec in_ out.

Definition autoConvert_v1_TrimaranSpec_To_config_TrimaranSpec
    (in_ : v1_TrimaranSpec ref) (out : config_TrimaranSpec) : M cell config_TrimaranSpec :=
  x1 ← Convert_v1_MetricProviderSpec_To_config_MetricProviderSpec (ts_MetricProvider in_) (cts_MetricProvider out);
  x2 ← Convert_Pointer_string_To_string (ts_WatcherAddress in_);
  mret {| cts_MetricProvider := x1; cts_WatcherAddress := x2 |}.

Definition Convert_v1_TrimaranSpec_To_config_TrimaranSpec
    (in_ : v1_TrimaranSpec ref) (out : config_TrimaranSpec) : M cell config_TrimaranSpec :=
  autoConvert_v1_TrimaranSpec_To_config_TrimaranSpec in_ out.

Definition autoConvert_config_TrimaranSpec_To_v1_TrimaranSpec
    (in_ : config_TrimaranSpec) (out : v1_TrimaranSpec ref) : M cell (v1_TrimaranSpec ref) :=
  x1 ← Convert_config_MetricProviderSpec_To_v1_MetricProviderSpec (cts_MetricProvider in_) (ts_MetricProvider out);
  x2 ← Convert_string_To_Pointer_string (cts_WatcherAddress in_);
  mret {| ts_MetricProvider := x1; ts_WatcherAddress := x2 |}.

Definition Convert_config_TrimaranSpec_To_v1_TrimaranSpec
    (in_ : config_TrimaranSpec) (out : v1_TrimaranSpec ref) : M cell (v1_TrimaranSpec ref) :=
  autoConvert_config_TrimaranSpec_To_v1_TrimaranSpec in_ out.

Definition autoConvert_v1_CoschedulingArgs_To_config_CoschedulingArgs
    (in_ : v1_CoschedulingArgs ref) (out : config_CoschedulingArgs) : M cell config_CoschedulingArgs :=
  x1 ← Convert_Pointer_int64_To_int64 (co_PermitWaitingTimeSeconds in_);
  x2 ← Convert_Pointer_int64_To_int64 (co_PodGroupBackoffSeconds in_);
  mret {| cco_TypeMeta := cco_TypeMeta out; cco_PermitWaitingTimeSeconds := x1;
      cco_PodGroupBackoffSeconds := x2 |}.

Definition Convert_v1_CoschedulingArgs_To_config_CoschedulingArgs
    (in_ : v1_CoschedulingArgs ref) (out : config_CoschedulingArgs) : M cell config_CoschedulingArgs :=
  autoConvert_v1_CoschedulingArgs_To_config_CoschedulingArgs in_ out.

Definition autoConvert_config_CoschedulingArgs_To_v1_CoschedulingArgs
    (in_ : config_CoschedulingArgs) (out : v1_CoschedulingArgs ref) : M cell (v1_CoschedulingArgs ref) :=
  x1 ← Convert_int64_To_Pointer_int64 (cco_PermitWaitingTimeSeconds in_);
  x2 ← Convert_int64_To_Pointer_int64 (cco_PodGroupBackoffSeconds in_);
  mret {| co_TypeMeta := co_TypeMeta out; co_PermitWaitingTimeSeconds := x1; co_PodGroupBackoffSeconds := x2 |}.

Definition Convert_config_CoschedulingArgs_To_v1_CoschedulingArgs
    (in_ : config_CoschedulingArgs) (out : v1_CoschedulingArgs ref) : M cell (v1_CoschedulingArgs ref) :=
  autoConvert_config_CoschedulingArgs_To_v1_CoschedulingArgs in_ out.

Definition autoConvert_v1_NodeResourcesAllocatableArgs_To_config_NodeResourcesAllocatableArgs
    (in_ : v1_NodeResourcesAllocatableArgs ref) (out : config_NodeResourcesAllocatableArgs ref) :
    M cell (config_NodeResourcesAllocatableArgs ref) :=
  mret {| cna_TypeMeta := cna_TypeMeta out; cna_Resources := na_Resources in_; cna_Mode := na_Mode in_ |}.

Definition Convert_v1_NodeResourcesAllocatableArgs_To_config_NodeResourcesAllocatableArgs
    (in_ : v1_NodeResourcesAllocatableArgs ref) (out : config_NodeResourcesAllocatableArgs ref) :
    M cell (config_NodeResourcesAllocatableArgs ref) :=
  autoConvert_v1_NodeResourcesAllocatableArgs_To_config_NodeResourcesAllocatableArgs in_ out.

Definition autoConvert_config_NodeResourcesAllocatableArgs_To_v1_NodeResourcesAllocatableArgs
    (in_ : config_NodeResourcesAllocatableArgs ref) (out : v1_NodeResourcesAllocatableArgs ref) :
    M cell (v1_NodeResourcesAllocatableArgs ref) :=
  mret {| na_TypeMeta := na_TypeMeta out; na_Resources := cna_Resources in_; na_Mode := cna_Mode in_ |}.

Definition Convert_config_NodeResourcesAllocatableArgs_To_v1_NodeResourcesAllocatableArgs
    (in_ : config_NodeResourcesAllocatableArgs ref) (out : v1_NodeResourcesAllocatableArgs ref) :
    M cell (v1_NodeResourcesAllocatableArgs ref) :=
  autoConvert_config_NodeResourcesAllocatableArgs_To_v1_NodeResourcesAllocatableArgs in_ out.

Definition autoConvert_v1_TargetLoadPackingArgs_To_config_TargetLoadPackingArgs
    (in_ : v1_TargetLoadPackingArgs ref) (out : config_TargetLoadPackingArgs ref) :
    M cell (config_TargetLoadPackingArgs ref) :=
  x1 ← Convert_v1_TrimaranSpec_To_config_TrimaranSpec (tl_TrimaranSpec in_) (ctl_TrimaranSpec out);
  x2 ← Convert_Pointer_string_To_string (tl_DefaultRequestsMultiplier in_);
  x3 ← Convert_Pointer_int64_To_int64 (tl_TargetUtilization in_);
  mret {| ctl_TypeMeta := ctl_TypeMeta out; ctl_TrimaranSpec := x1;
      ctl_DefaultRequests := tl_DefaultRequests in_; ctl_DefaultRequestsMultiplier := x2;
      ctl_TargetUtilization := x3 |}.

Definition Convert_v1_TargetLoadPackingArgs_To_config_TargetLoadPackingArgs
    (in_ : v1_TargetLoadPackingArgs ref) (out : config_TargetLoadPackingArgs ref) :
    M cell (config_TargetLoadPackingArgs ref) :=
  autoConvert_v1_TargetLoadPackingArgs_To_config_TargetLoadPackingArgs in_ out.

Definition autoConvert_config_TargetLoadPackingArgs_To_v1_TargetLoadPackingArgs
    (in_ : config_TargetLoadPackingArgs ref) (out : v1_TargetLoadPackingArgs ref) :
    M cell (v1_TargetLoadPackingArgs ref) :=
  x1 ← Convert_config_TrimaranSpec_To_v1_TrimaranSpec (ctl_TrimaranSpec in_) (tl_TrimaranSpec out);
  x2 ← Convert_string_To_Pointer_string (ctl_DefaultRequestsMultiplier in_);
  x3 ← Convert_int64_To_Pointer_int64 (ctl_TargetUtilization in_);
  mret {| tl_TypeMeta := tl_TypeMeta out; tl_TrimaranSpec := x1; tl_DefaultRequests := ctl_DefaultRequests in_;
      tl_DefaultRequestsMultiplier := x2; tl_TargetUtilization := x3 |}.

Definition Convert_config_TargetLoadPackingArgs_To_v1_TargetLoadPackingArgs
    (in_ : config_TargetLoadPackingArgs ref) (out : v1_TargetLoadPackingArgs ref) :
    M cell (v1_TargetLoadPackingArgs ref) :=
  autoConvert_config_TargetLoadPackingArgs_To_v1_TargetLoadPackingArgs in_ out.

Definition autoConvert_v1_LoadVariationRiskBalancingArgs_To_config_LoadVariationRiskBalancingArgs
    (in_ : v1_LoadVariationRiskBalancingArgs ref) (out : config_LoadVariationRiskBalancingArgs) :
    M cell config_LoadVariationRiskBalancingArgs :=
  x1 ← Convert_v1_TrimaranSpec_To_config_TrimaranSpec (lv_TrimaranSpec in_) (clv_TrimaranSpec out);
  x2 ← Convert_Pointer_float64_To_float64 (lv_SafeVarianceMargin in_);
  x3 ← Convert_Pointer_float64_To_float64 (lv_SafeVarianceSensitivity in_);
  mret {| clv_TypeMeta := clv_TypeMeta out; clv_TrimaranSpec := x1; clv_SafeVarianceMargin := x2;
      clv_SafeVarianceSensitivity := x3 |}.

Definition Convert_v1_LoadVariationRiskBalancingArgs_To_config_LoadVariationRiskBalancingArgs
    (in_ : v1_LoadVariationRiskBalancingArgs ref) (out : config_LoadVariationRiskBalancingArgs) :
    M cell config_LoadVariationRiskBalancingArgs :=
  autoConvert_v1_LoadVariationRiskBalancingArgs_To_config_LoadVariationRiskBalancingArgs in_ out.

Definition autoConvert_config_LoadVariationRiskBalancingArgs_To_v1_LoadVariationRiskBalancingArgs
    (in_ : config_LoadVariationRiskBalancingArgs) (out : v1_LoadVariationRiskBalancingArgs ref) :
    M cell (v1_LoadVariationRiskBalancingArgs ref) :=
  x1 ← Convert_config_TrimaranSpec_To_v1_TrimaranSpec (clv_TrimaranSpec in_) (lv_TrimaranSpec out);
  x2 ← Convert_float64_To_Pointer_float64 (clv_SafeVarianceMargin in_);
  x3 ← Convert_float64_To_Pointer_float64 (clv_SafeVarianceSensitivity in_);
  mret {| lv_TypeMeta := lv_TypeMeta out; lv_TrimaranSpec := x1; lv_SafeVarianceMargin := x2;
      lv_SafeVarianceSensitivity := x3 |}.

Definition Convert_config_LoadVariationRiskBalancingArgs_To_v1_LoadVariationRiskBalancingArgs
    (in_ : config_LoadVariationRiskBalancingArgs) (out : v1_LoadVariationRiskBalancingArgs ref) :
    M cell (v1_LoadVariationRiskBalancingArgs ref) :=
  autoConvert_config_LoadVariationRiskBalancingArgs_To_v1_LoadVariationRiskBalancingArgs in_ out.

Definition autoConvert_v1_LowRiskOverCommitmentArgs_To_config_LowRiskOverCommitmentArgs
    (in_ : v1_LowRiskOverCommitmentArgs ref) (out : config_LowRiskOverCommitmentArgs ref) :
    M cell (config_LowRiskOverCommitmentArgs ref) :=
  x1 ← Convert_v1_TrimaranSpec_To_config_TrimaranSpec (lr_TrimaranSpec in_) (clr_TrimaranSpec out);
  x2 ← Convert_Pointer_int64_To_int64 (lr_SmoothingWindowSize in_);
  mret {| clr_TypeMeta := clr_TypeMeta out; clr_TrimaranSpec := x1; clr_SmoothingWindowSize := x2;
      clr_RiskLimitWeights := lr_RiskLimitWeights in_ |}.

Definition Convert_v1_LowRiskOverCommitmentArgs_To_config_LowRiskOverCommitmentArgs
    (in_ : v1_LowRiskOverCommitmentArgs ref) (out : config_LowRiskOverCommitmentArgs ref) :
    M cell (config_LowRiskOverCommitmentArgs ref) :=
  autoConvert_v1_LowRiskOverCommitmentArgs_To_config_LowRiskOverCommitmentArgs in_ out.

Definition autoConvert_config_LowRiskOverCommitmentArgs_To_v1_LowRiskOverCommitmentArgs
    (in_ : config_LowRiskOverCommitmentArgs ref) (out : v1_LowRiskOverCommitmentArgs ref) :
    M cell (v1_LowRiskOverCommitmentArgs ref) :=
  x1 ← Convert_config_TrimaranSpec_To_v1_TrimaranSpec (clr_TrimaranSpec in_) (lr_TrimaranSpec out);
  x2 ← Convert_int64_To_Pointer_int64 (clr_SmoothingWindowSize in_);
  mret {| lr_TypeMeta := lr_TypeMeta out; lr_TrimaranSpec := x1; lr_SmoothingWindowSize := x2;
      lr_RiskLimitWeights := clr_RiskLimitWeights in_ |}.

Definition Convert_config_LowRiskOverCommitmentArgs_To_v1_LowRiskOverCommitmentArgs
    (in_ : config_LowRiskOverCommitmentArgs ref) (out : v1_LowRiskOverCommitmentArgs ref) :
    M cell (v1_LowRiskOverCommitmentArgs ref) :=
  autoConvert_config_LowRiskOverCommitmentArgs_To_v1_LowRiskOverCommitmentArgs in_ out.

Definition autoConvert_v1_NodeResourceTopologyMatchArgs_To_config_NodeResourceTopologyMatchArgs
    (in_ : v1_NodeResourceTopologyMatchArgs ref) (out : config_NodeResourceTopologyMatchArgs ref box) :
    M cell (config_NodeResourceTopologyMatchArgs ref box) :=
  x2 ← Convert_Pointer_int64_To_int64 (nm_CacheResyncPeriodSeconds in_);
  mret {| cnm_TypeMeta := cnm_TypeMeta out; cnm_ScoringStrategy := cnm_ScoringStrategy out;
      cnm_CacheResyncPeriodSeconds := x2; cnm_DiscardReservedNodes := nm_DiscardReservedNodes in_;
      cnm_Cache := nm_Cache in_ |}.

Definition Convert_v1_NodeResourceTopologyMatchArgs_To_config_NodeResourceTopologyMatchArgs
    (in_ : v1_NodeResourceTopologyMatchArgs ref) (out : config_NodeResourceTopologyMatchArgs ref box) :
    M cell (config_NodeResourceTopologyMatchArgs ref box) :=
  out ← autoConvert_v1_NodeResourceTopologyMatchArgs_To_config_NodeResourceTopologyMatchArgs in_ out;
  strategy ← load (nm_ScoringStrategy in_);
  b ← alloc_box strategy;
  mret {| cnm_TypeMeta := cnm_TypeMeta out; cnm_ScoringStrategy := b;
      cnm_CacheResyncPeriodSeconds := cnm_CacheResyncPeriodSeconds out;
      cnm_DiscardReservedNodes := cnm_DiscardReservedNodes out; cnm_Cache := cnm_Cache out |}.

Definition autoConvert_config_NodeResourceTopologyMatchArgs_To_v1_NodeResourceTopologyMatchArgs
    (in_ : config_NodeResourceTopologyMatchArgs ref box) (out : v1_NodeResourceTopologyMatchArgs ref) :
    M cell (v1_NodeResourceTopologyMatchArgs ref) :=
  x2 ← Convert_int64_To_Pointer_int64 (cnm_CacheResyncPeriodSeconds in_);
  mret {| nm_TypeMeta := nm_TypeMeta out; nm_ScoringStrategy := nm_ScoringStrategy out;
      nm_CacheResyncPeriodSeconds := x2; nm_DiscardReservedNodes := cnm_DiscardReservedNodes in_;
      nm_Cache := cnm_Cache in_ |}.

Definition Convert_config_NodeResourceTopologyMatchArgs_To_v1_NodeResourceTopologyMatchArgs
    (in_ : config_NodeResourceTopologyMatchArgs ref box) (out : v1_NodeResourceTopologyMatchArgs ref) :
    M cell (v1_NodeResourceTopologyMatchArgs ref) :=
  out ← autoConvert_config_NodeResourceTopologyMatchArgs_To_v1_NodeResourceTopologyMatchArgs in_ out;
  mret {| nm_TypeMeta := nm_TypeMeta out; nm_ScoringStrategy := address_of (cnm_ScoringStrategy in_);
      nm_CacheResyncPeriodSeconds := nm_CacheResyncPeriodSeconds out;
      nm_DiscardReservedNodes := nm_DiscardReservedNodes out; nm_Cache := nm_Cache out |}.

Definition autoConvert_v1_PreemptionTolerationArgs_To_config_PreemptionTolerationArgs
    (in_ : v1_PreemptionTolerationArgs ref) (out : config_PreemptionTolerationArgs) :
    M cell config_PreemptionTolerationArgs :=
  x1 ← Convert_Pointer_int32_To_int32 (pt_MinCandidateNodesPercentage in_);
  x2 ← Convert_Pointer_int32_To_int32 (pt_MinCandidateNodesAbsolute in_);
  mret {| cpt_TypeMeta := cpt_TypeMeta out; cpt_MinCandidateNodesPercentage := x1;
      cpt_MinCandidateNodesAbsolute := x2 |}.

Definition Convert_v1_PreemptionTolerationArgs_To_config_PreemptionTolerationArgs
    (in_ : v1_PreemptionTolerationArgs ref) (out : config_PreemptionTolerationArgs) :
    M cell config_PreemptionTolerationArgs :=
  autoConvert_v1_PreemptionTolerationArgs_To_config_PreemptionTolerationArgs in_ out.

Definition autoConvert_config_PreemptionTolerationArgs_To_v1_PreemptionTolerationArgs
    (in_ : config_PreemptionTolerationArgs) (out : v1_PreemptionTolerationArgs ref) :
    M cell (v1_PreemptionTolerationArgs ref) :=
  x1 ← Convert_int32_To_Pointer_int32 (cpt_MinCandidateNodesPercentage in_);
  x2 ← Convert_int32_To_Pointer_int32 (cpt_MinCandidateNodesAbsolute in_);
  mret {| pt_TypeMeta := pt_TypeMeta out; pt_MinCandidateNodesPercentage := x1;
      pt_MinCandidateNodesAbsolute := x2 |}.

Definition Convert_config_PreemptionTolerationArgs_To_v1_PreemptionTolerationArgs
    (in_ : config_PreemptionTolerationArgs) (out : v1_PreemptionTolerationArgs ref) :
    M cell (v1_PreemptionTolerationArgs ref) :=
  autoConvert_config_PreemptionTolerationArgs_To_v1_PreemptionTolerationArgs in_ out.

Definition autoConvert_v1_TopologicalSortArgs_To_config_TopologicalSortArgs
    (in_ : v1_TopologicalSortArgs ref) (out : config_TopologicalSortArgs ref) :
    M cell (config_TopologicalSortArgs ref) :=
  mret {| ctt_TypeMeta := ctt_TypeMeta out; ctt_Namespaces := tt_Namespaces in_ |}.

Definition Convert_v1_TopologicalSortArgs_To_config_TopologicalSortArgs
    (in_ : v1_TopologicalSortArgs ref) (out : config_TopologicalSortArgs ref) :
    M cell (config_TopologicalSortArgs ref) :=
  autoConvert_v1_TopologicalSortArgs_To_config_TopologicalSortArgs in_ out.

Definition autoConvert_config_TopologicalSortArgs_To_v1_TopologicalSortArgs
    (in_ : config_TopologicalSortArgs ref) (out : v1_TopologicalSortArgs ref) :
    M cell (v1_TopologicalSortArgs ref) :=
  mret {| tt_TypeMeta := tt_TypeMeta out; tt_Namespaces := ctt_Namespaces in_ |}.

Definition Convert_config_TopologicalSortArgs_To_v1_TopologicalSortArgs
    (in_ : config_TopologicalSortArgs ref) (out : v1_TopologicalSortArgs ref) :
    M cell (v1_TopologicalSortArgs ref) :=
  autoConvert_config_TopologicalSortArgs_To_v1_TopologicalSortArgs in_ out.

Definition autoConvert_v1_NetworkOverheadArgs_To_config_NetworkOverheadArgs
    (in_ : v1_NetworkOverheadArgs ref) (out : config_NetworkOverheadArgs ref) :
    M cell (config_NetworkOverheadArgs ref) :=
  x1 ← Convert_Pointer_string_To_string (no_WeightsName in_);
  x2 ← Convert_Pointer_string_To_string (no_NetworkTopologyName in_);
  mret {| cno_TypeMeta := cno_TypeMeta out; cno_Namespaces := no_Namespaces in_; cno_WeightsName := x1;
      cno_NetworkTopologyName := x2 |}.

Definition Convert_v1_NetworkOverheadArgs_To_config_NetworkOverheadArgs
    (in_ : v1_NetworkOverheadArgs ref) (out : config_NetworkOverheadArgs ref) :
    M cell (config_NetworkOverheadArgs ref) :=
  autoConvert_v1_NetworkOverheadArgs_To_config_NetworkOverheadArgs in_ out.

Definition autoConvert_config_NetworkOverheadArgs_To_v1_NetworkOverheadArgs
    (in_ : config_NetworkOverheadArgs ref) (out : v1_NetworkOverheadArgs ref) :
    M cell (v1_NetworkOverheadArgs ref) :=
  x1 ← Convert_string_To_Pointer_string (cno_WeightsName in_);
  x2 ← Convert_string_To_Pointer_string (cno_NetworkTopologyName in_);
  mret {| no_TypeMeta := no_TypeMeta out; no_Namespaces := cno_Namespaces in_; no_WeightsName := x1;
      no_NetworkTopologyName := x2 |}.

Definition Convert_config_NetworkOverheadArgs_To_v1_NetworkOverheadArgs
    (in_ : config_NetworkOverheadArgs ref) (out : v1_NetworkOverheadArgs ref) :
    M cell (v1_NetworkOverheadArgs ref) :=
  autoConvert_config_NetworkOverheadArgs_To_v1_NetworkOverheadArgs in_ out.

Definition autoConvert_v1_SySchedArgs_To_config_SySchedArgs
    (in_ : v1_SySchedArgs ref) (out : config_SySchedArgs) : M cell config_SySchedArgs :=
  x1 ← Convert_Pointer_string_To_string (sy_DefaultProfileNamespace in_);
  x2 ← Convert_Pointer_string_To_string (sy_DefaultProfileName in_);
  mret {| csy_TypeMeta := csy_TypeMeta out; csy_DefaultProfileNamespace := x1; csy_DefaultProfileName := x2 |}.

Definition Convert_v1_SySchedArgs_To_config_SySchedArgs
    (in_ : v1_SySchedArgs ref) (out : config_SySchedArgs) : M cell config_SySchedArgs :=
  autoConvert_v1_SySchedArgs_To_config_SySchedArgs in_ out.

Definition autoConvert_config_SySchedArgs_To_v1_SySchedArgs
    (in_ : config_SySchedArgs) (out : v1_SySchedArgs ref) : M cell (v1_SySchedArgs ref) :=
  x1 ← Convert_string_To_Pointer_string (csy_DefaultProfileNamespace in_);
  x2 ← Convert_string_To_Pointer_string (csy_DefaultProfileName in_);
  mret {| sy_TypeMeta := sy_TypeMeta out; sy_DefaultProfileNamespace := x1; sy_DefaultProfileName := x2 |}.

Definition Convert_config_SySchedArgs_To_v1_SySchedArgs
    (in_ : config_SySchedArgs) (out : v1_SySchedArgs ref) : M cell (v1_SySchedArgs ref) :=
  autoConvert_config_SySchedArgs_To_v1_SySchedArgs in_ out.

Definition autoConvert_v1_PeaksArgs_To_config_PeaksArgs
    (in_ : v1_PeaksArgs ref) (out : config_PeaksArgs ref) : M cell (config_PeaksArgs ref) :=
  mret {| cpk_TypeMeta := cpk_TypeMeta out; cpk_WatcherAddress := pk_WatcherAddress in_;
      cpk_NodePowerModel := pk_NodePowerModel in_ |}.

Definition Convert_v1_PeaksArgs_To_config_PeaksArgs
    (in_ : v1_PeaksArgs ref) (out : config_PeaksArgs ref) : M cell (config_PeaksArgs ref) :=
  autoConvert_v1_PeaksArgs_To_config_PeaksArgs in_ out.

Definition autoConvert_config_PeaksArgs_To_v1_PeaksArgs
    (in_ : config_PeaksArgs ref) (out : v1_PeaksArgs ref) : M cell (v1_PeaksArgs ref) :=
  mret {| pk_TypeMeta := pk_TypeMeta out; pk_WatcherAddress := cpk_WatcherAddress in_;
      pk_NodePowerModel := cpk_NodePowerModel in_ |}.

Definition Convert_config_PeaksArgs_To_v1_PeaksArgs
    (in_ : config_PeaksArgs ref) (out : v1_PeaksArgs ref) : M cell (v1_PeaksArgs ref) :=
  autoConvert_config_PeaksArgs_To_v1_PeaksArgs in_ out.

(** ** Round trips *)

(** Every pointer that becomes a value is set. *)
Definition complete_v1_MetricProviderSpec (v : v1_MetricProviderSpec option) : Prop :=
  is_Some (mp_Address v) ∧ is_Some (mp_Token v) ∧ is_Some (mp_InsecureSkipVerify v).

Definition complete_v1_TrimaranSpec (v : v1_TrimaranSpec option) : Prop :=
  complete_v1_MetricProviderSpec (ts_MetricProvider v) ∧ is_Some (ts_WatcherAddress v).

Definition complete_v1_CoschedulingArgs (v : v1_CoschedulingArgs option) : Prop :=
  is_Some (co_PermitWaitingTimeSeconds v) ∧ is_Some (co_PodGroupBackoffSeconds v).

Definition complete_v1_TargetLoadPackingArgs (v : v1_TargetLoadPackingArgs option) : Prop :=
  complete_v1_TrimaranSpec (tl_TrimaranSpec v) ∧ is_Some (tl_DefaultRequestsMultiplier v) ∧
    is_Some (tl_TargetUtilization v).

Definition complete_v1_LoadVariationRiskBalancingArgs (v : v1_LoadVariationRiskBalancingArgs option) : Prop :=
  complete_v1_TrimaranSpec (lv_TrimaranSpec v) ∧ is_Some (lv_SafeVarianceMargin v) ∧
    is_Some (lv_SafeVarianceSensitivity v).

Definition complete_v1_LowRiskOverCommitmentArgs (v : v1_LowRiskOverCommitmentArgs option) : Prop :=
  complete_v1_TrimaranSpec (lr_TrimaranSpec v) ∧ is_Some (lr_SmoothingWindowSize v).

Definition complete_v1_NodeResourceTopologyMatchArgs (v : v1_NodeResourceTopologyMatchArgs option) : Prop :=
  is_Some (nm_ScoringStrategy v) ∧ is_Some (nm_CacheResyncPeriodSeconds v).

Definition complete_v1_PreemptionTolerationArgs (v : v1_PreemptionTolerationArgs option) : Prop :=
  is_Some (pt_MinCandidateNodesPercentage v) ∧ is_Some (pt_MinCandidateNodesAbsolute v).

Definition complete_v1_NetworkOverheadArgs (v : v1_NetworkOverheadArgs option) : Prop :=
  is_Some (no_WeightsName v) ∧ is_Some (no_NetworkTopologyName v).

Definition complete_v1_SySchedArgs (v : v1_SySchedArgs option) : Prop :=
  is_Some (sy_DefaultProfileNamespace v) ∧ is_Some (sy_DefaultProfileName v).


(** A configuration converted to v1 and back, into an object with the same type
    metadata; and the other way round. *)
Definition config_roundtrip {A V B} `{Repr cell A V} (to_v1 : A → B → M cell B)
    (to_config : B → A → M cell A) : Prop :=
  ∀ (m : memory) c cv out, abs m c = Some cv →
    wp (x ← to_v1 c out; to_config x c) m (λ c' m', m ⊆ m' ∧ abs m' c' = Some cv).

Definition v1_roundtrip {A V B} `{Repr cell A V} (complete : V → Prop) (to_config : A → B → M cell B)
    (to_v1 : B → A → M cell A) : Prop :=
  ∀ (m : memory) x v out, abs m x = Some v → complete v →
    wp (c ← to_config x out; to_v1 c x) m (λ x' m', m ⊆ m' ∧ abs m' x' = Some v).

Section Roundtrips.
Context `{!ConversionSpec}.

Lemma wp_reads {A} `{Stores cell A} `{Plain A} (zero : A) f (m : memory) p (v : option A) Q :
  reads zero f → abs m p = Some v → Q (default zero v) m → wp (f p) m Q.
Proof. intros Hf Hp HQ. unfold wp. by rewrite (Hf _ _ _ Hp). Qed.

Lemma wp_points {A} `{Stores cell A} `{Plain A} f (m : memory) (a : A) (Q : ref A → memory → Prop) :
  points f → (∀ p m', m ⊆ m' → abs m' p = Some (Some a) → Q p m') → wp (f a) m Q.
Proof. intros Hf HQ. eapply wp_mono; [apply Hf|]. intros p m' [? ?]. by apply HQ. Qed.

#[local] Create HintDb conversions.
#[local] Hint Resolve reads_int64 points_int64 reads_int32 points_int32 reads_float64 points_float64
  reads_string points_string reads_bool points_bool : conversions.

(** What is known of the memory still holds after an allocation. *)
Ltac lift S :=
  repeat match goal with
  | Hv : abs ?m ?a = Some ?v |- _ =>
      lazymatch type of S with m ⊆ _ => apply (abs_mono _ _ _ _ S) in Hv end
  end.

Ltac convert_step :=
  lazymatch goal with
  | |- wp (mret _) _ _ => apply wp_ret; cbn beta
  | |- wp (_ ≫= _) _ _ => apply wp_bind
  | |- wp (load (At _)) _ _ => eapply wp_load; [eassumption|]
  | |- wp (alloc_box _) _ _ => fail
  | |- wp (_ _) _ _ =>
      first [ eapply wp_reads; [solve [auto with conversions]|eassumption|]; cbv beta iota delta [default from_option id]
            | eapply wp_points; [solve [auto with conversions]|];
              let S := fresh "S" in intros ? ? S ?; lift S ]
  end.

(** The fields of a struct in memory, nested ones included. *)
Tactic Notation "read_fields" hyp(Ha) reference(value) :=
  cbn [abs] in Ha; unfold value in Ha; repeat (apply bind_Some in Ha as (? & ? & Ha)); injection Ha as <-.

Lemma MetricProviderSpec_value (m : memory) (x : v1_MetricProviderSpec ref) a b c :
  abs m (mp_Address x) = Some a → abs m (mp_Token x) = Some b → abs m (mp_InsecureSkipVerify x) = Some c →
  abs m x = Some {| mp_Type := mp_Type x; mp_Address := a; mp_Token := b; mp_InsecureSkipVerify := c |}.
Proof.
  intros Ha Hb Hc. change (abs_v1_MetricProviderSpec m x = Some (mk_v1_MetricProviderSpec _ (mp_Type x) a b c)).
  unfold abs_v1_MetricProviderSpec. by rewrite Ha, Hb, Hc.
Qed.

Lemma TrimaranSpec_value (m : memory) (x : v1_TrimaranSpec ref) a b :
  abs m (ts_MetricProvider x) = Some a → abs m (ts_WatcherAddress x) = Some b →
  abs m x = Some {| ts_MetricProvider := a; ts_WatcherAddress := b |}.
Proof.
  intros Ha Hb. change (abs_v1_TrimaranSpec m x = Some (mk_v1_TrimaranSpec a b)). 
  unfold abs_v1_TrimaranSpec. by rewrite Ha, Hb.
Qed.

Ltac field_value :=
  first [ eassumption
        | eapply MetricProviderSpec_value; eassumption
        | eapply TrimaranSpec_value; [eapply MetricProviderSpec_value|]; eassumption ].

Ltac sub := repeat first [done | eassumption | etrans; [eassumption|]].

Ltac same_fields :=
  cbn; repeat match goal with
  | x : config_TrimaranSpec |- _ => destruct x
  | x : config_MetricProviderSpec |- _ => destruct x
  end; reflexivity.

(** The fields of a [TrimaranSpec], and what [complete] says of them all. *)
Ltac read_nested :=
  repeat match goal with
  | Hx : @abs _ (v1_TrimaranSpec ref) _ _ _ _ = Some _ |- _ => read_fields Hx abs_v1_TrimaranSpec
  | Hx : @abs _ (v1_MetricProviderSpec ref) _ _ _ _ = Some _ |- _ => read_fields Hx abs_v1_MetricProviderSpec
  end.

Tactic Notation "complete_fields" hyp(Hc) :=
  unfold complete_v1_CoschedulingArgs, complete_v1_TargetLoadPackingArgs,
    complete_v1_LoadVariationRiskBalancingArgs, complete_v1_LowRiskOverCommitmentArgs, complete_v1_NodeResourceTopologyMatchArgs,
    complete_v1_PreemptionTolerationArgs, complete_v1_NetworkOverheadArgs, complete_v1_SySchedArgs,
    complete_v1_TrimaranSpec, complete_v1_MetricProviderSpec in Hc; cbn in Hc;
  repeat match goal with
  | Hx : _ ∧ _ |- _ => destruct Hx
  | Hx : is_Some _ |- _ => destruct Hx
  end; subst.

(** The result: each field has the value it should. *)
Tactic Notation "convert_end" reference(value) constr(f) :=
  split; [solve [sub]|]; 
  lazymatch goal with |- abs ?m ?a = _ => change (abs m a) with (f m a) end; unfold value;
  repeat (refine (abs_bind _ _ _ _ _ _ _); [solve [field_value]|]).

Lemma PowerModel_config_roundtrip :
  config_roundtrip Convert_config_PowerModel_To_v1_PowerModel Convert_v1_PowerModel_To_config_PowerModel.
Proof.
  intros m c cv out Hc.
  injection Hc as <-.
  unfold
    Convert_config_PowerModel_To_v1_PowerModel, autoConvert_config_PowerModel_To_v1_PowerModel,
    Convert_v1_PowerModel_To_config_PowerModel, autoConvert_v1_PowerModel_To_config_PowerModel.
  repeat convert_step. split; [solve [sub]|]. try destruct c; same_fields.
Qed.

Lemma PowerModel_v1_roundtrip :
  v1_roundtrip (λ _, True) Convert_v1_PowerModel_To_config_PowerModel Convert_config_PowerModel_To_v1_PowerModel.
Proof.
  intros m x v out Hx Hcomplete.
  injection Hx as <-.
  unfold
    Convert_config_PowerModel_To_v1_PowerModel, autoConvert_config_PowerModel_To_v1_PowerModel,
    Convert_v1_PowerModel_To_config_PowerModel, autoConvert_v1_PowerModel_To_config_PowerModel.
  repeat convert_step. split; [solve [sub]|]. by destruct x.
Qed.

Lemma ScoringStrategy_config_roundtrip :
  config_roundtrip
    Convert_config_ScoringStrategy_To_v1_ScoringStrategy
    Convert_v1_ScoringStrategy_To_config_ScoringStrategy.
Proof.
  intros m c cv out Hc.
  read_fields Hc abs_ScoringStrategy.
  unfold
    Convert_config_ScoringStrategy_To_v1_ScoringStrategy,
    autoConvert_config_ScoringStrategy_To_v1_ScoringStrategy,
    Convert_v1_ScoringStrategy_To_config_ScoringStrategy,
    autoConvert_v1_ScoringStrategy_To_config_ScoringStrategy.
  repeat convert_step. convert_end abs_ScoringStrategy abs_ScoringStrategy. try destruct c; same_fields.
Qed.

Lemma ScoringStrategy_v1_roundtrip :
  v1_roundtrip (λ _, True)
    Convert_v1_ScoringStrategy_To_config_ScoringStrategy
    Convert_config_ScoringStrategy_To_v1_ScoringStrategy.
Proof.
  intros m x v out Hx Hcomplete.
  read_fields Hx abs_ScoringStrategy.
  unfold
    Convert_config_ScoringStrategy_To_v1_ScoringStrategy,
    autoConvert_config_ScoringStrategy_To_v1_ScoringStrategy,
    Convert_v1_ScoringStrategy_To_config_ScoringStrategy,
    autoConvert_v1_ScoringStrategy_To_config_ScoringStrategy.
  repeat convert_step. convert_end abs_ScoringStrategy abs_ScoringStrategy. done.
Qed.

Lemma NodeResourceTopologyCache_config_roundtrip :
  config_roundtrip
    Convert_config_NodeResourceTopologyCache_To_v1_NodeResourceTopologyCache
    Convert_v1_NodeResourceTopologyCache_To_config_NodeResourceTopologyCache.
Proof.
  intros m c cv out Hc.
  read_fields Hc abs_NodeResourceTopologyCache.
  unfold
    Convert_config_NodeResourceTopologyCache_To_v1_NodeResourceTopologyCache,
    autoConvert_config_NodeResourceTopologyCache_To_v1_NodeResourceTopologyCache,
    Convert_v1_NodeResourceTopologyCache_To_config_NodeResourceTopologyCache,
    autoConvert_v1_NodeResourceTopologyCache_To_config_NodeResourceTopologyCache.
  repeat convert_step. convert_end abs_NodeResourceTopologyCache abs_NodeResourceTopologyCache.
  try destruct c; same_fields.
Qed.

Lemma NodeResourceTopologyCache_v1_roundtrip :
  v1_roundtrip (λ _, True)
    Convert_v1_NodeResourceTopologyCache_To_config_NodeResourceTopologyCache
    Convert_config_NodeResourceTopologyCache_To_v1_NodeResourceTopologyCache.
Proof.
  intros m x v out Hx Hcomplete.
  read_fields Hx abs_NodeResourceTopologyCache.
  unfold
    Convert_config_NodeResourceTopologyCache_To_v1_NodeResourceTopologyCache,
    autoConvert_config_NodeResourceTopologyCache_To_v1_NodeResourceTopologyCache,
    Convert_v1_NodeResourceTopologyCache_To_config_NodeResourceTopologyCache,
    autoConvert_v1_NodeResourceTopologyCache_To_config_NodeResourceTopologyCache.
  repeat convert_step. convert_end abs_NodeResourceTopologyCache abs_NodeResourceTopologyCache. done.
Qed.

Lemma MetricProviderSpec_config_roundtrip :
  config_roundtrip
    Convert_config_MetricProviderSpec_To_v1_MetricProviderSpec
    Convert_v1_MetricProviderSpec_To_config_MetricProviderSpec.
Proof.
  intros m c cv out Hc.
  injection Hc as <-.
  unfold
    Convert_config_MetricProviderSpec_To_v1_MetricProviderSpec,
    autoConvert_config_MetricProviderSpec_To_v1_MetricProviderSpec,
    Convert_v1_MetricProviderSpec_To_config_MetricProviderSpec,
    autoConvert_v1_MetricProviderSpec_To_config_MetricProviderSpec.
  repeat convert_step. split; [solve [sub]|]. try destruct c; same_fields.
Qed.

Lemma MetricProviderSpec_v1_roundtrip :
  v1_roundtrip complete_v1_MetricProviderSpec
    Convert_v1_MetricProviderSpec_To_config_MetricProviderSpec
    Convert_config_MetricProviderSpec_To_v1_MetricProviderSpec.
Proof.
  intros m x v out Hx Hcomplete.
  read_fields Hx abs_v1_MetricProviderSpec. complete_fields Hcomplete.
  unfold
    Convert_config_MetricProviderSpec_To_v1_MetricProviderSpec,
    autoConvert_config_MetricProviderSpec_To_v1_MetricProviderSpec,
    Convert_v1_MetricProviderSpec_To_config_MetricProviderSpec,
    autoConvert_v1_MetricProviderSpec_To_config_MetricProviderSpec.
  repeat convert_step. convert_end abs_v1_MetricProviderSpec abs_v1_MetricProviderSpec. done.
Qed.

Lemma TrimaranSpec_config_roundtrip :
  config_roundtrip Convert_config_TrimaranSpec_To_v1_TrimaranSpec Convert_v1_TrimaranSpec_To_config_TrimaranSpec.
Proof.
  intros m c cv out Hc.
  injection Hc as <-.
  unfold
    Convert_config_TrimaranSpec_To_v1_TrimaranSpec, autoConvert_config_TrimaranSpec_To_v1_TrimaranSpec,
    Convert_v1_TrimaranSpec_To_config_TrimaranSpec, autoConvert_v1_TrimaranSpec_To_config_TrimaranSpec,
    Convert_config_MetricProviderSpec_To_v1_MetricProviderSpec,
    autoConvert_config_MetricProviderSpec_To_v1_MetricProviderSpec,
    Convert_v1_MetricProviderSpec_To_config_MetricProviderSpec,
    autoConvert_v1_MetricProviderSpec_To_config_MetricProviderSpec.
  repeat convert_step. split; [solve [sub]|]. try destruct c; same_fields.
Qed.

Lemma TrimaranSpec_v1_roundtrip :
  v1_roundtrip complete_v1_TrimaranSpec
    Convert_v1_TrimaranSpec_To_config_TrimaranSpec
    Convert_config_TrimaranSpec_To_v1_TrimaranSpec.
Proof.
  intros m x v out Hx Hcomplete.
  read_fields Hx abs_v1_TrimaranSpec. read_nested. complete_fields Hcomplete.
  unfold
    Convert_config_TrimaranSpec_To_v1_TrimaranSpec, autoConvert_config_TrimaranSpec_To_v1_TrimaranSpec,
    Convert_v1_TrimaranSpec_To_config_TrimaranSpec, autoConvert_v1_TrimaranSpec_To_config_TrimaranSpec,
    Convert_config_MetricProviderSpec_To_v1_MetricProviderSpec,
    autoConvert_config_MetricProviderSpec_To_v1_MetricProviderSpec,
    Convert_v1_MetricProviderSpec_To_config_MetricProviderSpec,
    autoConvert_v1_MetricProviderSpec_To_config_MetricProviderSpec.
  repeat convert_step. convert_end abs_v1_TrimaranSpec abs_v1_TrimaranSpec. done.
Qed.

Lemma CoschedulingArgs_config_roundtrip :
  config_roundtrip
    Convert_config_CoschedulingArgs_To_v1_CoschedulingArgs
    Convert_v1_CoschedulingArgs_To_config_CoschedulingArgs.
Proof.
  intros m c cv out Hc.
  injection Hc as <-.
  unfold
    Convert_config_CoschedulingArgs_To_v1_CoschedulingArgs,
    autoConvert_config_CoschedulingArgs_To_v1_CoschedulingArgs,
    Convert_v1_CoschedulingArgs_To_config_CoschedulingArgs,
    autoConvert_v1_CoschedulingArgs_To_config_CoschedulingArgs.
  repeat convert_step. split; [solve [sub]|]. try destruct c; same_fields.
Qed.

Lemma CoschedulingArgs_v1_roundtrip :
  v1_roundtrip complete_v1_CoschedulingArgs
    Convert_v1_CoschedulingArgs_To_config_CoschedulingArgs
    Convert_config_CoschedulingArgs_To_v1_CoschedulingArgs.
Proof.
  intros m x v out Hx Hcomplete.
  read_fields Hx abs_v1_CoschedulingArgs. complete_fields Hcomplete.
  unfold
    Convert_config_CoschedulingArgs_To_v1_CoschedulingArgs,
    autoConvert_config_CoschedulingArgs_To_v1_CoschedulingArgs,
    Convert_v1_CoschedulingArgs_To_config_CoschedulingArgs,
    autoConvert_v1_CoschedulingArgs_To_config_CoschedulingArgs.
  repeat convert_step. convert_end abs_v1_CoschedulingArgs abs_v1_CoschedulingArgs. done.
Qed.

Lemma NodeResourcesAllocatableArgs_config_roundtrip :
  config_roundtrip
    Convert_config_NodeResourcesAllocatableArgs_To_v1_NodeResourcesAllocatableArgs
    Convert_v1_NodeResourcesAllocatableArgs_To_config_NodeResourcesAllocatableArgs.
Proof.
  intros m c cv out Hc.
  read_fields Hc abs_config_NodeResourcesAllocatableArgs.
  unfold
    Convert_config_NodeResourcesAllocatableArgs_To_v1_NodeResourcesAllocatableArgs,
    autoConvert_config_NodeResourcesAllocatableArgs_To_v1_NodeResourcesAllocatableArgs,
    Convert_v1_NodeResourcesAllocatableArgs_To_config_NodeResourcesAllocatableArgs,
    autoConvert_v1_NodeResourcesAllocatableArgs_To_config_NodeResourcesAllocatableArgs.
  repeat convert_step.
  convert_end abs_config_NodeResourcesAllocatableArgs abs_config_NodeResourcesAllocatableArgs. try destruct c; same_fields.
Qed.

Lemma NodeResourcesAllocatableArgs_v1_roundtrip :
  v1_roundtrip (λ _, True)
    Convert_v1_NodeResourcesAllocatableArgs_To_config_NodeResourcesAllocatableArgs
    Convert_config_NodeResourcesAllocatableArgs_To_v1_NodeResourcesAllocatableArgs.
Proof.
  intros m x v out Hx Hcomplete.
  read_fields Hx abs_v1_NodeResourcesAllocatableArgs.
  unfold
    Convert_config_NodeResourcesAllocatableArgs_To_v1_NodeResourcesAllocatableArgs,
    autoConvert_config_NodeResourcesAllocatableArgs_To_v1_NodeResourcesAllocatableArgs,
    Convert_v1_NodeResourcesAllocatableArgs_To_config_NodeResourcesAllocatableArgs,
    autoConvert_v1_NodeResourcesAllocatableArgs_To_config_NodeResourcesAllocatableArgs.
  repeat convert_step. convert_end abs_v1_NodeResourcesAllocatableArgs abs_v1_NodeResourcesAllocatableArgs. done.
Qed.

Lemma TargetLoadPackingArgs_config_roundtrip :
  config_roundtrip
    Convert_config_TargetLoadPackingArgs_To_v1_TargetLoadPackingArgs
    Convert_v1_TargetLoadPackingArgs_To_config_TargetLoadPackingArgs.
Proof.
  intros m c cv out Hc.
  read_fields Hc abs_config_TargetLoadPackingArgs.
  unfold
    Convert_config_TargetLoadPackingArgs_To_v1_TargetLoadPackingArgs,
    autoConvert_config_TargetLoadPackingArgs_To_v1_TargetLoadPackingArgs,
    Convert_v1_TargetLoadPackingArgs_To_config_TargetLoadPackingArgs,
    autoConvert_v1_TargetLoadPackingArgs_To_config_TargetLoadPackingArgs,
    Convert_config_TrimaranSpec_To_v1_TrimaranSpec, autoConvert_config_TrimaranSpec_To_v1_TrimaranSpec,
    Convert_v1_TrimaranSpec_To_config_TrimaranSpec, autoConvert_v1_TrimaranSpec_To_config_TrimaranSpec,
    Convert_config_MetricProviderSpec_To_v1_MetricProviderSpec,
    autoConvert_config_MetricProviderSpec_To_v1_MetricProviderSpec,
    Convert_v1_MetricProviderSpec_To_config_MetricProviderSpec,
    autoConvert_v1_MetricProviderSpec_To_config_MetricProviderSpec.
  repeat convert_step. convert_end abs_config_TargetLoadPackingArgs abs_config_TargetLoadPackingArgs.
  try destruct c; same_fields.
Qed.

Lemma TargetLoadPackingArgs_v1_roundtrip :
  v1_roundtrip complete_v1_TargetLoadPackingArgs
    Convert_v1_TargetLoadPackingArgs_To_config_TargetLoadPackingArgs
    Convert_config_TargetLoadPackingArgs_To_v1_TargetLoadPackingArgs.
Proof.
  intros m x v out Hx Hcomplete.
  read_fields Hx abs_v1_TargetLoadPackingArgs. read_nested. complete_fields Hcomplete.
  unfold
    Convert_config_TargetLoadPackingArgs_To_v1_TargetLoadPackingArgs,
    autoConvert_config_TargetLoadPackingArgs_To_v1_TargetLoadPackingArgs,
    Convert_v1_TargetLoadPackingArgs_To_config_TargetLoadPackingArgs,
    autoConvert_v1_TargetLoadPackingArgs_To_config_TargetLoadPackingArgs,
    Convert_config_TrimaranSpec_To_v1_TrimaranSpec, autoConvert_config_TrimaranSpec_To_v1_TrimaranSpec,
    Convert_v1_TrimaranSpec_To_config_TrimaranSpec, autoConvert_v1_TrimaranSpec_To_config_TrimaranSpec,
    Convert_config_MetricProviderSpec_To_v1_MetricProviderSpec,
    autoConvert_config_MetricProviderSpec_To_v1_MetricProviderSpec,
    Convert_v1_MetricProviderSpec_To_config_MetricProviderSpec,
    autoConvert_v1_MetricProviderSpec_To_config_MetricProviderSpec.
  repeat convert_step. convert_end abs_v1_TargetLoadPackingArgs abs_v1_TargetLoadPackingArgs. done.
Qed.

Lemma LoadVariationRiskBalancingArgs_config_roundtrip :
  config_roundtrip
    Convert_config_LoadVariationRiskBalancingArgs_To_v1_LoadVariationRiskBalancingArgs
    Convert_v1_LoadVariationRiskBalancingArgs_To_config_LoadVariationRiskBalancingArgs.
Proof.
  intros m c cv out Hc.
  injection Hc as <-.
  unfold
    Convert_config_LoadVariationRiskBalancingArgs_To_v1_LoadVariationRiskBalancingArgs,
    autoConvert_config_LoadVariationRiskBalancingArgs_To_v1_LoadVariationRiskBalancingArgs,
    Convert_v1_LoadVariationRiskBalancingArgs_To_config_LoadVariationRiskBalancingArgs,
    autoConvert_v1_LoadVariationRiskBalancingArgs_To_config_LoadVariationRiskBalancingArgs,
    Convert_config_TrimaranSpec_To_v1_TrimaranSpec, autoConvert_config_TrimaranSpec_To_v1_TrimaranSpec,
    Convert_v1_TrimaranSpec_To_config_TrimaranSpec, autoConvert_v1_TrimaranSpec_To_config_TrimaranSpec,
    Convert_config_MetricProviderSpec_To_v1_MetricProviderSpec,
    autoConvert_config_MetricProviderSpec_To_v1_MetricProviderSpec,
    Convert_v1_MetricProviderSpec_To_config_MetricProviderSpec,
    autoConvert_v1_MetricProviderSpec_To_config_MetricProviderSpec.
  repeat convert_step. split; [solve [sub]|]. try destruct c; same_fields.
Qed.

Lemma LoadVariationRiskBalancingArgs_v1_roundtrip :
  v1_roundtrip complete_v1_LoadVariationRiskBalancingArgs
    Convert_v1_LoadVariationRiskBalancingArgs_To_config_LoadVariationRiskBalancingArgs
    Convert_config_LoadVariationRiskBalancingArgs_To_v1_LoadVariationRiskBalancingArgs.
Proof.
  intros m x v out Hx Hcomplete.
  read_fields Hx abs_v1_LoadVariationRiskBalancingArgs. read_nested. complete_fields Hcomplete.
  unfold
    Convert_config_LoadVariationRiskBalancingArgs_To_v1_LoadVariationRiskBalancingArgs,
    autoConvert_config_LoadVariationRiskBalancingArgs_To_v1_LoadVariationRiskBalancingArgs,
    Convert_v1_LoadVariationRiskBalancingArgs_To_config_LoadVariationRiskBalancingArgs,
    autoConvert_v1_LoadVariationRiskBalancingArgs_To_config_LoadVariationRiskBalancingArgs,
    Convert_config_TrimaranSpec_To_v1_TrimaranSpec, autoConvert_config_TrimaranSpec_To_v1_TrimaranSpec,
    Convert_v1_TrimaranSpec_To_config_TrimaranSpec, autoConvert_v1_TrimaranSpec_To_config_TrimaranSpec,
    Convert_config_MetricProviderSpec_To_v1_MetricProviderSpec,
    autoConvert_config_MetricProviderSpec_To_v1_MetricProviderSpec,
    Convert_v1_MetricProviderSpec_To_config_MetricProviderSpec,
    autoConvert_v1_MetricProviderSpec_To_config_MetricProviderSpec.
  repeat convert_step. convert_end abs_v1_LoadVariationRiskBalancingArgs abs_v1_LoadVariationRiskBalancingArgs.
  done.
Qed.

Lemma LowRiskOverCommitmentArgs_config_roundtrip :
  config_roundtrip
    Convert_config_LowRiskOverCommitmentArgs_To_v1_LowRiskOverCommitmentArgs
    Convert_v1_LowRiskOverCommitmentArgs_To_config_LowRiskOverCommitmentArgs.
Proof.
  intros m c cv out Hc.
  read_fields Hc abs_config_LowRiskOverCommitmentArgs.
  unfold
    Convert_config_LowRiskOverCommitmentArgs_To_v1_LowRiskOverCommitmentArgs,
    autoConvert_config_LowRiskOverCommitmentArgs_To_v1_LowRiskOverCommitmentArgs,
    Convert_v1_LowRiskOverCommitmentArgs_To_config_LowRiskOverCommitmentArgs,
    autoConvert_v1_LowRiskOverCommitmentArgs_To_config_LowRiskOverCommitmentArgs,
    Convert_config_TrimaranSpec_To_v1_TrimaranSpec, autoConvert_config_TrimaranSpec_To_v1_TrimaranSpec,
    Convert_v1_TrimaranSpec_To_config_TrimaranSpec, autoConvert_v1_TrimaranSpec_To_config_TrimaranSpec,
    Convert_config_MetricProviderSpec_To_v1_MetricProviderSpec,
    autoConvert_config_MetricProviderSpec_To_v1_MetricProviderSpec,
    Convert_v1_MetricProviderSpec_To_config_MetricProviderSpec,
    autoConvert_v1_MetricProviderSpec_To_config_MetricProviderSpec.
  repeat convert_step. convert_end abs_config_LowRiskOverCommitmentArgs abs_config_LowRiskOverCommitmentArgs.
  try destruct c; same_fields.
Qed.

Lemma LowRiskOverCommitmentArgs_v1_roundtrip :
  v1_roundtrip complete_v1_LowRiskOverCommitmentArgs
    Convert_v1_LowRiskOverCommitmentArgs_To_config_LowRiskOverCommitmentArgs
    Convert_config_LowRiskOverCommitmentArgs_To_v1_LowRiskOverCommitmentArgs.
Proof.
  intros m x v out Hx Hcomplete.
  read_fields Hx abs_v1_LowRiskOverCommitmentArgs. read_nested. complete_fields Hcomplete.
  unfold
    Convert_config_LowRiskOverCommitmentArgs_To_v1_LowRiskOverCommitmentArgs,
    autoConvert_config_LowRiskOverCommitmentArgs_To_v1_LowRiskOverCommitmentArgs,
    Convert_v1_LowRiskOverCommitmentArgs_To_config_LowRiskOverCommitmentArgs,
    autoConvert_v1_LowRiskOverCommitmentArgs_To_config_LowRiskOverCommitmentArgs,
    Convert_config_TrimaranSpec_To_v1_TrimaranSpec, autoConvert_config_TrimaranSpec_To_v1_TrimaranSpec,
    Convert_v1_TrimaranSpec_To_config_TrimaranSpec, autoConvert_v1_TrimaranSpec_To_config_TrimaranSpec,
    Convert_config_MetricProviderSpec_To_v1_MetricProviderSpec,
    autoConvert_config_MetricProviderSpec_To_v1_MetricProviderSpec,
    Convert_v1_MetricProviderSpec_To_config_MetricProviderSpec,
    autoConvert_v1_MetricProviderSpec_To_config_MetricProviderSpec.
  repeat convert_step. convert_end abs_v1_LowRiskOverCommitmentArgs abs_v1_LowRiskOverCommitmentArgs. done.
Qed.

(** The strategy, a struct in one version and a pointer in the other. *)
Lemma box_value {A B} `{Stores cell A} `{Repr cell A B} (m : memory) l (v : here B) :
  abs m (BoxAt (A := A) l) = Some v → ∃ a, m !! l ≫= prj = Some a ∧ abs m a = Some v.
Proof. by intros (a & Ha & Hv)%bind_Some; exists a. Qed.

Lemma new_box_value {A B} `{Stores cell A} `{Repr cell A B} (m : memory) l a (v : B) :
  m !! l = None → abs m a = Some v → abs (<[l := inj a]> m) (BoxAt (A := A) l) = Some (v : here B).
Proof.
  intros Hl Ha. change (abs_box (<[l := inj a]> m) (BoxAt (A := A) l) = Some v). unfold abs_box.
  rewrite lookup_insert_eq. simpl. rewrite prj_inj. simpl.
  eapply abs_mono; [by apply insert_subseteq|done].
Qed.

Lemma ref_value {A B} `{Stores cell A} `{Repr cell A B} (m : memory) (p : ref A) (v : B) :
  abs m p = Some (Some v) → ∃ l a, p = At l ∧ m !! l ≫= prj = Some a ∧ abs m a = Some v.
Proof.
  destruct p as [|l]; [done|]. intros (a & Ha & Hv)%bind_Some.
  apply bind_Some in Hv as (b & Hb & [= <-]). by exists l, a.
Qed.

Lemma value_ref {A B} `{Stores cell A} `{Repr cell A B} (m : memory) l a (v : B) :
  m !! l ≫= prj = Some a → abs m a = Some v → abs m (At (A := A) l) = Some (Some v).
Proof.
  intros Hl Ha. change (abs_ref m (At (A := A) l) = Some (Some v)). unfold abs_ref. rewrite Hl. simpl.
  by rewrite Ha.
Qed.

Lemma NodeResourceTopologyMatchArgs_config_roundtrip :
  config_roundtrip Convert_config_NodeResourceTopologyMatchArgs_To_v1_NodeResourceTopologyMatchArgs
    Convert_v1_NodeResourceTopologyMatchArgs_To_config_NodeResourceTopologyMatchArgs.
Proof.
  intros m c cv out Hc. read_fields Hc abs_config_NodeResourceTopologyMatchArgs.
  destruct c as [tm [l] secs disc cache]. cbn [cnm_TypeMeta cnm_ScoringStrategy cnm_CacheResyncPeriodSeconds
    cnm_DiscardReservedNodes cnm_Cache] in *.
  unfold Convert_config_NodeResourceTopologyMatchArgs_To_v1_NodeResourceTopologyMatchArgs,
    autoConvert_config_NodeResourceTopologyMatchArgs_To_v1_NodeResourceTopologyMatchArgs,
    Convert_v1_NodeResourceTopologyMatchArgs_To_config_NodeResourceTopologyMatchArgs,
    autoConvert_v1_NodeResourceTopologyMatchArgs_To_config_NodeResourceTopologyMatchArgs.
  do 20 try convert_step.
  match goal with Hb : abs ?m' (BoxAt l) = Some _ |- _ => pose proof (box_value m' l _ Hb) as (a & Ha & Hav) end.
  eapply (wp_load l a); [exact Ha|]. apply wp_bind, wp_alloc_box. intros l' Hl'. apply wp_ret.
  pose proof (new_box_value _ l' a _ Hl' Hav) as Hnew.
  assert (m' ⊆ <[l' := inj a]> m') as S1 by by apply insert_subseteq.
  lift S1. convert_end abs_config_NodeResourceTopologyMatchArgs abs_config_NodeResourceTopologyMatchArgs. done.
Qed.

Lemma NodeResourceTopologyMatchArgs_v1_roundtrip :
  v1_roundtrip complete_v1_NodeResourceTopologyMatchArgs
    Convert_v1_NodeResourceTopologyMatchArgs_To_config_NodeResourceTopologyMatchArgs
    Convert_config_NodeResourceTopologyMatchArgs_To_v1_NodeResourceTopologyMatchArgs.
Proof.
  intros m x v out Hx Hcomplete. read_fields Hx abs_v1_NodeResourceTopologyMatchArgs.
  complete_fields Hcomplete. destruct x as [tm p secs disc cache]. cbn [nm_TypeMeta nm_ScoringStrategy
    nm_CacheResyncPeriodSeconds nm_DiscardReservedNodes nm_Cache] in *.
  match goal with Hp : abs m p = Some (Some _) |- _ => pose proof (ref_value m p _ Hp) as (l & a & -> & Ha & Hav) end.
  unfold Convert_config_NodeResourceTopologyMatchArgs_To_v1_NodeResourceTopologyMatchArgs,
    autoConvert_config_NodeResourceTopologyMatchArgs_To_v1_NodeResourceTopologyMatchArgs,
    Convert_v1_NodeResourceTopologyMatchArgs_To_config_NodeResourceTopologyMatchArgs,
    autoConvert_v1_NodeResourceTopologyMatchArgs_To_config_NodeResourceTopologyMatchArgs.
  do 20 try convert_step. eapply (wp_load l a); [exact Ha|].
  apply wp_bind, wp_alloc_box. intros l' Hl'. apply wp_ret.
  pose proof (new_box_value _ l' a _ Hl' Hav) as Hnew.
  assert (m ⊆ <[l' := inj a]> m) as S1 by by apply insert_subseteq.
  assert ((<[l' := inj a]> m) !! l' ≫= prj = Some a) as Hl1 by by rewrite lookup_insert_eq.
  lift S1. pose proof (value_ref _ _ _ _ Hl1 Hav) as Hstrategy.
  do 20 try convert_step.
  convert_end abs_v1_NodeResourceTopologyMatchArgs abs_v1_NodeResourceTopologyMatchArgs. done.
Qed.


Lemma PreemptionTolerationArgs_config_roundtrip :
  config_roundtrip
    Convert_config_PreemptionTolerationArgs_To_v1_PreemptionTolerationArgs
    Convert_v1_PreemptionTolerationArgs_To_config_PreemptionTolerationArgs.
Proof.
  intros m c cv out Hc.
  injection Hc as <-.
  unfold
    Convert_config_PreemptionTolerationArgs_To_v1_PreemptionTolerationArgs,
    autoConvert_config_PreemptionTolerationArgs_To_v1_PreemptionTolerationArgs,
    Convert_v1_PreemptionTolerationArgs_To_config_PreemptionTolerationArgs,
    autoConvert_v1_PreemptionTolerationArgs_To_config_PreemptionTolerationArgs.
  repeat convert_step. split; [solve [sub]|]. try destruct c; same_fields.
Qed.

Lemma PreemptionTolerationArgs_v1_roundtrip :
  v1_roundtrip complete_v1_PreemptionTolerationArgs
    Convert_v1_PreemptionTolerationArgs_To_config_PreemptionTolerationArgs
    Convert_config_PreemptionTolerationArgs_To_v1_PreemptionTolerationArgs.
Proof.
  intros m x v out Hx Hcomplete.
  read_fields Hx abs_v1_PreemptionTolerationArgs. complete_fields Hcomplete.
  unfold
    Convert_config_PreemptionTolerationArgs_To_v1_PreemptionTolerationArgs,
    autoConvert_config_PreemptionTolerationArgs_To_v1_PreemptionTolerationArgs,
    Convert_v1_PreemptionTolerationArgs_To_config_PreemptionTolerationArgs,
    autoConvert_v1_PreemptionTolerationArgs_To_config_PreemptionTolerationArgs.
  repeat convert_step. convert_end abs_v1_PreemptionTolerationArgs abs_v1_PreemptionTolerationArgs. done.
Qed.

Lemma TopologicalSortArgs_config_roundtrip :
  config_roundtrip
    Convert_config_TopologicalSortArgs_To_v1_TopologicalSortArgs
    Convert_v1_TopologicalSortArgs_To_config_TopologicalSortArgs.
Proof.
  intros m c cv out Hc.
  read_fields Hc abs_config_TopologicalSortArgs.
  unfold
    Convert_config_TopologicalSortArgs_To_v1_TopologicalSortArgs,
    autoConvert_config_TopologicalSortArgs_To_v1_TopologicalSortArgs,
    Convert_v1_TopologicalSortArgs_To_config_TopologicalSortArgs,
    autoConvert_v1_TopologicalSortArgs_To_config_TopologicalSortArgs.
  repeat convert_step. convert_end abs_config_TopologicalSortArgs abs_config_TopologicalSortArgs.
  try destruct c; same_fields.
Qed.

Lemma TopologicalSortArgs_v1_roundtrip :
  v1_roundtrip (λ _, True)
    Convert_v1_TopologicalSortArgs_To_config_TopologicalSortArgs
    Convert_config_TopologicalSortArgs_To_v1_TopologicalSortArgs.
Proof.
  intros m x v out Hx Hcomplete.
  read_fields Hx abs_v1_TopologicalSortArgs.
  unfold
    Convert_config_TopologicalSortArgs_To_v1_TopologicalSortArgs,
    autoConvert_config_TopologicalSortArgs_To_v1_TopologicalSortArgs,
    Convert_v1_TopologicalSortArgs_To_config_TopologicalSortArgs,
    autoConvert_v1_TopologicalSortArgs_To_config_TopologicalSortArgs.
  repeat convert_step. convert_end abs_v1_TopologicalSortArgs abs_v1_TopologicalSortArgs. done.
Qed.

Lemma NetworkOverheadArgs_config_roundtrip :
  config_roundtrip
    Convert_config_NetworkOverheadArgs_To_v1_NetworkOverheadArgs
    Convert_v1_NetworkOverheadArgs_To_config_NetworkOverheadArgs.
Proof.
  intros m c cv out Hc.
  read_fields Hc abs_config_NetworkOverheadArgs.
  unfold
    Convert_config_NetworkOverheadArgs_To_v1_NetworkOverheadArgs,
    autoConvert_config_NetworkOverheadArgs_To_v1_NetworkOverheadArgs,
    Convert_v1_NetworkOverheadArgs_To_config_NetworkOverheadArgs,
    autoConvert_v1_NetworkOverheadArgs_To_config_NetworkOverheadArgs.
  repeat convert_step. convert_end abs_config_NetworkOverheadArgs abs_config_NetworkOverheadArgs.
  try destruct c; same_fields.
Qed.

Lemma NetworkOverheadArgs_v1_roundtrip :
  v1_roundtrip complete_v1_NetworkOverheadArgs
    Convert_v1_NetworkOverheadArgs_To_config_NetworkOverheadArgs
    Convert_config_NetworkOverheadArgs_To_v1_NetworkOverheadArgs.
Proof.
  intros m x v out Hx Hcomplete.
  read_fields Hx abs_v1_NetworkOverheadArgs. complete_fields Hcomplete.
  unfold
    Convert_config_NetworkOverheadArgs_To_v1_NetworkOverheadArgs,
    autoConvert_config_NetworkOverheadArgs_To_v1_NetworkOverheadArgs,
    Convert_v1_NetworkOverheadArgs_To_config_NetworkOverheadArgs,
    autoConvert_v1_NetworkOverheadArgs_To_config_NetworkOverheadArgs.
  repeat convert_step. convert_end abs_v1_NetworkOverheadArgs abs_v1_NetworkOverheadArgs. done.
Qed.

Lemma SySchedArgs_config_roundtrip :
  config_roundtrip Convert_config_SySchedArgs_To_v1_SySchedArgs Convert_v1_SySchedArgs_To_config_SySchedArgs.
Proof.
  intros m c cv out Hc.
  injection Hc as <-.
  unfold
    Convert_config_SySchedArgs_To_v1_SySchedArgs, autoConvert_config_SySchedArgs_To_v1_SySchedArgs,
    Convert_v1_SySchedArgs_To_config_SySchedArgs, autoConvert_v1_SySchedArgs_To_config_SySchedArgs.
  repeat convert_step. split; [solve [sub]|]. try destruct c; same_fields.
Qed.

Lemma SySchedArgs_v1_roundtrip :
  v1_roundtrip complete_v1_SySchedArgs
    Convert_v1_SySchedArgs_To_config_SySchedArgs
    Convert_config_SySchedArgs_To_v1_SySchedArgs.
Proof.
  intros m x v out Hx Hcomplete.
  read_fields Hx abs_v1_SySchedArgs. complete_fields Hcomplete.
  unfold
    Convert_config_SySchedArgs_To_v1_SySchedArgs, autoConvert_config_SySchedArgs_To_v1_SySchedArgs,
    Convert_v1_SySchedArgs_To_config_SySchedArgs, autoConvert_v1_SySchedArgs_To_config_SySchedArgs.
  repeat convert_step. convert_end abs_v1_SySchedArgs abs_v1_SySchedArgs. done.
Qed.

Lemma PeaksArgs_config_roundtrip :
  config_roundtrip Convert_config_PeaksArgs_To_v1_PeaksArgs Convert_v1_PeaksArgs_To_config_PeaksArgs.
Proof.
  intros m c cv out Hc.
  read_fields Hc abs_config_PeaksArgs.
  unfold
    Convert_config_PeaksArgs_To_v1_PeaksArgs, autoConvert_config_PeaksArgs_To_v1_PeaksArgs,
    Convert_v1_PeaksArgs_To_config_PeaksArgs, autoConvert_v1_PeaksArgs_To_config_PeaksArgs.
  repeat convert_step. convert_end abs_config_PeaksArgs abs_config_PeaksArgs. try destruct c; same_fields.
Qed.

Lemma PeaksArgs_v1_roundtrip :
  v1_roundtrip (λ _, True) Convert_v1_PeaksArgs_To_config_PeaksArgs Convert_config_PeaksArgs_To_v1_PeaksArgs.
Proof.
  intros m x v out Hx Hcomplete.
  read_fields Hx abs_v1_PeaksArgs.
  unfold
    Convert_config_PeaksArgs_To_v1_PeaksArgs, autoConvert_config_PeaksArgs_To_v1_PeaksArgs,
    Convert_v1_PeaksArgs_To_config_PeaksArgs, autoConvert_v1_PeaksArgs_To_config_PeaksArgs.
  repeat convert_step. convert_end abs_v1_PeaksArgs abs_v1_PeaksArgs. done.
Qed.

(** C28: the two conversions of every type undo one another.  A configuration
    converted to v1 and back has the value it had, and so has a v1 object
    converted to the internal version and back once each of its pointers that the internal
    version holds by value is set; neither ever panics there. *)
Theorem conversions_roundtrip :
  config_roundtrip Convert_config_PowerModel_To_v1_PowerModel
    Convert_v1_PowerModel_To_config_PowerModel ∧
  config_roundtrip Convert_config_ScoringStrategy_To_v1_ScoringStrategy
    Convert_v1_ScoringStrategy_To_config_ScoringStrategy ∧
  config_roundtrip Convert_config_NodeResourceTopologyCache_To_v1_NodeResourceTopologyCache
    Convert_v1_NodeResourceTopologyCache_To_config_NodeResourceTopologyCache ∧
  config_roundtrip Convert_config_MetricProviderSpec_To_v1_MetricProviderSpec
    Convert_v1_MetricProviderSpec_To_config_MetricProviderSpec ∧
  config_roundtrip Convert_config_TrimaranSpec_To_v1_TrimaranSpec
    Convert_v1_TrimaranSpec_To_config_TrimaranSpec ∧
  config_roundtrip Convert_config_CoschedulingArgs_To_v1_CoschedulingArgs
    Convert_v1_CoschedulingArgs_To_config_CoschedulingArgs ∧
  config_roundtrip Convert_config_NodeResourcesAllocatableArgs_To_v1_NodeResourcesAllocatableArgs
    Convert_v1_NodeResourcesAllocatableArgs_To_config_NodeResourcesAllocatableArgs ∧
  config_roundtrip Convert_config_TargetLoadPackingArgs_To_v1_TargetLoadPackingArgs
    Convert_v1_TargetLoadPackingArgs_To_config_TargetLoadPackingArgs ∧
  config_roundtrip Convert_config_LoadVariationRiskBalancingArgs_To_v1_LoadVariationRiskBalancingArgs
    Convert_v1_LoadVariationRiskBalancingArgs_To_config_LoadVariationRiskBalancingArgs ∧
  config_roundtrip Convert_config_LowRiskOverCommitmentArgs_To_v1_LowRiskOverCommitmentArgs
    Convert_v1_LowRiskOverCommitmentArgs_To_config_LowRiskOverCommitmentArgs ∧
  config_roundtrip Convert_config_NodeResourceTopologyMatchArgs_To_v1_NodeResourceTopologyMatchArgs
    Convert_v1_NodeResourceTopologyMatchArgs_To_config_NodeResourceTopologyMatchArgs ∧
  config_roundtrip Convert_config_PreemptionTolerationArgs_To_v1_PreemptionTolerationArgs
    Convert_v1_PreemptionTolerationArgs_To_config_PreemptionTolerationArgs ∧
  config_roundtrip Convert_config_TopologicalSortArgs_To_v1_TopologicalSortArgs
    Convert_v1_TopologicalSortArgs_To_config_TopologicalSortArgs ∧
  config_roundtrip Convert_config_NetworkOverheadArgs_To_v1_NetworkOverheadArgs
    Convert_v1_NetworkOverheadArgs_To_config_NetworkOverheadArgs ∧
  config_roundtrip Convert_config_SySchedArgs_To_v1_SySchedArgs
    Convert_v1_SySchedArgs_To_config_SySchedArgs ∧
  config_roundtrip Convert_config_PeaksArgs_To_v1_PeaksArgs
    Convert_v1_PeaksArgs_To_config_PeaksArgs ∧
  v1_roundtrip (λ _, True)
    Convert_v1_PowerModel_To_config_PowerModel
    Convert_config_PowerModel_To_v1_PowerModel ∧
  v1_roundtrip (λ _, True)
    Convert_v1_ScoringStrategy_To_config_ScoringStrategy
    Convert_config_ScoringStrategy_To_v1_ScoringStrategy ∧
  v1_roundtrip (λ _, True)
    Convert_v1_NodeResourceTopologyCache_To_config_NodeResourceTopologyCache
    Convert_config_NodeResourceTopologyCache_To_v1_NodeResourceTopologyCache ∧
  v1_roundtrip complete_v1_MetricProviderSpec
    Convert_v1_MetricProviderSpec_To_config_MetricProviderSpec
    Convert_config_MetricProviderSpec_To_v1_MetricProviderSpec ∧
  v1_roundtrip complete_v1_TrimaranSpec
    Convert_v1_TrimaranSpec_To_config_TrimaranSpec
    Convert_config_TrimaranSpec_To_v1_TrimaranSpec ∧
  v1_roundtrip complete_v1_CoschedulingArgs
    Convert_v1_CoschedulingArgs_To_config_CoschedulingArgs
    Convert_config_CoschedulingArgs_To_v1_CoschedulingArgs ∧
  v1_roundtrip (λ _, True)
    Convert_v1_NodeResourcesAllocatableArgs_To_config_NodeResourcesAllocatableArgs
    Convert_config_NodeResourcesAllocatableArgs_To_v1_NodeResourcesAllocatableArgs ∧
  v1_roundtrip complete_v1_TargetLoadPackingArgs
    Convert_v1_TargetLoadPackingArgs_To_config_TargetLoadPackingArgs
    Convert_config_TargetLoadPackingArgs_To_v1_TargetLoadPackingArgs ∧
  v1_roundtrip complete_v1_LoadVariationRiskBalancingArgs
    Convert_v1_LoadVariationRiskBalancingArgs_To_config_LoadVariationRiskBalancingArgs
    Convert_config_LoadVariationRiskBalancingArgs_To_v1_LoadVariationRiskBalancingArgs ∧
  v1_roundtrip complete_v1_LowRiskOverCommitmentArgs
    Convert_v1_LowRiskOverCommitmentArgs_To_config_LowRiskOverCommitmentArgs
    Convert_config_LowRiskOverCommitmentArgs_To_v1_LowRiskOverCommitmentArgs ∧
  v1_roundtrip complete_v1_NodeResourceTopologyMatchArgs
    Convert_v1_NodeResourceTopologyMatchArgs_To_config_NodeResourceTopologyMatchArgs
    Convert_config_NodeResourceTopologyMatchArgs_To_v1_NodeResourceTopologyMatchArgs ∧
  v1_roundtrip complete_v1_PreemptionTolerationArgs
    Convert_v1_PreemptionTolerationArgs_To_config_PreemptionTolerationArgs
    Convert_config_PreemptionTolerationArgs_To_v1_PreemptionTolerationArgs ∧
  v1_roundtrip (λ _, True)
    Convert_v1_TopologicalSortArgs_To_config_TopologicalSortArgs
    Convert_config_TopologicalSortArgs_To_v1_TopologicalSortArgs ∧
  v1_roundtrip complete_v1_NetworkOverheadArgs
    Convert_v1_NetworkOverheadArgs_To_config_NetworkOverheadArgs
    Convert_config_NetworkOverheadArgs_To_v1_NetworkOverheadArgs ∧
  v1_roundtrip complete_v1_SySchedArgs
    Convert_v1_SySchedArgs_To_config_SySchedArgs
    Convert_config_SySchedArgs_To_v1_SySchedArgs ∧
  v1_roundtrip (λ _, True)
    Convert_v1_PeaksArgs_To_config_PeaksArgs
    Convert_config_PeaksArgs_To_v1_PeaksArgs.
Proof.
  split_and!;
  [ apply PowerModel_config_roundtrip
  | apply ScoringStrategy_config_roundtrip
  | apply NodeResourceTopologyCache_config_roundtrip
  | apply MetricProviderSpec_config_roundtrip
  | apply TrimaranSpec_config_roundtrip
  | apply CoschedulingArgs_config_roundtrip
  | apply NodeResourcesAllocatableArgs_config_roundtrip
  | apply TargetLoadPackingArgs_config_roundtrip
  | apply LoadVariationRiskBalancingArgs_config_roundtrip
  | apply LowRiskOverCommitmentArgs_config_roundtrip
  | apply NodeResourceTopologyMatchArgs_config_roundtrip
  | apply PreemptionTolerationArgs_config_roundtrip
  | apply TopologicalSortArgs_config_roundtrip
  | apply NetworkOverheadArgs_config_roundtrip
  | apply SySchedArgs_config_roundtrip
  | apply PeaksArgs_config_roundtrip
  | apply PowerModel_v1_roundtrip
  | apply ScoringStrategy_v1_roundtrip
  | apply NodeResourceTopologyCache_v1_roundtrip
  | apply MetricProviderSpec_v1_roundtrip
  | apply TrimaranSpec_v1_roundtrip
  | apply CoschedulingArgs_v1_roundtrip
  | apply NodeResourcesAllocatableArgs_v1_roundtrip
  | apply TargetLoadPackingArgs_v1_roundtrip
  | apply LoadVariationRiskBalancingArgs_v1_roundtrip
  | apply LowRiskOverCommitmentArgs_v1_roundtrip
  | apply NodeResourceTopologyMatchArgs_v1_roundtrip
  | apply PreemptionTolerationArgs_v1_roundtrip
  | apply TopologicalSortArgs_v1_roundtrip
  | apply NetworkOverheadArgs_v1_roundtrip
  | apply SySchedArgs_v1_roundtrip
  | apply PeaksArgs_v1_roundtrip ].
Qed.

(** The v1 object [Convert_config_NodeResourceTopologyMatchArgs_To_v1] gives points
    into the configuration it was made from: what is written to its strategy, the
    configuration has too. *)
Lemma strategy_is_shared c out (m m' m2 : memory) x strategy s :
  Convert_config_NodeResourceTopologyMatchArgs_To_v1_NodeResourceTopologyMatchArgs c out m = Some (x, m') →
  store (nm_ScoringStrategy x) strategy m' = Some ((), m2) → abs m2 strategy = Some s →
  abs m2 (cnm_ScoringStrategy c) = Some (s : here (ScoringStrategy option)).
Proof.
  intros Hconv Hstore Hs.
  assert (nm_ScoringStrategy x = address_of (cnm_ScoringStrategy c)) as Hx.
  { unfold Convert_config_NodeResourceTopologyMatchArgs_To_v1_NodeResourceTopologyMatchArgs,
      autoConvert_config_NodeResourceTopologyMatchArgs_To_v1_NodeResourceTopologyMatchArgs in Hconv.
    unfold mbind, M_bind in Hconv. destruct (Convert_int64_To_Pointer_int64 _ m) as [[p m1]|]; [|done].
    by injection Hconv as <- <-. }
  rewrite Hx in Hstore. destruct (cnm_ScoringStrategy c) as [l]. simpl in Hstore.
  destruct (m' !! l); [|done]. injection Hstore as <-.
  change (abs_box (<[l := inj strategy]> m') (BoxAt l) = Some s).
  unfold abs_box. rewrite lookup_insert_eq. simpl. exact Hs.
Qed.

(** Without a strategy (no defaults set) the other conversion panics. *)
Lemma nil_strategy_panics x out (m : memory) v :
  nm_ScoringStrategy x = Nil → abs m (nm_CacheResyncPeriodSeconds x) = Some v →
  Convert_v1_NodeResourceTopologyMatchArgs_To_config_NodeResourceTopologyMatchArgs x out m = None.
Proof.
  intros Hx Hv. unfold Convert_v1_NodeResourceTopologyMatchArgs_To_config_NodeResourceTopologyMatchArgs,
    autoConvert_v1_NodeResourceTopologyMatchArgs_To_config_NodeResourceTopologyMatchArgs, mbind, M_bind.
  rewrite (reads_int64 _ _ _ Hv). unfold mret, M_ret. by rewrite Hx.
Qed.
End Roundtrips.
End Conversion.

(** ** Witnesses *)

Definition w_read {A} `{Stores cell A} (zero : A) (p : ref A) : M cell A := λ m,
  match p with Nil => Some (zero, m) | At _ => load p m end.

#[export] Instance w_conversions : ConversionOps := {|
  Convert_Pointer_int64_To_int64 := w_read 0%Z; Convert_int64_To_Pointer_int64 := alloc;
  Convert_Pointer_int32_To_int32 := w_read 0%Z; Convert_int32_To_Pointer_int32 := alloc;
  Convert_Pointer_float64_To_float64 := w_read 0%Q; Convert_float64_To_Pointer_float64 := alloc;
  Convert_Pointer_string_To_string := w_read ""; Convert_string_To_Pointer_string := alloc;
  Convert_Pointer_bool_To_bool := w_read false; Convert_bool_To_Pointer_bool := alloc;
|}.

Lemma w_reads {A} `{Stores cell A} `{Plain A} (zero : A) : reads zero (w_read zero).
Proof.
  intros m [|l] v; [by intros [= <-]|]. intros (a & Ha & Hv)%bind_Some.
  apply bind_Some in Hv as (b & [= <-] & [= <-]). simpl. by rewrite Ha.
Qed.

Lemma w_points {A} `{Stores cell A} `{Plain A} : points (alloc (A := A)).
Proof.
  intros m a. apply wp_alloc. intros l Hl. split; [by apply insert_subseteq|].
  apply (value_ref _ l a a); [rewrite lookup_insert_eq; simpl; apply prj_inj|done].
Qed.

#[export] Instance w_conversion_spec : ConversionSpec.
Proof. split; (apply w_reads || apply w_points). Qed.

(** A configuration whose strategy is in cell 2 and its resources in cell 1. *)
Definition w_config : config_NodeResourceTopologyMatchArgs ref box := {|
  cnm_TypeMeta := mkTypeMeta "NodeResourceTopologyMatchArgs" "v1"; cnm_ScoringStrategy := BoxAt 2;
  cnm_CacheResyncPeriodSeconds := 5; cnm_DiscardReservedNodes := false; cnm_Cache := Nil |}.

Definition w_config_memory : gmap loc cell :=
  <[1%positive := C_ResourceSpecs [mkResourceSpec "cpu" 1]]>
    {[2%positive := C_ScoringStrategy {| ss_Type := "LeastAllocated"; ss_Resources := At 1 |}]}.

Definition config_view (v : config_NodeResourceTopologyMatchArgs option here) :
    string * option (list ResourceSpec) * Z :=
  let strategy : ScoringStrategy option := cnm_ScoringStrategy v in
  (ss_Type strategy, ss_Resources strategy, cnm_CacheResyncPeriodSeconds v).

Lemma conversions_roundtrip_witness :
  ∃ c' m', (x ← Convert_config_NodeResourceTopologyMatchArgs_To_v1_NodeResourceTopologyMatchArgs w_config
              {| nm_TypeMeta := mkTypeMeta "" ""; nm_ScoringStrategy := Nil; nm_CacheResyncPeriodSeconds := Nil;
                 nm_DiscardReservedNodes := false; nm_Cache := Nil |};
            Convert_v1_NodeResourceTopologyMatchArgs_To_config_NodeResourceTopologyMatchArgs x w_config) w_config_memory
           = Some (c', m') ∧
    config_view <$> abs m' c' = Some ("LeastAllocated", Some [mkResourceSpec "cpu" 1], 5).
Proof.
  assert (config_view <$> abs w_config_memory w_config = Some ("LeastAllocated", Some [mkResourceSpec "cpu" 1], 5)) as Hview
    by (vm_compute; reflexivity).
  apply fmap_Some in Hview as (v & Habs & Hview).
  assert (config_roundtrip Convert_config_NodeResourceTopologyMatchArgs_To_v1_NodeResourceTopologyMatchArgs
    Convert_v1_NodeResourceTopologyMatchArgs_To_config_NodeResourceTopologyMatchArgs) as Hround.
  { pose proof conversions_roundtrip as Hc. repeat match goal with H : _ ∧ _ |- _ => destruct H end. assumption. }
  specialize (Hround w_config_memory w_config v {| nm_TypeMeta := mkTypeMeta "" ""; nm_ScoringStrategy := Nil;
    nm_CacheResyncPeriodSeconds := Nil; nm_DiscardReservedNodes := false; nm_Cache := Nil |} Habs).
  unfold wp in Hround.
  match goal with |- context [?f w_config_memory = _] => destruct (f w_config_memory) as [[c' m']|] end; [|contradiction].
  exists c', m'. split; [reflexivity|]. rewrite (proj2 Hround). simpl. by rewrite Hview.
Defined.
